(* ===== verification/_CoqProject ===== *)
-Q . S2P
Prelude.v
CMonad.v
CString.v
Getopt.v
ArgParse.v
OptionExamples.v
OneOperand.v
OptionPrograms.v
NetworkPrograms.v
NumberPrograms.v
Words.v
PipeIO.v
PipeProtocol.v
PipeRefinement.v
ShmProtocol.v
CondVar.v
Mutex.v
TryLock.v
Broadcast.v
Semaphores.v
TimedWait.v
Threads.v
Servers.v
PollServer.v
SelectServer.v
LineWords.v
Sockets.v
NetMains.v
DomainSocket.v
Multiplex.v
Snprintf.v
Reports.v
Resolver.v
FileSystem.v
Files.v
Identity.v
SystemInfo.v
Strings.v
Values.v
Objects.v
IpcPrograms.v
ShmRefinement.v
ThreadMains.v
Calculations.v
Streams.v
Terminal.v
MainPrograms.v
