(* ===== verification/Prelude.v ===== *)
(** * c-examples: a verification library

    The repository (src/) is a collection of about 160 small C programs, one
    directory per POSIX facility, each a [main.c] with its own copy of a few
    common functions.  This library models the programs that have logic of
    their own and proves what they promise; a program that makes one library
    call and prints the result is modelled up to the call.

    ** The programs and how they interact

    A program has up to four layers, and so has the library.

    - The command line.  [parse_arguments] runs [getopt] and counts the
      operands; [handle_arguments] checks what is required and converts it with
      [parse_in_port_t], [parse_uid_t], ... on top of [strtol] and its kin;
      [usage] ends the process.  Every program has its own copies, with its own
      texts, option letters and limits.
    - Calls.  Most programs then make a few calls of the system or of the C
      library, check what they return, print it and release what they hold.
    - Words.  Several programs split a text into words and carry them to another
      process or thread which prints them.  Children of src/pipe/simple,
      src/pipe/synchronized, src/pipe/reliable and src/domain-socket/socketpair
      read one character at a time and send frames, a length byte and the
      characters, through a descriptor; the clients of src/domain-socket and
      src/io-multiplexing read lines with fgets and cut them with strtok_r.
      src/shared-memory/mmap-munmap uses a mapping and two semaphores, and
      src/pthread-condition/pthread_cond_wait-pthread_cond_signal a heap
      pointer, a mutex and a condition variable.
    - Servers.  src/domain-socket has servers for one client at a time,
      src/io-multiplexing/poll and src/io-multiplexing/select accept any number
      of clients over a domain socket; src/networking-functions, src/tcp, src/udp
      and src/sockets use addresses and ports of the command line.
    - Threads and semaphores.  src/pthread-mutex increments a counter from ten
      threads, waiting for the mutex or not; src/pthread-condition wakes one
      thread, all of them, or none in time; src/pthread creates and joins
      threads; src/semaphores has two processes take turns.

    ** Files

    Foundations:
    - [Prelude] (this file): notations, limits of the C types, wrap-around of
      machine integers ([to_signed], [to_unsigned]), lemmas on strings and
      lists.
    - [CMonad]: a C function is a value of [C W A], a state transformer over
      [errno], the trace of outputs and system calls, and a world [W]; it ends in
      [Val], [Exit], [Undef] (undefined behaviour: an index outside an array,
      a signed overflow) or [NoFuel].  System calls belong to a type class
      [Kernel W]: the operating system is a parameter of every program.  [wp] is
      the total specification (returns or exits; no undefined behaviour, no
      exhausted fuel), [wlp] the one that allows waiting for ever, [prints] the
      one of programs that only write; [fueled] says that a run ends.
    - [CString]: the functions of the C library the sources call, by the
      standard's text: [strtol], [strtoul], [snprintf] on the formats used,
      [strchr], [strstr], [strncpy], [strcmp], [strtok_r].
    - [Getopt]: [getopt] with its static state, and [while_getopt_scan], which
      shows that the loop every program runs computes [scan_args], the
      declarative reading of a command line.
    - [ArgParse]: the shared shape of [usage], [parse_arguments] and the number
      parsers, each with its behaviour on every input; [program] is the record
      of a start-up with its option letters, its usage, what it promises of its
      result and command lines it accepts; [well_behaved] is the promise, by the
      judgement [starts], and [front] the part of it the [main]s need.

    Command lines:
    - [OneOperand], [OptionPrograms], [NetworkPrograms], [NumberPrograms]: one
      Module per program with its functions, and one theorem per family of
      programs.  In a Module [a_b] are the functions of src/a/b/main.c.
    - [OptionExamples]: the two programs of src/command-line-arguments, which show
      what getopt and getopt_long made of their command line.

    Words and servers:
    - [Words]: the splitting loop of the four children and the reference
      [words]; [child_words_deliver] equates them on every text.
    - [PipeIO]: [send_word], [write_fully], [read_fully], [child_process] and
      [parent_process] of the three pipe programs and of socketpair, a Module
      each.  The class [WordSender] is what a [send_word] promises to the child's
      loop; the classes [WriteProgress], [WriteAll] and [ByteSource] are what a
      kernel promises about a descriptor.
    - [PipeProtocol], [ShmProtocol], [CondVar], [Mutex], [TryLock], [Broadcast],
      [Semaphores], [TimedWait], [Threads]: the two processes or the threads of a
      program running together, as a step relation; a step is one access to what
      they share.  [TryLock] is a simulation of [Mutex]; [TimedWait] has a clock;
      [Threads] is one machine for the four programs of src/pthread, whose threads
      are lists of instructions.
    - [IpcPrograms], [ThreadMains]: [main] of the programs whose processes or threads
      these are, with the calls it makes (pipe, fork, sem_open, mmap,
      pthread_create) and what it does when they fail.
    - [PipeRefinement], [ShmRefinement]: the functions of pipe/reliable and of the
      shared-memory programs as parts of [PipeProtocol] and [ShmProtocol].
    - [Servers], [PollServer], [SelectServer]: the functions the two servers
      share, and every function of each; the arrays are lists of their allocated
      length and every access is checked against it.
    - [LineWords]: fgets and strtok_r loops, against the words of the file.
    - [Sockets], [NetMains]: the functions the networking programs have in common
      and their [main]s; [DomainSocket]: the clients and servers of
      src/domain-socket and the client of src/io-multiplexing, and one of each
      running together.

    The other programs, a Module each, every function from [main] on:
    - [Reports]: structures filled in by calls, and the judgement [reports]: a
      program succeeds exactly when none of the calls it checks failed, and else
      reports the failure and fails.  Also the account of resources: [balances]
      says that a program gives back what it held and got, up to a [Ledger]
      relation; [closes] is the strict form.
    - [FileSystem] (src/file-system), [Files] (src/files), [Identity] (src/users,
      src/groups, src/process, src/process-groups, src/sleep), [SystemInfo]
      (src/system-information, src/time, src/logging, src/random-numbers),
      [Strings] (src/strings, src/string-processing, src/path-manipulation),
      [Snprintf] (src/string-processing/snprintf), [Values]
      (src/number-conversion, src/sorting-searching, src/character-types,
      src/memory, src/endianness, src/error-handling), [Streams] (src/streams,
      src/shell), [Terminal] (src/terminal), [Resolver] (src/network-address,
      src/network-interface), [Objects] (src/dynamic-libraries,
      src/file-tree-walking, src/shared-memory/shm_open-shm_unlink,
      src/semaphores/sem_open-sem_close-sem_unlink), [Calculations] (the three
      programs of src/process that measure time).
    - [MainPrograms]: those that check their calls, together.

    ** What the theorems show

    - Command lines ([option_programs_well_behaved], [network_programs_well_behaved],
      [programs_take_one_operand], [number_programs_exact],
      [speed_programs_take_codes]): for every argument vector each program either
      exits with [EXIT_FAILURE] after a diagnostic, or with [EXIT_SUCCESS] after
      exactly its help text when -h was given, or goes on, having written nothing,
      with values that were given on the command line, denote numbers of the type
      and are within its range; and there are vectors with which it goes on.  For the programs of one operand and of one number the
      characterisation is an equivalence; [option_examples_answer] gives the whole
      answer of the two examples.
    - Delivery over a pipe ([reliable_end_to_end], [reliable_terminates] and the
      theorems of [PipeIO] and [PipeProtocol]): the child of pipe/reliable writes
      the encoding of the words of its file however the kernel cuts its writes,
      the parent prints the words a stream encodes however its reads are cut, and
      both running together terminate with all words delivered, at most one of
      them ahead.  Beside a partner that keeps to the protocol the code of either
      process takes steps of the protocol only and ends, before its last position
      only at a call that failed or a word that is too long
      ([reliable_child_keeps_protocol], [reliable_parent_keeps_protocol]).
      pipe/simple and pipe/synchronized need transfers to be
      complete; the semaphores of the latter do not synchronise.  Words of 255
      characters write past the buffer.
    - Delivery over a socket ([lines_give_words], [domain_socket_end_to_end],
      [domain_clients_send_words]): the words of a line-oriented client, what its
      server prints, and when a word is cut in two.
    - Words through shared memory ([shm_in_order], [shm_server_keeps_protocol],
      [shm_client_keeps_protocol], [shm_one_is_left_waiting]): the order of the words,
      that the mapping is never used by both processes at once, that the loops of the
      two programs take the steps of the protocol and never wait in vain, and that
      after them one of the two waits for ever.
    - Threads ([cond_no_deadlock], [mutex_counts_all], [trylock_counts_successes],
      [broadcast_reaches_all],
      [semaphore_programs_end], [timedwait_ends], [thread_programs_join] and their
      neighbours): order of delivery and absence of deadlock, the outcome of the
      counter with and without waiting, that a thread waiting for a value returns
      after it has seen the last one, when a timed wait reports the signal and when
      the timeout, that joined threads have written their lines; and the runs in which the programs lose a
      word, an update, a signal or a process.
    - What processes give back ([ipc_programs_give_back]): both ends of the pipe, the
      file, the mapping, the semaphores, in the child as in the parent.
    - Servers and networking programs ([poll_server_closes_everything],
      [select_server_closes_everything], [domain_servers_close_everything],
      [network_mains_use_their_address]): for every behaviour of the clients and
      the kernel no out-of-bounds access happens and [main] has closed each
      descriptor exactly once when it returns; what a pass does to the tables;
      addresses are those of the command line.
    - Many clients ([multiplexing_servers_deliver], [multiplexing_end_to_end]): both
      servers print, for each session, the words whose frames have arrived in it,
      whatever the other sessions do; with the client of the directory at the other
      end, the words of its file.
    - Programs that check their calls ([programs_report_failures],
      [descriptor_programs_close], [address_programs_release],
      [terminal_is_given_back]): from the command line to exit, for every kernel;
      getnameinfo, which ends at an address it cannot name, keeps its list then.
    - Answers ([string_programs_answer], [strncpy_needs_room], [calculation_exact],
      [integers_round_trip], [integer_conversions_exact],
      [sorting_programs_correct], [echo_programs_copy], [seek_programs_show],
      [newline_needs_zero_bytes], [getsockname_shows_zeros]): what is printed, for
      every input, right or not; of the sums that are measured, also when they
      overflow.

    ** Hypotheses

    Theorems about system calls hold for every kernel unless a class restricts
    it: [WriteProgress] (a write takes at least one byte of a non-empty request or
    fails), [WriteAll] and [WriteComplete] (it takes all), [ByteSource] (reads
    return the bytes of a stream in order, at least one unless at the end),
    [FullSource] (reads return what was asked for), [InputStream] (standard input
    as fgetc, fgets, fread and feof show it), [SeekableFile] (a file at a position),
    [inet_lengths] (inet_pton stores 4 or 16 bytes), [accept_positive] (accept
    returns a descriptor that is neither 0 nor negative, or -1), [prompt_reads] (a
    client whose descriptor is ready does not stop sending in the middle of a
    word, used for termination of a pass only), [AddressLaws] (the lists of the
    resolver hold whole addresses of their family, and a socket connects only to its
    own), [RandomBelow] (arc4random_uniform keeps its bound), [ClockValues]
    (clock and times give numbers below [LONG_MAX]), [LongLaws]
    (getopt_long returns options of its table and rearranges the vector),
    [honest_reads] (read gives as many bytes as it says and was asked for),
    [BesideParent] and [BesideChild] (a call of one process of pipe/reliable comes
    after steps of the other and acts on the pipe and the semaphores).  The
    classes [Structs], [ErrorTexts], [Termios], [Walks], [AddressLists] and
    [LongOptions] carry no law: they are the layout of structures, the texts of
    errors and the results of functions of the library.  What an uninitialised object holds is an argument
    ([junk]), over which the theorems quantify.  Each theorem has a witness in
    which the kernel is a concrete one.  Argument vectors and strings are finite
    and hold no NUL; sizes are those of Linux on a 64-bit machine.

    ** Fuel

    [write_fully] runs with one more turn than bytes to write, each turn writes
    one at least; [read_fully] and the parents take their fuel as an argument and
    the theorems name an amount that is enough for the stream; [getopt_fuel] is
    a bound on the characters of the command line; the programs that echo or show
    a stream need one or two turns more than it has bytes.  The main loops of the
    servers run until a signal arrives, so their fuel is arbitrary and they are
    specified with [wlp]; one pass of them is proved to end.

    ** Not modelled

    [printf] to a terminal that fails, signal handlers other than as a flag that
    may change between statements, and what a library call of a demonstration
    program returns.  The step relations start when the processes or threads exist
    and their calls do not fail; failures are in [IpcPrograms] and [ThreadMains],
    where the other process or thread is part of the kernel.  The two views are
    connected for pipe/reliable, in [PipeRefinement], and for the shared memory, in
    [ShmRefinement]; for the threads the steps are read off the functions.  A forked
    process is a run of its own in which [fork] returned 0.  Type definitions and
    prototypes, the pragmas and the system-dependent branches of other systems have
    no counterpart. *)

From stdpp Require Export base list list_numbers strings option.
From Stdlib Require Export ZArith Ascii Bool Lia.

Open Scope Z_scope.

(** ** Notations of the development *)

Declare Scope c_scope.
Delimit Scope c_scope with c.

(** A C string pointer: [None] is [NULL].  The [string] itself stands for the
    characters before the terminating NUL. *)
Abbreviation cstr := (option string).

(** A raw byte ([char], [uint8_t]). *)
Abbreviation byte := ascii.

(** [snprintf]-style escapes that a Rocq string literal cannot hold. *)
Definition nl : string := String "010"%char EmptyString.
Definition tab : string := String "009"%char EmptyString.
Definition dq : string := String "034"%char EmptyString.
Definition NUL : ascii := "000"%char.

(** A line of output: the text and its newline. *)
Definition ln (s : string) : string := s +:+ nl.

(** [c1 == c2] on characters, as a boolean test of the code. *)
Infix "=?c" := Ascii.eqb (at level 70, no associativity) : c_scope.

(** ** Limits of the C types (LP64: [int] 32 bits, [long] and [size_t] 64) *)

Definition CHAR_BIT : Z := 8.
Definition UINT8_MAX : Z := 255.
Definition UINT16_MAX : Z := 65535.
Definition INT_MIN : Z := -2147483648.
Definition INT_MAX : Z := 2147483647.
Definition UINT_MAX : Z := 4294967295.
Definition LONG_MIN : Z := -9223372036854775808.
Definition LONG_MAX : Z := 9223372036854775807.
Definition ULONG_MAX : Z := 18446744073709551615.
Definition INTMAX_MIN : Z := LONG_MIN.
Definition INTMAX_MAX : Z := LONG_MAX.
Definition UINTMAX_MAX : Z := ULONG_MAX.
Definition SIZE_MAX : Z := ULONG_MAX.

(** Sizes of the POSIX integer types, in bytes (Linux on LP64). *)
Definition sizeof_uid_t : Z := 4.
Definition sizeof_gid_t : Z := 4.
Definition sizeof_off_t : Z := 8.
Definition sizeof_time_t : Z := 8.
Definition sizeof_rlim_t : Z := 8.

(** Constants of the system headers the sources name (Linux values). *)
Definition AF_UNIX : Z := 1.
Definition AF_INET : Z := 2.
Definition AF_INET6 : Z := 10.
Definition SOCK_STREAM : Z := 1.
Definition SOCK_DGRAM : Z := 2.
Definition SOCK_RAW : Z := 3.
Definition SOCK_SEQPACKET : Z := 5.
Definition RLIM_INFINITY : Z := ULONG_MAX.

(** The values of an integer type. *)
Definition within (min max v : Z) : Prop := min <= v <= max.

(** Conversion to an unsigned type of [w] bits, and to a signed one
    (two's complement). *)
Definition to_unsigned (w z : Z) : Z := z mod 2 ^ w.
Definition to_signed (w z : Z) : Z :=
  (z + 2 ^ (w - 1)) mod 2 ^ w - 2 ^ (w - 1).

(** Exit statuses and the [errno] values the sources test (Linux numbering). *)
Definition EXIT_SUCCESS : Z := 0.
Definition EXIT_FAILURE : Z := 1.
Definition ENOENT : Z := 2.
Definition EINTR : Z := 4.
Definition EIO : Z := 5.
Definition EINVAL : Z := 22.
Definition ERANGE : Z := 34.

(** ** Tactics *)

(** Case analysis on every [match] and [if] of the goal or of a hypothesis. *)
Ltac case_all :=
  repeat first
    [ progress simplify_eq
    | case_match
    | match goal with H : context [bool_decide _] |- _ => case_bool_decide end ].

(** Turn the boolean comparisons of hypotheses into propositions. *)
Ltac bools :=
  repeat match goal with
  | H : (_ && _)%bool = true |- _ => apply andb_true_iff in H as [? ?]
  | H : (_ || _)%bool = false |- _ => apply orb_false_iff in H as [? ?]
  | H : negb _ = true |- _ => apply negb_true_iff in H
  | H : negb _ = false |- _ => apply negb_false_iff in H
  | H : (_ <? _)%Z = true |- _ => apply Z.ltb_lt in H
  | H : (_ <? _)%Z = false |- _ => apply Z.ltb_ge in H
  | H : (_ <=? _)%Z = true |- _ => apply Z.leb_le in H
  | H : (_ <=? _)%Z = false |- _ => apply Z.leb_gt in H
  | H : (_ =? _)%Z = true |- _ => apply Z.eqb_eq in H
  | H : (_ =? _)%Z = false |- _ => apply Z.eqb_neq in H
  | H : (_ <? _)%nat = true |- _ => apply Nat.ltb_lt in H
  | H : (_ <? _)%nat = false |- _ => apply Nat.ltb_ge in H
  | H : (_ <=? _)%nat = true |- _ => apply Nat.leb_le in H
  | H : (_ <=? _)%nat = false |- _ => apply Nat.leb_gt in H
  | H : (_ =? _)%nat = true |- _ => apply Nat.eqb_eq in H
  | H : (_ =? _)%nat = false |- _ => apply Nat.eqb_neq in H
  | H : (_ =?c _)%c = true |- _ => apply Ascii.eqb_eq in H
  | H : (_ =?c _)%c = false |- _ => apply Ascii.eqb_neq in H
  end.

(** Close an arithmetic goal over the C limits. *)
Ltac climits :=
  unfold UINT8_MAX, UINT16_MAX, INT_MIN, INT_MAX, UINT_MAX, INTMAX_MIN,
    INTMAX_MAX, UINTMAX_MAX, SIZE_MAX, LONG_MIN, LONG_MAX, ULONG_MAX in *; lia.

(** ** Integers *)

Create HintDb cint.

Lemma to_unsigned_small (w z : Z) : 0 <= z < 2 ^ w -> to_unsigned w z = z.
Proof. intros ?. unfold to_unsigned. by apply Z.mod_small. Qed.

Lemma to_unsigned_range (w z : Z) : 0 <= w -> 0 <= to_unsigned w z < 2 ^ w.
Proof. intros ?. apply Z.mod_pos_bound, Z.pow_pos_nonneg; lia. Qed.

Lemma to_signed_small (w z : Z) :
  0 < w -> - 2 ^ (w - 1) <= z < 2 ^ (w - 1) -> to_signed w z = z.
Proof.
  intros ? ?. unfold to_signed.
  assert (2 ^ w = 2 * 2 ^ (w - 1)) as E.
  { rewrite <- Z.pow_succ_r by lia. f_equal. lia. }
  rewrite Z.mod_small; lia.
Qed.

#[export] Hint Resolve to_unsigned_small to_unsigned_range to_signed_small : cint.

(** ** Characters and strings *)

(** stdpp blocks the simplification of [+:+]; the scanners below need it. *)
#[global] Arguments String.append !_ _ /.

(** An element of an updated list. *)
Lemma insert_cases {A} (l : list A) (i j : nat) x y :
  <[i := x]> l !! j = Some y -> (j = i /\ y = x) \/ (j <> i /\ l !! j = Some y).
Proof.
  intros Hj. destruct (decide (j = i)) as [->|Hn].
  - left. assert (i < length l)%nat as Hl
      by (apply lookup_lt_Some in Hj; by rewrite length_insert in Hj).
    rewrite list_lookup_insert_eq in Hj by done. by simplify_eq.
  - right. by rewrite list_lookup_insert_ne in Hj by done.
Qed.

(** Counting one further. *)
Lemma seqZ_snoc (d : nat) : seqZ 1 (Z.of_nat d + 1) = seqZ 1 (Z.of_nat d) ++ [Z.of_nat d + 1].
Proof.
  rewrite seqZ_app by lia. f_equal. by replace (1 + Z.of_nat d) with (Z.of_nat d + 1) by lia.
Qed.

Lemma string_app_nil_r (s : string) : s +:+ "" = s.
Proof. induction s as [|c s IH]; simpl; [done | by rewrite IH]. Qed.

Lemma string_app_assoc (s1 s2 s3 : string) :
  s1 +:+ s2 +:+ s3 = (s1 +:+ s2) +:+ s3.
Proof. induction s1 as [|c s1 IH]; simpl; [done | by rewrite IH]. Qed.

Lemma string_length_app (s1 s2 : string) :
  String.length (s1 +:+ s2) = (String.length s1 + String.length s2)%nat.
Proof. induction s1 as [|c s1 IH]; simpl; [done | by rewrite IH]. Qed.

(** The value of a byte as a number and back. *)
Definition byte_val (b : byte) : Z := Z.of_N (N_of_ascii b).
Definition byte_of (z : Z) : byte := ascii_of_N (Z.to_N (to_unsigned 8 z)).

Lemma byte_val_range (b : byte) : 0 <= byte_val b < 256.
Proof. unfold byte_val. pose proof (N_ascii_bounded b). lia. Qed.

Lemma byte_val_of (z : Z) : byte_val (byte_of z) = to_unsigned 8 z.
Proof.
  unfold byte_val, byte_of.
  pose proof (to_unsigned_range 8 z ltac:(lia)) as H.
  rewrite N_ascii_embedding; [lia|].
  change 256%N with (Z.to_N 256). apply Z2N.inj_lt; [lia..|].
  change (2 ^ 8) with 256 in H. lia.
Qed.

Lemma byte_of_val (b : byte) : byte_of (byte_val b) = b.
Proof.
  unfold byte_of. rewrite to_unsigned_small by apply byte_val_range.
  unfold byte_val. rewrite N2Z.id. apply ascii_N_embedding.
Qed.

Create Rewrite HintDb cint_rw.
#[export] Hint Rewrite byte_val_of byte_of_val : cint_rw.

(** ** Lists *)

Lemma lookup_snoc {A} (l : list A) x : (l ++ [x]) !! length l = Some x.
Proof. by rewrite lookup_app_r, Nat.sub_diag by done. Qed.

Lemma take_snoc_lookup {A} (l : list A) i x :
  l !! i = Some x -> take (S i) l = take i l ++ [x].
Proof. apply take_S_r. Qed.

Lemma list_sum_app (l1 l2 : list nat) :
  list_sum (l1 ++ l2) = (list_sum l1 + list_sum l2)%nat.
Proof. apply list_sum_app. Qed.

(** ** Transition systems

    Runs of a step relation, used by the models of cooperating processes and
    threads. *)
Section Runs.
Context {S : Type} (step : S -> S -> Prop).

Inductive run : S -> S -> Prop :=
| run_refl s : run s s
| run_step s1 s2 s3 : step s1 s2 -> run s2 s3 -> run s1 s3.

(** [n] steps. *)
Inductive nrun : nat -> S -> S -> Prop :=
| nrun_0 s : nrun 0 s s
| nrun_S n s1 s2 s3 : step s1 s2 -> nrun n s2 s3 -> nrun (Datatypes.S n) s1 s3.

Definition stuck (s : S) : Prop := forall s', ~ step s s'.

Lemma run_trans s1 s2 s3 : run s1 s2 -> run s2 s3 -> run s1 s3.
Proof. induction 1; eauto using run. Qed.

Lemma run_one s1 s2 : step s1 s2 -> run s1 s2.
Proof. eauto using run. Qed.

Lemma run_snoc s1 s2 s3 : run s1 s2 -> step s2 s3 -> run s1 s3.
Proof. eauto using run_trans, run_one. Qed.

Lemma nrun_run n s1 s2 : nrun n s1 s2 -> run s1 s2.
Proof. induction 1; eauto using run. Qed.

(** An invariant that holds initially and is kept by every step holds in
    every reachable state. *)
Lemma run_invariant (I : S -> Prop) s1 s2 :
  (forall s s', I s -> step s s' -> I s') -> I s1 -> run s1 s2 -> I s2.
Proof. intros Hstep Hi Hr. induction Hr; eauto. Qed.

(** A measure that every step from an invariant state decreases bounds the
    length of every run. *)
Lemma nrun_bounded (I : S -> Prop) (m : S -> nat) n s1 s2 :
  (forall s s', I s -> step s s' -> I s' /\ (m s' < m s)%nat) ->
  I s1 -> nrun n s1 s2 -> (n + m s2 <= m s1)%nat.
Proof.
  intros Hstep Hi Hr. induction Hr as [|k a b c Hab Hr IH]; [lia|].
  destruct (Hstep _ _ Hi Hab) as [? ?]. specialize (IH ltac:(done)). lia.
Qed.
End Runs.

#[export] Hint Constructors run : core.
Create HintDb runs.
#[export] Hint Resolve run_trans run_one run_snoc : runs.
