(* ===== verification/CMonad.v ===== *)
(** * The effects of a C program

    A program of the repository is a function of type [C W A]: it reads and
    updates a state (the [errno] variable, the output and system calls made so
    far, the outside world [W]) and ends in one of four ways, the constructors
    of [outcome].  System calls are not defined here: the outside world is any
    type with a [Kernel] instance, and a theorem about a program that makes
    system calls holds for every kernel, or for those with the laws it names. *)

From S2P Require Import Prelude.

(** ** System calls *)

(** The calls the modelled programs make, with the arguments they pass.  POSIX
    makes [send] and [recv] without flags the same as [write] and [read] on a
    socket, so they have no constructors of their own. *)
Inductive syscall :=
| SRead (fd : Z) (count : nat)
| SWrite (fd : Z) (data : list byte)
| SOpen (path : string) (flags : Z)
| SClose (fd : Z)
| SDup (fd : Z)
| SDup2 (oldfd newfd : Z)
| SLseek (fd offset whence : Z)
| SFstat (fd : Z)
| SMkstemp (template : string)
| SUnlink (path : string)
| SSocket (domain type protocol : Z)
| SBind (fd : Z) (addr : list byte)
| SConnect (fd : Z) (addr : list byte)
| SListen (fd backlog : Z)
| SAccept (fd : Z)
| SShutdown (fd how : Z)
| SSendto (fd : Z) (data : list byte) (addr : list byte)
| SRecvfrom (fd : Z) (count : nat)
| SGetnameinfo (fd : Z)
| SSigaction (signum : Z)
| SSleep (seconds : Z)
| SNanosleep (sec nsec : Z)
| SSemPost (sem : string)
| SSemWait (sem : string)
| SFopen (path mode : string)
| SFclose (file : Z)
| SFflush (file : Z)
| SPoll (fds : list (Z * Z))        (* fd and events; [r_data]: revents *)
| SSelect (nfds : Z) (fds : list Z)  (* the set; [r_data]: one flag each *)
| SInetPton (domain : Z) (text : string)          (* [r_data]: the address *)
| SInetNtop (domain : Z) (address : list byte)    (* [r_data]: the text *)
| SSetsockopt (fd level option value : Z)
| SGetsockopt (fd level option : Z)               (* [r_data]: the value *)
| SArc4random (bound : Z)                         (* arc4random_uniform *)
| SAlloc (bytes : Z)                 (* malloc, realloc *)
| SCall (name : string) (texts : list string) (numbers : list Z)
                                     (* any other call, with its arguments *)
| SExitFlag.                         (* reading the flag a handler sets *)

(** The name of the function a call is. *)
Definition call_name (c : syscall) : string :=
  match c with
  | SRead _ _ => "read" | SWrite _ _ => "write" | SOpen _ _ => "open"
  | SClose _ => "close" | SDup _ => "dup" | SDup2 _ _ => "dup2"
  | SLseek _ _ _ => "lseek" | SFstat _ => "fstat" | SMkstemp _ => "mkstemp"
  | SUnlink _ => "unlink" | SSocket _ _ _ => "socket" | SBind _ _ => "bind"
  | SConnect _ _ => "connect" | SListen _ _ => "listen" | SAccept _ => "accept"
  | SShutdown _ _ => "shutdown" | SSendto _ _ _ => "sendto"
  | SRecvfrom _ _ => "recvfrom" | SGetnameinfo _ => "getnameinfo"
  | SSigaction _ => "sigaction" | SSleep _ => "sleep" | SNanosleep _ _ => "nanosleep"
  | SSemPost _ => "sem_post" | SSemWait _ => "sem_wait" | SFopen _ _ => "fopen"
  | SFclose _ => "fclose" | SFflush _ => "fflush" | SPoll _ => "poll"
  | SSelect _ _ => "select" | SInetPton _ _ => "inet_pton"
  | SInetNtop _ _ => "inet_ntop" | SSetsockopt _ _ _ _ => "setsockopt"
  | SGetsockopt _ _ _ => "getsockopt" | SArc4random _ => "arc4random_uniform"
  | SAlloc _ => "malloc" | SCall name _ _ => name | SExitFlag => ""
  end.

(** What a call returns: its value, the bytes it stored through a pointer
    argument, and the [errno] it leaves when the value is [-1].  The NULL that
    [fopen], [malloc] and [realloc] return on failure is [-1] too. *)
Record sysret := SysRet { r_val : Z; r_data : list byte; r_err : Z }.

Definition sys_ok (v : Z) : sysret := SysRet v [] 0.
Definition sys_data (v : Z) (d : list byte) : sysret := SysRet v d 0.
Definition sys_fail (e : Z) : sysret := SysRet (-1) [] e.

(** An operating system with state [W]. *)
Class Kernel (W : Type) := kcall : syscall -> W -> sysret * W.

(** ** States, outcomes and the monad *)

(** What an observer of the process sees, in order. *)
Inductive event :=
| EOut (s : string)                   (* written to stdout *)
| EErr (s : string)                   (* written to stderr *)
| EPerror (msg : string) (err : Z)    (* perror(msg) with errno = err *)
| ESys (c : syscall) (r : sysret).

Record cstate (W : Type) := CState {
  errno : Z;
  trace : list event;
  world : W;
}.
Arguments CState {W} _ _ _.
Arguments errno {W} _.
Arguments trace {W} _.
Arguments world {W} _.

(** How a computation ends: a value, a call of [exit], undefined behaviour
    (what went wrong), or a loop that used up the steps it was given. *)
Inductive outcome (A : Type) :=
| Val (a : A)
| Exit (code : Z)
| Undef (why : string)
| NoFuel.
Arguments Val {A} _.
Arguments Exit {A} _.
Arguments Undef {A} _.
Arguments NoFuel {A}.

Definition C (W A : Type) : Type := cstate W -> outcome A * cstate W.

#[export] Instance C_ret {W} : MRet (C W) := fun A a s => (Val a, s).

#[export] Instance C_bind {W} : MBind (C W) := fun A B f m s =>
  match m s with
  | (Val a, s') => f a s'
  | (Exit c, s') => (Exit c, s')
  | (Undef w, s') => (Undef w, s')
  | (NoFuel, s') => (NoFuel, s')
  end.

(** ** Basic operations *)

Section Ops.
Context {W : Type}.

Definition emit (e : event) : C W unit := fun s =>
  (Val tt, CState (errno s) (trace s ++ [e]) (world s)).

(** [printf], [puts], [fputs(..., stdout)] of an already formatted text. *)
Definition out (text : string) : C W unit := emit (EOut text).

(** [fprintf(stderr, ...)] and [fputs(..., stderr)]. *)
Definition eout (text : string) : C W unit := emit (EErr text).

Definition get_errno : C W Z := fun s => (Val (errno s), s).
Definition set_errno (e : Z) : C W unit := fun s =>
  (Val tt, CState e (trace s) (world s)).

(** [perror(msg)]: the message and the text of the current [errno]. *)
Definition perror (msg : string) : C W unit :=
  e ← get_errno; emit (EPerror msg e).

(** [exit(code)] does not return, whatever type its caller expects. *)
Definition exit_ {A} (code : Z) : C W A := fun s => (Exit code, s).

Definition undef {A} (why : string) : C W A := fun s => (Undef why, s).
Definition no_fuel {A} : C W A := fun s => (NoFuel, s).

(** A system call: a result of [-1] sets [errno]. *)
Definition sys `{Kernel W} (c : syscall) : C W sysret := fun s =>
  let '(r, w) := kcall c (world s) in
  (Val r,
   CState (if r_val r =? -1 then r_err r else errno s)
          (trace s ++ [ESys c r]) w).

(** [a[i]] and [a[i] = x] on an array: outside its bounds the behaviour is
    undefined. *)
Definition array_get {A} (a : list A) (i : Z) : C W A :=
  if i <? 0 then undef "array index"
  else match a !! Z.to_nat i with
       | Some x => mret x
       | None => undef "array index"
       end.

Definition array_set {A} (a : list A) (i : Z) (x : A) : C W (list A) :=
  if (i <? 0) || (Z.of_nat (length a) <=? i) then undef "array index"
  else mret (<[Z.to_nat i := x]> a).

(** A loop: the body either goes on with a new state or leaves with a
    result ([break], [return]). *)
Fixpoint loop {S R} (fuel : nat) (body : S -> C W (S + R)) (s : S) : C W R :=
  match fuel with
  | O => no_fuel
  | Datatypes.S fuel =>
      r ← body s;
      match r with
      | inl s' => loop fuel body s'
      | inr v => mret v
      end
  end.

(** [for(i = 0; i < n; i++) body(i)], the state threaded through. *)
Fixpoint for_up {S} (n : nat) (i : nat) (body : nat -> S -> C W S) (s : S) :
    C W S :=
  match n with
  | O => mret s
  | Datatypes.S n => s' ← body i s; for_up n (Datatypes.S i) body s'
  end.

(** Each element of a list in order. *)
Fixpoint for_each {A} (l : list A) (body : A -> C W unit) : C W unit :=
  match l with
  | [] => mret tt
  | x :: l => body x;; for_each l body
  end.
End Ops.

(** A kernel that plays back a list of results, for concrete runs; past the
    end of the list every call fails with [EIO]. *)
Definition script : Type := list sysret.
#[export] Instance script_kernel : Kernel script := fun _ w =>
  match w with
  | [] => (sys_fail EIO, [])
  | r :: w' => (r, w')
  end.

(** The state in which a program starts. *)
Definition start {W} (w : W) : cstate W := CState 0 [] w.

(** The system calls of a trace, and its text on [stdout]. *)
Fixpoint calls (t : list event) : list (syscall * sysret) :=
  match t with
  | [] => []
  | ESys c r :: t => (c, r) :: calls t
  | _ :: t => calls t
  end.

Fixpoint stdout_of (t : list event) : string :=
  match t with
  | [] => ""
  | EOut s :: t => s +:+ stdout_of t
  | _ :: t => stdout_of t
  end.

(** ** Laws *)

Section Laws.
Context {W : Type}.
Implicit Types s : cstate W.

Lemma bind_val {A B} (m : C W A) (f : A -> C W B) s a s' :
  m s = (Val a, s') -> (m ≫= f) s = f a s'.
Proof. unfold mbind, C_bind. by intros ->. Qed.

(** A computation that returned a value went through its first half. *)
Lemma bind_inv_val {A B} (m : C W A) (f : A -> C W B) s b s' :
  (m ≫= f) s = (Val b, s') ->
  exists a s1, m s = (Val a, s1) /\ f a s1 = (Val b, s').
Proof.
  unfold mbind, C_bind. destruct (m s) as [[a|c|w|] s1]; intros E; simplify_eq.
  eauto.
Qed.

Lemma bind_assoc {A B D} (m : C W A) (f : A -> C W B) (g : B -> C W D) s :
  ((m ≫= f) ≫= g) s = (m ≫= (fun a => f a ≫= g)) s.
Proof. unfold mbind, C_bind. by destruct (m s) as [[a|c|w|] s1]. Qed.

Lemma bind_ret {A B} (a : A) (f : A -> C W B) s : (mret a ≫= f) s = f a s.
Proof. done. Qed.

(** Inside the bounds [array_get] gives the element. *)
Lemma array_get_ok {A} (l : list A) (i : nat) (x : A) (s : cstate W) :
  l !! i = Some x -> array_get l (Z.of_nat i) s = (Val x, s).
Proof.
  intros Hi. unfold array_get. rewrite (proj2 (Z.ltb_ge _ _)) by lia.
  by rewrite Nat2Z.id, Hi.
Qed.

(** A computation that does not run out of fuel. *)
Definition fueled {A} (m : C W A) : Prop := forall s, fst (m s) <> NoFuel.

Lemma fueled_ret {A} (a : A) : fueled (mret a : C W A).
Proof. done. Qed.

Lemma fueled_exit {A} code : fueled (exit_ code : C W A).
Proof. done. Qed.

Lemma fueled_emit e : fueled (emit e : C W unit).
Proof. done. Qed.

Lemma fueled_bind {A B} (m : C W A) (f : A -> C W B) :
  fueled m -> (forall a, fueled (f a)) -> fueled (m ≫= f).
Proof.
  intros Hm Hf s. specialize (Hm s). unfold mbind, C_bind.
  destruct (m s) as [[a|c|w|] s1]; simpl in *; try done. apply Hf.
Qed.

Lemma fueled_sys `{Kernel W} c : fueled (sys c : C W sysret).
Proof. intros s. unfold sys. by destruct (kcall _ _). Qed.

Lemma fueled_get_errno : fueled (get_errno : C W Z).
Proof. done. Qed.

Lemma fueled_set_errno e : fueled (set_errno e : C W unit).
Proof. done. Qed.

Lemma fueled_for_each {A} (l : list A) (body : A -> C W unit) :
  Forall (fun x => fueled (body x)) l -> fueled (for_each l body).
Proof. induction 1; [apply fueled_ret|by apply fueled_bind]. Qed.

Lemma fueled_array_get {A} (a : list A) i : fueled (array_get a i : C W A).
Proof. intros s. unfold array_get. by repeat case_match. Qed.

Lemma fueled_array_set {A} (a : list A) i x : fueled (array_set a i x : C W (list A)).
Proof. intros s. unfold array_set. by case_match. Qed.

(** More fuel does not change a loop that had enough. *)
Lemma loop_mono {S R} (body : S -> C W (S + R)) (n k : nat) (x : S) s :
  fst (loop n body x s) <> NoFuel ->
  loop (n + k) body x s = loop n body x s.
Proof.
  revert x s. induction n as [|n IH]; intros x s Hn; [done|].
  simpl in *. unfold mbind, C_bind in *.
  destruct (body x s) as [[[x'|r]|c|w|] s1]; auto.
Qed.
End Laws.

Lemma calls_app t1 t2 : calls (t1 ++ t2) = calls t1 ++ calls t2.
Proof. induction t1 as [|[] t1 IH]; simpl; by rewrite ?IH. Qed.

Lemma stdout_of_app t1 t2 : stdout_of (t1 ++ t2) = stdout_of t1 +:+ stdout_of t2.
Proof.
  induction t1 as [|[] t1 IH]; simpl; rewrite ?IH; [done| |done..].
  by rewrite string_app_assoc.
Qed.

(** ** Specifications

    [wp m Q E s]: run from [s], the computation [m] returns a value and a state
    that satisfy [Q], or exits with a status and a state that satisfy [E]; it
    does neither run out of fuel nor have undefined behaviour. *)
Section Wp.
Context {W : Type}.
Implicit Types s : cstate W.

Definition wp {A} (m : C W A) (Q : A -> cstate W -> Prop) (E : Z -> cstate W -> Prop)
    (s : cstate W) : Prop :=
  match m s with
  | (Val a, s') => Q a s'
  | (Exit c, s') => E c s'
  | _ => False
  end.

Lemma wp_ret {A} (a : A) (Q : A -> cstate W -> Prop) E s : Q a s -> wp (mret a) Q E s.
Proof. done. Qed.

Lemma wp_bind {A B} (m : C W A) (f : A -> C W B) Q E s :
  wp m (fun a s' => wp (f a) Q E s') E s -> wp (m ≫= f) Q E s.
Proof. unfold wp, mbind, C_bind. by destruct (m s) as [[a|c|u|] s']. Qed.

Lemma wp_mono {A} (m : C W A) (Q Q' : A -> cstate W -> Prop) (E E' : Z -> cstate W -> Prop) s :
  wp m Q E s -> (forall a s', Q a s' -> Q' a s') -> (forall c s', E c s' -> E' c s') ->
  wp m Q' E' s.
Proof. unfold wp. destruct (m s) as [[a|c|u|] s']; auto. Qed.

Lemma wp_exit {A} c (Q : A -> cstate W -> Prop) (E : Z -> cstate W -> Prop) s :
  E c s -> wp (exit_ c) Q E s.
Proof. done. Qed.

Lemma wp_emit e (Q : unit -> cstate W -> Prop) E s :
  Q tt (CState (errno s) (trace s ++ [e]) (world s)) -> wp (emit e) Q E s.
Proof. done. Qed.

Lemma wp_sys `{Kernel W} c (Q : sysret -> cstate W -> Prop) E s :
  (forall r w e, kcall c (world s) = (r, w) -> Q r (CState e (trace s ++ [ESys c r]) w)) ->
  wp (sys c) Q E s.
Proof. intros H0. unfold wp, sys. destruct (kcall c (world s)) as [r w] eqn:Ek. by apply H0. Qed.
End Wp.

(** [wlp m Q E s]: the same for computations that may wait for ever: running
    out of fuel is allowed, undefined behaviour is not. *)
Section Wlp.
Context {W : Type}.
Implicit Types s : cstate W.

Definition wlp {A} (m : C W A) (Q : A -> cstate W -> Prop) (E : Z -> cstate W -> Prop)
    (s : cstate W) : Prop :=
  match m s with
  | (Val a, s') => Q a s'
  | (Exit c, s') => E c s'
  | (Undef _, _) => False
  | (NoFuel, _) => True
  end.

Lemma wlp_bind {A B} (m : C W A) (f : A -> C W B) Q E s :
  wlp m (fun a s' => wlp (f a) Q E s') E s -> wlp (m ≫= f) Q E s.
Proof. unfold wlp, mbind, C_bind. by destruct (m s) as [[a|c|u|] s']. Qed.

Lemma wlp_mono {A} (m : C W A) (Q Q' : A -> cstate W -> Prop) (E E' : Z -> cstate W -> Prop) s :
  wlp m Q E s -> (forall a s', Q a s' -> Q' a s') -> (forall c s', E c s' -> E' c s') ->
  wlp m Q' E' s.
Proof. unfold wlp. destruct (m s) as [[a|c|u|] s']; auto. Qed.

Lemma wlp_ret {A} (a : A) (Q : A -> cstate W -> Prop) E s : Q a s -> wlp (mret a) Q E s.
Proof. done. Qed.

Lemma wlp_sys `{Kernel W} c (Q : sysret -> cstate W -> Prop) E s :
  (forall r w e, kcall c (world s) = (r, w) -> Q r (CState e (trace s ++ [ESys c r]) w)) ->
  wlp (sys c) Q E s.
Proof. intros H0. unfold wlp, sys. destruct (kcall c (world s)) as [r w] eqn:Ek. by apply H0. Qed.

(** What holds of a computation that may wait holds of one that does not. *)
Lemma wp_fueled {A} (m : C W A) (Q : A -> cstate W -> Prop) E s :
  wlp m Q E s -> fueled m -> wp m Q E s.
Proof. intros Hm Hf. specialize (Hf s). unfold wlp, wp in *. by destruct (m s) as [[a|c|u|] s']. Qed.

(** What a run that returned tells. *)
Lemma wp_run {A} (m : C W A) (Q : A -> cstate W -> Prop) E s a s' :
  wp m Q E s -> m s = (Val a, s') -> Q a s'.
Proof. unfold wp. intros H0 E0. by rewrite E0 in H0. Qed.

Lemma wlp_run {A} (m : C W A) (Q : A -> cstate W -> Prop) E s a s' :
  wlp m Q E s -> m s = (Val a, s') -> Q a s'.
Proof. unfold wlp. intros H0 E0. by rewrite E0 in H0. Qed.

Lemma wp_wlp {A} (m : C W A) (Q : A -> cstate W -> Prop) E s : wp m Q E s -> wlp m Q E s.
Proof. unfold wlp, wp. by destruct (m s) as [[a|c|u|] s']. Qed.

(** A loop keeps an invariant that its body keeps. *)
Lemma wlp_loop {S R} (body : S -> C W (S + R)) (I : S -> cstate W -> Prop)
    (Q : R -> cstate W -> Prop) E fuel x s :
  (forall x s, I x s -> wlp (body x)
     (fun r s' => match r with inl x' => I x' s' | inr v => Q v s' end) E s) ->
  I x s -> wlp (loop fuel body x) Q E s.
Proof.
  intros Hb. revert x s. induction fuel as [|fuel IH]; intros x s Hi; simpl; [done|].
  apply wlp_bind. eapply wlp_mono; [by apply Hb|..]; simpl; [|done].
  intros [x'|v] s' Hr; [by apply IH|by apply wlp_ret].
Qed.
End Wlp.

(** ** Programs that only print

    [prints m a texts]: [m] returns [a] and writes [texts] on stdout, whatever
    the state is. *)
Section Prints.
Context {W : Type}.

Definition prints {A} (m : C W A) (a : A) (texts : list string) : Prop :=
  forall s, m s = (Val a, CState (errno s) (trace s ++ (EOut <$> texts)) (world s)).

Lemma prints_ret {A} (a : A) : prints (mret a) a [].
Proof. intros s. simpl. rewrite app_nil_r. by destruct s. Qed.

Lemma prints_out (t : string) : prints (out t) tt [t].
Proof. by intros s. Qed.

Lemma prints_bind {A B} (m : C W A) (f : A -> C W B) a b l1 l2 :
  prints m a l1 -> prints (f a) b l2 -> prints (m ≫= f) b (l1 ++ l2).
Proof.
  intros Hm Hf s. erewrite bind_val by apply Hm. rewrite Hf. simpl.
  by rewrite fmap_app, <- app_assoc.
Qed.

Lemma prints_eq {A} (m : C W A) a l l' : prints m a l -> l = l' -> prints m a l'.
Proof. by intros ? <-. Qed.
Lemma prints_for_each {A} (l : list A) (f : A -> string) :
  prints (for_each l (fun x => out (f x)) : C W unit) tt (f <$> l).
Proof.
  induction l as [|x l IH]; [apply prints_ret|]. simpl.
  apply (prints_bind _ _ tt tt [f x]); [apply prints_out|done].
Qed.

Lemma prints_done (m : C W unit) l :
  prints m tt l -> prints (m;; mret EXIT_SUCCESS) EXIT_SUCCESS l.
Proof.
  intros Hm. rewrite <- (app_nil_r l). eapply prints_bind; [done|apply prints_ret].
Qed.

Lemma prints_out_eq (t t' : string) : t = t' -> prints (out t : C W unit) tt [t'].
Proof. intros <-. apply prints_out. Qed.
End Prints.

Create HintDb fuel.
#[export] Hint Resolve fueled_ret fueled_exit fueled_emit fueled_bind : fuel.

(** The statement at the head decides the lemma; a function is unfolded. *)
Ltac fueled_step :=
  lazymatch goal with
  | |- fueled (let _ := _ in _) => cbv zeta
  | |- fueled (mret _) => apply fueled_ret
  | |- fueled (exit_ _) => apply fueled_exit
  | |- fueled (out _) => apply fueled_emit
  | |- fueled (eout _) => apply fueled_emit
  | |- fueled (emit _) => apply fueled_emit
  | |- fueled (sys _) => apply fueled_sys
  | |- fueled get_errno => apply fueled_get_errno
  | |- fueled (set_errno _) => apply fueled_set_errno
  | |- fueled (array_get _ _) => apply fueled_array_get
  | |- fueled (array_set _ _ _) => apply fueled_array_set
  | |- fueled (undef _) => done
  | |- fueled (mbind _ _) => apply fueled_bind; [|intros ?]
  | |- fueled (for_each _ _) => apply fueled_for_each
  | |- fueled (match _ with _ => _ end) => case_match
  | |- Forall _ _ =>
      first [apply Forall_nil_2 | apply Forall_cons_2 | apply Forall_true; intros ?]; cbv beta
  | |- fueled ?m => let m' := eval red in m in change (fueled m'); cbv beta
  end.

(** Unfold one layer of the monad and of its operations. *)
Ltac cstep :=
  unfold mbind, C_bind, mret, C_ret, out, eout, perror, get_errno, set_errno,
    emit, exit_, undef, no_fuel in *; simpl in *.
