(* ===== verification/CString.v ===== *)
(** * The parts of the C library the sources call

    Character classes, the [strto*] family, the conversions of [printf],
    [snprintf] into a buffer, [strchr], [strstr], [strncpy], [strcmp] and
    [strtok_r], as the C standard defines them in the "C" locale.  Strings are
    the characters before the NUL. *)

From S2P Require Import Prelude CMonad.

(** ** Character classes ([ctype.h], "C" locale) *)

Definition isdigit (c : ascii) : bool := (48 <=? byte_val c) && (byte_val c <=? 57).
Definition isspace (c : ascii) : bool :=
  (byte_val c =? 32) || ((9 <=? byte_val c) && (byte_val c <=? 13)).

Definition digit_val (c : ascii) : Z := byte_val c - 48.
Definition digit_char (d : Z) : ascii := byte_of (48 + d).

(** ** Reading numbers: [strtoumax] and [strtoimax] in base ten *)

Fixpoint skip_space (s : string) : string :=
  match s with
  | String c s' => if isspace c then skip_space s' else s
  | EmptyString => EmptyString
  end.

(** The longest prefix of digits: its value, accumulated on [acc], whether it
    had any digit, and what follows. *)
Fixpoint scan_digits (acc : Z) (any : bool) (s : string) : Z * bool * string :=
  match s with
  | String c s' =>
      if isdigit c then scan_digits (10 * acc + digit_val c) true s'
      else (acc, any, s)
  | EmptyString => (acc, any, EmptyString)
  end.

(** An optional sign. *)
Definition scan_sign (s : string) : bool * string :=
  match s with
  | String c s' =>
      if (c =?c "-")%c then (true, s')
      else if (c =?c "+")%c then (false, s') else (false, s)
  | EmptyString => (false, s)
  end.

(** What the subject sequence denotes: sign, magnitude and the rest; [None]
    when there is no digit to convert. *)
Definition scan_number (s : string) : option (bool * Z * string) :=
  let '(neg, s1) := scan_sign (skip_space s) in
  let '(m, any, rest) := scan_digits 0 false s1 in
  if any then Some (neg, m, rest) else None.

(** The result of a conversion: value, [*endptr], and the [errno] it sets. *)
Record strto := Strto { st_value : Z; st_end : string; st_err : option Z }.

Definition strtoumax_val (s : string) : strto :=
  match scan_number s with
  | None => Strto 0 s None
  | Some (neg, m, rest) =>
      if UINTMAX_MAX <? m then Strto UINTMAX_MAX rest (Some ERANGE)
      else Strto (to_unsigned 64 (if neg then - m else m)) rest None
  end.

Definition strtoimax_val (s : string) : strto :=
  match scan_number s with
  | None => Strto 0 s None
  | Some (neg, m, rest) =>
      let v := if neg then - m else m in
      if v <? INTMAX_MIN then Strto INTMAX_MIN rest (Some ERANGE)
      else if INTMAX_MAX <? v then Strto INTMAX_MAX rest (Some ERANGE)
      else Strto v rest None
  end.

Definition strto_call {W} (r : strto) : C W (Z * string) :=
  match st_err r with Some e => set_errno e | None => mret tt end;;
  mret (st_value r, st_end r).

Definition strtoumax {W} (s : string) : C W (Z * string) := strto_call (strtoumax_val s).
Definition strtoimax {W} (s : string) : C W (Z * string) := strto_call (strtoimax_val s).
(** [long] and [long long] have the width of [intmax_t]. *)
Definition strtol {W} : string -> C W (Z * string) := strtoimax.
Definition strtoll {W} : string -> C W (Z * string) := strtoimax.
Definition strtoul {W} : string -> C W (Z * string) := strtoumax.
Definition strtoull {W} : string -> C W (Z * string) := strtoumax.

(** ** Writing numbers: the [%d], [%u], [%ld], [%o], [%X] conversions *)

Definition hex_char (d : Z) : ascii :=
  if d <? 10 then byte_of (48 + d) else byte_of (55 + d).

(** The digits of [n] in base [b], in front of [acc]; [fuel] bounds their
    number. *)
Fixpoint put_digits (b : Z) (fuel : nat) (n : Z) (acc : string) : string :=
  match fuel with
  | O => acc
  | Datatypes.S fuel =>
      let acc := String (hex_char (n mod b)) acc in
      if n <? b then acc else put_digits b fuel (n / b) acc
  end.

(** A number below [2 ^ k] has at most [k] digits in any base. *)
Definition digits_fuel (n : Z) : nat := Datatypes.S (Z.to_nat (Z.log2 n)).

Definition fmt_u (n : Z) : string := put_digits 10 (digits_fuel n) n "".
Definition fmt_o (n : Z) : string := put_digits 8 (digits_fuel n) n "".
Definition fmt_X (n : Z) : string := put_digits 16 (digits_fuel n) n "".
Definition fmt_d (z : Z) : string :=
  if z <? 0 then "-" +:+ fmt_u (- z) else fmt_u z.

(** Field widths: [%5d] pads on the left, [%-5s] on the right, [%09ld] with
    zeros after the sign. *)
Fixpoint repeat_char (c : ascii) (n : nat) : string :=
  match n with O => "" | Datatypes.S n => String c (repeat_char c n) end.
Definition pad_left (w : nat) (s : string) : string :=
  repeat_char " " (w - String.length s) +:+ s.
Definition pad_right (w : nat) (s : string) : string :=
  s +:+ repeat_char " " (w - String.length s).

(** ** [snprintf(buffer, size, ...)]

    The formatted text is written up to [size - 1] characters and always
    terminated, unless [size] is 0; the value returned is the length the full
    text has. *)

Fixpoint chars (s : string) : list byte :=
  match s with EmptyString => [] | String c s => c :: chars s end.
Fixpoint of_chars (l : list byte) : string :=
  match l with [] => "" | c :: l => String c (of_chars l) end.

(** Writing [l] over the start of a buffer. *)
Definition overwrite (l buf : list byte) : list byte := l ++ drop (length l) buf.

Definition snprintf (buffer : list byte) (size : nat) (text : list byte) :
    Z * list byte :=
  (Z.of_nat (length text),
   match size with
   | O => buffer
   | Datatypes.S k => overwrite (take k text ++ [NUL]) buffer
   end).

(** The C string at the start of a buffer. *)
Fixpoint cstring (buf : list byte) : list byte :=
  match buf with
  | [] => []
  | c :: buf => if (c =?c NUL)%c then [] else c :: cstring buf
  end.

(** [char message[n]; snprintf(message, sizeof(message), ...)], the string the
    array then holds. *)
Definition snprintf_str (size : nat) (text : string) : string :=
  of_chars (take (size - 1) (chars text)).

(** ** Searching and comparing *)

(** [strchr(s, c) - s] when the character is found (the terminating NUL
    counts). *)
Fixpoint strchr (s : string) (c : ascii) : option nat :=
  match s with
  | EmptyString => if (c =?c NUL)%c then Some O else None
  | String d s' => if (d =?c c)%c then Some O else Datatypes.S <$> strchr s' c
  end.

Fixpoint is_prefix (p s : string) : bool :=
  match p, s with
  | EmptyString, _ => true
  | String a p, String b s => (a =?c b)%c && is_prefix p s
  | String _ _, EmptyString => false
  end.

(** [strstr(haystack, needle) - haystack]. *)
Fixpoint strstr (haystack needle : string) : option nat :=
  if is_prefix needle haystack then Some O
  else match haystack with
       | EmptyString => None
       | String _ h => Datatypes.S <$> strstr h needle
       end.

(** The sign of [strcmp] and [strncmp]: the difference of the first bytes that
    differ. *)
Fixpoint strncmp (n : nat) (s1 s2 : string) : Z :=
  match n with
  | O => 0
  | Datatypes.S n =>
      match s1, s2 with
      | EmptyString, EmptyString => 0
      | EmptyString, String b _ => - byte_val b
      | String a _, EmptyString => byte_val a
      | String a s1, String b s2 =>
          if (a =?c b)%c then strncmp n s1 s2 else byte_val a - byte_val b
      end
  end.
Definition strcmp (s1 s2 : string) : Z :=
  strncmp (Datatypes.S (String.length s1)) s1 s2.

(** [strncpy(dst, src, n)]: at most [n] characters, padded with NULs to
    exactly [n]. *)
Definition strncpy (dst : list byte) (src : string) (n : nat) : list byte :=
  overwrite (take n (chars src) ++ replicate (n - String.length src) NUL) dst.

(** ** [strtok_r]: one call on the text still to be scanned *)

Definition is_delim (delims : string) (c : ascii) : bool :=
  match strchr delims c with Some _ => true | None => false end.

Fixpoint skip_delims (delims s : string) : string :=
  match s with
  | String c s' => if is_delim delims c then skip_delims delims s' else s
  | EmptyString => EmptyString
  end.

Fixpoint until_delim (delims s : string) : string * string :=
  match s with
  | String c s' =>
      if is_delim delims c then (EmptyString, s')
      else let '(w, r) := until_delim delims s' in (String c w, r)
  | EmptyString => (EmptyString, EmptyString)
  end.

(** The next token and the new [*saveptr]; [None] when no character other than
    delimiters is left. *)
Definition strtok_r (delims saveptr : string) : option (string * string) :=
  match skip_delims delims saveptr with
  | EmptyString => None
  | s => Some (until_delim delims s)
  end.

(** ** Lemmas: numbers *)

Lemma digit_hex_char (d : Z) : 0 <= d < 10 ->
  isdigit (hex_char d) = true /\ digit_val (hex_char d) = d.
Proof.
  intros Hd. unfold isdigit, digit_val, hex_char.
  rewrite (proj2 (Z.ltb_lt d 10)) by lia.
  rewrite byte_val_of, to_unsigned_small by lia.
  split; [apply andb_true_iff; split; apply Z.leb_le; lia | lia].
Qed.

(** Scanning what [put_digits] wrote in base ten continues with the number
    appended to the accumulator. *)
Lemma scan_put_digits (fuel : nat) (n a : Z) (any : bool) (acc : string) :
  0 <= n < 2 ^ Z.of_nat fuel -> fuel <> O ->
  exists k, 0 <= k /\
    scan_digits a any (put_digits 10 fuel n acc) =
    scan_digits (a * 10 ^ k + n) true acc.
Proof.
  revert n a any acc. induction fuel as [|fuel IH]; intros n a any acc Hn Hf; [done|].
  destruct (digit_hex_char (n mod 10)) as [Hd Hv].
  { apply Z.mod_pos_bound. lia. }
  simpl. destruct (n <? 10) eqn:E; bools.
  - exists 1. split; [lia|]. simpl. rewrite Hd, Hv, Z.mod_small by lia. f_equal. lia.
  - rewrite Nat2Z.inj_succ, Z.pow_succ_r in Hn by lia.
    pose proof (Z.div_mod n 10 ltac:(lia)) as Hdm.
    pose proof (Z.mod_pos_bound n 10 ltac:(lia)) as Hm.
    destruct (IH (n / 10) a any (String (hex_char (n mod 10)) acc)) as (k & Hk & ->).
    + split; [apply Z.div_pos; lia | apply Z.div_lt_upper_bound; lia].
    + destruct fuel; [simpl in Hn; lia | done].
    + exists (k + 1). split; [lia|]. simpl. rewrite Hd, Hv.
      rewrite Z.pow_add_r by lia. f_equal. lia.
Qed.

Lemma digits_fuel_bound (n : Z) : 0 <= n -> 0 <= n < 2 ^ Z.of_nat (digits_fuel n).
Proof.
  intros Hn. split; [done|]. unfold digits_fuel.
  rewrite Nat2Z.inj_succ, Z2Nat.id by apply Z.log2_nonneg.
  destruct (decide (n = 0)) as [->|]; [done|]. by apply Z.log2_spec; lia.
Qed.

Lemma scan_fmt_u (n : Z) (rest : string) :
  0 <= n -> scan_digits 0 false (put_digits 10 (digits_fuel n) n rest) =
            scan_digits n true rest.
Proof.
  intros Hn.
  destruct (scan_put_digits (digits_fuel n) n 0 false rest) as (k & _ & ->);
    [by apply digits_fuel_bound | done |]. f_equal.
Qed.

(** Nothing [put_digits] writes starts with white space or a sign. *)
Lemma put_digits_head (b : Z) (fuel : nat) (n : Z) (acc : string) :
  2 <= b <= 16 -> 0 <= n -> fuel <> O ->
  exists c s, put_digits b fuel n acc = String c s /\
    exists d, 0 <= d < b /\ c = hex_char d.
Proof.
  revert n acc. induction fuel as [|fuel IH]; intros n acc Hb Hn Hf; [done|]. simpl.
  pose proof (Z.mod_pos_bound n b ltac:(lia)) as Hm.
  destruct (n <? b); [eauto 6|].
  destruct fuel; [simpl; eauto 6|]. apply IH; [done| |done]. apply Z.div_pos; lia.
Qed.

Lemma hex_char_plain (d : Z) : 0 <= d < 10 ->
  isspace (hex_char d) = false /\ (hex_char d =?c "-")%c = false /\
  (hex_char d =?c "+")%c = false.
Proof.
  intros Hd.
  assert (d = 0 \/ d = 1 \/ d = 2 \/ d = 3 \/ d = 4 \/ d = 5 \/ d = 6 \/ d = 7 \/
          d = 8 \/ d = 9) as H by lia.
  repeat destruct H as [->|H]; [done..|subst; done].
Qed.

Lemma scan_number_fmt_u (n : Z) : 0 <= n -> scan_number (fmt_u n) = Some (false, n, "").
Proof.
  intros Hn. unfold scan_number, fmt_u.
  destruct (put_digits_head 10 (digits_fuel n) n "") as (c & s & E & d & Hd & ->);
    [lia..|done|].
  destruct (hex_char_plain d) as (H1 & H2 & H3); [lia|].
  rewrite E. simpl. rewrite H1. simpl. rewrite H2, H3. rewrite <- E, scan_fmt_u by done.
  done.
Qed.

Lemma scan_number_fmt_d (z : Z) :
  scan_number (fmt_d z) = Some (z <? 0, Z.abs z, "").
Proof.
  unfold fmt_d. destruct (z <? 0) eqn:E; bools.
  - unfold scan_number. simpl.
    change (fmt_u (- z)) with (put_digits 10 (digits_fuel (- z)) (- z) "").
    rewrite scan_fmt_u by lia. simpl. by rewrite Z.abs_neq by lia.
  - rewrite scan_number_fmt_u by done. by rewrite Z.abs_eq by lia.
Qed.

Lemma strtoumax_fmt_u (n : Z) :
  0 <= n <= UINTMAX_MAX -> strtoumax_val (fmt_u n) = Strto n "" None.
Proof.
  intros Hn. unfold strtoumax_val. rewrite scan_number_fmt_u by lia.
  rewrite (proj2 (Z.ltb_ge _ _)) by lia.
  rewrite to_unsigned_small; [done|]. split; [lia|]. change (2 ^ 64) with (UINTMAX_MAX + 1). lia.
Qed.

Lemma strtoimax_fmt_d (z : Z) :
  INTMAX_MIN <= z <= INTMAX_MAX -> strtoimax_val (fmt_d z) = Strto z "" None.
Proof.
  intros Hz. unfold strtoimax_val. rewrite scan_number_fmt_d.
  replace (if z <? 0 then - Z.abs z else Z.abs z) with z
    by (destruct (z <? 0) eqn:E; bools; lia).
  rewrite (proj2 (Z.ltb_ge _ _)), (proj2 (Z.ltb_ge _ _)) by lia. done.
Qed.

(** The range of what a conversion returns. *)
Lemma strtoumax_range (s : string) : 0 <= st_value (strtoumax_val s) <= UINTMAX_MAX.
Proof.
  unfold strtoumax_val. destruct (scan_number s) as [[[neg m] rest]|]; simpl; [|climits].
  case_match; simpl; [climits|].
  pose proof (to_unsigned_range 64 (if neg then - m else m)).
  change (2 ^ 64) with (UINTMAX_MAX + 1) in *. lia.
Qed.

Lemma strtoimax_range (s : string) :
  INTMAX_MIN <= st_value (strtoimax_val s) <= INTMAX_MAX.
Proof.
  unfold strtoimax_val. destruct (scan_number s) as [[[neg m] rest]|]; simpl; [|climits].
  repeat case_match; bools; simpl; climits.
Qed.

(** ** Lemmas: buffers *)

Lemma chars_of_chars (l : list byte) : chars (of_chars l) = l.
Proof. induction l; simpl; by f_equal. Qed.

Lemma of_chars_chars (s : string) : of_chars (chars s) = s.
Proof. induction s; simpl; by f_equal. Qed.

Lemma length_chars (s : string) : length (chars s) = String.length s.
Proof. induction s; simpl; by f_equal. Qed.

Lemma chars_app (s1 s2 : string) : chars (s1 +:+ s2) = chars s1 ++ chars s2.
Proof. induction s1; simpl; by f_equal. Qed.

Lemma length_overwrite (l buf : list byte) :
  (length l <= length buf)%nat -> length (overwrite l buf) = length buf.
Proof. intros. unfold overwrite. rewrite length_app, length_drop. lia. Qed.

Lemma cstring_app_nul (l buf : list byte) :
  NUL ∉ l -> cstring (l ++ NUL :: buf) = l.
Proof.
  induction l as [|c l IH]; intros Hn; simpl; [done|].
  apply not_elem_of_cons in Hn as [Hc Hn].
  destruct (Ascii.eqb_spec c NUL); [congruence|]. by rewrite IH.
Qed.

(** A decidable form of [NUL ∉ text]. *)
Definition no_nul (text : list byte) : bool := negb (existsb (Ascii.eqb NUL) text).

Lemma no_nul_spec (text : list byte) : no_nul text = true -> NUL ∉ text.
Proof.
  intros E%negb_true_iff Hin%list_elem_of_In.
  enough (existsb (Ascii.eqb NUL) text = true) by congruence.
  apply existsb_exists. exists NUL. split; [done|apply Ascii.eqb_refl].
Qed.

(** A buffer keeps its length, whatever is printed into it. *)
Lemma snprintf_length (buffer : list byte) (size : nat) (text : list byte) :
  (size <= length buffer)%nat ->
  length (snd (snprintf buffer size text)) = length buffer.
Proof.
  intros Hs. destruct size as [|k]; simpl; [done|].
  apply length_overwrite. rewrite length_app, length_take. simpl. lia.
Qed.

(** The string in the buffer is the text, cut to [size - 1] characters. *)
Lemma snprintf_cstring (buffer : list byte) (size : nat) (text : list byte) :
  (0 < size)%nat -> NUL ∉ text ->
  cstring (snd (snprintf buffer size text)) = take (size - 1) text.
Proof.
  intros Hs Hn. destruct size as [|k]; [lia|]. simpl. rewrite Nat.sub_0_r.
  unfold overwrite. rewrite <- app_assoc. apply cstring_app_nul.
  intros Hin. apply Hn. by apply elem_of_take in Hin as (i & Hi & _);
    apply list_elem_of_lookup_2 in Hi.
Qed.

(** ** Lemmas: [strtok_r] *)

(** Every call consumes at least one character, which is what makes the
    tokenising loops of the sources terminate. *)
Lemma until_delim_length (delims s w r : string) :
  until_delim delims s = (w, r) -> (String.length r <= String.length s)%nat.
Proof.
  revert w r. induction s as [|c s IH]; intros w r E; simpl in *; simplify_eq; [done|].
  destruct (is_delim delims c); simplify_eq; [lia|].
  destruct (until_delim delims s) as [w' r'] eqn:E'; simplify_eq.
  specialize (IH _ _ eq_refl). lia.
Qed.

Lemma skip_delims_length (delims s : string) :
  (String.length (skip_delims delims s) <= String.length s)%nat.
Proof. induction s as [|c s IH]; simpl; [done|]. case_match; simpl; lia. Qed.

Lemma skip_delims_head (delims s : string) c r :
  skip_delims delims s = String c r -> is_delim delims c = false.
Proof.
  induction s as [|d s IH]; intros E; simpl in E; [done|].
  destruct (is_delim delims d) eqn:Ed; [auto|]. by simplify_eq.
Qed.

Lemma strtok_r_decreases (delims s w r : string) :
  strtok_r delims s = Some (w, r) -> (String.length r < String.length s)%nat.
Proof.
  unfold strtok_r. intros E.
  pose proof (skip_delims_length delims s) as Hl.
  destruct (skip_delims delims s) as [|c s'] eqn:Es; simplify_eq.
  pose proof (skip_delims_head _ _ _ _ Es) as Hc. simpl in E. rewrite Hc in E.
  destruct (until_delim delims s') as [w' r'] eqn:Eu; simplify_eq.
  apply until_delim_length in Eu. simpl in Hl. lia.
Qed.
