(* ===== verification/Getopt.v ===== *)
(** * [getopt], the loop every program runs over its options

    [getopt] is modelled as POSIX specifies it (scanning stops at the first
    operand or at "--"; a ':' in the option string marks an option with an
    argument; an unknown option or a missing argument returns '?' and sets
    [optopt]).  The state between calls is a record; [scan_args] is the
    declarative reading of a command line and [while_getopt_scan] shows that
    the loop [while((opt = getopt(...)) != -1)] implements it. *)

From S2P Require Import Prelude CMonad CString.

(** ** The library function *)

(** [optind], the rest of the cluster being scanned, [optarg], [optopt]. *)
Record getopt_state := GetoptState {
  optind : nat;
  nextchar : string;
  optarg : cstr;
  optopt : ascii;
}.

Definition getopt_init : getopt_state := GetoptState 1 "" None "?".

(** Whether [c] is an option letter, and if so whether it takes an argument. *)
Fixpoint find_opt (c : ascii) (optstring : string) : option bool :=
  match optstring with
  | EmptyString => None
  | String o s =>
      if (o =?c c)%c && negb (c =?c ":")%c then
        Some (match s with String d _ => (d =?c ":")%c | EmptyString => false end)
      else find_opt c s
  end.

(** The letter [c] of argument [i], followed by [rest] in its cluster. *)
Definition getopt_char (optstring : string) (argv : list string)
    (g : getopt_state) (c : ascii) (rest : string) : option ascii * getopt_state :=
  let i := optind g in
  let next := match rest with EmptyString => Datatypes.S i | _ => i end in
  match find_opt c optstring with
  | None => (Some "?"%char, GetoptState next rest None c)
  | Some false => (Some c, GetoptState next rest None (optopt g))
  | Some true =>
      match rest with
      | EmptyString =>
          match argv !! Datatypes.S i with
          | Some a => (Some c, GetoptState (Datatypes.S (Datatypes.S i)) "" (Some a) (optopt g))
          | None => (Some "?"%char, GetoptState (Datatypes.S i) "" None c)
          end
      | _ => (Some c, GetoptState (Datatypes.S i) "" (Some rest) (optopt g))
      end
  end.

(** One call; [None] is [-1]. *)
Definition getopt (optstring : string) (argv : list string) (g : getopt_state) :
    option ascii * getopt_state :=
  match nextchar g with
  | String c rest => getopt_char optstring argv g c rest
  | EmptyString =>
      match argv !! optind g with
      | Some (String d (String c rest)) =>
          if negb (d =?c "-")%c then (None, g)
          else if (c =?c "-")%c && String.eqb rest "" then
            (None, GetoptState (Datatypes.S (optind g)) "" (optarg g) (optopt g))
          else getopt_char optstring argv g c rest
      | _ => (None, g)
      end
  end.

(** The characters of a command line. *)
Fixpoint total_length (l : list string) : nat :=
  match l with [] => O | a :: l => (String.length a + total_length l)%nat end.

(** ** The loop of the programs

    [sw] is the [switch] of the program: the option character, [optarg],
    [optopt] and the variables it sets. *)
Section Loop.
Context {W S : Type}.
Context (optstring : string) (argv : list string).
Context (sw : ascii -> cstr -> ascii -> S -> C W S).

Fixpoint getopt_loop (fuel : nat) (g : getopt_state) (st : S) : C W (S * nat) :=
  match fuel with
  | O => no_fuel
  | Datatypes.S fuel =>
      let '(opt, g') := getopt optstring argv g in
      match opt with
      | None => mret (st, optind g')
      | Some c => st' ← sw c (optarg g') (optopt g') st; getopt_loop fuel g' st'
      end
  end.

(** Every option takes at least one character of the command line. *)
Definition getopt_fuel : nat :=
  Datatypes.S (total_length argv).

Definition while_getopt (st : S) : C W (S * nat) :=
  getopt_loop getopt_fuel getopt_init st.
End Loop.

(** ** The declarative reading of a command line *)

Inductive item :=
| Opt (c : ascii) (arg : cstr)   (* an option, with its argument if it has one *)
| Bad (c : ascii).               (* an unknown letter, or one whose argument is missing *)

(** A cluster of letters [-abc]; the boolean tells whether the next argument
    was taken as an option argument. *)
Fixpoint scan_cluster (optstring cluster : string) (next : list string) :
    list item * bool :=
  match cluster with
  | EmptyString => ([], false)
  | String c rest =>
      match find_opt c optstring with
      | None =>
          let '(l, used) := scan_cluster optstring rest next in (Bad c :: l, used)
      | Some false =>
          let '(l, used) := scan_cluster optstring rest next in (Opt c None :: l, used)
      | Some true =>
          match rest with
          | EmptyString =>
              match next with
              | a :: _ => ([Opt c (Some a)], true)
              | [] => ([Bad c], false)
              end
          | _ => ([Opt c (Some rest)], false)
          end
      end
  end.

(** The options in order, and the operands. *)
Fixpoint scan_args (optstring : string) (args : list string) :
    list item * list string :=
  match args with
  | [] => ([], [])
  | a :: rest =>
      match a with
      | String d (String c cl) =>
          if negb (d =?c "-")%c then ([], args)
          else if (c =?c "-")%c && String.eqb cl "" then ([], rest)
          else
            let '(l, used) := scan_cluster optstring (String c cl) rest in
            let '(l', ops) :=
              match used, rest with
              | true, _ :: rest' => scan_args optstring rest'
              | _, _ => scan_args optstring rest
              end in
            (l ++ l', ops)
      | _ => ([], args)
      end
  end.

(** Running the program's [switch] on the options found. *)
Section Items.
Context {W S : Type} (sw : ascii -> cstr -> ascii -> S -> C W S).

Fixpoint run_items (l : list item) (o : ascii) (st : S) : C W S :=
  match l with
  | [] => mret st
  | Opt c a :: l => st' ← sw c a o st; run_items l o st'
  | Bad c :: l => st' ← sw "?"%char None c st; run_items l c st'
  end.
End Items.

(** ** The loop implements the reading *)

Section Refinement.
Context (optstring : string) (argv : list string).

(** What follows a cluster. *)
Definition after_cluster (used : bool) (rest : list string) :
    list item * list string :=
  match used, rest with
  | true, _ :: rest' => scan_args optstring rest'
  | _, _ => scan_args optstring rest
  end.

(** What is left to read in a state of [getopt]. *)
Definition pending (g : getopt_state) : list item * list string :=
  match nextchar g with
  | EmptyString => scan_args optstring (drop (optind g) argv)
  | cl =>
      let rest := drop (Datatypes.S (optind g)) argv in
      let '(l, used) := scan_cluster optstring cl rest in
      let '(l', ops) := after_cluster used rest in (l ++ l', ops)
  end.

(** The characters left, which every option decreases. *)
Definition chars_left (g : getopt_state) : nat :=
  match nextchar g with
  | EmptyString => total_length (drop (optind g) argv)
  | cl => String.length cl
          + total_length (drop (Datatypes.S (optind g)) argv)
  end.

Lemma drop_lookup_some (i : nat) (a : string) :
  argv !! i = Some a -> drop i argv = a :: drop (Datatypes.S i) argv.
Proof. intros. by apply drop_S. Qed.

Lemma drop_lookup_none (i : nat) : argv !! i = None -> drop i argv = [].
Proof. intros ?%lookup_ge_None. by apply drop_ge. Qed.

(** What an option returned by [getopt] is, seen from the reading. *)
Definition step_item (c : ascii) (g g' : getopt_state) (it : item) : Prop :=
  (it = Opt c (optarg g') /\ optopt g' = optopt g) \/
  (it = Bad (optopt g') /\ c = "?"%char /\ optarg g' = None).

(** One letter: [getopt_char] reads the first item of the cluster. *)
Lemma getopt_char_pending (g : getopt_state) c rest :
  let '(l, used) := scan_cluster optstring (String c rest)
                      (drop (Datatypes.S (optind g)) argv) in
  let '(l', ops) := after_cluster used (drop (Datatypes.S (optind g)) argv) in
  exists c' g' it,
    getopt_char optstring argv g c rest = (Some c', g') /\
    step_item c' g g' it /\
    (l ++ l', ops) = (it :: fst (pending g'), snd (pending g')) /\
    (chars_left g' < Datatypes.S (String.length rest)
      + total_length (drop (Datatypes.S (optind g)) argv))%nat.
Proof.
  unfold getopt_char. simpl.
  destruct (find_opt c optstring) as [[|]|] eqn:Ef.
  - destruct rest as [|d rest].
    + destruct (argv !! Datatypes.S (optind g)) as [a|] eqn:El.
      * rewrite (drop_lookup_some _ _ El).
        unfold after_cluster. destruct (scan_args _ _) as [l' ops] eqn:Es.
        eexists _, _, _. split; [done|]. split; [left; done|].
        unfold pending, chars_left; simpl. rewrite Es. simpl. split; [done|lia].
      * rewrite (drop_lookup_none _ El). simpl. unfold after_cluster. simpl.
        eexists _, _, _. split; [done|]. split; [right; done|].
        unfold pending, chars_left; simpl. rewrite (drop_lookup_none _ El).
        split; [done | simpl; lia].
    + unfold after_cluster. destruct (scan_args _ _) as [l' ops] eqn:Es.
      eexists _, _, _. split; [done|]. split; [left; done|].
      unfold pending, chars_left; simpl. rewrite Es. simpl. split; [done|lia].
  - destruct (scan_cluster optstring rest _) as [l used] eqn:Ec.
    destruct (after_cluster used _) as [l' ops] eqn:Em.
    eexists _, _, _. split; [done|]. split; [left; done|].
    unfold pending, chars_left; cbn [nextchar optind]. destruct rest as [|d rest].
    + simpl in Ec. simplify_eq. simpl in Em. rewrite Em. simpl. split; [done|lia].
    + rewrite Ec, Em. split; [done | simpl; lia].
  - destruct (scan_cluster optstring rest _) as [l used] eqn:Ec.
    destruct (after_cluster used _) as [l' ops] eqn:Em.
    eexists _, _, _. split; [done|]. split; [right; done|].
    unfold pending, chars_left; cbn [nextchar optind]. destruct rest as [|d rest].
    + simpl in Ec. simplify_eq. simpl in Em. rewrite Em. simpl. split; [done|lia].
    + rewrite Ec, Em. split; [done | simpl; lia].
Qed.

(** One call: either nothing is left and [optind] is at the operands, or the
    first item is delivered and the rest is what was pending. *)
Lemma getopt_pending (g : getopt_state) :
  match getopt optstring argv g with
  | (None, g') => pending g = ([], drop (optind g') argv)
  | (Some c, g') => exists it,
      step_item c g g' it /\
      pending g = (it :: fst (pending g'), snd (pending g')) /\
      (chars_left g' < chars_left g)%nat
  end.
Proof.
  unfold getopt. destruct (nextchar g) as [|c rest] eqn:En.
  - assert (pending g = scan_args optstring (drop (optind g) argv)) as Hp
      by (unfold pending; by rewrite En).
    assert (chars_left g = total_length (drop (optind g) argv)) as Hl
      by (unfold chars_left; by rewrite En).
    destruct (argv !! optind g) as [a|] eqn:El.
    + rewrite (drop_lookup_some _ _ El) in Hp, Hl.
      destruct a as [|d [|c rest]];
        [by rewrite Hp, (drop_lookup_some _ _ El)..|]. cbn [scan_args] in Hp.
      destruct (d =?c "-")%c; cbn [negb] in *;
        [|by rewrite Hp, (drop_lookup_some _ _ El)].
      destruct ((c =?c "-")%c && String.eqb rest ""); [by rewrite Hp|].
      pose proof (getopt_char_pending g c rest) as H.
      destruct (scan_cluster _ _ _) as [l used].
      destruct (after_cluster used _) as [l' ops] eqn:Em. unfold after_cluster in Em.
      rewrite Em in Hp. destruct H as (c' & g' & it & -> & Hi & He & Hc).
      exists it. rewrite Hp, Hl. simpl in *. split_and!; [done..|lia].
    + by rewrite Hp, (drop_lookup_none _ El).
  - pose proof (getopt_char_pending g c rest) as H.
    destruct (scan_cluster _ _ _) as [l used] eqn:Esc.
    destruct (after_cluster used _) as [l' ops] eqn:Em.
    destruct H as (c' & g' & it & -> & Hi & He & Hc).
    exists it. unfold pending at 1, chars_left at 2. rewrite En, Esc, Em.
    split_and!; [done..|simpl; lia].
Qed.

(** [optind] stays within the argument vector. *)
Definition in_argv (g : getopt_state) : Prop :=
  match nextchar g with
  | EmptyString => (optind g <= length argv)%nat
  | _ => (optind g < length argv)%nat
  end.

Lemma getopt_char_in_argv (g : getopt_state) c rest :
  (optind g < length argv)%nat -> in_argv (snd (getopt_char optstring argv g c rest)).
Proof.
  intros Hi. unfold getopt_char, in_argv.
  destruct (find_opt c optstring) as [[|]|]; destruct rest as [|d rest]; simpl; try lia.
  destruct (argv !! Datatypes.S (optind g)) eqn:E; simpl; [|lia].
  apply lookup_lt_Some in E. lia.
Qed.

Lemma getopt_in_argv (g : getopt_state) :
  in_argv g -> in_argv (snd (getopt optstring argv g)).
Proof.
  intros Hg. unfold getopt.
  destruct (nextchar g) as [|c rest] eqn:En;
    [|apply getopt_char_in_argv; unfold in_argv in Hg; by rewrite En in Hg].
  destruct (argv !! optind g) as [[|d [|c rest]]|] eqn:El; try done.
  apply lookup_lt_Some in El. destruct (negb _); [done|].
  destruct (_ && _); [|by apply getopt_char_in_argv].
  unfold in_argv. simpl. lia.
Qed.

Context {W S : Type} (sw : ascii -> cstr -> ascii -> S -> C W S).

Lemma getopt_loop_pending (fuel : nat) (g : getopt_state) (st : S) (s : cstate W) :
  (chars_left g < fuel)%nat -> in_argv g ->
  getopt_loop optstring argv sw fuel g st s =
  (st' ← run_items sw (fst (pending g)) (optopt g) st;
   mret (st', (length argv - length (snd (pending g)))%nat)) s.
Proof.
  revert g st s. induction fuel as [|fuel IH]; intros g st s Hf Hg; [lia|]. simpl.
  pose proof (getopt_pending g) as Hp. pose proof (getopt_in_argv g Hg) as Hg'.
  destruct (getopt optstring argv g) as [[c|] g'] eqn:E; simpl in Hg'.
  - destruct Hp as (it & Hi & Hp & Hc). rewrite Hp. simpl.
    destruct Hi as [[-> Ho]|(-> & -> & Ha)].
    + simpl. rewrite bind_assoc, Ho. unfold mbind at 1 2, C_bind at 1 2.
      destruct (sw _ _ _ _ _) as [[st'|e|w|] s']; [|done..].
      rewrite IH by (done || lia). by rewrite Ho.
    + simpl. rewrite Ha, bind_assoc. unfold mbind at 1 2, C_bind at 1 2.
      destruct (sw _ _ _ _ _) as [[st'|e|w|] s']; [|done..].
      by rewrite IH by (done || lia).
  - rewrite Hp. simpl. rewrite bind_ret. unfold mret, C_ret. do 3 f_equal.
    rewrite length_drop. unfold in_argv in Hg'. destruct (nextchar g'); lia.
Qed.
End Refinement.

Section WhileGetopt.
Context {W S : Type} (optstring : string) (sw : ascii -> cstr -> ascii -> S -> C W S).

(** The option loop of a program [prog args]: it runs the program's [switch]
    on the options of [args], then stops with [optind] at the operands. *)
Lemma while_getopt_scan (prog : string) (args : list string) (st : S) (s : cstate W) :
  while_getopt optstring (prog :: args) sw st s =
  (let '(items, ops) := scan_args optstring args in
   st' ← run_items sw items "?"%char st;
   mret (st', (Datatypes.S (length args) - length ops)%nat)) s.
Proof.
  unfold while_getopt. rewrite getopt_loop_pending.
  - unfold pending. simpl. rewrite drop_0. by destruct (scan_args optstring args).
  - unfold chars_left, getopt_fuel. simpl. rewrite drop_0. lia.
  - unfold in_argv. simpl. lia.
Qed.
End WhileGetopt.

(** The operands are the end of the argument list. *)
Lemma scan_args_operands (optstring : string) (args : list string) :
  exists pre, args = pre ++ snd (scan_args optstring args).
Proof.
  remember (length args) as n eqn:Hn. revert args Hn.
  induction n as [n IH] using lt_wf_ind. intros args ->.
  destruct args as [|a rest]; cbn [scan_args]; [by exists []|].
  destruct a as [|d [|c cl]]; [by exists []|by exists []|].
  destruct (negb (d =?c "-")%c); [by exists []|].
  destruct ((c =?c "-")%c && String.eqb cl ""); [by exists [String d (String c cl)]|].
  destruct (scan_cluster optstring (String c cl) rest) as [l used].
  assert (forall r, (length r <= length rest)%nat -> exists pre,
            r = pre ++ snd (scan_args optstring r)) as H.
  { intros r Hr. eapply (IH (length r)); simpl; [lia|done]. }
  assert (exists pre, rest = pre ++ snd (after_cluster optstring used rest))
    as [pre Hpre].
  { unfold after_cluster. destruct used; [|by apply H].
    destruct rest as [|b rest]; [by apply H|].
    destruct (H rest) as [pre Hpre]; [simpl; lia|].
    exists (b :: pre). simpl. by rewrite <- Hpre. }
  unfold after_cluster in Hpre.
  destruct (if used then _ else _) as [l' ops]. simpl in *.
  exists (String d (String c cl) :: pre). simpl. by rewrite <- Hpre.
Qed.

(** ** Where option arguments come from *)

(** [str] is an argument of the command line or the end of one. *)
Definition given (args : list string) (str : string) : Prop :=
  exists a pre, a ∈ args /\ a = pre +:+ str.

Definition given_opt (args : list string) (p : cstr) : Prop :=
  forall str, p = Some str -> given args str.

Definition given_item (args : list string) (it : item) : Prop :=
  match it with Opt _ p => given_opt args p | Bad _ => True end.

Lemma given_elem args a : a ∈ args -> given args a.
Proof. intros Ha. by exists a, "". Qed.

Lemma given_mono args args' str :
  (forall a, a ∈ args -> a ∈ args') -> given args str -> given args' str.
Proof. intros Hs (a & pre & Ha & E). exists a, pre. auto. Qed.

Lemma given_item_mono args args' it :
  (forall a, a ∈ args -> a ∈ args') -> given_item args it -> given_item args' it.
Proof. destruct it; simpl; [|done]. intros Hs Hg str E. eauto using given_mono. Qed.

Lemma scan_cluster_given (optstring cluster pre : string) (next : list string) :
  Forall (given_item ((pre +:+ cluster) :: next)) (fst (scan_cluster optstring cluster next)).
Proof.
  revert pre. induction cluster as [|c cl IH]; intros pre; cbn [scan_cluster]; [done|].
  specialize (IH (pre +:+ String c "")).
  rewrite <- string_app_assoc in IH. simpl in IH.
  destruct (find_opt c optstring) as [[|]|].
  - destruct cl as [|d cl].
    + destruct next as [|a next]; repeat constructor. intros ? [= <-].
      apply given_elem. right. by left.
    + repeat constructor. intros ? [= <-]. exists (pre +:+ String c (String d cl)), (pre +:+ String c "").
      split; [by left|]. by rewrite <- string_app_assoc.
  - destruct (scan_cluster optstring cl next) as [l used]. constructor; [|done]. by intros ? ?.
  - destruct (scan_cluster optstring cl next) as [l used]. by constructor.
Qed.

Lemma scan_args_given (optstring : string) (args : list string) :
  Forall (given_item args) (fst (scan_args optstring args)).
Proof.
  remember (length args) as n eqn:Hn. revert args Hn.
  induction n as [n IH] using lt_wf_ind. intros args ->.
  destruct args as [|a rest]; cbn [scan_args]; [done|].
  destruct a as [|d [|c cl]]; [done|done|].
  destruct (negb (d =?c "-")%c); [done|].
  destruct ((c =?c "-")%c && String.eqb cl ""); [done|].
  pose proof (scan_cluster_given optstring (String c cl) (String d "") rest) as Hc.
  destruct (scan_cluster optstring (String c cl) rest) as [l used]. simpl in Hc.
  assert (Forall (given_item (String d (String c cl) :: rest))
            (fst (after_cluster optstring used rest))) as Hl.
  { assert (forall r, (length r <= length rest)%nat -> (forall x, x ∈ r -> x ∈ rest) ->
      Forall (given_item (String d (String c cl) :: rest)) (fst (scan_args optstring r))) as H.
    { intros r Hr Hs. eapply Forall_impl; [|exact (IH (length r) ltac:(simpl; lia) r eq_refl)].
      intros it. apply given_item_mono. intros x Hx. right. auto. }
    unfold after_cluster. destruct used; [|by apply H].
    destruct rest as [|b rest]; [by apply H|]. apply H; [simpl; lia|]. intros x Hx. by right. }
  unfold after_cluster in Hl. destruct (if used then _ else _) as [l' ops]. simpl in *.
  by apply Forall_app.
Qed.

(** [getopt] returns letters of its option string. *)
Definition in_optstring (optstring : string) (it : item) : Prop :=
  match it with Opt c _ => find_opt c optstring <> None | Bad _ => True end.

Lemma scan_cluster_letters optstring cluster next :
  Forall (in_optstring optstring) (fst (scan_cluster optstring cluster next)).
Proof.
  induction cluster as [|c cl IH]; cbn [scan_cluster]; [done|].
  destruct (find_opt c optstring) as [[|]|] eqn:E.
  - destruct cl; [destruct next|]; repeat constructor; simpl; by rewrite ?E.
  - destruct (scan_cluster optstring cl next). constructor; [simpl; by rewrite E|done].
  - destruct (scan_cluster optstring cl next). by constructor.
Qed.

(** Where the reading goes on after a cluster. *)
Lemma skip_used {A} (used : bool) (rest : list string) (scan : list string -> A) :
  exists r, match used, rest with true, _ :: r => scan r | _, _ => scan rest end = scan r /\
    (length r <= length rest)%nat.
Proof. destruct used, rest; eexists; (split; [done|]); simpl; lia. Qed.

Lemma scan_args_letters optstring args :
  Forall (in_optstring optstring) (fst (scan_args optstring args)).
Proof.
  remember (length args) as n eqn:Hn. revert args Hn.
  induction n as [n IH] using lt_wf_ind. intros args ->.
  destruct args as [|a rest]; cbn [scan_args]; [done|].
  destruct a as [|d [|c cl]]; [done|done|].
  destruct (negb (d =?c "-")%c); [done|]. destruct (_ && _); [done|].
  pose proof (scan_cluster_letters optstring (String c cl) rest) as Hc.
  destruct (scan_cluster optstring (String c cl) rest) as [l used]. simpl in Hc.
  destruct (skip_used used rest (scan_args optstring)) as (r & -> & Hr).
  specialize (IH (length r) ltac:(simpl; lia) r eq_refl).
  destruct (scan_args optstring r) as [l' ops]. simpl in *. by apply Forall_app.
Qed.
