(* ===== verification/ArgParse.v ===== *)
(** * The shared shape of the programs' command lines

    Most programs define the same four functions: [usage] prints a message and
    the help text and exits, [parse_arguments] runs the [getopt] loop and
    checks the number of operands, [handle_arguments] checks that what is
    required was given and converts it, and [parse_*] turns a string into a
    number.  Their bodies differ in the texts, the option letters and the
    limits, which are the arguments of the definitions below.  The lemmas give
    the behaviour of each shape on every input. *)

From S2P Require Import Prelude CMonad CString Getopt.

(** ** [usage] *)

(** [usage(program_name, exit_code, message)] does not return. *)
Definition usage_t (W : Type) : Type :=
  forall A : Type, cstr -> Z -> option string -> C W A.

(** The body of a program's [usage]: the message if there is one, then the
    lines of the help text, then [exit]. *)
Definition usage_with {W} (help : string -> list string) : usage_t W :=
  fun A program_name exit_code message =>
    match message with Some m => eout (ln m) | None => mret tt end;;
    match program_name with
    | Some p => for_each (help p) (fun l => eout (ln l))
    | None => undef "printf: %s of NULL"
    end;;
    exit_ exit_code.

(** ** [parse_arguments] *)

Definition UNKNOWN_OPTION_MESSAGE_LEN : nat := 24.

(** The text [snprintf] formats for an unknown option. *)
Definition unknown_option_text (optopt : ascii) : string :=
  "Unknown option '-" +:+ String optopt "'.".

(** [char message[24]; snprintf(message, sizeof(message), ...)]. *)
Definition unknown_option_message (optopt : ascii) : string :=
  snprintf_str UNKNOWN_OPTION_MESSAGE_LEN (unknown_option_text optopt).

Section Shapes.
Context {W : Type} (usage : usage_t W).

Definition argv0 (argv : list string) : cstr := argv !! O.

(** [argv[i]]: the vector ends with a NULL pointer. *)
Definition argv_get (argv : list string) (i : nat) : C W cstr :=
  if (i <=? length argv)%nat then mret (argv !! i) else undef "argv index".

(** The cases every [switch(opt)] ends with: 'h', '?' and default. *)
Definition cases_with {S} (default_code : Z) (default_message : option string)
    (argv : list string) (opt optopt : ascii) : C W S :=
  if (opt =?c "h")%c then usage S (argv0 argv) EXIT_SUCCESS None
  else if (opt =?c "?")%c then
    usage S (argv0 argv) EXIT_FAILURE (Some (unknown_option_message optopt))
  else usage S (argv0 argv) default_code default_message.

(** In most programs the default case is [usage(argv[0], EXIT_FAILURE, NULL)]. *)
Definition std_cases {S} : list string -> ascii -> ascii -> C W S :=
  cases_with EXIT_FAILURE None.

(** [argc], [argv[i]] for an [int] index, and the checks
    [if(condition) usage(argv[0], EXIT_FAILURE, message)] after the loop. *)
Definition argc (argv : list string) : Z := Z.of_nat (length argv).

Definition argv_at (argv : list string) (i : Z) : C W cstr :=
  if i <? 0 then undef "argv index" else argv_get argv (Z.to_nat i).

Definition die_if (argv : list string) (condition : bool) (message : string) :
    C W unit :=
  if condition then usage unit (argv0 argv) EXIT_FAILURE (Some message) else mret tt.

(** [if(optind >= argc) usage(missing); if(optind < argc - 1) usage(many);
    *out = argv[optind]]. *)
Definition one_operand (argv : list string) (missing many : string) (optind : nat) :
    C W cstr :=
  if (Z.of_nat (length argv) <=? Z.of_nat optind)
  then usage _ (argv0 argv) EXIT_FAILURE (Some missing)
  else if (Z.of_nat optind <? Z.of_nat (length argv) - 1)
  then usage _ (argv0 argv) EXIT_FAILURE (Some many)
  else argv_get argv optind.

(** The whole [parse_arguments] of a program whose only option is -h and
    that takes one operand. *)
Definition parse_one_operand (missing many : string) (argv : list string) :
    C W cstr :=
  '(_, optind) ← while_getopt "h" argv
    (fun opt _ optopt _ => std_cases (S := unit) argv opt optopt) tt;
  one_operand argv missing many optind.

(** ** [handle_arguments] *)

(** [if(p == NULL) usage(binary_name, EXIT_FAILURE, message)]. *)
Definition require (binary_name p : cstr) (message : string) : C W string :=
  match p with
  | None => usage _ binary_name EXIT_FAILURE (Some message)
  | Some s => mret s
  end.

(** ** [parse_*]

    [errno = 0; v = strtoumax(str, &endptr, 10)], the three checks, and the
    cast to the [w]-bit result type.  The limit is a computation: some
    programs call [get_*_max] before the conversion, some after it. *)
Definition parse_unsigned (on_errno on_garbage on_range max : C W Z) (w : Z)
    (str : string) : C W Z :=
  set_errno 0;;
  '(parsed_value, endptr) ← strtoumax str;
  e ← get_errno;
  if negb (e =? 0) then on_errno
  else if negb (String.eqb endptr "") then on_garbage
  else
    m ← max;
    if m <? parsed_value then on_range
    else mret (to_unsigned w parsed_value).

Definition parse_signed (on_errno on_garbage on_range : C W Z) (min max w : Z)
    (str : string) : C W Z :=
  set_errno 0;;
  '(parsed_value, endptr) ← strtoimax str;
  e ← get_errno;
  if negb (e =? 0) then on_errno
  else if negb (String.eqb endptr "") then on_garbage
  else if (parsed_value <? min) || (max <? parsed_value) then on_range
  else mret (to_signed w parsed_value).

(** The failures of a [parse_*] function: [usage(binary_name, EXIT_FAILURE,
    message)], or for [in_port_t] [perror] and [exit]. *)
Definition fail_usage (binary_name : cstr) (message : string) : C W Z :=
  usage _ binary_name EXIT_FAILURE (Some message).

(** [get_*_max] and [get_*_min]: the limit of an integer type by its size, in
    bytes.  On this platform [char], [short], [int], [long] and [long long]
    have 1, 2, 4, 8 and 8. *)
Definition get_unsigned_max (type : string) (size : Z) : C W Z :=
  if size =? 1 then mret UINT8_MAX
  else if size =? 2 then mret UINT16_MAX
  else if size =? 4 then mret UINT_MAX
  else if size =? 8 then mret ULONG_MAX
  else if size =? 8 then mret ULONG_MAX
  else eout (ln ("Unsupported size of " +:+ type));; exit_ EXIT_FAILURE.

Definition get_signed_max (type : string) (size : Z) : C W Z :=
  if size =? 1 then mret 127
  else if size =? 2 then mret 32767
  else if size =? 4 then mret INT_MAX
  else if size =? 8 then mret LONG_MAX
  else if size =? 8 then mret LONG_MAX
  else eout (ln ("Unsupported size of " +:+ type));; exit_ EXIT_FAILURE.

Definition get_signed_min (type : string) (size : Z) : C W Z :=
  if size =? 1 then mret (-128)
  else if size =? 2 then mret (-32768)
  else if size =? 4 then mret INT_MIN
  else if size =? 8 then mret LONG_MIN
  else if size =? 8 then mret LONG_MIN
  else eout (ln ("Unsupported size of " +:+ type));; exit_ EXIT_FAILURE.
End Shapes.

(** ** What a string of digits denotes *)

(** The grammar of the base-ten subject sequence: white space, an optional
    sign, at least one digit. *)
Definition all_chars (P : ascii -> bool) (s : string) : Prop :=
  Forall (fun c => P c = true) (chars s).

Inductive sign_of : string -> bool -> Prop :=
| sign_none : sign_of "" false
| sign_plus : sign_of "+" false
| sign_minus : sign_of "-" true.

Definition digits_value (ds : list ascii) : Z :=
  fold_left (fun a c => 10 * a + digit_val c) ds 0.

(** [str] is the numeral of sign [neg] and magnitude [m]. *)
Definition numeral (str : string) (neg : bool) (m : Z) : Prop :=
  exists sp sg ds,
    str = sp +:+ sg +:+ ds /\ all_chars isspace sp /\ sign_of sg neg /\
    all_chars isdigit ds /\ ds <> "" /\ m = digits_value (chars ds).

(** ** Lemmas: the scanner recognises the grammar *)

Lemma skip_space_app (sp s : string) :
  all_chars isspace sp -> skip_space (sp +:+ s) = skip_space s.
Proof.
  unfold all_chars. induction sp as [|c sp IH]; intros H; [done|]. simpl in *.
  inversion_clear H as [|? ? Hc Hs]. rewrite Hc. auto.
Qed.

Lemma skip_space_spec (s : string) :
  exists sp, s = sp +:+ skip_space s /\ all_chars isspace sp.
Proof.
  induction s as [|c s (sp & E & H)]; simpl; [by exists ""; repeat constructor|].
  destruct (isspace c) eqn:Ec.
  - exists (String c sp). simpl. rewrite <- E. split; [done|]. by constructor.
  - by exists ""; repeat constructor.
Qed.

Lemma digit_not_space (c : ascii) : isdigit c = true -> isspace c = false.
Proof.
  unfold isdigit, isspace. intros H. bools.
  apply orb_false_iff. split; [apply Z.eqb_neq; lia|].
  apply andb_false_iff. right. apply Z.leb_gt. lia.
Qed.

Lemma digit_not_sign (c : ascii) : isdigit c = true ->
  (c =?c "-")%c = false /\ (c =?c "+")%c = false.
Proof.
  intros H. split; apply Ascii.eqb_neq; intros ->; done.
Qed.

Lemma scan_digits_all (ds : string) (a : Z) (any : bool) :
  all_chars isdigit ds ->
  scan_digits a any ds =
  (fold_left (fun a c => 10 * a + digit_val c) (chars ds) a,
   any || negb (String.eqb ds ""), "").
Proof.
  unfold all_chars. revert a any. induction ds as [|c ds IH]; intros a any H; simpl.
  - by rewrite orb_false_r.
  - inversion_clear H as [|? ? Hc Hs]. rewrite Hc, IH by done. simpl.
    by rewrite orb_true_r.
Qed.

Lemma scan_digits_end (s : string) (a m : Z) (any any' : bool) :
  scan_digits a any s = (m, any', "") -> all_chars isdigit s.
Proof.
  unfold all_chars. revert a any. induction s as [|c s IH]; intros a any E; simpl in *; [constructor|].
  destruct (isdigit c) eqn:Ec; [|done]. constructor; eauto.
Qed.

Lemma scan_number_numeral (str : string) (neg : bool) (m : Z) :
  scan_number str = Some (neg, m, "") <-> numeral str neg m.
Proof.
  unfold scan_number, numeral. split.
  - destruct (skip_space_spec str) as (sp & E & Hsp).
    destruct (scan_sign (skip_space str)) as [neg' s1] eqn:Es.
    destruct (scan_digits 0 false s1) as [[m' any] rest] eqn:Ed.
    destruct any; intros H; simplify_eq.
    pose proof (scan_digits_end _ _ _ _ _ Ed) as Hd.
    rewrite scan_digits_all in Ed by done. injection Ed as <- Hne.
    assert (exists sg, skip_space str = sg +:+ s1 /\ sign_of sg neg) as (sg & E1 & Hsg).
    { revert Es. destruct (skip_space str) as [|c r]; simpl; [by intros; simplify_eq|].
      destruct (Ascii.eqb_spec c "-"%char) as [->|];
        [intros; simplify_eq; by exists "-"; repeat constructor|].
      destruct (Ascii.eqb_spec c "+"%char) as [->|];
        intros; simplify_eq; [by exists "+"; repeat constructor|].
      by exists ""; repeat constructor. }
    exists sp, sg, s1. rewrite E at 1. rewrite E1. split_and!; try done.
    intros ->. done.
  - intros (sp & sg & ds & -> & Hsp & Hsg & Hds & Hne & ->).
    rewrite skip_space_app by done.
    destruct ds as [|c ds]; [done|].
    assert (isdigit c = true) as Hc by (by inversion_clear Hds).
    destruct (digit_not_sign c Hc) as [H1 H2]. pose proof (digit_not_space c Hc) as H3.
    assert (scan_sign (skip_space (sg +:+ String c ds)) = (neg, String c ds)) as ->.
    { destruct Hsg; simpl; try done. by rewrite H3; simpl; rewrite H1, H2. }
    by rewrite scan_digits_all.
Qed.

(** ** Lemmas: [parse_unsigned] and [parse_signed] *)

(** The numbers [parse_unsigned] accepts: the empty string reads as zero, a
    minus sign negates modulo [2 ^ 64]. *)
Definition unsigned_denotes (str : string) (v : Z) : Prop :=
  (str = "" /\ v = 0) \/
  exists neg m, numeral str neg m /\ m <= UINTMAX_MAX /\
    v = to_unsigned 64 (if neg then - m else m).

Definition signed_denotes (str : string) (v : Z) : Prop :=
  (str = "" /\ v = 0) \/
  exists neg m, numeral str neg m /\ v = (if neg then - m else m) /\
    INTMAX_MIN <= v <= INTMAX_MAX.

Lemma strtoumax_denotes (str : string) (v : Z) :
  strtoumax_val str = Strto v "" None <-> unsigned_denotes str v.
Proof.
  unfold strtoumax_val, unsigned_denotes. split.
  - destruct (scan_number str) as [[[neg m] rest]|] eqn:E; [|intros; simplify_eq; auto].
    destruct (UINTMAX_MAX <? m) eqn:Em; bools; intros; simplify_eq.
    right. exists neg, m. by rewrite <- scan_number_numeral.
  - intros [[-> ->]|(neg & m & Hn & Hm & ->)]; [done|].
    apply scan_number_numeral in Hn. rewrite Hn.
    by rewrite (proj2 (Z.ltb_ge _ _)) by done.
Qed.

Lemma strtoimax_denotes (str : string) (v : Z) :
  strtoimax_val str = Strto v "" None <-> signed_denotes str v.
Proof.
  unfold strtoimax_val, signed_denotes. split.
  - destruct (scan_number str) as [[[neg m] rest]|] eqn:E; [|intros; simplify_eq; auto].
    destruct (_ <? INTMAX_MIN) eqn:E1; [done|].
    destruct (INTMAX_MAX <? _) eqn:E2; bools; intros; simplify_eq.
    right. exists neg, m. rewrite <- scan_number_numeral. split_and!; done || lia.
  - intros [[-> ->]|(neg & m & Hn & -> & Hm)]; [done|].
    apply scan_number_numeral in Hn. rewrite Hn.
    by rewrite !(proj2 (Z.ltb_ge _ _)) by lia.
Qed.

Section Parse.
Context {W : Type}.
Implicit Types s : cstate W.

(** A computation that never yields a value. *)
Definition noreturn {A} (m : C W A) : Prop := forall s a s', m s <> (Val a, s').

Lemma usage_noreturn (help : string -> list string) A p code msg :
  noreturn (usage_with help A p code msg : C W A).
Proof.
  intros s a s' E. unfold usage_with in E.
  apply bind_inv_val in E as (? & ? & _ & E).
  apply bind_inv_val in E as (? & ? & _ & E). done.
Qed.

Lemma parse_unsigned_val (f1 f2 f3 mx : C W Z) (max w : Z) (str : string) v s s' :
  noreturn f1 -> noreturn f2 -> noreturn f3 ->
  (forall s, mx s = (Val max, s)) -> max < 2 ^ w ->
  parse_unsigned f1 f2 f3 mx w str s = (Val v, s') <->
  unsigned_denotes str v /\ v <= max /\ s' = CState 0 (trace s) (world s).
Proof.
  intros H1 H2 H3 Hmx Hw. rewrite <- strtoumax_denotes.
  pose proof (strtoumax_range str) as Hr.
  unfold parse_unsigned, strtoumax, strto_call.
  destruct (strtoumax_val str) as [v' rest err] eqn:Es; simpl in *.
  cstep. destruct err as [e|]; simpl.
  - assert (e = ERANGE) as ->.
    { unfold strtoumax_val in Es. repeat case_match; by simplify_eq. }
    simpl. split; [intros E; by apply H1 in E | by intros (E & _)].
  - destruct (String.eqb_spec rest "") as [->|]; simpl;
      [|split; [intros E; by apply H2 in E | by intros (E & _); simplify_eq]].
    rewrite Hmx. destruct (max <? v') eqn:Em; bools.
    + split; [intros E; by apply H3 in E|]. intros (E & ? & _). simplify_eq. lia.
    + rewrite to_unsigned_small by lia.
      split; [intros ?; by simplify_eq | intros (? & _ & ->); by simplify_eq].
Qed.

Lemma parse_signed_val (f1 f2 f3 : C W Z) (min max w : Z) (str : string) v s s' :
  noreturn f1 -> noreturn f2 -> noreturn f3 ->
  0 < w -> - 2 ^ (w - 1) <= min -> max < 2 ^ (w - 1) ->
  parse_signed f1 f2 f3 min max w str s = (Val v, s') <->
  signed_denotes str v /\ min <= v <= max /\ s' = CState 0 (trace s) (world s).
Proof.
  intros H1 H2 H3 Hw Hmin Hmax. rewrite <- strtoimax_denotes.
  unfold parse_signed, strtoimax, strto_call.
  destruct (strtoimax_val str) as [v' rest err] eqn:Es; simpl in *.
  cstep. destruct err as [e|]; simpl.
  - assert (e = ERANGE) as ->.
    { unfold strtoimax_val in Es. repeat case_match; by simplify_eq. }
    simpl. split; [intros E; by apply H1 in E | by intros (E & _)].
  - destruct (String.eqb_spec rest "") as [->|]; simpl;
      [|split; [intros E; by apply H2 in E | by intros (E & _); simplify_eq]].
    destruct ((v' <? min) || (max <? v')) eqn:Em.
    + split; [intros E; by apply H3 in E|]. intros (E & ? & _). simplify_eq.
      apply orb_true_iff in Em as [?|?]; bools; lia.
    + apply orb_false_iff in Em as [? ?]. bools.
      rewrite to_signed_small by lia.
      split; [intros ?; by simplify_eq | intros (? & _ & ->); by simplify_eq].
Qed.
End Parse.

(** Decimal output reads back as the number. *)
Lemma unsigned_denotes_fmt (n : Z) : 0 <= n <= UINTMAX_MAX -> unsigned_denotes (fmt_u n) n.
Proof. intros. apply strtoumax_denotes. by apply strtoumax_fmt_u. Qed.

Lemma signed_denotes_fmt (z : Z) :
  INTMAX_MIN <= z <= INTMAX_MAX -> signed_denotes (fmt_d z) z.
Proof. intros. apply strtoimax_denotes. by apply strtoimax_fmt_d. Qed.

Create HintDb cli.
#[export] Hint Resolve usage_noreturn unsigned_denotes_fmt signed_denotes_fmt : cli.

(** ** Lemmas: [usage] and the one-operand command line *)

(** What [usage] prints. *)
Definition usage_events (help : string -> list string) (p : string)
    (message : option string) : list event :=
  (fun l => EErr (ln l)) <$> (option_list message ++ help p).

Lemma for_each_eout {W} (l : list string) (s : cstate W) :
  for_each l (fun x => eout (ln x)) s =
  (Val tt, CState (errno s) (trace s ++ ((fun x => EErr (ln x)) <$> l)) (world s)).
Proof.
  revert s. induction l as [|x l IH]; intros s; simpl.
  - unfold mret, C_ret. rewrite app_nil_r. by destruct s.
  - unfold mbind, C_bind, eout, emit. rewrite IH. simpl. by rewrite <- app_assoc.
Qed.

(** [usage] prints the message and the help text and exits with its code. *)
Lemma usage_run {W} (help : string -> list string) A p code msg (s : cstate W) :
  usage_with help A (Some p) code msg s =
  (Exit code, CState (errno s) (trace s ++ usage_events help p msg) (world s)).
Proof.
  unfold usage_with, usage_events. destruct msg as [m|].
  - rewrite (bind_val _ _ _ tt (CState (errno s) (trace s ++ [EErr (ln m)]) (world s)))
      by done.
    erewrite bind_val by apply for_each_eout. simpl. by rewrite <- app_assoc.
  - rewrite (bind_val _ _ _ tt s) by done. by erewrite bind_val by apply for_each_eout.
Qed.

Lemma usage_events_lines help p msg :
  usage_events help p msg = EErr <$> (ln <$> (option_list msg ++ help p)).
Proof. unfold usage_events. by rewrite <- list_fmap_compose. Qed.

Lemma usage_fueled {W} (help : string -> list string) A p code msg :
  fueled (usage_with help A p code msg : C W A).
Proof.
  unfold usage_with. apply fueled_bind; [by destruct msg|]. intros _.
  apply fueled_bind; [|by intros _]. destruct p as [p|]; [|done].
  intros s. by rewrite for_each_eout.
Qed.

(** How a command line whose only option is -h reads. *)
Inductive reading :=
| Help
| Unknown (c : ascii)
| Operands (ops : list string).

Definition help_reading (args : list string) : reading :=
  match args with
  | String d (String c cl) :: rest =>
      if negb (d =?c "-")%c then Operands args
      else if (c =?c "-")%c && String.eqb cl "" then Operands rest
      else if (c =?c "h")%c then Help else Unknown c
  | _ => Operands args
  end.

(** The run of [parse_arguments] for each reading. *)
Definition one_operand_outcome {W} (help : string -> list string)
    (missing many prog : string) (r : reading) (s : cstate W) :
    outcome cstr * cstate W :=
  let die code msg :=
    (Exit code,
     CState (errno s) (trace s ++ usage_events help prog msg) (world s)) in
  match r with
  | Help => die EXIT_SUCCESS None
  | Unknown c => die EXIT_FAILURE (Some (unknown_option_message c))
  | Operands [] => die EXIT_FAILURE (Some missing)
  | Operands [p] => (Val (Some p), s)
  | Operands _ => die EXIT_FAILURE (Some many)
  end.

Lemma one_operand_run {W} help (missing many prog : string) (args ops : list string)
    (s : cstate W) :
  (exists pre, args = pre ++ ops) ->
  one_operand (usage_with help) (prog :: args) missing many
    (Datatypes.S (length args) - length ops) s =
  one_operand_outcome help missing many prog (Operands ops) s.
Proof.
  intros [pre ->]. unfold one_operand, argv_get. cbn [length]. rewrite length_app.
  destruct ops as [|p [|q ops]]; cbn [length].
  - rewrite (proj2 (Z.leb_le _ _)) by lia. apply usage_run.
  - rewrite (proj2 (Z.leb_gt _ _)), (proj2 (Z.ltb_ge _ _)) by lia.
    rewrite (proj2 (Nat.leb_le _ _)) by lia.
    replace (S (length pre + 1) - 1)%nat with (S (length pre)) by lia.
    simpl. by rewrite list_lookup_middle.
  - rewrite (proj2 (Z.leb_gt _ _)), (proj2 (Z.ltb_lt _ _)) by lia. apply usage_run.
Qed.

Lemma find_opt_h (c : ascii) :
  find_opt c "h" = if (c =?c "h")%c then Some false else None.
Proof. by destruct c as [[] [] [] [] [] [] [] []]. Qed.

(** The first letter of a cluster decides the first item. *)
Lemma scan_cluster_h (c : ascii) (cl : string) (rest : list string) :
  exists l used, scan_cluster "h" (String c cl) rest =
    ((if (c =?c "h")%c then Opt c None else Bad c) :: l, used).
Proof.
  cbn [scan_cluster]. rewrite find_opt_h.
  destruct (scan_cluster "h" cl rest) as [l used].
  destruct (c =?c "h")%c; eauto.
Qed.

Lemma parse_one_operand_run {W} help (missing many prog : string) (args : list string)
    (s : cstate W) :
  parse_one_operand (usage_with help) missing many (prog :: args) s =
  one_operand_outcome help missing many prog (help_reading args) s.
Proof.
  unfold parse_one_operand. unfold mbind at 1, C_bind at 1. rewrite while_getopt_scan.
  destruct args as [|a rest];
    [apply (one_operand_run help missing many prog [] []); by exists []|].
  cbn [scan_args]. destruct a as [|d [|c cl]];
    [apply (one_operand_run help missing many prog (_ :: rest) (_ :: rest)); by exists []..|].
  unfold help_reading. destruct (negb (d =?c "-")%c);
    [apply (one_operand_run help missing many prog (_ :: rest) (_ :: rest)); by exists []|].
  destruct ((c =?c "-")%c && String.eqb cl "");
    [apply (one_operand_run help missing many prog (_ :: rest) rest); by eexists [_]|].
  destruct (scan_cluster_h c cl rest) as (l & used & ->).
  destruct (if used then match rest with [] => _ | _ => _ end else _) as [l' ops].
  simpl. destruct (c =?c "h")%c eqn:Eh; simpl; unfold std_cases, cases_with; rewrite ?Eh; simpl;
    unfold mbind, C_bind, argv0; simpl; by rewrite usage_run.
Qed.

(** ** The discipline of a front end

    [starts asked help m Q]: whatever the state, [m] either returns a value that
    satisfies [Q], having written nothing, or refuses.  A refusal with
    [EXIT_FAILURE] follows a diagnostic; one with [EXIT_SUCCESS] prints the help text
    and is given only when it was [asked] for.  In no case does [m] run out of fuel,
    have undefined behaviour, write anywhere but to [stderr] or make a system call. *)
Definition is_diagnostic (e : event) : Prop :=
  match e with EErr _ | EPerror _ _ => True | _ => False end.

Definition refusal (asked : Prop) (help : list event) (c : Z) (t : list event) : Prop :=
  t <> [] /\ Forall is_diagnostic t /\
  (c = EXIT_FAILURE \/ c = EXIT_SUCCESS /\ t = help /\ asked).

Definition starts {W A} (asked : Prop) (help : list event) (m : C W A) (Q : A -> Prop) : Prop :=
  forall s, exists t, trace (snd (m s)) = trace s ++ t /\ world (snd (m s)) = world s /\
    match fst (m s) with
    | Val a => t = [] /\ Q a
    | Exit c => refusal asked help c t
    | _ => False
    end.

(** What the programs that use a command line need of it: the front end writes
    diagnostics only, does so when it refuses, and makes no call. *)
Definition front {W A} (m : C W A) (Q : A -> Prop) : Prop :=
  forall s, exists t, Forall is_diagnostic t /\
    trace (snd (m s)) = trace s ++ t /\ world (snd (m s)) = world s /\
    match fst (m s) with
    | Val a => Q a
    | Exit c => t <> [] /\ (c = EXIT_SUCCESS \/ c = EXIT_FAILURE)
    | _ => False
    end.

Lemma starts_front {W A} asked help (m : C W A) Q : starts asked help m Q -> front m Q.
Proof.
  intros Hm s. destruct (Hm s) as (t & E & Ew & H). exists t.
  destruct (fst (m s)) as [a|c|u|]; [destruct H as [-> H]|destruct H as (Hn & Ht & H)|done..];
    split_and!; try done. destruct H as [H|[H _]]; auto.
Qed.

Lemma front_weaken {W A} (m : C W A) (Q Q' : A -> Prop) :
  front m Q -> (forall a, Q a -> Q' a) -> front m Q'.
Proof.
  intros Hm HQ s. destruct (Hm s) as (t & ? & ? & ? & H). exists t.
  split_and!; [done..|]. destruct (fst (m s)); auto.
Qed.

(** The start of a [main] does not run out of fuel. *)
Lemma front_fueled {W A} (m : C W A) G : front m G -> fueled m.
Proof. intros Hm s E. destruct (Hm s) as (t & _ & _ & _ & Hv). by rewrite E in Hv. Qed.

Lemma usage_events_diagnostic help p msg : Forall is_diagnostic (usage_events help p msg).
Proof. unfold usage_events. apply Forall_fmap. by apply Forall_forall. Qed.

Lemma usage_events_nonempty help p msg : help p <> [] -> usage_events help p msg <> [].
Proof. unfold usage_events. destruct msg; simpl; [done|]. by destruct (help p). Qed.

(** What [getopt] can hand to a [switch]: '?' or a letter of the option string. *)
Definition letter (options : string) (asked : Prop) (c : ascii) : Prop :=
  (c = "?"%char \/ is_Some (find_opt c options)) /\ (c = "h"%char -> asked).

(** [-h] is among the options, as [getopt] reads the command line. *)
Definition asks_help (options : string) (args : list string) : Prop :=
  exists p, Opt "h" p ∈ fst (scan_args options args).

Section Front.
Context {W : Type} (asked : Prop) (shown : list event).
Local Abbreviation starts := (starts (W:=W) asked shown).

Lemma starts_weaken {A} (m : C W A) (Q Q' : A -> Prop) :
  starts m Q -> (forall a, Q a -> Q' a) -> starts m Q'.
Proof.
  intros Hm HQ s. destruct (Hm s) as (t & ? & ? & H). exists t.
  split_and!; [done..|]. destruct (fst (m s)); naive_solver.
Qed.

Lemma starts_ret {A} (a : A) (Q : A -> Prop) : Q a -> starts (mret a : C W A) Q.
Proof. intros H s. exists []. simpl. by rewrite app_nil_r. Qed.

Lemma starts_bind {A B} (m : C W A) (f : A -> C W B) P (Q : B -> Prop) :
  starts m P -> (forall a, P a -> starts (f a) Q) -> starts (m ≫= f) Q.
Proof.
  intros Hm Hf s. destruct (Hm s) as (t & E & Ew & H).
  unfold mbind, C_bind. destruct (m s) as [[a|c|w|] s1]; simpl in *; try done.
  - destruct H as [-> H]. rewrite app_nil_r in E.
    destruct (Hf a H s1) as (t' & E' & Ew' & H'). exists t'. by rewrite E', E, Ew'.
  - by exists t.
Qed.

Lemma starts_get_errno (Q : Z -> Prop) : (forall e, Q e) -> starts (get_errno : C W Z) Q.
Proof. intros H s. exists []. simpl. by rewrite app_nil_r. Qed.

Lemma starts_set_errno e (Q : unit -> Prop) : Q tt -> starts (set_errno e : C W unit) Q.
Proof. intros H s. exists []. simpl. by rewrite app_nil_r. Qed.

Lemma starts_perror_exit {A} msg (Q : A -> Prop) :
  starts (perror msg;; exit_ EXIT_FAILURE : C W A) Q.
Proof.
  intros s. exists [EPerror msg (errno s)]. split_and!; [done..|].
  split_and!; [done|by repeat constructor|by left].
Qed.

(** [usage] is always called with a program name that is not NULL. *)
Lemma starts_usage {A} help p msg (Q : A -> Prop) :
  help p <> [] -> starts (usage_with help A (Some p) EXIT_FAILURE msg : C W A) Q.
Proof.
  intros Hh s. rewrite usage_run. eexists. split_and!; [done..|].
  split_and!; [by apply usage_events_nonempty|apply usage_events_diagnostic|by left].
Qed.

Lemma starts_help {A} help p (Q : A -> Prop) :
  help p <> [] -> shown = usage_events help p None -> asked ->
  starts (usage_with help A (Some p) EXIT_SUCCESS None : C W A) Q.
Proof.
  intros Hh E Ha s. rewrite usage_run. eexists. split_and!; [done..|].
  split_and!; [by apply usage_events_nonempty|apply usage_events_diagnostic|by right].
Qed.

Lemma starts_if {A} (b : bool) (m1 m2 : C W A) Q :
  (b = true -> starts m1 Q) -> (b = false -> starts m2 Q) ->
  starts (if b then m1 else m2) Q.
Proof. by destruct b; auto. Qed.

Lemma starts_die_if help prog args b msg (Q : unit -> Prop) :
  help prog <> [] -> (b = false -> Q tt) ->
  starts (die_if (usage_with help) (prog :: args) b msg : C W unit) Q.
Proof.
  intros Hh HQ. destruct b; simpl; [by apply starts_usage | by apply starts_ret; auto].
Qed.

Lemma starts_require help prog p msg (Q : string -> Prop) :
  help prog <> [] -> (forall a, p = Some a -> Q a) ->
  starts (require (usage_with help) (Some prog) p msg : C W string) Q.
Proof.
  intros Hh HQ. destruct p as [a|]; simpl; [by apply starts_ret, HQ | by apply starts_usage].
Qed.

(** The last cases of the [switch]; a default that ends with success is reached by no
    letter the option string has. *)
Lemma starts_cases help prog args opt optopt options code {S} msg (Q : S -> Prop) :
  help prog <> [] -> shown = usage_events help prog None -> letter options asked opt ->
  code = EXIT_FAILURE \/ (forall c, is_Some (find_opt c options) -> c = "h"%char) ->
  starts (cases_with (usage_with help) code msg (prog :: args) opt optopt : C W S) Q.
Proof.
  intros Hh E [Hl Ha] Hc. unfold cases_with, argv0. simpl.
  destruct (Ascii.eqb_spec opt "h"); [apply starts_help; auto|].
  destruct (Ascii.eqb_spec opt "?"); [by apply starts_usage|].
  destruct Hc as [->|Hc]; [by apply starts_usage|]. destruct Hl as [?|Hl]; [done|].
  by apply Hc in Hl.
Qed.

Lemma starts_run_items {S} (sw : ascii -> cstr -> ascii -> S -> C W S)
    (I : S -> Prop) (G : cstr -> Prop) (L : ascii -> Prop) l o st :
  I st -> G None -> L "?"%char ->
  Forall (fun it => match it with Opt c a => L c /\ G a | Bad _ => True end) l ->
  (forall c a o st, L c -> G a -> I st -> starts (sw c a o st) I) ->
  starts (run_items sw l o st) I.
Proof.
  intros Hi Hn Hq Hl Hsw. revert o st Hi.
  induction Hl as [|[c a|c] l Ha Hl IH]; intros o st Hi; simpl; [by apply starts_ret|..].
  - destruct Ha. eapply starts_bind; [by apply Hsw|auto].
  - eapply starts_bind; [by apply Hsw|auto].
Qed.

(** After the option loop [optind] is between 1 and [argc], and what the
    [switch] stored comes from the command line. *)
Lemma starts_while_getopt {S} options sw prog args (I : S -> Prop) (st : S) :
  asked = asks_help options args ->
  I st ->
  (forall c a o st, letter options asked c -> given_opt args a -> I st -> starts (sw c a o st) I) ->
  starts (while_getopt options (prog :: args) sw st : C W (S * nat))
    (fun p => I (fst p) /\ (1 <= snd p <= Datatypes.S (length args))%nat).
Proof.
  intros Hasked Hi Hsw s. rewrite while_getopt_scan.
  destruct (scan_args_operands options args) as [pre Hpre].
  pose proof (scan_args_given options args) as Hg.
  pose proof (scan_args_letters options args) as Hl. unfold asks_help in Hasked.
  destruct (scan_args options args) as [items ops]. simpl in Hpre, Hg, Hl, Hasked.
  apply (starts_bind _ _ I).
  - apply (starts_run_items _ _ (given_opt args) (letter options asked)); try done.
    { split; [by left|done]. }
    rewrite Forall_forall in Hg, Hl |- *. intros [c a|c] Hin; [|done].
    split; [|exact (Hg _ Hin)]. split; [right; apply not_eq_None_Some; exact (Hl _ Hin)|]. intros ->. subst asked.
    exists a. by apply list_elem_of_In.
  - intros st' Hst. apply starts_ret. split; [done|]. simpl. subst args.
    rewrite length_app. lia.
Qed.

(** [strto*] and then [errno]: it is the error of the conversion, or what it
    was before. *)
Lemma starts_strto {A} (r : strto) (f : Z -> string -> Z -> C W A) (Q : A -> Prop) :
  (forall er, (forall e, st_err r = Some e -> er = e) -> starts (f (st_value r) (st_end r) er) Q) ->
  starts ('(v, rest) ← strto_call r; er ← get_errno; f v rest er) Q.
Proof.
  intros Hf s. unfold strto_call, mbind, C_bind, get_errno.
  destruct (st_err r) as [e|]; simpl.
  - destruct (Hf e ltac:(by intros ? [= <-]) (CState e (trace s) (world s))) as (t & Ht). by exists t.
  - destruct (Hf (errno s) ltac:(done) s) as (t & Ht). by exists t.
Qed.

Lemma starts_parse_unsigned (f1 f2 f3 mx : C W Z) max w str (Q : Z -> Prop) :
  starts f1 Q -> starts f2 Q -> starts f3 Q -> starts mx (eq max) -> max < 2 ^ w ->
  (forall v, unsigned_denotes str v -> v <= max -> Q v) ->
  starts (parse_unsigned f1 f2 f3 mx w str) Q.
Proof.
  intros H1 H2 H3 Hmx Hw HQ. unfold parse_unsigned.
  eapply (starts_bind _ _ (fun _ => True)); [by apply starts_set_errno|intros _ _].
  apply (starts_strto (_ str)). intros er Her.
  destruct (negb (er =? 0)) eqn:E1; [done|]. destruct (negb (String.eqb _ "")) eqn:E2; [done|].
  bools. apply String.eqb_eq in E2. pose proof (strtoumax_range str) as Hr.
  eapply starts_bind; [done|]. intros ? <-.
  destruct (max <? _) eqn:E; [done|]. bools. apply starts_ret.
  rewrite to_unsigned_small by lia. apply HQ; [|done].
  apply strtoumax_denotes. destruct (strtoumax_val str) as [v rest [e|]] eqn:Ev; simpl in *; [|by subst].
  exfalso. specialize (Her e eq_refl). unfold strtoumax_val in Ev.
  repeat case_match; simplify_eq; done.
Qed.

Lemma starts_parse_signed (f1 f2 f3 : C W Z) min max w str (Q : Z -> Prop) :
  starts f1 Q -> starts f2 Q -> starts f3 Q ->
  0 < w -> - 2 ^ (w - 1) <= min -> max < 2 ^ (w - 1) ->
  (forall v, signed_denotes str v -> min <= v <= max -> Q v) ->
  starts (parse_signed f1 f2 f3 min max w str) Q.
Proof.
  intros H1 H2 H3 Hw Hmin Hmax HQ. unfold parse_signed.
  eapply (starts_bind _ _ (fun _ => True)); [by apply starts_set_errno|intros _ _].
  apply (starts_strto (_ str)). intros er Her.
  destruct (negb (er =? 0)) eqn:E1; [done|]. destruct (negb (String.eqb _ "")) eqn:E2; [done|].
  bools. apply String.eqb_eq in E2.
  destruct ((_ <? min) || (max <? _)) eqn:E; [done|]. apply orb_false_iff in E as [? ?].
  bools. apply starts_ret. rewrite to_signed_small by lia. apply HQ; [|lia].
  apply strtoimax_denotes. destruct (strtoimax_val str) as [v rest [e|]] eqn:Ev; simpl in *; [|by subst].
  exfalso. specialize (Her e eq_refl). unfold strtoimax_val in Ev.
  repeat case_match; simplify_eq; done.
Qed.
End Front.

(** ** Programs and the tactic that checks their front end *)

(** What the variables a program sets hold of the command line: strings are
    its arguments or their ends, flags are free. *)
Class FromArgs (A : Type) := from_args : list string -> A -> Prop.
#[export] Instance from_args_string : FromArgs string := given.
#[export] Instance from_args_cstr : FromArgs cstr := given_opt.
#[export] Instance from_args_bool : FromArgs bool := fun _ _ => True.
#[export] Instance from_args_unit : FromArgs unit := fun _ _ => True.
#[export] Instance from_args_nat : FromArgs nat := fun _ _ => True.
#[export] Instance from_args_prod {A B} `{FromArgs A} `{FromArgs B} : FromArgs (A * B) :=
  fun args p => from_args args (fst p) /\ from_args args (snd p).

(** A number of the command line, within the limits of its type. *)
Definition unsigned_in (max : Z) (args : list string) (v : Z) : Prop :=
  exists str, given args str /\ unsigned_denotes str v /\ v <= max.

Definition signed_in (min max : Z) (args : list string) (v : Z) : Prop :=
  exists str, given args str /\ signed_denotes str v /\ min <= v <= max.

Section Specs.
Context {W : Type} (asked : Prop) (shown : list event).
Local Abbreviation starts := (starts (W:=W) asked shown).

Lemma starts_getopt_spec {S} `{FromArgs S} options sw prog args (st : S) :
  asked = asks_help options args ->
  from_args args st ->
  (forall c a o st, letter options asked c -> from_args args a -> from_args args st ->
     starts (sw c a o st) (from_args args)) ->
  starts (while_getopt options (prog :: args) sw st : C W (S * nat))
    (fun p => from_args args (fst p) /\ (1 <= snd p <= Datatypes.S (length args))%nat).
Proof. intros. by apply starts_while_getopt. Qed.

Lemma starts_argv_spec prog args i :
  1 <= i <= argc (prog :: args) ->
  starts (argv_at (prog :: args) i : C W cstr) (from_args args).
Proof.
  intros Hi. unfold argv_at, argc in *. rewrite (proj2 (Z.ltb_ge _ _)) by lia.
  unfold argv_get. rewrite (proj2 (Nat.leb_le _ _)) by lia. apply starts_ret.
  intros str E. apply given_elem.
  destruct (Z.to_nat i) as [|n] eqn:En; [lia|]. by eapply list_elem_of_lookup_2.
Qed.

Lemma starts_require_spec help prog args p msg :
  help prog <> [] -> from_args args p ->
  starts (require (usage_with help) (Some prog) p msg : C W string) (from_args args).
Proof. intros Hh Hp. apply starts_require; [done|]. intros a E. by apply Hp. Qed.

Lemma starts_die_spec help prog args b msg :
  help prog <> [] ->
  starts (die_if (usage_with help) (prog :: args) b msg : C W unit) (fun _ => b = false).
Proof. intros. by apply starts_die_if. Qed.

Lemma starts_limit (m : C W Z) (limit : Z) : m = mret limit -> starts m (eq limit).
Proof. intros ->. by apply starts_ret. Qed.

Lemma starts_parse_unsigned_spec (f1 f2 f3 mx : C W Z) max w args str :
  from_args args str ->
  starts f1 (unsigned_in max args) -> starts f2 (unsigned_in max args) ->
  starts f3 (unsigned_in max args) -> starts mx (eq max) -> max < 2 ^ w ->
  starts (parse_unsigned f1 f2 f3 mx w str) (unsigned_in max args).
Proof. intros Hg H1 H2 H3 Hmx Hw. eapply starts_parse_unsigned; eauto. by exists str. Qed.

Lemma starts_parse_signed_spec (f1 f2 f3 : C W Z) min max w args str :
  from_args args str ->
  starts f1 (signed_in min max args) -> starts f2 (signed_in min max args) ->
  starts f3 (signed_in min max args) ->
  0 < w -> - 2 ^ (w - 1) <= min -> max < 2 ^ (w - 1) ->
  starts (parse_signed f1 f2 f3 min max w str) (signed_in min max args).
Proof. intros Hg H1 H2 H3 Hw Hmin Hmax. eapply starts_parse_signed; eauto. by exists str. Qed.

Lemma starts_assoc {A B D} (m : C W A) (f : A -> C W B) (g : B -> C W D) Q :
  starts (m ≫= (fun a => f a ≫= g)) Q -> starts ((m ≫= f) ≫= g) Q.
Proof. intros H s. specialize (H s). by rewrite bind_assoc. Qed.

Lemma starts_usage_bind {A B} help p msg (f : A -> C W B) (Q : B -> Prop) :
  help p <> [] -> starts (usage_with help A (Some p) EXIT_FAILURE msg ≫= f) Q.
Proof. intros. apply (starts_bind _ _ _ _ (fun _ => False)); [by apply starts_usage|done]. Qed.
End Specs.

(** A program of the repository, seen from its command line: its path under
    [src/], its option string and its [usage], what it computes before its own work
    starts and what that value satisfies; and command lines with the values they give. *)
Record program := Program {
  name : string;
  options : string;
  shows : forall W, usage_t W;
  result : Type;
  start_up : forall W, list string -> C W result;
  good : list string -> result -> Prop;
  samples : list (list string * result);
}.

(** What a [usage] prints as help. *)
Definition help_text (usage : forall W, usage_t W) (prog : string) : list event :=
  trace (snd (usage unit unit (Some prog) EXIT_SUCCESS None (start tt))).

Lemma help_text_usage (help : string -> list string) (prog : string) :
  help_text (fun W => usage_with help) prog = usage_events help prog None.
Proof. unfold help_text. by rewrite usage_run. Qed.

(** On any command line (with a program name) the front end is as above; on the
    samples, of which there is one, it starts with their values. *)
Definition well_behaved (P : program) : Prop :=
  (forall W prog args,
     starts (asks_help (options P) args) (help_text (shows P) prog)
       (start_up P W (prog :: args)) (good P args)) /\
  samples P <> [] /\
  Forall (fun '(args, v) =>
    forall W (s : cstate W), fst (start_up P W ("program" :: args) s) = Val v) (samples P).

Lemma well_behaved_front P W prog args :
  well_behaved P -> front (start_up P W (prog :: args)) (good P args).
Proof. intros [Hs _]. eapply starts_front, Hs. Qed.

(** The check of a front end follows the computation: the function at its
    head decides the lemma, a function of the program itself is unfolded. *)
Ltac front_arith :=
  bools; unfold argc, within in *; simpl length in *; simpl in *; lia.

(** [from_args] of tuples and of variables that were read earlier. *)
Ltac front_given :=
  repeat match goal with
  | H : from_args _ (_, _) |- _ => destruct H; simpl fst in *; simpl snd in *
  | |- from_args _ (_, _) => split; simpl fst; simpl snd
  | |- from_args _ None => by intros ? ?
  | H : from_args ?l (Some ?s) |- from_args ?l ?s => exact (H s eq_refl)
  | |- @from_args bool _ _ _ => exact I
  | |- @from_args unit _ _ _ => exact I
  | |- @from_args nat _ _ _ => exact I
  | |- from_args _ _ => assumption
  | |- given_opt _ _ => assumption
  | |- given _ _ => assumption
  end.

(** The only letter of these option strings is h. *)
Lemma only_h (c : ascii) : is_Some (find_opt c "h:") -> c = "h"%char.
Proof. destruct c as [[] [] [] [] [] [] [] []]; vm_compute; by intros [? ?]. Qed.

(** The default case ends with failure, or is not reached. *)
Ltac front_default := first [by left | right; exact only_h].

(** The command line asked for help: the letter is h. *)
Ltac front_asked :=
  match goal with
  | Hl : letter _ ?P ?c, Hc : (?c =?c "h")%c = true |- ?P =>
      exact (proj2 Hl (proj1 (Ascii.eqb_eq _ _) Hc))
  end.

(** The functions that say what they take from the arguments [args] in the context. *)
Ltac front_require :=
  match goal with args : list string |- _ => apply (starts_require_spec _ _ _ _ args) end.
Ltac front_unsigned :=
  match goal with args : list string |- _ =>
    eapply (starts_parse_unsigned_spec _ _ _ _ _ _ _ _ args) end.
Ltac front_signed :=
  match goal with args : list string |- _ =>
    eapply (starts_parse_signed_spec _ _ _ _ _ _ _ _ args) end.

Ltac front_step :=
  lazymatch goal with
  | |- starts _ _ (let _ := _ in _) _ => cbv zeta
  | |- starts _ _ (mbind _ (mbind _ _)) _ => apply starts_assoc
  | |- starts ?p ?h (mbind ?f (mret ?a)) ?Q => change (starts p h (f a) Q); cbv beta iota
  | |- starts _ _ (mbind _ (while_getopt _ _ _ _)) _ =>
      eapply starts_bind;
        [apply starts_getopt_spec; [reflexivity | front_given | intros ? ? ? ? ? ? ?; cbv beta]
        | intros [? ?] [? ?]; simpl fst in *; simpl snd in *; cbv beta iota]
  | |- starts _ _ (mbind _ (die_if _ _ _ _)) _ =>
      eapply starts_bind; [by apply starts_die_spec | let H := fresh in intros ? H; cbv beta in H |- *]
  | |- starts _ _ (mbind _ (argv_at _ _)) _ =>
      eapply starts_bind; [apply starts_argv_spec; front_arith | intros ? ?; cbv beta]
  | |- starts _ _ (mbind _ (require _ _ _ _)) _ =>
      eapply starts_bind; [front_require; [done|front_given] | intros ? ?; cbv beta]
  | |- starts _ _ (mbind _ (get_unsigned_max _ _)) _ =>
      eapply starts_bind; [by apply starts_limit | intros ? <-; cbv beta]
  | |- starts _ _ (mbind _ (get_signed_max _ _)) _ =>
      eapply starts_bind; [by apply starts_limit | intros ? <-; cbv beta]
  | |- starts _ _ (mbind _ (get_signed_min _ _)) _ =>
      eapply starts_bind; [by apply starts_limit | intros ? <-; cbv beta]
  | |- starts _ _ (mbind _ (parse_unsigned _ _ _ _ _ _)) _ =>
      eapply starts_bind; [front_unsigned; [front_given|..] | intros ? ?; cbv beta]
  | |- starts _ _ (mbind _ (parse_signed _ _ _ _ _ _ _)) _ =>
      eapply starts_bind; [front_signed; [front_given|..] | intros ? ?; cbv beta]
  | |- starts _ _ (mbind _ (usage_with _ _ _ _ _)) _ => by apply starts_usage_bind
  | |- starts _ _ (mbind _ (perror _)) _ => apply starts_perror_exit
  | |- starts _ _ (mbind _ (match ?x with _ => _ end)) _ => destruct x eqn:?
  | |- starts ?p ?h (mbind ?f ?m) ?Q =>
      let m' := eval red in m in change (starts p h (mbind f m') Q)
  | |- starts _ _ (mret _) _ => apply starts_ret
  | |- starts _ _ (usage_with _ _ _ EXIT_SUCCESS None) _ => apply starts_help; [done|done|front_asked]
  | |- starts _ _ (usage_with _ _ _ _ _) _ => by apply starts_usage
  | |- starts _ _ (cases_with _ _ _ _ _ _) _ =>
      eapply starts_cases; [done|done|eassumption|front_default]
  | |- starts _ _ (argv_at _ _) _ => apply starts_argv_spec; front_arith
  | |- starts _ _ (require _ _ _ _) _ => front_require; [done|front_given]
  | |- starts _ _ (get_unsigned_max _ _) _ => by apply starts_limit
  | |- starts _ _ (parse_unsigned _ _ _ _ _ _) _ => front_unsigned; [front_given|..]
  | |- starts _ _ (parse_signed _ _ _ _ _ _ _) _ => front_signed; [front_given|..]
  | |- starts _ _ (match ?x with _ => _ end) _ => destruct x eqn:?
  | |- starts ?p ?h ?m ?Q => let m' := eval red in m in change (starts p h m' Q)
  | |- from_args _ _ => solve [front_given]
  | |- given _ _ => solve [front_given]
  | |- unsigned_in _ _ _ => assumption
  | |- signed_in _ _ _ _ => assumption
  | |- _ /\ _ => split
  | |- _ = _ \/ _ => solve [by left | by right]
  | |- True => exact I
  | |- _ => solve [done | front_arith]
  end.

(** One goal for each element of a list. *)
Ltac each_of_list := repeat first [apply List.Forall_nil | apply List.Forall_cons].

(** The command lines, by the shape of the code; the samples, by running them. *)
Ltac front_program :=
  split;
  [ intros W prog args; simpl;
    match goal with |- starts _ ?h _ _ =>
      let E := fresh in
      eassert (h = usage_events _ prog None) as E by apply help_text_usage;
      rewrite E; clear E
    end;
    repeat front_step
  | split; [done | each_of_list; intros W s; reflexivity] ].
