(* ===== verification/OptionExamples.v ===== *)
(** * The two examples of option parsing

    src/command-line-arguments/getopt and src/command-line-arguments/getopt_long:
    two flags, an option with a required value and any number of operands, shown as
    they were understood.  [getopt] is the one of [Getopt]; [getopt_long] belongs to
    the library of the system and is a parameter ([LongOptions]): the options it
    returns, one call each, and the vector and [optind] it leaves.  The theorem: both
    programs answer as a reading of the options says. *)

From S2P Require Import Prelude CMonad CString Getopt ArgParse.

(** ** The programs *)

(** The variables of [main] that [parse_arguments] sets. *)
Record options := Options { option_a_set : bool; option_b_set : bool; option_c_value : cstr }.
Definition no_options : options := Options false false None.

(** [struct option]: [name], whether [has_arg] is [required_argument], [val]. *)
Record long_option := LongOption { lo_name : string; lo_has_arg : bool; lo_val : ascii }.

(** The calls of [getopt_long] on a vector: what each returned until [-1]; then the
    vector, whose elements may have changed places, and [optind]. *)
Class LongOptions := getopt_long : string -> list long_option -> list string ->
  list item * list string * nat.

Section Shared.
Context {W : Type} (usage : usage_t W).

(** The [switch] of the two programs; the message is a C string. *)
Definition option_case (argv : list string) (opt : ascii) (optarg : cstr) (optopt : ascii)
    (o : options) : C W options :=
  if (opt =?c "a")%c then mret (Options true (option_b_set o) (option_c_value o))
  else if (opt =?c "b")%c then mret (Options (option_a_set o) true (option_c_value o))
  else if (opt =?c "c")%c then mret (Options (option_a_set o) (option_b_set o) optarg)
  else if (opt =?c "h")%c then usage _ (argv0 argv) EXIT_SUCCESS None
  else if (opt =?c "?")%c then
    if (optopt =?c "c")%c
    then usage _ (argv0 argv) EXIT_FAILURE (Some "Option '-c' requires a value.")
    else usage _ (argv0 argv) EXIT_FAILURE
           (Some (of_chars (cstring (chars (unknown_option_message optopt) ++ [NUL]))))
  else usage _ (argv0 argv) EXIT_FAILURE None.

Definition handle_arguments (binary_name option_c_value : cstr) : C W string :=
  require usage binary_name option_c_value "-c is required".

Definition bool_to_string (value : bool) : string := if value then "true" else "false".

(** [for(int i = optind; i < argc; i++)] *)
Fixpoint unnamed_arguments (n : nat) (optind i : nat) (argv : list string) : C W unit :=
  match n with
  | O => mret tt
  | S n =>
      arg ← argv_get argv i;
      match arg with
      | Some arg =>
          out (ln ("Unnamed argument " +:+ fmt_d (Z.of_nat i - Z.of_nat optind + 1) +:+ ": '" +:+
                   arg +:+ "'"))
      | None => undef "printf: %s of NULL"
      end;;
      unnamed_arguments n optind (S i) argv
  end.

(** [main] after [parse_arguments]. *)
Definition show_options (argv : list string) (o : options) (optind : nat) : C W Z :=
  value ← handle_arguments (argv0 argv) (option_c_value o);
  out (ln ("Is option 'a' set?: " +:+ bool_to_string (option_a_set o)));;
  out (ln ("Is option 'b' set?: " +:+ bool_to_string (option_b_set o)));;
  out (ln ("Value of option 'c': " +:+ value));;
  unnamed_arguments (length argv - optind) optind optind argv;;
  mret EXIT_SUCCESS.
End Shared.

(** [src/command-line-arguments/getopt/main.c] *)
Module GetoptExample.
Definition help (p : string) : list string :=
  [ "Usage: " +:+ p +:+ " [-h] [-a] [-b] -c <value> [arg1 arg2 ...]";
    "Options:";
    "  -h          Display this help message";
    "  -a          Option 'a'";
    "  -b          Option 'b'";
    "  -c <value>  Option 'c' (required) with value" ].
Definition usage {W} : usage_t W := usage_with help.

Definition parse_arguments {W} (argv : list string) : C W (options * nat) :=
  while_getopt "habc:" argv (option_case usage argv) no_options.

Definition main {W} (argv : list string) : C W Z :=
  '(o, optind) ← parse_arguments argv;
  show_options usage argv o optind.
End GetoptExample.

(** [src/command-line-arguments/getopt_long/main.c] *)
Module GetoptLongExample.
Definition help (p : string) : list string :=
  [ "Usage: " +:+ p +:+ " [-h] [-a] [-b] -c <value> [arg1 arg2 ...]";
    "Options:";
    "  -h, --help                     Display this help message";
    "  -a, --alpha                    Option 'a'";
    "  -b, --beta                     Option 'b'";
    "  -c <value>, --charlie <value>  Option 'c' (required) with value" ].
Definition usage {W} : usage_t W := usage_with help.

Definition long_options : list long_option :=
  [ LongOption "alpha" false "a"; LongOption "beta" false "b";
    LongOption "charlie" true "c"; LongOption "help" false "h" ].

(** The loop sees one option after the other; [argv] is rearranged in place. *)
Definition parse_arguments {W} `{LongOptions} (argv : list string) :
    C W (options * list string * nat) :=
  let '(opts, argv', optind) := getopt_long "habc:" long_options argv in
  o ← run_items (option_case usage argv) opts "?" no_options;
  mret (o, argv', optind).

Definition main {W} `{LongOptions} (argv : list string) : C W Z :=
  '(o, argv, optind) ← parse_arguments argv;
  show_options usage argv o optind.
End GetoptLongExample.

(** ** What the options say *)

(** The option that ends the program: help or an error. *)
Definition ends_program (it : item) : bool :=
  match it with Opt c _ => (c =?c "h")%c | Bad _ => true end.

Definition is_set (c : ascii) (l : list item) : bool :=
  existsb (fun it => match it with Opt d _ => (d =?c c)%c | Bad _ => false end) l.

(** The argument of the last [-c]. *)
Fixpoint last_value (l : list item) (v : cstr) : cstr :=
  match l with
  | [] => v
  | Opt d a :: l => last_value l (if (d =?c "c")%c then a else v)
  | Bad _ :: l => last_value l v
  end.

(** The operands, numbered from [i]. *)
Fixpoint numbered (i : Z) (ops : list string) : list string :=
  match ops with
  | [] => []
  | op :: ops => ln ("Unnamed argument " +:+ fmt_d i +:+ ": '" +:+ op +:+ "'") :: numbered (i + 1) ops
  end.

(** The status, and the lines on stderr and on stdout. *)
Definition answer (help : list string) (opts : list item) (ops : list string) :
    outcome Z * list event :=
  let refuse code msg := (Exit code, EErr <$> (ln <$> option_list msg ++ help)) in
  match find ends_program opts with
  | Some (Opt _ _) => refuse EXIT_SUCCESS None
  | Some (Bad c) =>
      refuse EXIT_FAILURE (Some (if (c =?c "c")%c then "Option '-c' requires a value."
        else of_chars (cstring (chars (unknown_option_message c) ++ [NUL]))))
  | None =>
      match last_value opts None with
      | None => refuse EXIT_FAILURE (Some "-c is required")
      | Some v =>
          (Val EXIT_SUCCESS,
           EOut <$> [ ln ("Is option 'a' set?: " +:+ bool_to_string (is_set "a" opts));
                      ln ("Is option 'b' set?: " +:+ bool_to_string (is_set "b" opts));
                      ln ("Value of option 'c': " +:+ v) ] ++ numbered 1 ops)
      end
  end.

(** [m] ends that way, from every state. *)
Definition answers {W} (m : C W Z) (a : outcome Z * list event) : Prop := forall s,
  m s = (fst a, CState (errno s) (trace s ++ snd a) (world s)).

(** ** The programs answer so *)

Section Answers.
Context {W : Type} (help : string -> list string) (prog : string).
Implicit Types s : cstate W.

(** The options are letters of the option string. *)
Definition known (it : item) : Prop :=
  match it with Opt c _ => c ∈ ["a"; "b"; "c"; "h"]%char | Bad _ => True end.

(** How the item that ends the program does it. *)
Definition stopping (it : item) : Z * option string :=
  match it with
  | Opt _ _ => (EXIT_SUCCESS, None)
  | Bad c => (EXIT_FAILURE, Some (if (c =?c "c")%c then "Option '-c' requires a value."
               else of_chars (cstring (chars (unknown_option_message c) ++ [NUL]))))
  end.

(** The state in which it does. *)
Definition stopped (it : item) s : cstate W :=
  CState (errno s) (trace s ++ (EErr <$> (ln <$> option_list (snd (stopping it)) ++ help prog)))
    (world s).

(** The variables after a known option. *)
Definition applied (c : ascii) (a : cstr) (o : options) : options :=
  Options (option_a_set o || (c =?c "a")%c) (option_b_set o || (c =?c "b")%c)
    (if (c =?c "c")%c then a else option_c_value o).

Lemma case_known args c a x o s :
  known (Opt c a) ->
  option_case (usage_with help) (prog :: args) c a x o s =
  if (c =?c "h")%c then (Exit EXIT_SUCCESS, stopped (Opt c a) s) else (Val (applied c a o), s).
Proof.
  intros Hc. simpl in Hc. destruct o as [oa ob oc].
  repeat (apply elem_of_cons in Hc as [->|Hc]); [..|by apply elem_of_nil in Hc];
    unfold option_case, applied; simpl; rewrite ?orb_true_r, ?orb_false_r; [done..|].
  change (argv0 (prog :: args)) with (Some prog). by rewrite usage_run, usage_events_lines.
Qed.

Lemma case_bad args c o s :
  option_case (usage_with help) (prog :: args) "?" None c o s =
  (Exit EXIT_FAILURE, stopped (Bad c) s).
Proof.
  unfold option_case, stopped. simpl. change (argv0 (prog :: args)) with (Some prog).
  destruct (c =?c "c")%c; by rewrite usage_run, usage_events_lines.
Qed.

Lemma options_run args l o x s :
  Forall known l ->
  run_items (option_case (usage_with help) (prog :: args)) l x o s =
  match find ends_program l with
  | None =>
      (Val (Options (option_a_set o || is_set "a" l) (option_b_set o || is_set "b" l)
              (last_value l (option_c_value o))), s)
  | Some it => (Exit (fst (stopping it)), stopped it s)
  end.
Proof.
  intros Hl. revert o x. induction Hl as [|[c a|c] l Hc Hl IH]; intros o x; simpl.
  - rewrite !orb_false_r. by destruct o.
  - unfold mbind, C_bind. rewrite case_known by done. destruct (c =?c "h")%c; [done|].
    rewrite IH. unfold applied. simpl. by rewrite !orb_assoc.
  - unfold mbind, C_bind. by rewrite case_bad.
Qed.

(** The operands as the loop shows them. *)
Lemma unnamed_prints (argv ops : list string) (optind i n : nat) :
  (optind <= i)%nat -> drop i argv = ops -> n = length ops ->
  prints (unnamed_arguments n optind i argv : C W unit) tt
    (numbered (Z.of_nat i - Z.of_nat optind + 1) ops).
Proof.
  intros Hi Hd ->. revert i Hi Hd. induction ops as [|op ops IH]; intros i Hi Hd; simpl; [apply prints_ret|].
  assert (argv !! i = Some op) as Hop by (by rewrite <- (Nat.add_0_r i), <- lookup_drop, Hd).
  intros s. unfold argv_get. rewrite (proj2 (Nat.leb_le _ _)) by (apply lookup_lt_Some in Hop; lia).
  rewrite bind_ret, Hop. revert s. apply (prints_bind _ _ tt tt [_]); [apply prints_out|].
  replace (Z.of_nat i - Z.of_nat optind + 1 + 1) with (Z.of_nat (S i) - Z.of_nat optind + 1) by lia.
  apply IH; [lia|]. by rewrite (drop_S _ _ _ Hop) in Hd; injection Hd.
Qed.

Lemma show_options_answers args (o : options) (optind : nat) ops s :
  drop optind (prog :: args) = ops ->
  show_options (usage_with help) (prog :: args) o optind s =
  match option_c_value o with
  | None => (Exit EXIT_FAILURE,
      CState (errno s) (trace s ++ (EErr <$> (ln <$> ["-c is required"] ++ help prog))) (world s))
  | Some v => (Val EXIT_SUCCESS, CState (errno s) (trace s ++ (EOut <$>
      [ ln ("Is option 'a' set?: " +:+ bool_to_string (option_a_set o));
        ln ("Is option 'b' set?: " +:+ bool_to_string (option_b_set o));
        ln ("Value of option 'c': " +:+ v) ] ++ numbered 1 ops)) (world s))
  end.
Proof.
  intros Hd. unfold show_options, handle_arguments. destruct (option_c_value o) as [v|].
  - change (require (usage_with help) (argv0 (prog :: args)) (Some v) "-c is required" : C W string)
      with (mret v : C W string). rewrite bind_ret. rewrite <- (app_nil_r (numbered 1 ops)). revert s.
    do 3 (apply (prints_bind _ _ tt EXIT_SUCCESS [_]); [apply prints_out|]).
    eapply prints_bind; [|apply prints_ret].
    replace 1 with (Z.of_nat optind - Z.of_nat optind + 1) by lia.
    apply unnamed_prints; [done|done|]. by rewrite <- Hd, length_drop.
  - unfold require. change (argv0 (prog :: args)) with (Some prog). unfold mbind, C_bind.
    by rewrite usage_run, usage_events_lines.
Qed.

(** Options and operands decide the answer. *)
Lemma options_answer args args' opts ops (optind : nat) x s :
  Forall known opts -> drop optind (prog :: args') = ops ->
  (o ← run_items (option_case (usage_with help) (prog :: args)) opts x no_options;
   show_options (usage_with help) (prog :: args') o optind) s =
  (fst (answer (help prog) opts ops),
   CState (errno s) (trace s ++ snd (answer (help prog) opts ops)) (world s)).
Proof.
  intros Hk Hd. unfold mbind at 1, C_bind. rewrite options_run by done. unfold answer.
  destruct (find ends_program opts) as [[c a|c]|]; [done..|].
  rewrite (show_options_answers _ _ _ ops) by done. simpl. by destruct (last_value opts None).
Qed.
End Answers.

Lemma letters_known it : in_optstring "habc:" it -> known it.
Proof.
  destruct it as [c a|c]; [|done]. cbn [in_optstring known find_opt].
  do 4 (match goal with |- context [Ascii.eqb ?o c] =>
    destruct (Ascii.eqb_spec o c) as [<-|]; [intros _; rewrite !elem_of_cons; tauto|] end).
  destruct (Ascii.eqb_spec ":" c) as [<-|]; cbn; congruence.
Qed.

(** ** [getopt_long] *)

(** Every option is a letter of the option string or a value of the table; the
    vector is a rearrangement that keeps the name of the program, and [optind] points
    into it or at its end. *)
Class LongLaws `{LongOptions} := {
  long_items optstring table argv :
    Forall (fun it => in_optstring optstring it \/
      match it with Opt c _ => c ∈ (lo_val <$> table) | Bad _ => True end)
      (fst (fst (getopt_long optstring table argv)));
  long_argv optstring table prog args :
    exists args', snd (fst (getopt_long optstring table (prog :: args))) = prog :: args' /\
      args' ≡ₚ args;
  long_optind optstring table prog args :
    (1 <= snd (getopt_long optstring table (prog :: args)) <= S (length args))%nat }.

(** One such: the long names are written in full, and nothing is rearranged. *)
Fixpoint find_long (name : string) (table : list long_option) : option long_option :=
  match table with
  | [] => None
  | o :: table => if String.eqb ("--" +:+ lo_name o) name then Some o else find_long name table
  end.

Fixpoint scan_long (optstring : string) (table : list long_option) (args : list string) :
    list item * list string :=
  match args with
  | [] => ([], [])
  | a :: rest =>
      match find_long a table with
      | Some o =>
          if lo_has_arg o then
            match rest with
            | v :: rest =>
                let '(l, ops) := scan_long optstring table rest in (Opt (lo_val o) (Some v) :: l, ops)
            | [] => ([Bad (lo_val o)], [])
            end
          else let '(l, ops) := scan_long optstring table rest in (Opt (lo_val o) None :: l, ops)
      | None =>
          match a with
          | String d (String c cl) =>
              if negb (d =?c "-")%c then ([], args)
              else if (c =?c "-")%c then
                if String.eqb cl "" then ([], rest)
                else let '(l, ops) := scan_long optstring table rest in (Bad NUL :: l, ops)
              else
                let '(l, used) := scan_cluster optstring (String c cl) rest in
                let '(l', ops) :=
                  match used, rest with
                  | true, _ :: rest' => scan_long optstring table rest'
                  | _, _ => scan_long optstring table rest
                  end in
                (l ++ l', ops)
          | _ => ([], args)
          end
      end
  end.

Local Instance in_full : LongOptions := fun optstring table argv =>
  let '(l, ops) := scan_long optstring table (drop 1 argv) in
  (l, argv, (length argv - length ops)%nat).

Lemma find_long_val name table o : find_long name table = Some o -> lo_val o ∈ (lo_val <$> table).
Proof.
  induction table as [|o' table IH]; simpl; [done|]. intros E. case_match; simplify_eq;
    [left|right; by apply IH].
Qed.

Lemma scan_long_laws optstring table args :
  let ok it := in_optstring optstring it \/
    match it with Opt c _ => c ∈ (lo_val <$> table) | Bad _ => True end in
  Forall ok (fst (scan_long optstring table args)) /\
  (length (snd (scan_long optstring table args)) <= length args)%nat.
Proof.
  intros ok. remember (length args) as n eqn:Hn. revert args Hn.
  induction n as [n IH] using lt_wf_ind. intros args ->.
  destruct args as [|a rest]; cbn [scan_long]; [done|].
  assert (forall r, (length r <= length rest)%nat ->
    Forall ok (fst (scan_long optstring table r)) /\
    (length (snd (scan_long optstring table r)) <= S (length rest))%nat) as IHr.
  { intros r Hr. destruct (IH (length r) ltac:(simpl; lia) r eq_refl). split; [done|lia]. }
  clear IH. destruct (find_long a table) as [o|] eqn:Eo.
  - apply find_long_val in Eo.
    assert (forall v r, (length r <= length rest)%nat ->
      Forall ok (fst (let '(l, ops) := scan_long optstring table r in (Opt (lo_val o) v :: l, ops))) /\
      (length (snd (let '(l, ops) := scan_long optstring table r in (Opt (lo_val o) v :: l, ops)))
        <= S (length rest))%nat) as Hv.
    { intros v r Hr. destruct (IHr r Hr), (scan_long optstring table r).
      split; [|done]. constructor; [by right|done]. }
    destruct (lo_has_arg o); [destruct rest as [|v rest]|by apply Hv].
    + split; [apply list.Forall_singleton; by left|simpl; lia].
    + apply Hv. simpl. lia.
  - destruct a as [|d [|c cl]]; [done|done|].
    destruct (negb (d =?c "-")%c); [done|]. destruct (c =?c "-")%c.
    + destruct (String.eqb cl ""); [split; [done|simpl; lia]|].
      destruct (IHr rest), (scan_long optstring table rest); [done|]. split; [|done].
      constructor; [by left|done].
    + pose proof (scan_cluster_letters optstring (String c cl) rest) as Hc.
      destruct (scan_cluster optstring (String c cl) rest) as [l used]. simpl in Hc.
      destruct (skip_used used rest (scan_long optstring table)) as (r & -> & Hr).
      destruct (IHr r Hr), (scan_long optstring table r). split; [|done].
      apply Forall_app. split; [|done]. eapply list.Forall_impl; [exact Hc|by left].
Qed.

Local Instance in_full_laws : LongLaws.
Proof.
  split; unfold getopt_long, in_full; intros; simpl;
    try (destruct (scan_long_laws optstring table args) as [_ Hl]).
  - destruct (scan_long_laws optstring table (drop 1 argv)), (scan_long optstring table (drop 1 argv)). done.
  - rewrite drop_0. destruct (scan_long optstring table args). by exists args.
  - rewrite drop_0. destruct (scan_long optstring table args) as [l ops]. simpl in *. lia.
Qed.

(** C35: Both programs answer a command line as its reading says: the first option that
    asks for help or is wrong decides (status 0 or 1, the message if there is one, the
    usage); otherwise a missing [-c] is refused; otherwise the two flags, the value of
    the last [-c] and the operands, numbered from 1, are shown and the status is 0.
    For [getopt] the reading is [scan_args]; for [getopt_long] it is what the library
    returned, with the operands of the vector it left. *)
Theorem option_examples_answer {W : Type} `{LongLaws} (prog : string) (args : list string) :
  answers (GetoptExample.main (prog :: args) : C W Z)
    (let '(opts, ops) := scan_args "habc:" args in answer (GetoptExample.help prog) opts ops) /\
  answers (GetoptLongExample.main (prog :: args) : C W Z)
    (let '(opts, argv, optind) :=
       getopt_long "habc:" GetoptLongExample.long_options (prog :: args) in
     answer (GetoptLongExample.help prog) opts (drop optind argv)).
Proof.
  split; intros s.
  - pose proof (scan_args_letters "habc:" args) as Hk.
    destruct (scan_args_operands "habc:" args) as [pre Ho].
    unfold GetoptExample.main, GetoptExample.parse_arguments.
    unfold mbind at 1, C_bind. rewrite while_getopt_scan.
    destruct (scan_args "habc:" args) as [opts ops]. simpl in Hk, Ho.
    rewrite <- (options_answer GetoptExample.help prog args args opts ops
      (S (length args) - length ops)%nat "?").
    + unfold mbind, C_bind. by destruct (run_items _ opts _ _ s) as [[]].
    + eapply list.Forall_impl; [exact Hk|apply letters_known].
    + subst args. rewrite length_app. apply (drop_app_length' (prog :: pre)). simpl. lia.
  - pose proof (long_items "habc:" GetoptLongExample.long_options (prog :: args)) as Hk.
    destruct (long_argv "habc:" GetoptLongExample.long_options prog args) as (args' & Ha & _).
    unfold GetoptLongExample.main, GetoptLongExample.parse_arguments.
    destruct (getopt_long _ _ _) as [[opts argv'] optind]. simpl in Hk, Ha. subst argv'.
    rewrite <- (options_answer GetoptLongExample.help prog args args' opts
      (drop optind (prog :: args')) optind "?"); [|eapply list.Forall_impl; [exact Hk|]|done].
    + unfold mbind, C_bind. by destruct (run_items _ opts _ _ s) as [[]].
    + intros [c a|c]; [intros [?%(letters_known (Opt c a))|Hc]; [done|]|done].
      exact Hc.
Qed.

(** A wrong long option, a missing value, and a command line that is understood. *)
Lemma option_examples_answer_witness :
  answers (GetoptLongExample.main ["p"; "--beta"; "-ac"; "v"; "x"; "y"] : C unit Z)
    (Val EXIT_SUCCESS, EOut <$> [ ln "Is option 'a' set?: true"; ln "Is option 'b' set?: true";
       ln "Value of option 'c': v"; ln "Unnamed argument 1: 'x'"; ln "Unnamed argument 2: 'y'" ]) /\
  answers (GetoptLongExample.main ["p"; "--bata"] : C unit Z)
    (Exit EXIT_FAILURE,
     EErr <$> (ln <$> "Unknown option '-" :: GetoptLongExample.help "p")) /\
  answers (GetoptExample.main ["p"; "-ac"] : C unit Z)
    (Exit EXIT_FAILURE,
     EErr <$> (ln <$> "Option '-c' requires a value." :: GetoptExample.help "p")).
Proof.
  split; [|split].
  - exact (proj2 (option_examples_answer "p" ["--beta"; "-ac"; "v"; "x"; "y"])).
  - exact (proj2 (option_examples_answer "p" ["--bata"])).
  - exact (proj1 (option_examples_answer "p" ["-ac"])).
Defined.
