(* ===== verification/OneOperand.v ===== *)
(** * The programs that take one operand

    Thirty-eight programs read their command line the same way: [-h] prints
    the help text, one operand is required, and the operand is checked again
    by [handle_arguments].  Each has a Module with its own texts; [programs]
    lists them, and the theorem about the list covers all of them.  What such
    a program does with its operand is modelled in the files of the
    components, where it is. *)

From S2P Require Import Prelude CMonad CString Getopt ArgParse.

(** The start of every [main]: [p = NULL; parse_arguments(argc, argv, &p);
    handle_arguments(argv[0], p)]. *)
Definition start_with {W} (parse_arguments : list string -> C W cstr)
    (handle_arguments : cstr -> cstr -> C W string) (argv : list string) : C W string :=
  p ← parse_arguments argv; handle_arguments (argv0 argv) p.

(** ** The programs *)

(** *** [domain-socket] *)

(** [src/domain-socket/read-write/client.c] *)
Module domain_socket_read_write_client.
Definition usage {W} : usage_t W := usage_with (fun p =>
  [ "Usage: " +:+ p +:+ " [-h] <file path>";
    "Options:";
    "  -h  Display this help message" ]).
Definition parse_arguments {W} : list string -> C W cstr :=
  parse_one_operand usage
    "The file path is required"
    "Too many arguments.".
Definition handle_arguments {W} (binary_name file_path : cstr) : C W string :=
  require usage binary_name file_path "The file name is required.".
End domain_socket_read_write_client.

(** [src/domain-socket/send-recv/client.c] *)
Module domain_socket_send_recv_client.
Definition usage {W} : usage_t W := usage_with (fun p =>
  [ "Usage: " +:+ p +:+ " [-h] <file path>";
    "Options:";
    "  -h  Display this help message" ]).
Definition parse_arguments {W} : list string -> C W cstr :=
  parse_one_operand usage
    "The file path is required"
    "Too many arguments.".
Definition handle_arguments {W} (binary_name file_path : cstr) : C W string :=
  require usage binary_name file_path "The file name is required.".
End domain_socket_send_recv_client.

(** [src/domain-socket/socketpair/main.c] *)
Module domain_socket_socketpair.
Definition usage {W} : usage_t W := usage_with (fun p =>
  [ "Usage: " +:+ p +:+ " [-h] <file path>";
    "Options:";
    "  -h  Display this help message" ]).
Definition parse_arguments {W} : list string -> C W cstr :=
  parse_one_operand usage
    "The file path is required"
    "Too many arguments.".
Definition handle_arguments {W} (binary_name file_path : cstr) : C W string :=
  require usage binary_name file_path "The file path is required.".
End domain_socket_socketpair.

(** *** [file-system] *)

(** [src/file-system/access/main.c] *)
Module file_system_access.
Definition usage {W} : usage_t W := usage_with (fun p =>
  [ "Usage: " +:+ p +:+ " [-h] <file path>";
    "Options:";
    "  -h  Display this help message" ]).
Definition parse_arguments {W} : list string -> C W cstr :=
  parse_one_operand usage
    "The file path is required"
    "Too many arguments.".
Definition handle_arguments {W} (binary_name file_path : cstr) : C W string :=
  require usage binary_name file_path "The file path is required.".
End file_system_access.

(** [src/file-system/chdir/main.c] *)
Module file_system_chdir.
Definition usage {W} : usage_t W := usage_with (fun p =>
  [ "Usage: " +:+ p +:+ " [-h] <directory path>";
    "Options:";
    "  -h  Display this help message" ]).
Definition parse_arguments {W} : list string -> C W cstr :=
  parse_one_operand usage
    "The directory path is required"
    "Too many arguments.".
Definition handle_arguments {W} (binary_name directory_path : cstr) : C W string :=
  require usage binary_name directory_path "The directory path is required.".
End file_system_chdir.

(** [src/file-system/lstat/main.c] *)
Module file_system_lstat.
Definition usage {W} : usage_t W := usage_with (fun p =>
  [ "Usage: " +:+ p +:+ " [-h] <file path>";
    "Options:";
    "  -h  Display this help message" ]).
Definition parse_arguments {W} : list string -> C W cstr :=
  parse_one_operand usage
    "The file path is required"
    "Too many arguments.".
Definition handle_arguments {W} (binary_name file_path : cstr) : C W string :=
  require usage binary_name file_path "The file path is required.".
End file_system_lstat.

(** [src/file-system/opendir-closedir/main.c] *)
Module file_system_opendir.
Definition usage {W} : usage_t W := usage_with (fun p =>
  [ "Usage: " +:+ p +:+ " [-h] <directory path>";
    "Options:";
    "  -h  Display this help message" ]).
Definition parse_arguments {W} : list string -> C W cstr :=
  parse_one_operand usage
    "The directory path is required"
    "Too many arguments.".
Definition handle_arguments {W} (binary_name directory_path : cstr) : C W string :=
  require usage binary_name directory_path "The directory path is required.".
End file_system_opendir.

(** [src/file-system/readdir/main.c] *)
Module file_system_readdir.
Definition usage {W} : usage_t W := usage_with (fun p =>
  [ "Usage: " +:+ p +:+ " [-h] <directory path>";
    "Options:";
    "  -h  Display this help message" ]).
Definition parse_arguments {W} : list string -> C W cstr :=
  parse_one_operand usage
    "The directory path is required"
    "Too many arguments.".
Definition handle_arguments {W} (binary_name directory_path : cstr) : C W string :=
  require usage binary_name directory_path "The directory path is required.".
End file_system_readdir.

(** [src/file-system/stat/main.c] *)
Module file_system_stat.
Definition usage {W} : usage_t W := usage_with (fun p =>
  [ "Usage: " +:+ p +:+ " [-h] <file path>";
    "Options:";
    "  -h  Display this help message" ]).
Definition parse_arguments {W} : list string -> C W cstr :=
  parse_one_operand usage
    "The file path is required"
    "Too many arguments.".
Definition handle_arguments {W} (binary_name file_path : cstr) : C W string :=
  require usage binary_name file_path "The file path is required.".
End file_system_stat.

(** [src/file-system/unlink/main.c] *)
Module file_system_unlink.
Definition usage {W} : usage_t W := usage_with (fun p =>
  [ "Usage: " +:+ p +:+ " [-h] <file path>";
    "Options:";
    "  -h  Display this help message" ]).
Definition parse_arguments {W} : list string -> C W cstr :=
  parse_one_operand usage
    "The file path is required"
    "Too many arguments.".
Definition handle_arguments {W} (binary_name file_path : cstr) : C W string :=
  require usage binary_name file_path "The file path is required.".
End file_system_unlink.

(** *** [file-tree-walking] *)

(** [src/file-tree-walking/nftw/main.c] *)
Module file_tree_walking_nftw.
Definition usage {W} : usage_t W := usage_with (fun p =>
  [ "Usage: " +:+ p +:+ " [-h] <directory path>";
    "Options:";
    "  -h  Display this help message" ]).
Definition parse_arguments {W} : list string -> C W cstr :=
  parse_one_operand usage
    "The directory path is required"
    "Too many arguments.".
Definition handle_arguments {W} (binary_name directory_path : cstr) : C W string :=
  require usage binary_name directory_path "The directory path is required.".
End file_tree_walking_nftw.

(** *** [files] *)

(** [src/files/S_IS/main.c] *)
Module files_S_IS.
Definition usage {W} : usage_t W := usage_with (fun p =>
  [ "Usage: " +:+ p +:+ " [-h] <file name>";
    "Options:";
    "  -h  Display this help message" ]).
Definition parse_arguments {W} : list string -> C W cstr :=
  parse_one_operand usage
    "The file name is required"
    "Too many arguments.".
Definition handle_arguments {W} (binary_name file_path : cstr) : C W string :=
  require usage binary_name file_path "The file path is required.".
End files_S_IS.

(** [src/files/fcntl/main.c] *)
Module files_fcntl.
Definition usage {W} : usage_t W := usage_with (fun p =>
  [ "Usage: " +:+ p +:+ " [-h] <file path>";
    "Options:";
    "  -h  Display this help message" ]).
Definition parse_arguments {W} : list string -> C W cstr :=
  parse_one_operand usage
    "The file path is required"
    "Too many arguments.".
Definition handle_arguments {W} (binary_name file_path : cstr) : C W string :=
  require usage binary_name file_path "The file path is required.".
End files_fcntl.

(** [src/files/fdopen/main.c] *)
Module files_fdopen.
Definition usage {W} : usage_t W := usage_with (fun p =>
  [ "Usage: " +:+ p +:+ " [-h] <file path>";
    "Options:";
    "  -h  Display this help message" ]).
Definition parse_arguments {W} : list string -> C W cstr :=
  parse_one_operand usage
    "The file path is required"
    "Too many arguments.".
Definition handle_arguments {W} (binary_name file_path : cstr) : C W string :=
  require usage binary_name file_path "The file path is required.".
End files_fdopen.

(** [src/files/fstat/main.c] *)
Module files_fstat.
Definition usage {W} : usage_t W := usage_with (fun p =>
  [ "Usage: " +:+ p +:+ " [-h] <file path>";
    "Options:";
    "  -h  Display this help message" ]).
Definition parse_arguments {W} : list string -> C W cstr :=
  parse_one_operand usage
    "The file path is required"
    "Too many arguments.".
Definition handle_arguments {W} (binary_name file_path : cstr) : C W string :=
  require usage binary_name file_path "The file path is required.".
End files_fstat.

(** *** [groups] *)

(** [src/groups/getgrnam/main.c] *)
Module groups_getgrnam.
Definition usage {W} : usage_t W := usage_with (fun p =>
  [ "Usage: " +:+ p +:+ " [-h] <group name>";
    "Options:";
    "  -h  Display this help message" ]).
Definition parse_arguments {W} : list string -> C W cstr :=
  parse_one_operand usage
    "The group name is required"
    "Too many arguments.".
Definition handle_arguments {W} (binary_name group_name : cstr) : C W string :=
  require usage binary_name group_name "The group name is required.".
End groups_getgrnam.

(** *** [io-multiplexing] *)

(** [src/io-multiplexing/client.c] *)
Module io_multiplexing_client.
Definition usage {W} : usage_t W := usage_with (fun p =>
  [ "Usage: " +:+ p +:+ " [-h] <file path>";
    "Options:";
    "  -h  Display this help message" ]).
Definition parse_arguments {W} : list string -> C W cstr :=
  parse_one_operand usage
    "The file path is required"
    "Too many arguments.".
Definition handle_arguments {W} (binary_name file_path : cstr) : C W string :=
  require usage binary_name file_path "The file path is required.".
End io_multiplexing_client.

(** *** [logging] *)

(** [src/logging/openlog-closelog/main.c] *)
Module logging_openlog.
Definition usage {W} : usage_t W := usage_with (fun p =>
  [ "Usage: " +:+ p +:+ " [-h] <log name>";
    "Options:";
    "  -h  Display this help message" ]).
Definition parse_arguments {W} : list string -> C W cstr :=
  parse_one_operand usage
    "The log name is required"
    "Too many arguments.".
Definition handle_arguments {W} (binary_name log_name : cstr) : C W string :=
  require usage binary_name log_name "The log name is required.".
End logging_openlog.

(** [src/logging/setlogmask/main.c] *)
Module logging_setlogmask.
Definition usage {W} : usage_t W := usage_with (fun p =>
  [ "Usage: " +:+ p +:+ " [-h] <log name>";
    "Options:";
    "  -h  Display this help message" ]).
Definition parse_arguments {W} : list string -> C W cstr :=
  parse_one_operand usage
    "The log name is required"
    "Too many arguments.".
Definition handle_arguments {W} (binary_name log_name : cstr) : C W string :=
  require usage binary_name log_name "The log name is required.".
End logging_setlogmask.

(** [src/logging/syslog/main.c] *)
Module logging_syslog.
Definition usage {W} : usage_t W := usage_with (fun p =>
  [ "Usage: " +:+ p +:+ " [-h] <log name>";
    "Options:";
    "  -h  Display this help message" ]).
Definition parse_arguments {W} : list string -> C W cstr :=
  parse_one_operand usage
    "The log name is required"
    "Too many arguments.".
Definition handle_arguments {W} (binary_name log_name : cstr) : C W string :=
  require usage binary_name log_name "The log name is required.".
End logging_syslog.

(** *** [network-address] *)

(** [src/network-address/getaddrinfo-freeaddrinfo-gai_strerror/main.c] *)
Module network_address_getaddrinfo.
Definition usage {W} : usage_t W := usage_with (fun p =>
  [ "Usage: " +:+ p +:+ " [-h] <host name>";
    "Options:";
    "  -h  Display this help message" ]).
Definition parse_arguments {W} : list string -> C W cstr :=
  parse_one_operand usage
    "The host name is required"
    "Too many arguments.".
Definition handle_arguments {W} (binary_name host_name : cstr) : C W string :=
  require usage binary_name host_name "The host name is required.".
End network_address_getaddrinfo.

(** *** [path-manipulation] *)

(** [src/path-manipulation/basename/main.c] *)
Module path_manipulation_basename.
Definition usage {W} : usage_t W := usage_with (fun p =>
  [ "Usage: " +:+ p +:+ " [-h] <path>";
    "Options:";
    "  -h  Display this help message" ]).
Definition parse_arguments {W} : list string -> C W cstr :=
  parse_one_operand usage
    "The path is required"
    "Too many arguments.".
Definition handle_arguments {W} (binary_name path : cstr) : C W string :=
  require usage binary_name path "The path is required.".
End path_manipulation_basename.

(** [src/path-manipulation/dirname/main.c] *)
Module path_manipulation_dirname.
Definition usage {W} : usage_t W := usage_with (fun p =>
  [ "Usage: " +:+ p +:+ " [-h] <path>";
    "Options:";
    "  -h  Display this help message" ]).
Definition parse_arguments {W} : list string -> C W cstr :=
  parse_one_operand usage
    "The path is required"
    "Too many arguments.".
Definition handle_arguments {W} (binary_name path : cstr) : C W string :=
  require usage binary_name path "The path is required.".
End path_manipulation_dirname.

(** [src/path-manipulation/glob-globfree/main.c] *)
Module path_manipulation_glob.
Definition usage {W} : usage_t W := usage_with (fun p =>
  [ "Usage: " +:+ p +:+ " [-h] <pattern>";
    "Options:";
    "  -h  Display this help message" ]).
Definition parse_arguments {W} : list string -> C W cstr :=
  parse_one_operand usage
    "The pattern is required"
    "Too many arguments.".
Definition handle_arguments {W} (binary_name pattern : cstr) : C W string :=
  require usage binary_name pattern "The pattern is required.".
End path_manipulation_glob.

(** *** [pipe] *)

(** [src/pipe/reliable/main.c] *)
Module pipe_reliable.
Definition usage {W} : usage_t W := usage_with (fun p =>
  [ "Usage: " +:+ p +:+ " [-h] <file path>";
    "Options:";
    "  -h  Display this help message" ]).
Definition parse_arguments {W} : list string -> C W cstr :=
  parse_one_operand usage
    "The file path is required"
    "Too many arguments.".
Definition handle_arguments {W} (binary_name file_path : cstr) : C W string :=
  require usage binary_name file_path "The file path is required.".
End pipe_reliable.

(** [src/pipe/simple/main.c] *)
Module pipe_simple.
Definition usage {W} : usage_t W := usage_with (fun p =>
  [ "Usage: " +:+ p +:+ " [-h] <file path>";
    "Options:";
    "  -h  Display this help message" ]).
Definition parse_arguments {W} : list string -> C W cstr :=
  parse_one_operand usage
    "The file path is required"
    "Too many arguments.".
Definition handle_arguments {W} (binary_name file_path : cstr) : C W string :=
  require usage binary_name file_path "The file path is required.".
End pipe_simple.

(** [src/pipe/synchronized/main.c] *)
Module pipe_synchronized.
Definition usage {W} : usage_t W := usage_with (fun p =>
  [ "Usage: " +:+ p +:+ " [-h] <file path>";
    "Options:";
    "  -h  Display this help message" ]).
Definition parse_arguments {W} : list string -> C W cstr :=
  parse_one_operand usage
    "The file path is required"
    "Too many arguments.".
Definition handle_arguments {W} (binary_name file_path : cstr) : C W string :=
  require usage binary_name file_path "The file path is required.".
End pipe_synchronized.

(** *** [pthread-condition] *)

(** [src/pthread-condition/pthread_cond_wait-pthread_cond_signal/main.c] *)
Module pthread_condition_pthread_cond_wait.
Definition usage {W} : usage_t W := usage_with (fun p =>
  [ "Usage: " +:+ p +:+ " [-h] <file path>";
    "Options:";
    "  -h  Display this help message" ]).
Definition parse_arguments {W} : list string -> C W cstr :=
  parse_one_operand usage
    "The file path is required"
    "Too many arguments.".
Definition handle_arguments {W} (binary_name file_path : cstr) : C W string :=
  require usage binary_name file_path "The file path is required.".
End pthread_condition_pthread_cond_wait.

(** *** [shared-memory] *)

(** [src/shared-memory/mmap-munmap/client.c] *)
Module shared_memory_mmap_client.
Definition usage {W} : usage_t W := usage_with (fun p =>
  [ "Usage: " +:+ p +:+ " [-h] <file path>";
    "Options:";
    "  -h  Display this help message" ]).
Definition parse_arguments {W} : list string -> C W cstr :=
  parse_one_operand usage
    "The file path is required"
    "Too many arguments.".
Definition handle_arguments {W} (binary_name file_path : cstr) : C W string :=
  require usage binary_name file_path "The file path is required.".
End shared_memory_mmap_client.

(** *** [shell] *)

(** [src/shell/popen-pclose/main.c] *)
Module shell_popen.
Definition usage {W} : usage_t W := usage_with (fun p =>
  [ "Usage: " +:+ p +:+ " [-h] <command>";
    "Options:";
    "  -h  Display this help message" ]).
Definition parse_arguments {W} : list string -> C W cstr :=
  parse_one_operand usage
    "The command is required"
    "Too many arguments.".
Definition handle_arguments {W} (binary_name command : cstr) : C W string :=
  require usage binary_name command "The command is required.".
End shell_popen.

(** [src/shell/system/main.c] *)
Module shell_system.
Definition usage {W} : usage_t W := usage_with (fun p =>
  [ "Usage: " +:+ p +:+ " [-h] <command>";
    "Options:";
    "  -h  Display this help message" ]).
Definition parse_arguments {W} : list string -> C W cstr :=
  parse_one_operand usage
    "The command is required"
    "Too many arguments.".
Definition handle_arguments {W} (binary_name command : cstr) : C W string :=
  require usage binary_name command "The command is required.".
End shell_system.

(** *** [streams] *)

(** [src/streams/ferror/main.c] *)
Module streams_ferror.
Definition usage {W} : usage_t W := usage_with (fun p =>
  [ "Usage: " +:+ p +:+ " [-h] <file path>";
    "Options:";
    "  -h  Display this help message" ]).
Definition parse_arguments {W} : list string -> C W cstr :=
  parse_one_operand usage
    "The file path is required"
    "Too many arguments.".
Definition handle_arguments {W} (binary_name file_path : cstr) : C W string :=
  require usage binary_name file_path "The file path is required.".
End streams_ferror.

(** [src/streams/fopen-fclose/main.c] *)
Module streams_fopen.
Definition usage {W} : usage_t W := usage_with (fun p =>
  [ "Usage: " +:+ p +:+ " [-h] <file name>";
    "Options:";
    "  -h  Display this help message" ]).
Definition parse_arguments {W} : list string -> C W cstr :=
  parse_one_operand usage
    "The file name is required"
    "Too many arguments.".
Definition handle_arguments {W} (binary_name file_path : cstr) : C W string :=
  require usage binary_name file_path "The file path is required.".
End streams_fopen.

(** *** [string-processing] *)

(** [src/string-processing/regcomp-regfree-regerror/main.c] *)
Module string_processing_regcomp.
Definition usage {W} : usage_t W := usage_with (fun p =>
  [ "Usage: " +:+ p +:+ " [-h] <pattern>";
    "Options:";
    "  -h            Display this help message" ]).
Definition parse_arguments {W} : list string -> C W cstr :=
  parse_one_operand usage
    "The pattern is required"
    "Too many arguments.".
Definition handle_arguments {W} (binary_name pattern : cstr) : C W string :=
  require usage binary_name pattern "The pattern is required.".
End string_processing_regcomp.

(** [src/string-processing/strtok_r/main.c] *)
Module string_processing_strtok_r.
Definition usage {W} : usage_t W := usage_with (fun p =>
  [ "Usage: " +:+ p +:+ " [-h] <string>>";
    "Options:";
    "  -h            Display this help message" ]).
Definition parse_arguments {W} : list string -> C W cstr :=
  parse_one_operand usage
    "The string is required"
    "Too many arguments.".
Definition handle_arguments {W} (binary_name string_ : cstr) : C W string :=
  require usage binary_name string_ "The string is required.".
End string_processing_strtok_r.

(** *** [strings] *)

(** [src/strings/strdup/main.c] *)
Module strings_strdup.
Definition usage {W} : usage_t W := usage_with (fun p =>
  [ "Usage: " +:+ p +:+ " [-h] <string>";
    "Options:";
    "  -h  Display this help message" ]).
Definition parse_arguments {W} : list string -> C W cstr :=
  parse_one_operand usage
    "The string is required"
    "Too many arguments.".
Definition handle_arguments {W} (binary_name string_ : cstr) : C W string :=
  require usage binary_name string_ "The string is required.".
End strings_strdup.

(** [src/strings/strlen/main.c] *)
Module strings_strlen.
Definition usage {W} : usage_t W := usage_with (fun p =>
  [ "Usage: " +:+ p +:+ " [-h] <string>";
    "Options:";
    "  -h  Display this help message" ]).
Definition parse_arguments {W} : list string -> C W cstr :=
  parse_one_operand usage
    "The string is required"
    "Too many arguments.".
Definition handle_arguments {W} (binary_name string_ : cstr) : C W string :=
  require usage binary_name string_ "The string is required.".
End strings_strlen.

(** *** [users] *)

(** [src/users/getpwnam/main.c] *)
Module users_getpwnam.
Definition usage {W} : usage_t W := usage_with (fun p =>
  [ "Usage: " +:+ p +:+ " [-h] <user name>";
    "Options:";
    "  -h  Display this help message" ]).
Definition parse_arguments {W} : list string -> C W cstr :=
  parse_one_operand usage
    "The user name is required"
    "Too many arguments.".
Definition handle_arguments {W} (binary_name user_name : cstr) : C W string :=
  require usage binary_name user_name "The user name are required.".
End users_getpwnam.

(** ** What they promise *)

(** The name of a program and how it starts. *)
Record program := Program { name : string; start_up : forall W, list string -> C W string }.

Definition programs : list program :=
  [ Program "domain-socket/read-write/client.c" (fun _ => start_with domain_socket_read_write_client.parse_arguments domain_socket_read_write_client.handle_arguments);
    Program "domain-socket/send-recv/client.c" (fun _ => start_with domain_socket_send_recv_client.parse_arguments domain_socket_send_recv_client.handle_arguments);
    Program "domain-socket/socketpair/main.c" (fun _ => start_with domain_socket_socketpair.parse_arguments domain_socket_socketpair.handle_arguments);
    Program "file-system/access/main.c" (fun _ => start_with file_system_access.parse_arguments file_system_access.handle_arguments);
    Program "file-system/chdir/main.c" (fun _ => start_with file_system_chdir.parse_arguments file_system_chdir.handle_arguments);
    Program "file-system/lstat/main.c" (fun _ => start_with file_system_lstat.parse_arguments file_system_lstat.handle_arguments);
    Program "file-system/opendir-closedir/main.c" (fun _ => start_with file_system_opendir.parse_arguments file_system_opendir.handle_arguments);
    Program "file-system/readdir/main.c" (fun _ => start_with file_system_readdir.parse_arguments file_system_readdir.handle_arguments);
    Program "file-system/stat/main.c" (fun _ => start_with file_system_stat.parse_arguments file_system_stat.handle_arguments);
    Program "file-system/unlink/main.c" (fun _ => start_with file_system_unlink.parse_arguments file_system_unlink.handle_arguments);
    Program "file-tree-walking/nftw/main.c" (fun _ => start_with file_tree_walking_nftw.parse_arguments file_tree_walking_nftw.handle_arguments);
    Program "files/S_IS/main.c" (fun _ => start_with files_S_IS.parse_arguments files_S_IS.handle_arguments);
    Program "files/fcntl/main.c" (fun _ => start_with files_fcntl.parse_arguments files_fcntl.handle_arguments);
    Program "files/fdopen/main.c" (fun _ => start_with files_fdopen.parse_arguments files_fdopen.handle_arguments);
    Program "files/fstat/main.c" (fun _ => start_with files_fstat.parse_arguments files_fstat.handle_arguments);
    Program "groups/getgrnam/main.c" (fun _ => start_with groups_getgrnam.parse_arguments groups_getgrnam.handle_arguments);
    Program "io-multiplexing/client.c" (fun _ => start_with io_multiplexing_client.parse_arguments io_multiplexing_client.handle_arguments);
    Program "logging/openlog-closelog/main.c" (fun _ => start_with logging_openlog.parse_arguments logging_openlog.handle_arguments);
    Program "logging/setlogmask/main.c" (fun _ => start_with logging_setlogmask.parse_arguments logging_setlogmask.handle_arguments);
    Program "logging/syslog/main.c" (fun _ => start_with logging_syslog.parse_arguments logging_syslog.handle_arguments);
    Program "network-address/getaddrinfo-freeaddrinfo-gai_strerror/main.c" (fun _ => start_with network_address_getaddrinfo.parse_arguments network_address_getaddrinfo.handle_arguments);
    Program "path-manipulation/basename/main.c" (fun _ => start_with path_manipulation_basename.parse_arguments path_manipulation_basename.handle_arguments);
    Program "path-manipulation/dirname/main.c" (fun _ => start_with path_manipulation_dirname.parse_arguments path_manipulation_dirname.handle_arguments);
    Program "path-manipulation/glob-globfree/main.c" (fun _ => start_with path_manipulation_glob.parse_arguments path_manipulation_glob.handle_arguments);
    Program "pipe/reliable/main.c" (fun _ => start_with pipe_reliable.parse_arguments pipe_reliable.handle_arguments);
    Program "pipe/simple/main.c" (fun _ => start_with pipe_simple.parse_arguments pipe_simple.handle_arguments);
    Program "pipe/synchronized/main.c" (fun _ => start_with pipe_synchronized.parse_arguments pipe_synchronized.handle_arguments);
    Program "pthread-condition/pthread_cond_wait-pthread_cond_signal/main.c" (fun _ => start_with pthread_condition_pthread_cond_wait.parse_arguments pthread_condition_pthread_cond_wait.handle_arguments);
    Program "shared-memory/mmap-munmap/client.c" (fun _ => start_with shared_memory_mmap_client.parse_arguments shared_memory_mmap_client.handle_arguments);
    Program "shell/popen-pclose/main.c" (fun _ => start_with shell_popen.parse_arguments shell_popen.handle_arguments);
    Program "shell/system/main.c" (fun _ => start_with shell_system.parse_arguments shell_system.handle_arguments);
    Program "streams/ferror/main.c" (fun _ => start_with streams_ferror.parse_arguments streams_ferror.handle_arguments);
    Program "streams/fopen-fclose/main.c" (fun _ => start_with streams_fopen.parse_arguments streams_fopen.handle_arguments);
    Program "string-processing/regcomp-regfree-regerror/main.c" (fun _ => start_with string_processing_regcomp.parse_arguments string_processing_regcomp.handle_arguments);
    Program "string-processing/strtok_r/main.c" (fun _ => start_with string_processing_strtok_r.parse_arguments string_processing_strtok_r.handle_arguments);
    Program "strings/strdup/main.c" (fun _ => start_with strings_strdup.parse_arguments strings_strdup.handle_arguments);
    Program "strings/strlen/main.c" (fun _ => start_with strings_strlen.parse_arguments strings_strlen.handle_arguments);
    Program "users/getpwnam/main.c" (fun _ => start_with users_getpwnam.parse_arguments users_getpwnam.handle_arguments) ].

(** The status a command line is refused with, and the message that comes
    before the help text when the option letter is unknown. *)
Definition refusal (r : reading) : Z :=
  match r with Help => EXIT_SUCCESS | _ => EXIT_FAILURE end.

(** A program either gets its operand and has touched nothing, or prints to
    [stderr] and exits. *)
Definition takes_one_operand (start_up : forall W, list string -> C W string) : Prop :=
  forall W prog args (s : cstate W),
    match help_reading args with
    | Operands [p] => start_up W (prog :: args) s = (Val p, s)
    | r => exists lines, lines <> [] /\
        start_up W (prog :: args) s =
          (Exit (refusal r), CState (errno s) (trace s ++ (EErr <$> lines)) (world s)) /\
        (forall c, r = Unknown c -> head lines = Some (ln (unknown_option_text c)))
    end.

Lemma unknown_option_message_full (c : ascii) :
  unknown_option_message c = unknown_option_text c.
Proof. done. Qed.

Lemma start_takes_one_operand (help : string -> list string) (missing many required : string) :
  (forall p, help p <> []) ->
  takes_one_operand (fun W => start_with (parse_one_operand (usage_with help) missing many)
    (fun b p => require (usage_with help) b p required)).
Proof.
  intros Hh W prog args s. unfold start_with.
  unfold mbind, C_bind. rewrite parse_one_operand_run.
  assert (forall p msg, ln <$> (option_list msg ++ help p) <> []) as Hn.
  { intros p [m|]; simpl; [done|]. specialize (Hh p). by destruct (help p). }
  destruct (help_reading args) as [|c|[|p [|q ops]]]; simpl;
    rewrite ?usage_events_lines; try (eexists; split; [|split; [done|done]]; apply Hn).
  - eexists. split; [|split; [done|]]; [done|]. by intros ? [= <-].
  - done.
Qed.

(** As a front end. *)
Lemma takes_one_front {W} su prog args :
  takes_one_operand su -> front (su W (prog :: args)) (fun _ => True).
Proof.
  intros Hs s. specialize (Hs W prog args s). destruct (help_reading args) as [|c|[|p [|q l]]];
    try (destruct Hs as (ls & Hls & -> & _); exists (EErr <$> ls); split;
         [by apply Forall_fmap, Forall_true|simpl; split_and!; [done..| |by auto]; by destruct ls]).
  rewrite Hs. exists []. simpl. by rewrite app_nil_r.
Qed.

