(* ===== verification/OptionPrograms.v ===== *)
(** * Programs with options and numeric operands

    The programs whose command line sets variables through option letters, or
    whose operand is a number.  Each Module has the program's [usage], its
    [parse_*] and [get_*] functions, [parse_arguments], [handle_arguments] and
    the start of [main] that calls them ([start_up]).  The conversion result is
    what the rest of [main] works with. *)

From S2P Require Import Prelude CMonad CString Getopt ArgParse.

(** ** [command-line-arguments] *)

(** [src/command-line-arguments/getopt/main.c] *)
Module command_line_arguments_getopt.
Definition usage {W} : usage_t W := usage_with (fun p =>
  [ "Usage: " +:+ p +:+ " [-h] [-a] [-b] -c <value> [arg1 arg2 ...]";
    "Options:";
    "  -h          Display this help message";
    "  -a          Option 'a'";
    "  -b          Option 'b'";
    "  -c <value>  Option 'c' (required) with value" ]).

Definition parse_arguments {W} (argv : list string) : C W (bool * bool * cstr) :=
  '((option_a_set, option_b_set, option_c_value), _) ← while_getopt "habc:" argv
    (fun opt optarg optopt '(option_a_set, option_b_set, option_c_value) =>
       if (opt =?c "a")%c then mret (true, option_b_set, option_c_value)
       else if (opt =?c "b")%c then mret (option_a_set, true, option_c_value)
       else if (opt =?c "c")%c then mret (option_a_set, option_b_set, optarg)
       else if (opt =?c "h")%c then usage _ (argv0 argv) EXIT_SUCCESS None
       else if (opt =?c "?")%c then
         if (optopt =?c "c")%c
         then usage _ (argv0 argv) EXIT_FAILURE (Some "Option '-c' requires a value.")
         else usage _ (argv0 argv) EXIT_FAILURE (Some (unknown_option_message optopt))
       else usage _ (argv0 argv) EXIT_FAILURE None) (false, false, None);
  mret (option_a_set, option_b_set, option_c_value).

Definition handle_arguments {W} (binary_name option_c_value : cstr) : C W string :=
  option_c_value ← require usage binary_name option_c_value "-c is required";
  mret option_c_value.

Definition start_up {W} (argv : list string) : C W (bool * bool * string) :=
  '(option_a_set, option_b_set, option_c_value) ← parse_arguments argv;
  option_c_value ← handle_arguments (argv0 argv) option_c_value;
  mret (option_a_set, option_b_set, option_c_value).
End command_line_arguments_getopt.

(** ** [dynamic-libraries] *)

(** [src/dynamic-libraries/dlopen-dlclose-dlerror/main.c] *)
Module dynamic_libraries_dlopen_dlclose_dlerror.
Definition usage {W} : usage_t W := usage_with (fun p =>
  [ "Usage: " +:+ p +:+ " [-h] <library path>" ]).

Definition parse_arguments {W} (argv : list string) : C W cstr :=
  '(_, oi) ← while_getopt "h:" argv
    (fun opt _ optopt _ =>
       cases_with usage EXIT_SUCCESS None argv opt optopt) tt;
  let optind := Z.of_nat oi in
  die_if usage argv (argc argv <=? optind)
    "The library name is required";;
  die_if usage argv (optind <? argc argv - 1)
    "Too many arguments.";;
  library_path ← argv_at argv optind;
  mret library_path.

Definition handle_arguments {W} (binary_name library_path : cstr) : C W string :=
  library_path ← require usage binary_name library_path "The library path is required.";
  mret library_path.

Definition start_up {W} (argv : list string) : C W string :=
  library_path ← parse_arguments argv;
  handle_arguments (argv0 argv) library_path.
End dynamic_libraries_dlopen_dlclose_dlerror.

(** [src/dynamic-libraries/dlsym/main.c] *)
Module dynamic_libraries_dlsym.
Definition usage {W} : usage_t W := usage_with (fun p =>
  [ "Usage: " +:+ p +:+ " [-h] -l <library path> -f <function name>";
    "Options:";
    "  -h  Display this help message";
    "  -l <library path>  Path to the shared library to load";
    "  -f <function name> Function to call from the library (must be (void))" ]).

Definition parse_arguments {W} (argv : list string) : C W (cstr * cstr) :=
  '((library_path, function_name), _) ← while_getopt "hl:f:" argv
    (fun opt optarg optopt '(library_path, function_name) =>
       if (opt =?c "l")%c then mret (optarg, function_name)
       else if (opt =?c "f")%c then mret (library_path, optarg)
       else std_cases usage argv opt optopt) (None, None);
  mret (library_path, function_name).

Definition handle_arguments {W} (binary_name library_path function_name : cstr) : C W (string * string) :=
  library_path ← require usage binary_name library_path "The library path is required.";
  function_name ← require usage binary_name function_name "The function name is required.";
  mret (library_path, function_name).

Definition start_up {W} (argv : list string) : C W (string * string) :=
  '(library_path, function_name) ← parse_arguments argv;
  handle_arguments (argv0 argv) library_path function_name.
End dynamic_libraries_dlsym.

(** ** [file-system] *)

(** [src/file-system/chown/main.c] *)
Module file_system_chown.
Definition usage {W} : usage_t W := usage_with (fun p =>
  [ "Usage: " +:+ p +:+ " [-h] -u <user id> -g <group id> <path>";
    "Options:";
    "  -h              Display this help message";
    "  -u <user id>    User ID";
    "  -g <group id>   Group ID" ]).

Definition get_uid_t_max {W} : C W Z := get_unsigned_max "uid_t" sizeof_uid_t.

Definition parse_uid_t {W} (binary_name : cstr) (str : string) : C W Z :=
  parse_unsigned (fail_usage usage binary_name "Error parsing uid_t.")
    (fail_usage usage binary_name "Invalid characters in input.")
    (fail_usage usage binary_name "uid_t value out of range.")
    get_uid_t_max 32 str.

Definition get_gid_t_max {W} : C W Z := get_unsigned_max "gid_t" sizeof_gid_t.

Definition parse_gid_t {W} (binary_name : cstr) (str : string) : C W Z :=
  parse_unsigned (fail_usage usage binary_name "Error parsing gid_t.")
    (fail_usage usage binary_name "Invalid characters in input.")
    (fail_usage usage binary_name "gid_t value out of range.")
    get_gid_t_max 32 str.

Definition parse_arguments {W} (argv : list string) : C W (cstr * cstr * cstr) :=
  '((user_id, group_id), oi) ← while_getopt "hu:g:" argv
    (fun opt optarg optopt '(user_id, group_id) =>
       if (opt =?c "u")%c then mret (optarg, group_id)
       else if (opt =?c "g")%c then mret (user_id, optarg)
       else std_cases usage argv opt optopt) (None, None);
  let optind := Z.of_nat oi in
  die_if usage argv (argc argv <=? optind)
    "The file path is required";;
  die_if usage argv (optind <? argc argv - 1)
    "Too many arguments.";;
  path ← argv_at argv optind;
  mret (path, user_id, group_id).

Definition handle_arguments {W} (binary_name path user_id group_id : cstr) : C W (string * Z * Z) :=
  path ← require usage binary_name path "The path is required.";
  user_id ← require usage binary_name user_id "The user id is required.";
  group_id ← require usage binary_name group_id "The group id is required.";
  uid ← parse_uid_t binary_name user_id;
  gid ← parse_gid_t binary_name group_id;
  mret (path, uid, gid).

Definition start_up {W} (argv : list string) : C W (string * Z * Z) :=
  '(path, user_id, group_id) ← parse_arguments argv;
  handle_arguments (argv0 argv) path user_id group_id.
End file_system_chown.

(** ** [files] *)

(** [src/files/lseek/main.c] *)
Module files_lseek.
Definition usage {W} : usage_t W := usage_with (fun p =>
  [ "Usage: " +:+ p +:+ " [-h] -o <offset> <file path>";
    "Options:";
    "  -h           Display this help message";
    "  -o <offset>  The offset to move from the start of the file" ]).

Definition get_off_t_min {W} : C W Z := get_signed_min "off_t" sizeof_off_t.

Definition get_off_t_max {W} : C W Z := get_signed_max "off_t" sizeof_off_t.

Definition parse_off_t {W} (binary_name : cstr) (min max : Z) (str : string) : C W Z :=
  parse_signed (fail_usage usage binary_name "Error parsing off_t.")
    (fail_usage usage binary_name "Invalid characters in input.")
    (fail_usage usage binary_name "off_t value out of range.")
    min max 64 str.

Definition parse_arguments {W} (argv : list string) : C W (cstr * cstr) :=
  '(offset, oi) ← while_getopt "ho:" argv
    (fun opt optarg optopt offset =>
       if (opt =?c "o")%c then mret optarg
       else std_cases usage argv opt optopt) None;
  let optind := Z.of_nat oi in
  die_if usage argv (argc argv <=? optind)
    "The file path is required";;
  die_if usage argv (optind <? argc argv - 1)
    "Too many arguments.";;
  file_path ← argv_at argv optind;
  mret (file_path, offset).

Definition handle_arguments {W} (binary_name file_path offset_str : cstr) : C W (string * Z) :=
  file_path ← require usage binary_name file_path "The file path is required.";
  offset_str ← require usage binary_name offset_str "The offset is required.";
  min ← get_off_t_min;
  max ← get_off_t_max;
  offset ← parse_off_t binary_name min max offset_str;
  mret (file_path, offset).

Definition start_up {W} (argv : list string) : C W (string * Z) :=
  '(file_path, offset_str) ← parse_arguments argv;
  handle_arguments (argv0 argv) file_path offset_str.
End files_lseek.

(** [src/files/open-close/main.c] *)
Module files_open_close.
Definition usage {W} : usage_t W := usage_with (fun p =>
  [ "Usage: " +:+ p +:+ " [-h] <file path>";
    "Options:";
    "  -h  Display this help message" ]).

Definition parse_arguments {W} (argv : list string) : C W cstr :=
  '(_, oi) ← while_getopt "h" argv
    (fun opt _ optopt _ =>
       std_cases usage argv opt optopt) tt;
  let optind := Z.of_nat oi in
  die_if usage argv (argc argv <=? optind)
    "The file path is required";;
  die_if usage argv (optind <? argc argv - 1)
    "Too many arguments.";;
  file_path ← argv_at argv optind;
  mret file_path.

Definition handle_arguments {W} (binary_name file_path : cstr) : C W string :=
  file_path ← require usage binary_name file_path "The file path is required.";
  mret file_path.

Definition start_up {W} (argv : list string) : C W string :=
  file_path ← parse_arguments argv;
  handle_arguments (argv0 argv) file_path.
End files_open_close.

(** ** [groups] *)

(** [src/groups/getgrgid/main.c] *)
Module groups_getgrgid.
Definition usage {W} : usage_t W := usage_with (fun p =>
  [ "Usage: " +:+ p +:+ " [-h] <group id>";
    "Options:";
    "  -h  Display this help message" ]).

Definition get_gid_t_max {W} : C W Z := get_unsigned_max "gid_t" sizeof_gid_t.

Definition parse_gid_t {W} (binary_name : cstr) (str : string) : C W Z :=
  max ← get_gid_t_max;
  parse_unsigned (fail_usage usage binary_name "Error parsing gid_t.")
    (fail_usage usage binary_name "Invalid characters in input.")
    (fail_usage usage binary_name "gid_t value out of range.")
    (mret max) 32 str.

Definition parse_arguments {W} (argv : list string) : C W cstr :=
  '(_, oi) ← while_getopt "h" argv
    (fun opt _ optopt _ =>
       std_cases usage argv opt optopt) tt;
  let optind := Z.of_nat oi in
  die_if usage argv (argc argv <=? optind)
    "The group id is required";;
  die_if usage argv (optind <? argc argv - 1)
    "Too many arguments.";;
  group_id ← argv_at argv optind;
  mret group_id.

Definition handle_arguments {W} (binary_name group_id : cstr) : C W Z :=
  group_id ← require usage binary_name group_id "The group id is required.";
  gid ← parse_gid_t binary_name group_id;
  mret gid.

Definition start_up {W} (argv : list string) : C W Z :=
  group_id ← parse_arguments argv;
  handle_arguments (argv0 argv) group_id.
End groups_getgrgid.

(** [src/groups/setegid/main.c] *)
Module groups_setegid.
Definition usage {W} : usage_t W := usage_with (fun p =>
  [ "Usage: " +:+ p +:+ " [-h] <group id>";
    "Options:";
    "  -h  Display this help message" ]).

Definition get_gid_t_max {W} : C W Z := get_unsigned_max "gid_t" sizeof_gid_t.

Definition parse_gid_t {W} (binary_name : cstr) (str : string) : C W Z :=
  parse_unsigned (fail_usage usage binary_name "Error parsing gid_t.")
    (fail_usage usage binary_name "Invalid characters in input.")
    (fail_usage usage binary_name "gid_t value out of range.")
    get_gid_t_max 32 str.

Definition parse_arguments {W} (argv : list string) : C W cstr :=
  '(_, oi) ← while_getopt "h" argv
    (fun opt _ optopt _ =>
       std_cases usage argv opt optopt) tt;
  let optind := Z.of_nat oi in
  die_if usage argv (argc argv <=? optind)
    "The group id is required";;
  die_if usage argv (optind <? argc argv - 1)
    "Too many arguments.";;
  group_id ← argv_at argv optind;
  mret group_id.

Definition handle_arguments {W} (binary_name group_id : cstr) : C W Z :=
  group_id ← require usage binary_name group_id "The group id is required.";
  gid ← parse_gid_t binary_name group_id;
  mret gid.

Definition start_up {W} (argv : list string) : C W Z :=
  group_id ← parse_arguments argv;
  handle_arguments (argv0 argv) group_id.
End groups_setegid.

(** [src/groups/setgid/main.c] *)
Module groups_setgid.
Definition usage {W} : usage_t W := usage_with (fun p =>
  [ "Usage: " +:+ p +:+ " [-h] <group id>";
    "Options:";
    "  -h  Display this help message" ]).

Definition get_gid_t_max {W} : C W Z := get_unsigned_max "gid_t" sizeof_gid_t.

Definition parse_gid_t {W} (binary_name : cstr) (str : string) : C W Z :=
  parse_unsigned (fail_usage usage binary_name "Error parsing gid_t.")
    (fail_usage usage binary_name "Invalid characters in input.")
    (fail_usage usage binary_name "gid_t value out of range.")
    get_gid_t_max 32 str.

Definition parse_arguments {W} (argv : list string) : C W cstr :=
  '(_, oi) ← while_getopt "h" argv
    (fun opt _ optopt _ =>
       std_cases usage argv opt optopt) tt;
  let optind := Z.of_nat oi in
  die_if usage argv (argc argv <=? optind)
    "The group id is required";;
  die_if usage argv (optind <? argc argv - 1)
    "Too many arguments.";;
  group_id ← argv_at argv optind;
  mret group_id.

Definition handle_arguments {W} (binary_name group_id : cstr) : C W Z :=
  group_id ← require usage binary_name group_id "The group id is required.";
  gid ← parse_gid_t binary_name group_id;
  mret gid.

Definition start_up {W} (argv : list string) : C W Z :=
  group_id ← parse_arguments argv;
  handle_arguments (argv0 argv) group_id.
End groups_setgid.

(** [src/groups/setregid/main.c] *)
Module groups_setregid.
Definition usage {W} : usage_t W := usage_with (fun p =>
  [ "Usage: " +:+ p +:+ " [-h] -g <group id> -e <effective group id>";
    "Options:";
    "  -h                       Display this help message";
    "  -g <group id>            Specify the new group id";
    "  -e <effective group id>  Specify the new effective group id" ]).

Definition get_gid_t_max {W} : C W Z := get_unsigned_max "gid_t" sizeof_gid_t.

Definition parse_gid_t {W} (binary_name : cstr) (str : string) : C W Z :=
  parse_unsigned (fail_usage usage binary_name "Error parsing gid_t.")
    (fail_usage usage binary_name "Invalid characters in input.")
    (fail_usage usage binary_name "gid_t value out of range.")
    get_gid_t_max 32 str.

Definition parse_arguments {W} (argv : list string) : C W (cstr * cstr) :=
  '((group_id, egroup_id), _) ← while_getopt "hg:e:" argv
    (fun opt optarg optopt '(group_id, egroup_id) =>
       if (opt =?c "g")%c then mret (optarg, egroup_id)
       else if (opt =?c "e")%c then mret (group_id, optarg)
       else std_cases usage argv opt optopt) (None, None);
  mret (group_id, egroup_id).

Definition handle_arguments {W} (binary_name group_id egroup_id : cstr) : C W (Z * Z) :=
  group_id ← require usage binary_name group_id "The group id is required.";
  egroup_id ← require usage binary_name egroup_id "The effective group id is required.";
  gid ← parse_gid_t binary_name group_id;
  egid ← parse_gid_t binary_name egroup_id;
  mret (gid, egid).

Definition start_up {W} (argv : list string) : C W (Z * Z) :=
  '(group_id, egroup_id) ← parse_arguments argv;
  handle_arguments (argv0 argv) group_id egroup_id.
End groups_setregid.

(** ** [path-manipulation] *)

(** [src/path-manipulation/fnmatch/main.c] *)
Module path_manipulation_fnmatch.
Definition usage {W} : usage_t W := usage_with (fun p =>
  [ "Usage: " +:+ p +:+ " [-h] <pattern> <path1> [path2 ...]";
    "Options:";
    "  -h  Display this help message" ]).

(** The result is the pattern and [optind], which [main] reads. *)
Definition parse_arguments {W} (argv : list string) : C W (cstr * nat) :=
  '(_, oi) ← while_getopt "h" argv
    (fun opt _ optopt _ =>
       std_cases usage argv opt optopt) tt;
  let optind := Z.of_nat oi in
  die_if usage argv (argc argv <=? optind)
    "The pattern and at least one path are required";;
  die_if usage argv (argc argv <=? optind + 1)
    "At least one path is required";;
  pattern ← argv_at argv optind;
  mret (pattern, oi).

Definition handle_arguments {W} (binary_name pattern : cstr) : C W string :=
  pattern ← require usage binary_name pattern "The pattern is required.";
  mret pattern.

Definition start_up {W} (argv : list string) : C W (string * nat) :=
  '(pattern, optind) ← parse_arguments argv;
  pattern ← handle_arguments (argv0 argv) pattern;
  mret (pattern, optind).
End path_manipulation_fnmatch.

(** ** [process] *)

(** [src/process/abort/main.c] *)
Module process_abort.
Definition usage {W} : usage_t W := usage_with (fun p =>
  [ "Usage: " +:+ p +:+ " [-h] [-l limit]";
    "Options:";
    "  -h  Display this help message";
    "  -l  Set the core dump limit to unlimited" ]).

Definition get_rlim_t_max {W} : C W Z := get_unsigned_max "uid_t" sizeof_rlim_t.

Definition parse_rlim_t {W} (binary_name : cstr) (str : string) : C W Z :=
  max ← get_rlim_t_max;
  parse_unsigned (fail_usage usage binary_name "Error parsing uid_t.")
    (fail_usage usage binary_name "Invalid characters in input.")
    (fail_usage usage binary_name "uid_t value out of range.")
    (mret max) 64 str.

Definition parse_arguments {W} (argv : list string) : C W cstr :=
  '(limit, _) ← while_getopt "hl:" argv
    (fun opt optarg optopt limit =>
       if (opt =?c "l")%c then mret optarg
       else std_cases usage argv opt optopt) None;
  mret limit.

Definition handle_arguments {W} (binary_name limit_str : cstr) : C W Z :=
  limit ← match limit_str with
    | None => mret RLIM_INFINITY
    | Some limit_str => parse_rlim_t binary_name limit_str
    end;
  mret limit.

Definition start_up {W} (argv : list string) : C W Z :=
  limit_str ← parse_arguments argv;
  handle_arguments (argv0 argv) limit_str.
End process_abort.

(** [src/process/fork/main.c] *)
Module process_fork.
Definition usage {W} : usage_t W := usage_with (fun p =>
  [ "Usage: " +:+ p +:+ " [-h] <seconds>";
    "Options:";
    "  -h  Display this help message" ]).

Definition parse_unsigned_int {W} (binary_name : cstr) (str : string) : C W Z :=
  parse_unsigned (fail_usage usage binary_name "Error parsing unsigned integer.")
    (fail_usage usage binary_name "Invalid characters in input.")
    (fail_usage usage binary_name "Unsigned integer out of range.")
    (mret UINT_MAX) 32 str.

Definition parse_arguments {W} (argv : list string) : C W cstr :=
  '(seconds, _) ← while_getopt "hs:" argv
    (fun opt optarg optopt seconds =>
       if (opt =?c "s")%c then mret optarg
       else std_cases usage argv opt optopt) None;
  mret seconds.

Definition handle_arguments {W} (binary_name seconds_str : cstr) : C W Z :=
  seconds ← match seconds_str with
    | None => mret 0
    | Some seconds_str => parse_unsigned_int binary_name seconds_str
    end;
  mret seconds.

Definition start_up {W} (argv : list string) : C W Z :=
  seconds_str ← parse_arguments argv;
  handle_arguments (argv0 argv) seconds_str.
End process_fork.

(** [src/process/nice/main.c] *)
Module process_nice.
Definition usage {W} : usage_t W := usage_with (fun p =>
  [ "Usage: " +:+ p +:+ " [-h] <increment>";
    "Options:";
    "  -h  Display this help message" ]).

Definition parse_int {W} (binary_name : cstr) (str : string) : C W Z :=
  parse_signed (fail_usage usage binary_name "Error parsing integer.")
    (fail_usage usage binary_name "Invalid characters in input.")
    (fail_usage usage binary_name "Integer out of range.")
    INT_MIN INT_MAX 32 str.

Definition parse_arguments {W} (argv : list string) : C W cstr :=
  '(_, oi) ← while_getopt "hs:" argv
    (fun opt _ optopt _ =>
       std_cases usage argv opt optopt) tt;
  let optind := Z.of_nat oi in
  die_if usage argv (argc argv <=? optind)
    "The increment is required";;
  die_if usage argv (optind <? argc argv - 1)
    "Too many arguments.";;
  increment ← argv_at argv optind;
  mret increment.

Definition handle_arguments {W} (binary_name increment_str : cstr) : C W Z :=
  increment_str ← require usage binary_name increment_str "The increment is required.";
  increment ← parse_int binary_name increment_str;
  mret increment.

Definition start_up {W} (argv : list string) : C W Z :=
  increment_str ← parse_arguments argv;
  handle_arguments (argv0 argv) increment_str.
End process_nice.

(** ** [pthread-condition] *)

(** [src/pthread-condition/pthread_cond_timedwait/main.c] *)
Module pthread_condition_pthread_cond_timedwait.
Definition usage {W} : usage_t W := usage_with (fun p =>
  [ "Usage: " +:+ p +:+ " [-h] -m <seconds> -t <seconds>";
    "Options:";
    "  -h                Display this help message";
    "  -m <seconds>      ";
    "  -t <seconds>  " ]).

Definition get_time_t_min {W} : C W Z := get_signed_min "time_t" sizeof_time_t.

Definition get_time_t_max {W} : C W Z := get_signed_max "time_t" sizeof_time_t.

Definition parse_time_t {W} (binary_name : cstr) (min max : Z) (str : string) : C W Z :=
  parse_signed (fail_usage usage binary_name "Error parsing time.")
    (fail_usage usage binary_name "Invalid characters in input.")
    (fail_usage usage binary_name "Unsigned integer out of range for time.")
    min max 64 str.

Definition parse_unsigned_int {W} (binary_name : cstr) (str : string) : C W Z :=
  parse_unsigned (fail_usage usage binary_name "Error parsing unsigned integer.")
    (fail_usage usage binary_name "Invalid characters in input.")
    (fail_usage usage binary_name "Unsigned integer out of range.")
    (mret UINT_MAX) 32 str.

Definition parse_arguments {W} (argv : list string) : C W (cstr * cstr) :=
  '((main_seconds, thread_seconds), oi) ← while_getopt "hm:t:" argv
    (fun opt optarg optopt '(main_seconds, thread_seconds) =>
       if (opt =?c "m")%c then mret (optarg, thread_seconds)
       else if (opt =?c "t")%c then mret (main_seconds, optarg)
       else std_cases usage argv opt optopt) (None, None);
  let optind := Z.of_nat oi in
  die_if usage argv (negb (optind =? argc argv))
    "Too many arguments.";;
  mret (main_seconds, thread_seconds).

Definition handle_arguments {W} (binary_name main_seconds_str thread_seconds_str : cstr) : C W (Z * Z) :=
  main_seconds_str ← require usage binary_name main_seconds_str "main seconds or nanoseconds are required.";
  thread_seconds_str ← require usage binary_name thread_seconds_str "thread seconds or nanoseconds are required.";
  min ← get_time_t_min;
  max ← get_time_t_max;
  main_seconds ← parse_time_t binary_name min max main_seconds_str;
  thread_seconds ← parse_unsigned_int binary_name thread_seconds_str;
  mret (main_seconds, thread_seconds).

Definition start_up {W} (argv : list string) : C W (Z * Z) :=
  '(main_seconds_str, thread_seconds_str) ← parse_arguments argv;
  handle_arguments (argv0 argv) main_seconds_str thread_seconds_str.
End pthread_condition_pthread_cond_timedwait.

(** ** [pthread-mutex] *)

(** [src/pthread-mutex/pthread_mutex_lock-pthread_mutex_unlock/main.c] *)
Module pthread_mutex_pthread_mutex_lock_pthread_mutex_unlock.
Definition usage {W} : usage_t W := usage_with (fun p =>
  [ "Usage: " +:+ p +:+ " [-h] [-m]";
    "Options:";
    "  -h  Display this help message.";
    "  -m  Use mutex (default is no mutex)." ]).

Definition parse_arguments {W} (argv : list string) : C W bool :=
  '(use_mutex, _) ← while_getopt "hm" argv
    (fun opt _ optopt use_mutex =>
       if (opt =?c "m")%c then mret true
       else std_cases usage argv opt optopt) false;
  mret use_mutex.

Definition start_up {W} (argv : list string) : C W bool :=
  use_mutex ← parse_arguments argv; mret use_mutex.
End pthread_mutex_pthread_mutex_lock_pthread_mutex_unlock.

(** ** [shared-memory] *)

(** [src/shared-memory/shm_open-shm_unlink/main.c] *)
Module shared_memory_shm_open_shm_unlink.
Definition usage {W} : usage_t W := usage_with (fun p =>
  [ "Usage: " +:+ p +:+ " [-h] <shared memory name>" ]).

Definition parse_arguments {W} (argv : list string) : C W cstr :=
  '(_, oi) ← while_getopt "h:" argv
    (fun opt _ optopt _ =>
       cases_with usage EXIT_SUCCESS None argv opt optopt) tt;
  let optind := Z.of_nat oi in
  die_if usage argv (argc argv <=? optind)
    "The library name is required";;
  die_if usage argv (optind <? argc argv - 1)
    "Too many arguments.";;
  shm_name ← argv_at argv optind;
  mret shm_name.

Definition handle_arguments {W} (binary_name shm_name : cstr) : C W string :=
  shm_name ← require usage binary_name shm_name "The shared memory name is required.";
  mret shm_name.

Definition start_up {W} (argv : list string) : C W string :=
  shm_name ← parse_arguments argv;
  handle_arguments (argv0 argv) shm_name.
End shared_memory_shm_open_shm_unlink.

(** ** [sleep] *)

(** [src/sleep/nanosleep/main.c] *)
Module sleep_nanosleep.
Definition usage {W} : usage_t W := usage_with (fun p =>
  [ "Usage: " +:+ p +:+ " [-h] [-s <seconds>] [-n nanoseconds]";
    "Options:";
    "  -h                Display this help message";
    "  -s <seconds>      ";
    "  -n <nanoseconds>  " ]).

Definition get_time_t_min {W} : C W Z := get_signed_min "time_t" sizeof_time_t.

Definition get_time_t_max {W} : C W Z := get_signed_max "time_t" sizeof_time_t.

Definition parse_time_t {W} (binary_name : cstr) (min max : Z) (str : string) : C W Z :=
  parse_signed (fail_usage usage binary_name "Error parsing time.")
    (fail_usage usage binary_name "Invalid characters in input.")
    (fail_usage usage binary_name "Unsigned integer out of range for time.")
    min max 64 str.

Definition parse_long {W} (binary_name : cstr) (str : string) : C W Z :=
  parse_signed (fail_usage usage binary_name "Error parsing unsigned integer.")
    (fail_usage usage binary_name "Invalid characters in input.")
    (fail_usage usage binary_name "Unsigned integer out of range for signed long.")
    LONG_MIN LONG_MAX 64 str.

Definition parse_arguments {W} (argv : list string) : C W (cstr * cstr) :=
  '((seconds, nanoseconds), oi) ← while_getopt "hs:n:" argv
    (fun opt optarg optopt '(seconds, nanoseconds) =>
       if (opt =?c "s")%c then mret (optarg, nanoseconds)
       else if (opt =?c "n")%c then mret (seconds, optarg)
       else std_cases usage argv opt optopt) (None, None);
  let optind := Z.of_nat oi in
  die_if usage argv (negb (optind =? argc argv))
    "Too many arguments.";;
  mret (seconds, nanoseconds).

Definition handle_arguments {W} (binary_name seconds_str nanoseconds_str : cstr) :
    C W (Z * Z) :=
  match seconds_str, nanoseconds_str with
  | None, None =>
      usage unit binary_name EXIT_FAILURE (Some "seconds or nanoseconds are required.")
  | _, _ => mret tt
  end;;
  seconds ← match seconds_str with
    | Some seconds_str =>
        min ← get_time_t_min;
        max ← get_time_t_max;
        parse_time_t binary_name min max seconds_str
    | None => mret 0
    end;
  nanoseconds ← match nanoseconds_str with
    | Some nanoseconds_str => parse_long binary_name nanoseconds_str
    | None => mret 0
    end;
  mret (seconds, nanoseconds).

Definition start_up {W} (argv : list string) : C W (Z * Z) :=
  '(seconds_str, nanoseconds_str) ← parse_arguments argv;
  handle_arguments (argv0 argv) seconds_str nanoseconds_str.
End sleep_nanosleep.

(** [src/sleep/sleep/main.c] *)
Module sleep_sleep.
Definition usage {W} : usage_t W := usage_with (fun p =>
  [ "Usage: " +:+ p +:+ " [-h] <seconds>";
    "Options:";
    "  -h  Display this help message" ]).

Definition parse_unsigned_int {W} (binary_name : cstr) (str : string) : C W Z :=
  parse_unsigned (fail_usage usage binary_name "Error parsing unsigned integer.")
    (fail_usage usage binary_name "Invalid characters in input.")
    (fail_usage usage binary_name "Unsigned integer out of range.")
    (mret UINT_MAX) 32 str.

Definition parse_arguments {W} (argv : list string) : C W cstr :=
  '(_, oi) ← while_getopt "hs:" argv
    (fun opt _ optopt _ =>
       std_cases usage argv opt optopt) tt;
  let optind := Z.of_nat oi in
  die_if usage argv (argc argv <=? optind)
    "The seconds are required";;
  die_if usage argv (optind <? argc argv - 1)
    "Too many arguments.";;
  seconds ← argv_at argv optind;
  mret seconds.

Definition handle_arguments {W} (binary_name seconds_str : cstr) : C W Z :=
  seconds ← match seconds_str with
    | None => mret 0
    | Some seconds_str => parse_unsigned_int binary_name seconds_str
    end;
  mret seconds.

Definition start_up {W} (argv : list string) : C W Z :=
  seconds_str ← parse_arguments argv;
  handle_arguments (argv0 argv) seconds_str.
End sleep_sleep.

(** ** [streams] *)

(** [src/streams/fprintf/main.c] *)
Module streams_fprintf.
Definition usage {W} : usage_t W := usage_with (fun p =>
  [ "Usage: " +:+ p +:+ " [-h] <shared memory name>" ]).

Definition parse_arguments {W} (argv : list string) : C W cstr :=
  '(_, oi) ← while_getopt "h:" argv
    (fun opt _ optopt _ =>
       cases_with usage EXIT_SUCCESS None argv opt optopt) tt;
  let optind := Z.of_nat oi in
  die_if usage argv (argc argv <=? optind)
    "The library name is required";;
  die_if usage argv (optind <? argc argv - 1)
    "Too many arguments.";;
  msg ← argv_at argv optind;
  mret msg.

Definition handle_arguments {W} (binary_name message : cstr) : C W string :=
  message ← require usage binary_name message "The message is required.";
  mret message.

Definition start_up {W} (argv : list string) : C W string :=
  message ← parse_arguments argv;
  handle_arguments (argv0 argv) message.
End streams_fprintf.

(** [src/streams/fseek/main.c] *)
Module streams_fseek.
Definition usage {W} : usage_t W := usage_with (fun p =>
  [ "Usage: " +:+ p +:+ " [-h] <file path>";
    "Options:";
    "  -h           Display this help message";
    "  -o <offset>  The offset to move from the start of the file" ]).

Definition parse_long {W} (binary_name : cstr) (str : string) : C W Z :=
  parse_signed (fail_usage usage binary_name "Error parsing unsigned integer.")
    (fail_usage usage binary_name "Invalid characters in input.")
    (fail_usage usage binary_name "Unsigned integer out of range for signed long.")
    LONG_MIN LONG_MAX 64 str.

Definition parse_arguments {W} (argv : list string) : C W (cstr * cstr) :=
  '(offset, oi) ← while_getopt "ho:" argv
    (fun opt optarg optopt offset =>
       if (opt =?c "o")%c then mret optarg
       else std_cases usage argv opt optopt) None;
  let optind := Z.of_nat oi in
  die_if usage argv (argc argv <=? optind)
    "The file path is required";;
  die_if usage argv (optind <? argc argv - 1)
    "Too many arguments.";;
  file_path ← argv_at argv optind;
  mret (file_path, offset).

Definition handle_arguments {W} (binary_name file_path offset_str : cstr) : C W (string * Z) :=
  file_path ← require usage binary_name file_path "The file path is required.";
  offset_str ← require usage binary_name offset_str "The offset is required.";
  offset ← parse_long binary_name offset_str;
  mret (file_path, offset).

Definition start_up {W} (argv : list string) : C W (string * Z) :=
  '(file_path, offset_str) ← parse_arguments argv;
  handle_arguments (argv0 argv) file_path offset_str.
End streams_fseek.

(** [src/streams/fseeko/main.c] *)
Module streams_fseeko.
Definition usage {W} : usage_t W := usage_with (fun p =>
  [ "Usage: " +:+ p +:+ " [-h] <file path>";
    "Options:";
    "  -h           Display this help message";
    "  -o <offset>  The offset to move from the start of the file" ]).

Definition get_off_t_min {W} : C W Z := get_signed_min "off_t" sizeof_off_t.

Definition get_off_t_max {W} : C W Z := get_signed_max "off_t" sizeof_off_t.

Definition parse_off_t {W} (binary_name : cstr) (str : string) : C W Z :=
  min ← get_off_t_min;
  max ← get_off_t_max;
  parse_signed (fail_usage usage binary_name "Error parsing off_t.")
    (fail_usage usage binary_name "Invalid characters in input.")
    (fail_usage usage binary_name "off_t value out of range.")
    min max 64 str.

Definition parse_arguments {W} (argv : list string) : C W (cstr * cstr) :=
  '(offset, oi) ← while_getopt "ho:" argv
    (fun opt optarg optopt offset =>
       if (opt =?c "o")%c then mret optarg
       else std_cases usage argv opt optopt) None;
  let optind := Z.of_nat oi in
  die_if usage argv (argc argv <=? optind)
    "The file path is required";;
  die_if usage argv (optind <? argc argv - 1)
    "Too many arguments.";;
  file_path ← argv_at argv optind;
  mret (file_path, offset).

Definition handle_arguments {W} (binary_name file_path offset_str : cstr) : C W (string * Z) :=
  file_path ← require usage binary_name file_path "The file path is required.";
  offset_str ← require usage binary_name offset_str "The offset is required.";
  offset ← parse_off_t binary_name offset_str;
  mret (file_path, offset).

Definition start_up {W} (argv : list string) : C W (string * Z) :=
  '(file_path, offset_str) ← parse_arguments argv;
  handle_arguments (argv0 argv) file_path offset_str.
End streams_fseeko.

(** ** [string-processing] *)

(** [src/string-processing/regexec/main.c] *)
Module string_processing_regexec.
Definition usage {W} : usage_t W := usage_with (fun p =>
  [ "Usage: " +:+ p +:+ " [-h] pattern <test string>";
    "Options:";
    "  -h            Display this help message" ]).

(** The result is the pattern and [optind], which [main] reads. *)
Definition parse_arguments {W} (argv : list string) : C W (cstr * nat) :=
  '(_, oi) ← while_getopt "h" argv
    (fun opt _ optopt _ =>
       cases_with usage EXIT_FAILURE (Some "Z") argv opt optopt) tt;
  let optind := Z.of_nat oi in
  die_if usage argv (argc argv <=? optind + 1)
    "Too few arguments.";;
  pattern ← argv_at argv optind;
  mret (pattern, oi).

Definition handle_arguments {W} (binary_name pattern : cstr) : C W string :=
  pattern ← require usage binary_name pattern "The pattern is required.";
  mret pattern.

Definition start_up {W} (argv : list string) : C W (string * nat) :=
  '(pattern, optind) ← parse_arguments argv;
  pattern ← handle_arguments (argv0 argv) pattern;
  mret (pattern, optind).
End string_processing_regexec.

(** [src/string-processing/strchr/main.c] *)
Module string_processing_strchr.
Definition usage {W} : usage_t W := usage_with (fun p =>
  [ "Usage: " +:+ p +:+ " [-h] <needle> <haystack>";
    "Options:";
    "  -h  Display this help message" ]).

Definition parse_arguments {W} (argv : list string) : C W (cstr * cstr) :=
  '(_, oi) ← while_getopt "h" argv
    (fun opt _ optopt _ =>
       std_cases usage argv opt optopt) tt;
  let optind := Z.of_nat oi in
  die_if usage argv (argc argv <=? optind + 1)
    "Too few arguments.";;
  die_if usage argv (optind <? argc argv - 2)
    "Too many arguments.";;
  needle ← argv_at argv optind;
  haystack ← argv_at argv (optind + 1);
  mret (needle, haystack).

Definition handle_arguments {W} (binary_name needle_str haystack : cstr) :
    C W (string * ascii) :=
  needle_str ← require usage binary_name needle_str "The needle is required.";
  haystack ← require usage binary_name haystack "The haystack is required.";
  match needle_str with
  | String needle EmptyString => mret (haystack, needle)
  | _ => usage _ binary_name EXIT_FAILURE
           (Some "The needle must be a single character.")
  end.

Definition start_up {W} (argv : list string) : C W (string * ascii) :=
  '(needle_str, haystack) ← parse_arguments argv;
  handle_arguments (argv0 argv) needle_str haystack.
End string_processing_strchr.

(** [src/string-processing/strstr/main.c] *)
Module string_processing_strstr.
Definition usage {W} : usage_t W := usage_with (fun p =>
  [ "Usage: " +:+ p +:+ " [-h] <needle> <haystack>";
    "Options:";
    "  -h  Display this help message" ]).

Definition parse_arguments {W} (argv : list string) : C W (cstr * cstr) :=
  '(_, oi) ← while_getopt "h" argv
    (fun opt _ optopt _ =>
       std_cases usage argv opt optopt) tt;
  let optind := Z.of_nat oi in
  die_if usage argv (argc argv <=? optind + 1)
    "Too few arguments.";;
  die_if usage argv (optind <? argc argv - 2)
    "Too many arguments.";;
  needle ← argv_at argv optind;
  haystack ← argv_at argv (optind + 1);
  mret (needle, haystack).

Definition handle_arguments {W} (binary_name needle haystack : cstr) :
    C W (string * string) :=
  needle ← require usage binary_name needle "The needle is required.";
  haystack ← require usage binary_name haystack "The haystack is required.";
  if (String.length needle =? 0)%nat
  then usage _ binary_name EXIT_FAILURE
         (Some "The needle must have at least one character.")
  else mret (needle, haystack).

Definition start_up {W} (argv : list string) : C W (string * string) :=
  '(needle, haystack) ← parse_arguments argv;
  handle_arguments (argv0 argv) needle haystack.
End string_processing_strstr.

(** [src/string-processing/wordexp-wordfree/main.c] *)
Module string_processing_wordexp_wordfree.
Definition usage {W} : usage_t W := usage_with (fun p =>
  [ "Usage: " +:+ p +:+ " [-h] <string>>";
    "Options:";
    "  -h            Display this help message" ]).

Definition parse_arguments {W} (argv : list string) : C W cstr :=
  '(_, oi) ← while_getopt "h" argv
    (fun opt _ optopt _ => std_cases usage (S := unit) argv opt optopt) tt;
  let optind := Z.of_nat oi in
  die_if usage argv (1 <? argc argv - optind)
    "Too many unnamed arguments.";;
  if argc argv - optind =? 1 then argv_at argv optind else mret None.

Definition handle_arguments {W} (binary_name string_ : cstr) : C W string :=
  string_ ← require usage binary_name string_ "The string is required.";
  mret string_.

Definition start_up {W} (argv : list string) : C W string :=
  string_ ← parse_arguments argv;
  handle_arguments (argv0 argv) string_.
End string_processing_wordexp_wordfree.

(** ** [strings] *)

(** [src/strings/strcmp/main.c] *)
Module strings_strcmp.
Definition usage {W} : usage_t W := usage_with (fun p =>
  [ "Usage: " +:+ p +:+ " [-h] <string1> <string2>";
    "Options:";
    "  -h  Display this help message" ]).

Definition parse_arguments {W} (argv : list string) : C W (cstr * cstr) :=
  '(_, oi) ← while_getopt "h" argv
    (fun opt _ optopt _ =>
       std_cases usage argv opt optopt) tt;
  let optind := Z.of_nat oi in
  die_if usage argv (argc argv <=? optind)
    "The string1 and string2 are required";;
  die_if usage argv (argc argv <=? optind + 1)
    "The string2 is required";;
  die_if usage argv (optind <? argc argv - 2)
    "Error: Too many arguments.";;
  string1 ← argv_at argv optind;
  string2 ← argv_at argv (optind + 1);
  mret (string1, string2).

Definition handle_arguments {W} (binary_name string1 string2 : cstr) : C W (string * string) :=
  string1 ← require usage binary_name string1 "string1 is required.";
  string2 ← require usage binary_name string2 "string2 is required.";
  mret (string1, string2).

Definition start_up {W} (argv : list string) : C W (string * string) :=
  '(string1, string2) ← parse_arguments argv;
  handle_arguments (argv0 argv) string1 string2.
End strings_strcmp.

(** [src/strings/strncmp/main.c] *)
Module strings_strncmp.
Definition usage {W} : usage_t W := usage_with (fun p =>
  [ "Usage: " +:+ p +:+ " [-h] -n <length> <string1> <string2>";
    "Options:";
    "  -h           Display this help message";
    "  -n <length>  The number of characters to compare" ]).

Definition parse_size_t {W} (binary_name : cstr) (str : string) : C W Z :=
  parse_unsigned (fail_usage usage binary_name "Error parsing size_t.")
    (fail_usage usage binary_name "Invalid characters in input.")
    (fail_usage usage binary_name "size_t value out of range.")
    (mret SIZE_MAX) 64 str.

Definition parse_arguments {W} (argv : list string) : C W (cstr * cstr * cstr) :=
  '(n, oi) ← while_getopt "hn:" argv
    (fun opt optarg optopt n =>
       if (opt =?c "n")%c then mret optarg
       else std_cases usage argv opt optopt) None;
  let optind := Z.of_nat oi in
  die_if usage argv (argc argv <=? optind)
    "The string1 and string2 are required";;
  die_if usage argv (argc argv <=? optind + 1)
    "The string2 is required";;
  die_if usage argv (optind <? argc argv - 2)
    "Error: Too many arguments.";;
  string1 ← argv_at argv optind;
  string2 ← argv_at argv (optind + 1);
  mret (n, string1, string2).

Definition handle_arguments {W} (binary_name n_str string1 string2 : cstr) : C W (string * string * Z) :=
  n_str ← require usage binary_name n_str "n is required.";
  string1 ← require usage binary_name string1 "string1 is required.";
  string2 ← require usage binary_name string2 "string2 is required.";
  n ← parse_size_t binary_name n_str;
  mret (string1, string2, n).

Definition start_up {W} (argv : list string) : C W (string * string * Z) :=
  '(n_str, string1, string2) ← parse_arguments argv;
  handle_arguments (argv0 argv) n_str string1 string2.
End strings_strncmp.

(** [src/strings/strncpy/main.c] *)
Module strings_strncpy.
Definition usage {W} : usage_t W := usage_with (fun p =>
  [ "Usage: " +:+ p +:+ " [-h] -n <length> <string>";
    "Options:";
    "  -h           Display this help message";
    "  -n <length>  The number of characters to copy" ]).

Definition parse_size_t {W} (binary_name : cstr) (str : string) : C W Z :=
  parse_unsigned (fail_usage usage binary_name "Error parsing size_t.")
    (fail_usage usage binary_name "Invalid characters in input.")
    (fail_usage usage binary_name "size_t value out of range.")
    (mret SIZE_MAX) 64 str.

Definition parse_arguments {W} (argv : list string) : C W (cstr * cstr) :=
  '(n, oi) ← while_getopt "hn:" argv
    (fun opt optarg optopt n =>
       if (opt =?c "n")%c then mret optarg
       else std_cases usage argv opt optopt) None;
  let optind := Z.of_nat oi in
  die_if usage argv (argc argv <=? optind)
    "The string is required";;
  die_if usage argv (optind <? argc argv - 1)
    "Too many arguments.";;
  string_ ← argv_at argv optind;
  mret (n, string_).

Definition handle_arguments {W} (binary_name n_str string_ : cstr) : C W (string * Z) :=
  n_str ← require usage binary_name n_str "n is required.";
  string_ ← require usage binary_name string_ "The string is required.";
  n ← parse_size_t binary_name n_str;
  mret (string_, n).

Definition start_up {W} (argv : list string) : C W (string * Z) :=
  '(n_str, string_) ← parse_arguments argv;
  handle_arguments (argv0 argv) n_str string_.
End strings_strncpy.

(** ** [time] *)

(** [src/time/difftime/main.c] *)
Module time_difftime.
Definition usage {W} : usage_t W := usage_with (fun p =>
  [ "Usage: " +:+ p +:+ " [-h] <seconds>";
    "Options:";
    "  -h  Display this help message" ]).

Definition parse_unsigned_int {W} (binary_name : cstr) (str : string) : C W Z :=
  parse_unsigned (fail_usage usage binary_name "Error parsing unsigned integer.")
    (fail_usage usage binary_name "Invalid characters in input.")
    (fail_usage usage binary_name "Unsigned integer out of range.")
    (mret UINT_MAX) 32 str.

Definition parse_arguments {W} (argv : list string) : C W cstr :=
  '(_, oi) ← while_getopt "h" argv
    (fun opt _ optopt _ =>
       std_cases usage argv opt optopt) tt;
  let optind := Z.of_nat oi in
  die_if usage argv (argc argv <=? optind)
    "The seconds are required";;
  die_if usage argv (optind <? argc argv - 1)
    "Too many arguments.";;
  seconds ← argv_at argv optind;
  mret seconds.

Definition handle_arguments {W} (binary_name seconds_str : cstr) : C W Z :=
  seconds_str ← require usage binary_name seconds_str "The seconds are required.";
  seconds ← parse_unsigned_int binary_name seconds_str;
  mret seconds.

Definition start_up {W} (argv : list string) : C W Z :=
  seconds_str ← parse_arguments argv;
  handle_arguments (argv0 argv) seconds_str.
End time_difftime.

(** ** [users] *)

(** [src/users/getpwuid/main.c] *)
Module users_getpwuid.
Definition usage {W} : usage_t W := usage_with (fun p =>
  [ "Usage: " +:+ p +:+ " [-h] <user id>";
    "Options:";
    "  -h  Display this help message" ]).

Definition get_uid_t_max {W} : C W Z := get_unsigned_max "uid_t" sizeof_uid_t.

Definition parse_uid_t {W} (binary_name : cstr) (str : string) : C W Z :=
  max ← get_uid_t_max;
  parse_unsigned (fail_usage usage binary_name "Error parsing uid_t.")
    (fail_usage usage binary_name "Invalid characters in input.")
    (fail_usage usage binary_name "uid_t value out of range.")
    (mret max) 32 str.

Definition parse_arguments {W} (argv : list string) : C W cstr :=
  '(_, oi) ← while_getopt "h" argv
    (fun opt _ optopt _ =>
       std_cases usage argv opt optopt) tt;
  let optind := Z.of_nat oi in
  die_if usage argv (argc argv <=? optind)
    "The user id is required";;
  die_if usage argv (optind <? argc argv - 1)
    "Too many arguments.";;
  user_id ← argv_at argv optind;
  mret user_id.

Definition handle_arguments {W} (binary_name user_id : cstr) : C W Z :=
  user_id ← require usage binary_name user_id "The user id are required.";
  uid ← parse_uid_t binary_name user_id;
  mret uid.

Definition start_up {W} (argv : list string) : C W Z :=
  user_id ← parse_arguments argv;
  handle_arguments (argv0 argv) user_id.
End users_getpwuid.

(** [src/users/seteuid/main.c] *)
Module users_seteuid.
Definition usage {W} : usage_t W := usage_with (fun p =>
  [ "Usage: " +:+ p +:+ " [-h] <user id>";
    "Options:";
    "  -h  Display this help message" ]).

Definition get_uid_t_max {W} : C W Z := get_unsigned_max "uid_t" sizeof_uid_t.

Definition parse_uid_t {W} (binary_name : cstr) (str : string) : C W Z :=
  max ← get_uid_t_max;
  parse_unsigned (fail_usage usage binary_name "Error parsing uid_t.")
    (fail_usage usage binary_name "Invalid characters in input.")
    (fail_usage usage binary_name "uid_t value out of range.")
    (mret max) 32 str.

Definition parse_arguments {W} (argv : list string) : C W cstr :=
  '(_, oi) ← while_getopt "h" argv
    (fun opt _ optopt _ =>
       std_cases usage argv opt optopt) tt;
  let optind := Z.of_nat oi in
  die_if usage argv (argc argv <=? optind)
    "The user id is required";;
  die_if usage argv (optind <? argc argv - 1)
    "Too many arguments.";;
  user_id ← argv_at argv optind;
  mret user_id.

Definition handle_arguments {W} (binary_name user_id : cstr) : C W Z :=
  user_id ← require usage binary_name user_id "The user id are required.";
  uid ← parse_uid_t binary_name user_id;
  mret uid.

Definition start_up {W} (argv : list string) : C W Z :=
  user_id ← parse_arguments argv;
  handle_arguments (argv0 argv) user_id.
End users_seteuid.

(** [src/users/setreuid/main.c] *)
Module users_setreuid.
Definition usage {W} : usage_t W := usage_with (fun p =>
  [ "Usage: " +:+ p +:+ " [-h] -u <user id> -e <effective user id>";
    "Options:";
    "  -h                      Display this help message";
    "  -u <user id>            Specify the new user id";
    "  -e <effective user id>  Specify the new effective user id" ]).

Definition get_uid_t_max {W} : C W Z := get_unsigned_max "uid_t" sizeof_uid_t.

Definition parse_uid_t {W} (binary_name : cstr) (str : string) : C W Z :=
  max ← get_uid_t_max;
  parse_unsigned (fail_usage usage binary_name "Error parsing uid_t.")
    (fail_usage usage binary_name "Invalid characters in input.")
    (fail_usage usage binary_name "uid_t value out of range.")
    (mret max) 32 str.

Definition parse_arguments {W} (argv : list string) : C W (cstr * cstr) :=
  '((user_id, euser_id), oi) ← while_getopt "hu:e:" argv
    (fun opt optarg optopt '(user_id, euser_id) =>
       if (opt =?c "u")%c then mret (optarg, euser_id)
       else if (opt =?c "e")%c then mret (user_id, optarg)
       else std_cases usage argv opt optopt) (None, None);
  let optind := Z.of_nat oi in
  die_if usage argv (optind <? argc argv)
    "Unexpected extra arguments";;
  mret (user_id, euser_id).

Definition handle_arguments {W} (binary_name user_id euser_id : cstr) : C W (Z * Z) :=
  user_id ← require usage binary_name user_id "The user id are required.";
  euser_id ← require usage binary_name euser_id "The effective user id are required.";
  uid ← parse_uid_t binary_name user_id;
  euid ← parse_uid_t binary_name euser_id;
  mret (uid, euid).

Definition start_up {W} (argv : list string) : C W (Z * Z) :=
  '(user_id, euser_id) ← parse_arguments argv;
  handle_arguments (argv0 argv) user_id euser_id.
End users_setreuid.

(** [src/users/setuid/main.c] *)
Module users_setuid.
Definition usage {W} : usage_t W := usage_with (fun p =>
  [ "Usage: [-h] " +:+ p +:+ " <user id>";
    "Options:";
    "  -h  Display this help message" ]).

Definition get_uid_t_max {W} : C W Z := get_unsigned_max "uid_t" sizeof_uid_t.

Definition parse_uid_t {W} (binary_name : cstr) (str : string) : C W Z :=
  max ← get_uid_t_max;
  parse_unsigned (fail_usage usage binary_name "Error parsing uid_t.")
    (fail_usage usage binary_name "Invalid characters in input.")
    (fail_usage usage binary_name "uid_t value out of range.")
    (mret max) 32 str.

Definition parse_arguments {W} (argv : list string) : C W cstr :=
  '(_, oi) ← while_getopt "h" argv
    (fun opt _ optopt _ =>
       std_cases usage argv opt optopt) tt;
  let optind := Z.of_nat oi in
  die_if usage argv (argc argv <=? optind)
    "The user id is required";;
  die_if usage argv (optind <? argc argv - 1)
    "Too many arguments.";;
  user_id ← argv_at argv optind;
  mret user_id.

Definition handle_arguments {W} (binary_name user_id : cstr) : C W Z :=
  user_id ← require usage binary_name user_id "The user id are required.";
  uid ← parse_uid_t binary_name user_id;
  mret uid.

Definition start_up {W} (argv : list string) : C W Z :=
  user_id ← parse_arguments argv;
  handle_arguments (argv0 argv) user_id.
End users_setuid.

(** ** What they promise *)

Definition option_programs : list program :=
  [ Program "command-line-arguments/getopt/main.c" "habc:" (fun _ => command_line_arguments_getopt.usage)
      (bool * bool * string) (fun _ => command_line_arguments_getopt.start_up)
      (fun args '(_, _, v2) => from_args args v2)
      [(["-a"; "-c"; "x"], (true, false, "x")); (["-cx"; "-b"], (false, true, "x"))];
    Program "dynamic-libraries/dlopen-dlclose-dlerror/main.c" "h:" (fun _ => dynamic_libraries_dlopen_dlclose_dlerror.usage)
      string (fun _ => dynamic_libraries_dlopen_dlclose_dlerror.start_up)
      (fun args v0 => from_args args v0)
      [(["lib.so"], "lib.so")];
    Program "dynamic-libraries/dlsym/main.c" "hl:f:" (fun _ => dynamic_libraries_dlsym.usage)
      (string * string) (fun _ => dynamic_libraries_dlsym.start_up)
      (fun args '(v0, v1) => from_args args v0 /\ from_args args v1)
      [(["-f"; "fun"; "-l"; "lib.so"], ("lib.so", "fun"))];
    Program "file-system/chown/main.c" "hu:g:" (fun _ => file_system_chown.usage)
      (string * Z * Z) (fun _ => file_system_chown.start_up)
      (fun args '(v0, v1, v2) => from_args args v0 /\ unsigned_in UINT_MAX args v1 /\ unsigned_in UINT_MAX args v2)
      [(["-u"; "1000"; "-g"; "100"; "file"], ("file", 1000, 100))];
    Program "files/lseek/main.c" "ho:" (fun _ => files_lseek.usage)
      (string * Z) (fun _ => files_lseek.start_up)
      (fun args '(v0, v1) => from_args args v0 /\ signed_in LONG_MIN LONG_MAX args v1)
      [(["-o"; "-5"; "file"], ("file", -5))];
    Program "files/open-close/main.c" "h" (fun _ => files_open_close.usage)
      string (fun _ => files_open_close.start_up)
      (fun args v0 => from_args args v0)
      [(["file"], "file")];
    Program "groups/getgrgid/main.c" "h" (fun _ => groups_getgrgid.usage)
      Z (fun _ => groups_getgrgid.start_up)
      (fun args v0 => unsigned_in UINT_MAX args v0)
      [(["4294967295"], 4294967295)];
    Program "groups/setegid/main.c" "h" (fun _ => groups_setegid.usage)
      Z (fun _ => groups_setegid.start_up)
      (fun args v0 => unsigned_in UINT_MAX args v0)
      [(["100"], 100)];
    Program "groups/setgid/main.c" "h" (fun _ => groups_setgid.usage)
      Z (fun _ => groups_setgid.start_up)
      (fun args v0 => unsigned_in UINT_MAX args v0)
      [(["100"], 100)];
    Program "groups/setregid/main.c" "hg:e:" (fun _ => groups_setregid.usage)
      (Z * Z) (fun _ => groups_setregid.start_up)
      (fun args '(v0, v1) => unsigned_in UINT_MAX args v0 /\ unsigned_in UINT_MAX args v1)
      [(["-e"; "2"; "-g"; "1"], (1, 2))];
    Program "path-manipulation/fnmatch/main.c" "h" (fun _ => path_manipulation_fnmatch.usage)
      (string * nat) (fun _ => path_manipulation_fnmatch.start_up)
      (fun args '(v0, _) => from_args args v0)
      [(["--"; "*.c"; "main.c"], ("*.c", 2%nat))];
    Program "process/abort/main.c" "hl:" (fun _ => process_abort.usage)
      Z (fun _ => process_abort.start_up)
      (fun args v0 => v0 = RLIM_INFINITY \/ unsigned_in ULONG_MAX args v0)
      [([], RLIM_INFINITY); (["-l"; "1024"], 1024)];
    Program "process/fork/main.c" "hs:" (fun _ => process_fork.usage)
      Z (fun _ => process_fork.start_up)
      (fun args v0 => v0 = 0 \/ unsigned_in UINT_MAX args v0)
      [([], 0); (["-s"; "5"], 5)];
    Program "process/nice/main.c" "hs:" (fun _ => process_nice.usage)
      Z (fun _ => process_nice.start_up)
      (fun args v0 => signed_in INT_MIN INT_MAX args v0)
      [(["--"; "-5"], -5)];
    Program "pthread-condition/pthread_cond_timedwait/main.c" "hm:t:" (fun _ => pthread_condition_pthread_cond_timedwait.usage)
      (Z * Z) (fun _ => pthread_condition_pthread_cond_timedwait.start_up)
      (fun args '(v0, v1) => signed_in LONG_MIN LONG_MAX args v0 /\ unsigned_in UINT_MAX args v1)
      [(["-t"; "2"; "-m"; "5"], (5, 2))];
    Program "pthread-mutex/pthread_mutex_lock-pthread_mutex_unlock/main.c" "hm" (fun _ => pthread_mutex_pthread_mutex_lock_pthread_mutex_unlock.usage)
      bool (fun _ => pthread_mutex_pthread_mutex_lock_pthread_mutex_unlock.start_up)
      (fun _ _ => True)
      [([], false); (["-m"], true)];
    Program "shared-memory/shm_open-shm_unlink/main.c" "h:" (fun _ => shared_memory_shm_open_shm_unlink.usage)
      string (fun _ => shared_memory_shm_open_shm_unlink.start_up)
      (fun args v0 => from_args args v0)
      [(["/name"], "/name")];
    Program "sleep/nanosleep/main.c" "hs:n:" (fun _ => sleep_nanosleep.usage)
      (Z * Z) (fun _ => sleep_nanosleep.start_up)
      (fun args '(v0, v1) => (v0 = 0 \/ signed_in LONG_MIN LONG_MAX args v0) /\
         (v1 = 0 \/ signed_in LONG_MIN LONG_MAX args v1))
      [(["-s"; "1"], (1, 0)); (["-n"; "5"; "-s"; "1"], (1, 5))];
    Program "sleep/sleep/main.c" "hs:" (fun _ => sleep_sleep.usage)
      Z (fun _ => sleep_sleep.start_up)
      (fun args v0 => v0 = 0 \/ unsigned_in UINT_MAX args v0)
      [(["3"], 3)];
    Program "streams/fprintf/main.c" "h:" (fun _ => streams_fprintf.usage)
      string (fun _ => streams_fprintf.start_up)
      (fun args v0 => from_args args v0)
      [(["hello"], "hello")];
    Program "streams/fseek/main.c" "ho:" (fun _ => streams_fseek.usage)
      (string * Z) (fun _ => streams_fseek.start_up)
      (fun args '(v0, v1) => from_args args v0 /\ signed_in LONG_MIN LONG_MAX args v1)
      [(["-o"; "7"; "file"], ("file", 7))];
    Program "streams/fseeko/main.c" "ho:" (fun _ => streams_fseeko.usage)
      (string * Z) (fun _ => streams_fseeko.start_up)
      (fun args '(v0, v1) => from_args args v0 /\ signed_in LONG_MIN LONG_MAX args v1)
      [(["-o"; "7"; "file"], ("file", 7))];
    Program "string-processing/regexec/main.c" "h" (fun _ => string_processing_regexec.usage)
      (string * nat) (fun _ => string_processing_regexec.start_up)
      (fun args '(v0, _) => from_args args v0)
      [(["a*"; "aaa"], ("a*", 1%nat))];
    Program "string-processing/strchr/main.c" "h" (fun _ => string_processing_strchr.usage)
      (string * ascii) (fun _ => string_processing_strchr.start_up)
      (fun args '(v0, _) => from_args args v0)
      [(["x"; "text"], ("text", "x"%char))];
    Program "string-processing/strstr/main.c" "h" (fun _ => string_processing_strstr.usage)
      (string * string) (fun _ => string_processing_strstr.start_up)
      (fun args '(v0, v1) => from_args args v0 /\ from_args args v1)
      [(["x"; "text"], ("x", "text"))];
    Program "string-processing/wordexp-wordfree/main.c" "h" (fun _ => string_processing_wordexp_wordfree.usage)
      string (fun _ => string_processing_wordexp_wordfree.start_up)
      (fun args v0 => from_args args v0)
      [(["~"], "~")];
    Program "strings/strcmp/main.c" "h" (fun _ => strings_strcmp.usage)
      (string * string) (fun _ => strings_strcmp.start_up)
      (fun args '(v0, v1) => from_args args v0 /\ from_args args v1)
      [(["a"; "b"], ("a", "b"))];
    Program "strings/strncmp/main.c" "hn:" (fun _ => strings_strncmp.usage)
      (string * string * Z) (fun _ => strings_strncmp.start_up)
      (fun args '(v0, v1, v2) => from_args args v0 /\ from_args args v1 /\ unsigned_in SIZE_MAX args v2)
      [(["-n"; "3"; "a"; "b"], ("a", "b", 3))];
    Program "strings/strncpy/main.c" "hn:" (fun _ => strings_strncpy.usage)
      (string * Z) (fun _ => strings_strncpy.start_up)
      (fun args '(v0, v1) => from_args args v0 /\ unsigned_in SIZE_MAX args v1)
      [(["-n"; "3"; "text"], ("text", 3))];
    Program "time/difftime/main.c" "h" (fun _ => time_difftime.usage)
      Z (fun _ => time_difftime.start_up)
      (fun args v0 => unsigned_in UINT_MAX args v0)
      [(["60"], 60)];
    Program "users/getpwuid/main.c" "h" (fun _ => users_getpwuid.usage)
      Z (fun _ => users_getpwuid.start_up)
      (fun args v0 => unsigned_in UINT_MAX args v0)
      [(["1000"], 1000)];
    Program "users/seteuid/main.c" "h" (fun _ => users_seteuid.usage)
      Z (fun _ => users_seteuid.start_up)
      (fun args v0 => unsigned_in UINT_MAX args v0)
      [(["1000"], 1000)];
    Program "users/setreuid/main.c" "hu:e:" (fun _ => users_setreuid.usage)
      (Z * Z) (fun _ => users_setreuid.start_up)
      (fun args '(v0, v1) => unsigned_in UINT_MAX args v0 /\ unsigned_in UINT_MAX args v1)
      [(["-e"; "2"; "-u"; "1"], (1, 2))];
    Program "users/setuid/main.c" "h" (fun _ => users_setuid.usage)
      Z (fun _ => users_setuid.start_up)
      (fun args v0 => unsigned_in UINT_MAX args v0)
      [(["0"], 0)] ].

Lemma option_programs_checked : Forall well_behaved option_programs.
Proof. each_of_list; front_program. Qed.

(** What one program of the list promises. *)
Lemma option_program (i : nat) (P : program) :
  option_programs !! i = Some P -> well_behaved P.
Proof. intros Hi. by apply (Forall_lookup_1 _ _ _ _ option_programs_checked Hi). Qed.

(** C12: on every command line each of these programs either goes on, having
    written nothing, or refuses with something on [stderr], never on stdout and without
    a system call: with [EXIT_FAILURE] after a diagnostic, or with [EXIT_SUCCESS] after
    exactly its help text, and then -h was among the options.  When it goes on, every
    string is an argument or the end of one, every number is what such a string
    denotes and fits its type, or the default of a missing option; it never loops,
    reads [argv] out of bounds or prints a NULL string.  Each of them does go on, with
    the values listed, on the command lines listed for it. *)
Theorem option_programs_well_behaved : Forall well_behaved option_programs.
Proof. exact option_programs_checked. Qed.
