(* ===== verification/NetworkPrograms.v ===== *)
(** * Command lines of the networking programs

    Programs that take an address, a port and sometimes a message.  The checks
    on [optind] and [argc] differ between them: some read [argv[argc]], the NULL
    that ends the vector, and rely on [handle_arguments] to refuse it. *)

From S2P Require Import Prelude CMonad CString Getopt ArgParse.

(** ** [network-address] *)

(** [src/network-address/getnameinfo/main.c] *)
Module network_address_getnameinfo.
Definition usage {W} : usage_t W := usage_with (fun p =>
  [ "Usage: " +:+ p +:+ " [-h] <server address> <port>";
    "Options:";
    "  -h         Display this help message";
    "  -p <port>  THe port to connect to" ]).

Definition parse_in_port_t {W} (binary_name : cstr) (str : string) : C W Z :=
  parse_unsigned (perror "Error parsing in_port_t";; exit_ EXIT_FAILURE)
    (fail_usage usage binary_name "Invalid characters in input.")
    (fail_usage usage binary_name "in_port_t value out of range.")
    (mret UINT16_MAX) 16 str.

Definition parse_arguments {W} (argv : list string) : C W (cstr * cstr) :=
  '(_, oi) ← while_getopt "h" argv
    (fun opt _ optopt _ =>
       std_cases usage argv opt optopt) tt;
  let optind := Z.of_nat oi in
  die_if usage argv (argc argv <=? optind + 1)
    "Too few arguments.";;
  die_if usage argv (optind <? argc argv - 2)
    "Too many arguments.";;
  server_address ← argv_at argv optind;
  port ← argv_at argv (optind + 1);
  mret (server_address, port).

Definition handle_arguments {W} (binary_name server_address port_str : cstr) : C W (string * Z) :=
  server_address ← require usage binary_name server_address "The ip address is required.";
  port_str ← require usage binary_name port_str "The port is required.";
  port ← parse_in_port_t binary_name port_str;
  mret (server_address, port).

Definition start_up {W} (argv : list string) : C W (string * Z) :=
  '(server_address, port_str) ← parse_arguments argv;
  handle_arguments (argv0 argv) server_address port_str.
End network_address_getnameinfo.

(** [src/network-address/getpeername/main.c] *)
Module network_address_getpeername.
Definition usage {W} : usage_t W := usage_with (fun p =>
  [ "Usage: " +:+ p +:+ " [-h] [-p <port>] <server address> <service>";
    "Options:";
    "  -h         Display this help message" ]).

Definition parse_arguments {W} (argv : list string) : C W (cstr * cstr) :=
  '(_, oi) ← while_getopt "h" argv
    (fun opt _ optopt _ =>
       std_cases usage argv opt optopt) tt;
  let optind := Z.of_nat oi in
  die_if usage argv (argc argv <=? optind + 1)
    "Too few arguments.";;
  die_if usage argv (optind <? argc argv - 2)
    "Too many arguments.";;
  server_address ← argv_at argv optind;
  service ← argv_at argv (optind + 1);
  mret (server_address, service).

Definition handle_arguments {W} (binary_name server_address service : cstr) : C W (string * string) :=
  server_address ← require usage binary_name server_address "The server address is required.";
  service ← require usage binary_name service "The service is required.";
  mret (server_address, service).

Definition start_up {W} (argv : list string) : C W (string * string) :=
  '(server_address, service) ← parse_arguments argv;
  handle_arguments (argv0 argv) server_address service.
End network_address_getpeername.

(** [src/network-address/getsockname/main.c] *)
Module network_address_getsockname.
Definition usage {W} : usage_t W := usage_with (fun p =>
  [ "Usage: " +:+ p +:+ " [-h] <host name> <service>";
    "Options:";
    "  -h         Display this help message" ]).

Definition parse_arguments {W} (argv : list string) : C W (cstr * cstr) :=
  '(_, oi) ← while_getopt "h" argv
    (fun opt _ optopt _ =>
       std_cases usage argv opt optopt) tt;
  let optind := Z.of_nat oi in
  die_if usage argv (argc argv <=? optind + 1)
    "Too few arguments.";;
  die_if usage argv (optind <? argc argv - 2)
    "Too many arguments.";;
  host_name ← argv_at argv optind;
  service ← argv_at argv (optind + 1);
  mret (host_name, service).

Definition handle_arguments {W} (binary_name host_name service : cstr) : C W (string * string) :=
  host_name ← require usage binary_name host_name "X";
  service ← require usage binary_name service "Y";
  mret (host_name, service).

Definition start_up {W} (argv : list string) : C W (string * string) :=
  '(host_name, service) ← parse_arguments argv;
  handle_arguments (argv0 argv) host_name service.
End network_address_getsockname.

(** ** [networking-functions] *)

(** [src/networking-functions/bind/main.c] *)
Module networking_functions_bind.
Definition usage {W} : usage_t W := usage_with (fun p =>
  [ "Usage: " +:+ p +:+ " [-h] <IP address or hostname> <port>";
    "Options:";
    "  -h  Display this help message" ]).

Definition parse_in_port_t {W} (binary_name : cstr) (str : string) : C W Z :=
  parse_unsigned (perror "Error parsing in_port_t";; exit_ EXIT_FAILURE)
    (fail_usage usage binary_name "Invalid characters in input.")
    (fail_usage usage binary_name "in_port_t value out of range.")
    (mret UINT16_MAX) 16 str.

Definition parse_arguments {W} (argv : list string) : C W (cstr * cstr) :=
  '(_, oi) ← while_getopt "h" argv
    (fun opt _ optopt _ =>
       std_cases usage argv opt optopt) tt;
  let optind := Z.of_nat oi in
  die_if usage argv (argc argv <=? optind)
    "The IP address or hostname is required.";;
  die_if usage argv (optind <? argc argv - 2)
    "Too many arguments.";;
  address ← argv_at argv optind;
  port ← argv_at argv (optind + 1);
  mret (address, port).

Definition handle_arguments {W} (binary_name address port_str : cstr) : C W (string * Z) :=
  address ← require usage binary_name address "The IP address or hostname is required.";
  port_str ← require usage binary_name port_str "Port argument is missing.";
  port ← parse_in_port_t binary_name port_str;
  mret (address, port).

Definition start_up {W} (argv : list string) : C W (string * Z) :=
  '(address, port_str) ← parse_arguments argv;
  handle_arguments (argv0 argv) address port_str.
End networking_functions_bind.

(** [src/networking-functions/connect/main.c] *)
Module networking_functions_connect.
Definition usage {W} : usage_t W := usage_with (fun p =>
  [ "Usage: " +:+ p +:+ " [-h] <ip address> <port>";
    "Options:";
    "  -h  Display this help message" ]).

Definition parse_in_port_t {W} (binary_name : cstr) (str : string) : C W Z :=
  parse_unsigned (perror "Error parsing in_port_t";; exit_ EXIT_FAILURE)
    (fail_usage usage binary_name "Invalid characters in input.")
    (fail_usage usage binary_name "in_port_t value out of range.")
    (mret UINT16_MAX) 16 str.

Definition parse_arguments {W} (argv : list string) : C W (cstr * cstr) :=
  '(_, oi) ← while_getopt "h" argv
    (fun opt _ optopt _ =>
       std_cases usage argv opt optopt) tt;
  let optind := Z.of_nat oi in
  die_if usage argv (argc argv <=? optind + 1)
    "Too few arguments.";;
  die_if usage argv (optind <? argc argv - 2)
    "Too many arguments.";;
  ip_address ← argv_at argv optind;
  port ← argv_at argv (optind + 1);
  mret (ip_address, port).

Definition handle_arguments {W} (binary_name ip_address port_str : cstr) : C W (string * Z) :=
  ip_address ← require usage binary_name ip_address "The ip address is required.";
  port_str ← require usage binary_name port_str "The port is required.";
  port ← parse_in_port_t binary_name port_str;
  mret (ip_address, port).

Definition start_up {W} (argv : list string) : C W (string * Z) :=
  '(address, port_str) ← parse_arguments argv;
  handle_arguments (argv0 argv) address port_str.
End networking_functions_connect.

(** [src/networking-functions/listen-accept/main.c] *)
Module networking_functions_listen_accept.
Definition usage {W} : usage_t W := usage_with (fun p =>
  [ "Usage: " +:+ p +:+ " [-h] -b <backlog> <ip address> <port> <message>";
    "Options:";
    "  -h  Display this help message";
    "  -b <backlog> the backlog" ]).

Definition parse_in_port_t {W} (binary_name : cstr) (str : string) : C W Z :=
  parse_unsigned (perror "Error parsing in_port_t";; exit_ EXIT_FAILURE)
    (fail_usage usage binary_name "Invalid characters in input.")
    (fail_usage usage binary_name "in_port_t value out of range.")
    (mret UINT16_MAX) 16 str.

Definition parse_positive_int {W} (binary_name : cstr) (str : string) : C W Z :=
  parse_signed (fail_usage usage binary_name "Error parsing integer.")
    (fail_usage usage binary_name "Invalid characters in input.")
    (fail_usage usage binary_name "Integer out of range or negative.")
    0 INT_MAX 32 str.

Definition parse_arguments {W} (argv : list string) : C W (cstr * cstr * cstr * cstr) :=
  '(backlog, oi) ← while_getopt "hb:" argv
    (fun opt optarg optopt backlog =>
       if (opt =?c "b")%c then mret optarg
       else std_cases usage argv opt optopt) None;
  let optind := Z.of_nat oi in
  die_if usage argv (argc argv <=? optind)
    "The ip address and port are required";;
  die_if usage argv (argc argv <=? optind + 1)
    "The port is required";;
  die_if usage argv (optind <? argc argv - 3)
    "Error: Too many arguments.";;
  ip_address ← argv_at argv optind;
  port ← argv_at argv (optind + 1);
  msg ← argv_at argv (optind + 2);
  mret (ip_address, port, backlog, msg).

Definition handle_arguments {W} (binary_name ip_address port_str backlog_str message : cstr) : C W (string * string * Z * Z) :=
  ip_address ← require usage binary_name ip_address "The ip address is required.";
  port_str ← require usage binary_name port_str "The port is required.";
  backlog_str ← require usage binary_name backlog_str "The backlog is required.";
  message ← require usage binary_name message "The message is required.";
  port ← parse_in_port_t binary_name port_str;
  backlog ← parse_positive_int binary_name backlog_str;
  mret (ip_address, message, port, backlog).

Definition start_up {W} (argv : list string) : C W (string * string * Z * Z) :=
  '(address, port_str, backlog_str, message) ← parse_arguments argv;
  handle_arguments (argv0 argv) address port_str backlog_str message.
End networking_functions_listen_accept.

(** [src/networking-functions/socket/main.c] *)
Module networking_functions_socket.
Definition usage {W} : usage_t W := usage_with (fun p =>
  [ "Usage: " +:+ p +:+ " [-h] <address_family> <socket_type>";
    "Options:";
    "  -h  Display this help message" ]).

Definition string_to_address_family {W} (address_family_str : cstr) : C W Z :=
  match address_family_str with
  | None => usage Z (Some "Invalid address family string.") EXIT_FAILURE None
  | Some s =>
      if strcmp s "AF_INET" =? 0 then mret AF_INET
      else if strcmp s "AF_INET6" =? 0 then mret AF_INET6
      else if strcmp s "AF_UNIX" =? 0 then mret AF_UNIX
      else usage Z (Some "Invalid address family string.") EXIT_FAILURE None
  end.

Definition string_to_socket_type {W} (socket_type_str : cstr) : C W Z :=
  match socket_type_str with
  | None => usage Z (Some "Invalid socket type string.") EXIT_FAILURE None
  | Some s =>
      if strcmp s "SOCK_STREAM" =? 0 then mret SOCK_STREAM
      else if strcmp s "SOCK_DGRAM" =? 0 then mret SOCK_DGRAM
      else if strcmp s "SOCK_RAW" =? 0 then mret SOCK_RAW
      else if strcmp s "SOCK_SEQPACKET" =? 0 then mret SOCK_SEQPACKET
      else usage Z (Some "Invalid socket type string.") EXIT_FAILURE None
  end.

Definition parse_arguments {W} (argv : list string) : C W (cstr * cstr) :=
  '(_, oi) ← while_getopt "h" argv
    (fun opt _ optopt _ =>
       std_cases usage argv opt optopt) tt;
  let optind := Z.of_nat oi in
  die_if usage argv (argc argv <=? optind + 1)
    "Too few arguments.";;
  die_if usage argv (optind <? argc argv - 2)
    "Too many arguments.";;
  address_family_str ← argv_at argv optind;
  socket_type_str ← argv_at argv (optind + 1);
  mret (address_family_str, socket_type_str).

Definition handle_arguments {W} (binary_name address_family_str socket_type_str : cstr) :
    C W (Z * Z) :=
  address_family_str ← require usage binary_name address_family_str
    "The address family is required.";
  socket_type_str ← require usage binary_name socket_type_str
    "The socket type is required.";
  address_family ← string_to_address_family (Some address_family_str);
  socket_type ← string_to_socket_type (Some socket_type_str);
  mret (address_family, socket_type).

Definition start_up {W} (argv : list string) : C W (Z * Z) :=
  '(address_family_str, socket_type_str) ← parse_arguments argv;
  handle_arguments (argv0 argv) address_family_str socket_type_str.
End networking_functions_socket.

(** ** [sockets] *)

(** [src/sockets/getsockopt/main.c] *)
Module sockets_getsockopt.
Definition usage {W} : usage_t W := usage_with (fun p =>
  [ "Usage: " +:+ p +:+ " [-h] <ip address> <port>";
    "Options:";
    "  -h  Display this help message" ]).

Definition parse_in_port_t {W} (binary_name : cstr) (str : string) : C W Z :=
  parse_unsigned (perror "Error parsing in_port_t";; exit_ EXIT_FAILURE)
    (fail_usage usage binary_name "Invalid characters in input.")
    (fail_usage usage binary_name "in_port_t value out of range.")
    (mret UINT16_MAX) 16 str.

Definition parse_arguments {W} (argv : list string) : C W (cstr * cstr) :=
  '(_, oi) ← while_getopt "h" argv
    (fun opt _ optopt _ =>
       std_cases usage argv opt optopt) tt;
  let optind := Z.of_nat oi in
  die_if usage argv (argc argv <=? optind)
    "The ip address and port are required";;
  die_if usage argv (argc argv <=? optind + 1)
    "The port is required";;
  die_if usage argv (optind <? argc argv - 2)
    "Error: Too many arguments.";;
  address ← argv_at argv optind;
  port ← argv_at argv (optind + 1);
  mret (address, port).

Definition handle_arguments {W} (binary_name address port_str : cstr) : C W (string * Z) :=
  address ← require usage binary_name address "The ip address is required.";
  port_str ← require usage binary_name port_str "The port is required.";
  port ← parse_in_port_t binary_name port_str;
  mret (address, port).

Definition start_up {W} (argv : list string) : C W (string * Z) :=
  '(address, port_str) ← parse_arguments argv;
  handle_arguments (argv0 argv) address port_str.
End sockets_getsockopt.

(** [src/sockets/setsockopt/client.c] *)
Module sockets_setsockopt_client.
Definition usage {W} : usage_t W := usage_with (fun p =>
  [ "Usage: " +:+ p +:+ " [-h] <address> <port>";
    "Options:";
    "  -h  Display this help message" ]).

Definition parse_in_port_t {W} (binary_name : cstr) (str : string) : C W Z :=
  parse_unsigned (perror "Error parsing in_port_t";; exit_ EXIT_FAILURE)
    (fail_usage usage binary_name "Invalid characters in input.")
    (fail_usage usage binary_name "in_port_t value out of range.")
    (mret UINT16_MAX) 16 str.

Definition parse_arguments {W} (argv : list string) : C W (cstr * cstr) :=
  '(_, oi) ← while_getopt "h" argv
    (fun opt _ optopt _ =>
       std_cases usage argv opt optopt) tt;
  let optind := Z.of_nat oi in
  die_if usage argv (argc argv <=? optind + 1)
    "Too few arguments.";;
  die_if usage argv (optind <? argc argv - 2)
    "Too many arguments.";;
  address ← argv_at argv optind;
  port ← argv_at argv (optind + 1);
  mret (address, port).

Definition handle_arguments {W} (binary_name address port_str : cstr) : C W (string * Z) :=
  address ← require usage binary_name address "The port is required.";
  port_str ← require usage binary_name port_str "The address is required.";
  port ← parse_in_port_t binary_name port_str;
  mret (address, port).

Definition start_up {W} (argv : list string) : C W (string * Z) :=
  '(address, port_str) ← parse_arguments argv;
  handle_arguments (argv0 argv) address port_str.
End sockets_setsockopt_client.

(** [src/sockets/setsockopt/server.c] *)
Module sockets_setsockopt_server.
Definition usage {W} : usage_t W := usage_with (fun p =>
  [ "Usage: " +:+ p +:+ " [-h] <ip address> <port>";
    "Options:";
    "  -h  Display this help message" ]).

Definition parse_in_port_t {W} (binary_name : cstr) (str : string) : C W Z :=
  parse_unsigned (perror "Error parsing in_port_t";; exit_ EXIT_FAILURE)
    (fail_usage usage binary_name "Invalid characters in input.")
    (fail_usage usage binary_name "in_port_t value out of range.")
    (mret UINT16_MAX) 16 str.

Definition parse_arguments {W} (argv : list string) : C W (cstr * cstr) :=
  '(_, oi) ← while_getopt "h" argv
    (fun opt _ optopt _ =>
       std_cases usage argv opt optopt) tt;
  let optind := Z.of_nat oi in
  die_if usage argv (argc argv <=? optind)
    "The ip address and port are required";;
  die_if usage argv (argc argv <=? optind + 1)
    "The port is required";;
  die_if usage argv (optind <? argc argv - 2)
    "Error: Too many arguments.";;
  ip_address ← argv_at argv optind;
  port ← argv_at argv (optind + 1);
  mret (ip_address, port).

Definition handle_arguments {W} (binary_name ip_address port_str : cstr) : C W (string * Z) :=
  ip_address ← require usage binary_name ip_address "The ip address is required.";
  port_str ← require usage binary_name port_str "The port is required.";
  port ← parse_in_port_t binary_name port_str;
  mret (ip_address, port).

Definition start_up {W} (argv : list string) : C W (string * Z) :=
  '(address, port_str) ← parse_arguments argv;
  handle_arguments (argv0 argv) address port_str.
End sockets_setsockopt_server.

(** ** [tcp] *)

(** [src/tcp/shutdown/client.c] *)
Module tcp_shutdown_client.
Definition usage {W} : usage_t W := usage_with (fun p =>
  [ "Usage: " +:+ p +:+ " [-h] <target address> <port>";
    "Options:";
    "  -h  Display this help message" ]).

Definition parse_in_port_t {W} (binary_name : cstr) (str : string) : C W Z :=
  parse_unsigned (perror "Error parsing in_port_t";; exit_ EXIT_FAILURE)
    (fail_usage usage binary_name "Invalid characters in input.")
    (fail_usage usage binary_name "in_port_t value out of range.")
    (mret UINT16_MAX) 16 str.

Definition parse_arguments {W} (argv : list string) : C W (cstr * cstr) :=
  '(_, oi) ← while_getopt "h" argv
    (fun opt _ optopt _ =>
       std_cases usage argv opt optopt) tt;
  let optind := Z.of_nat oi in
  die_if usage argv (argc argv <=? optind + 1)
    "Too few arguments.";;
  die_if usage argv (optind <? argc argv - 2)
    "Too many arguments.";;
  target_address ← argv_at argv optind;
  port ← argv_at argv (optind + 1);
  mret (target_address, port).

Definition handle_arguments {W} (binary_name target_address port_str : cstr) : C W (string * Z) :=
  target_address ← require usage binary_name target_address "The target address is required.";
  port_str ← require usage binary_name port_str "The port is required.";
  port ← parse_in_port_t binary_name port_str;
  mret (target_address, port).

Definition start_up {W} (argv : list string) : C W (string * Z) :=
  '(address, port_str) ← parse_arguments argv;
  handle_arguments (argv0 argv) address port_str.
End tcp_shutdown_client.

(** [src/tcp/shutdown/server.c] *)
Module tcp_shutdown_server.
Definition usage {W} : usage_t W := usage_with (fun p =>
  [ "Usage: " +:+ p +:+ " [-h] <ip address> <port>";
    "Options:";
    "  -h  Display this help message" ]).

Definition parse_in_port_t {W} (binary_name : cstr) (str : string) : C W Z :=
  parse_unsigned (perror "Error parsing in_port_t";; exit_ EXIT_FAILURE)
    (fail_usage usage binary_name "Invalid characters in input.")
    (fail_usage usage binary_name "in_port_t value out of range.")
    (mret UINT16_MAX) 16 str.

Definition parse_arguments {W} (argv : list string) : C W (cstr * cstr) :=
  '(_, oi) ← while_getopt "h" argv
    (fun opt _ optopt _ =>
       std_cases usage argv opt optopt) tt;
  let optind := Z.of_nat oi in
  die_if usage argv (argc argv <=? optind)
    "The ip address and port are required";;
  die_if usage argv (argc argv <=? optind + 1)
    "The port is required";;
  die_if usage argv (optind <? argc argv - 2)
    "Error: Too many arguments.";;
  ip_address ← argv_at argv optind;
  port ← argv_at argv (optind + 1);
  mret (ip_address, port).

Definition handle_arguments {W} (binary_name ip_address port_str : cstr) : C W (string * Z) :=
  ip_address ← require usage binary_name ip_address "The ip address is required.";
  port_str ← require usage binary_name port_str "The port is required.";
  port ← parse_in_port_t binary_name port_str;
  mret (ip_address, port).

Definition start_up {W} (argv : list string) : C W (string * Z) :=
  '(address, port_str) ← parse_arguments argv;
  handle_arguments (argv0 argv) address port_str.
End tcp_shutdown_server.

(** ** [udp] *)

(** [src/udp/sendto-recvfrom/client.c] *)
Module udp_sendto_recvfrom_client.
Definition usage {W} : usage_t W := usage_with (fun p =>
  [ "Usage: " +:+ p +:+ " [-h] <address> <port> <message>";
    "Options:";
    "  -h  Display this help message" ]).

Definition parse_in_port_t {W} (binary_name : cstr) (str : string) : C W Z :=
  parse_unsigned (perror "Error parsing in_port_t";; exit_ EXIT_FAILURE)
    (fail_usage usage binary_name "Invalid characters in input.")
    (fail_usage usage binary_name "in_port_t value out of range.")
    (mret UINT16_MAX) 16 str.

Definition parse_arguments {W} (argv : list string) : C W (cstr * cstr * cstr) :=
  '(_, oi) ← while_getopt "h" argv
    (fun opt _ optopt _ =>
       std_cases usage argv opt optopt) tt;
  let optind := Z.of_nat oi in
  die_if usage argv (argc argv <=? optind + 1)
    "Too few arguments.";;
  die_if usage argv (optind <? argc argv - 3)
    "Too many arguments.";;
  address ← argv_at argv optind;
  port ← argv_at argv (optind + 1);
  msg ← argv_at argv (optind + 2);
  mret (address, port, msg).

Definition handle_arguments {W} (binary_name address port_str message : cstr) : C W (string * string * Z) :=
  address ← require usage binary_name address "The address is required.";
  port_str ← require usage binary_name port_str "The port is required.";
  message ← require usage binary_name message "The message is required.";
  port ← parse_in_port_t binary_name port_str;
  mret (address, message, port).

Definition start_up {W} (argv : list string) : C W (string * string * Z) :=
  '(address, port_str, message) ← parse_arguments argv;
  handle_arguments (argv0 argv) address port_str message.
End udp_sendto_recvfrom_client.

(** [src/udp/sendto-recvfrom/server.c] *)
Module udp_sendto_recvfrom_server.
Definition usage {W} : usage_t W := usage_with (fun p =>
  [ "Usage: " +:+ p +:+ " [-h] <ip address> <port>";
    "Options:";
    "  -h  Display this help message" ]).

Definition parse_in_port_t {W} (binary_name : cstr) (str : string) : C W Z :=
  parse_unsigned (perror "Error parsing in_port_t";; exit_ EXIT_FAILURE)
    (fail_usage usage binary_name "Invalid characters in input.")
    (fail_usage usage binary_name "in_port_t value out of range.")
    (mret UINT16_MAX) 16 str.

Definition parse_arguments {W} (argv : list string) : C W (cstr * cstr) :=
  '(_, oi) ← while_getopt "h" argv
    (fun opt _ optopt _ =>
       std_cases usage argv opt optopt) tt;
  let optind := Z.of_nat oi in
  die_if usage argv (argc argv <=? optind)
    "The ip address and port are required";;
  die_if usage argv (argc argv <=? optind + 1)
    "The port is required";;
  die_if usage argv (optind <? argc argv - 2)
    "Error: Too many arguments.";;
  ip_address ← argv_at argv optind;
  port ← argv_at argv (optind + 1);
  mret (ip_address, port).

Definition handle_arguments {W} (binary_name ip_address port_str : cstr) : C W (string * Z) :=
  ip_address ← require usage binary_name ip_address "The ip address is required.";
  port_str ← require usage binary_name port_str "The port is required.";
  port ← parse_in_port_t binary_name port_str;
  mret (ip_address, port).

Definition start_up {W} (argv : list string) : C W (string * Z) :=
  '(address, port_str) ← parse_arguments argv;
  handle_arguments (argv0 argv) address port_str.
End udp_sendto_recvfrom_server.

(** ** What they promise *)

(** A constant whose name is on the command line. *)
Definition named_in (names : list (string * Z)) (args : list string) (v : Z) : Prop :=
  exists str name, given args str /\ strcmp str name = 0 /\ (name, v) ∈ names.

Definition families : list (string * Z) :=
  [("AF_INET", AF_INET); ("AF_INET6", AF_INET6); ("AF_UNIX", AF_UNIX)].
Definition socket_types : list (string * Z) :=
  [("SOCK_STREAM", SOCK_STREAM); ("SOCK_DGRAM", SOCK_DGRAM); ("SOCK_RAW", SOCK_RAW);
   ("SOCK_SEQPACKET", SOCK_SEQPACKET)].

Ltac front_named :=
  match goal with
  | H : (strcmp ?a ?b =? 0) = true |- named_in _ _ _ =>
      solve [exists a, b; bools; split; [assumption|split; [assumption|]];
             apply list_elem_of_In; simpl; auto 6]
  end.

Definition network_programs : list program :=
  [ Program "network-address/getnameinfo/main.c" "h" (fun _ => network_address_getnameinfo.usage)
      (string * Z) (fun _ => network_address_getnameinfo.start_up)
      (fun args '(v0, v1) => from_args args v0 /\ unsigned_in UINT16_MAX args v1)
      [(["host"; "80"], ("host", 80))];
    Program "network-address/getpeername/main.c" "h" (fun _ => network_address_getpeername.usage)
      (string * string) (fun _ => network_address_getpeername.start_up)
      (fun args '(v0, v1) => from_args args v0 /\ from_args args v1)
      [(["host"; "80"], ("host", "80"))];
    Program "network-address/getsockname/main.c" "h" (fun _ => network_address_getsockname.usage)
      (string * string) (fun _ => network_address_getsockname.start_up)
      (fun args '(v0, v1) => from_args args v0 /\ from_args args v1)
      [(["host"; "80"], ("host", "80"))];
    Program "networking-functions/bind/main.c" "h" (fun _ => networking_functions_bind.usage)
      (string * Z) (fun _ => networking_functions_bind.start_up)
      (fun args '(v0, v1) => from_args args v0 /\ unsigned_in UINT16_MAX args v1)
      [(["127.0.0.1"; "65535"], ("127.0.0.1", 65535))];
    Program "networking-functions/connect/main.c" "h" (fun _ => networking_functions_connect.usage)
      (string * Z) (fun _ => networking_functions_connect.start_up)
      (fun args '(v0, v1) => from_args args v0 /\ unsigned_in UINT16_MAX args v1)
      [(["127.0.0.1"; "80"], ("127.0.0.1", 80))];
    Program "networking-functions/listen-accept/main.c" "hb:" (fun _ => networking_functions_listen_accept.usage)
      (string * string * Z * Z) (fun _ => networking_functions_listen_accept.start_up)
      (fun args '(v0, v1, v2, v3) => from_args args v0 /\ from_args args v1 /\
         unsigned_in UINT16_MAX args v2 /\ signed_in 0 INT_MAX args v3)
      [(["-b"; "5"; "127.0.0.1"; "80"; "hello"], ("127.0.0.1", "hello", 80, 5))];
    Program "networking-functions/socket/main.c" "h" (fun _ => networking_functions_socket.usage)
      (Z * Z) (fun _ => networking_functions_socket.start_up)
      (fun args '(v0, v1) => named_in families args v0 /\ named_in socket_types args v1)
      [(["AF_INET6"; "SOCK_DGRAM"], (AF_INET6, SOCK_DGRAM))];
    Program "sockets/getsockopt/main.c" "h" (fun _ => sockets_getsockopt.usage)
      (string * Z) (fun _ => sockets_getsockopt.start_up)
      (fun args '(v0, v1) => from_args args v0 /\ unsigned_in UINT16_MAX args v1)
      [(["127.0.0.1"; "80"], ("127.0.0.1", 80))];
    Program "sockets/setsockopt/client.c" "h" (fun _ => sockets_setsockopt_client.usage)
      (string * Z) (fun _ => sockets_setsockopt_client.start_up)
      (fun args '(v0, v1) => from_args args v0 /\ unsigned_in UINT16_MAX args v1)
      [(["127.0.0.1"; "80"], ("127.0.0.1", 80))];
    Program "sockets/setsockopt/server.c" "h" (fun _ => sockets_setsockopt_server.usage)
      (string * Z) (fun _ => sockets_setsockopt_server.start_up)
      (fun args '(v0, v1) => from_args args v0 /\ unsigned_in UINT16_MAX args v1)
      [(["127.0.0.1"; "80"], ("127.0.0.1", 80))];
    Program "tcp/shutdown/client.c" "h" (fun _ => tcp_shutdown_client.usage)
      (string * Z) (fun _ => tcp_shutdown_client.start_up)
      (fun args '(v0, v1) => from_args args v0 /\ unsigned_in UINT16_MAX args v1)
      [(["127.0.0.1"; "80"], ("127.0.0.1", 80))];
    Program "tcp/shutdown/server.c" "h" (fun _ => tcp_shutdown_server.usage)
      (string * Z) (fun _ => tcp_shutdown_server.start_up)
      (fun args '(v0, v1) => from_args args v0 /\ unsigned_in UINT16_MAX args v1)
      [(["127.0.0.1"; "80"], ("127.0.0.1", 80))];
    Program "udp/sendto-recvfrom/client.c" "h" (fun _ => udp_sendto_recvfrom_client.usage)
      (string * string * Z) (fun _ => udp_sendto_recvfrom_client.start_up)
      (fun args '(v0, v1, v2) => from_args args v0 /\ from_args args v1 /\
         unsigned_in UINT16_MAX args v2)
      [(["127.0.0.1"; "80"; "hello"], ("127.0.0.1", "hello", 80))];
    Program "udp/sendto-recvfrom/server.c" "h" (fun _ => udp_sendto_recvfrom_server.usage)
      (string * Z) (fun _ => udp_sendto_recvfrom_server.start_up)
      (fun args '(v0, v1) => from_args args v0 /\ unsigned_in UINT16_MAX args v1)
      [(["127.0.0.1"; "80"], ("127.0.0.1", 80))] ].

Lemma network_programs_checked : Forall well_behaved network_programs.
Proof. each_of_list; front_program. all: front_named. Qed.

(** What one program of the list promises. *)
Lemma network_program (i : nat) (P : program) :
  network_programs !! i = Some P -> well_behaved P.
Proof. intros Hi. by apply (Forall_lookup_1 _ _ _ _ network_programs_checked Hi). Qed.

(** C13: the same discipline for the networking programs.  They refuse with a
    diagnostic and [EXIT_FAILURE], or print their help text when -h is given, or go
    on, having written nothing, and then addresses and messages are arguments, ports
    and backlogs are numbers of the command line that fit their types, and the family
    and the type of a socket are those named; on the command lines listed they do go on.
    Among them are the ones that read [argv[argc]] for a missing operand: the read is
    in bounds, and the NULL found there never reaches the rest of the program. *)
Theorem network_programs_well_behaved : Forall well_behaved network_programs.
Proof. exact network_programs_checked. Qed.
