(* ===== verification/NumberPrograms.v ===== *)
(** * Programs that are started with one number

    For the programs of [OptionPrograms] whose command line is a single number
    the front end is characterised completely: [start_up] returns a value
    exactly when the command line is one operand that denotes a number of the
    type, and then returns that number, has printed nothing and left [errno]
    at zero. *)

From S2P Require Import Prelude CMonad CString Getopt ArgParse OptionPrograms.

(** [start_up] reads one operand, and the numbers it denotes. *)
Definition reads_number (optstring : string) (denotes : string -> Z -> Prop)
    (start_up : forall W, list string -> C W Z) : Prop :=
  forall W prog args (s s' : cstate W) v,
    start_up W (prog :: args) s = (Val v, s') <->
    exists str, scan_args optstring args = ([], [str]) /\ denotes str v /\
      s' = CState 0 (trace s) (world s).

Section Operand.
Context {W : Type}.
Implicit Types s : cstate W.

Lemma bind_val_iff {A B} (m : C W A) (f : A -> C W B) s b s' :
  (m ≫= f) s = (Val b, s') <-> exists a s1, m s = (Val a, s1) /\ f a s1 = (Val b, s').
Proof.
  split; [apply bind_inv_val|]. intros (a & s1 & E & Ef). by erewrite bind_val.
Qed.

(** When every option leads to [usage], only operands get through the loop. *)
Lemma while_getopt_operands {S} optstring sw prog args (st st' : S) i s s' :
  (forall c a o st, noreturn (sw c a o st : C W S)) ->
  while_getopt optstring (prog :: args) sw st s = (Val (st', i), s') <->
  exists ops, scan_args optstring args = ([], ops) /\ st' = st /\ s' = s /\
    i = (Datatypes.S (length args) - length ops)%nat.
Proof.
  intros Hsw. rewrite while_getopt_scan.
  destruct (scan_args optstring args) as [items ops]. split.
  - intros E. apply bind_inv_val in E as (x & s1 & E1 & E2).
    destruct items as [|[c a|c] items]; simpl in E1.
    + injection E1 as <- <-. injection E2 as <- <- <-. by exists ops.
    + apply bind_inv_val in E1 as (? & ? & E1 & _). by apply Hsw in E1.
    + apply bind_inv_val in E1 as (? & ? & E1 & _). by apply Hsw in E1.
  - intros (ops' & [= -> ->] & -> & -> & ->). done.
Qed.

Lemma cases_noreturn help code msg argv opt optopt {S} :
  noreturn (cases_with (usage_with help) code msg argv opt optopt : C W S).
Proof. unfold cases_with. repeat case_match; apply usage_noreturn. Qed.

Lemma die_if_val help argv b msg s x s' :
  die_if (usage_with help) argv b msg s = (Val x, s') <-> b = false /\ s' = s.
Proof.
  unfold die_if. destruct b; split.
  - intros E. by apply usage_noreturn in E.
  - by intros [? _].
  - intros E. split; [done|]. unfold mret, C_ret in E. congruence.
  - intros [_ ->]. by destruct x.
Qed.

Lemma require_val help b p msg s str s' :
  require (usage_with help) b p msg s = (Val str, s') <-> p = Some str /\ s' = s.
Proof.
  unfold require. destruct p as [p|]; split.
  - intros E. unfold mret, C_ret in E. split; congruence.
  - intros [[= ->] ->]. done.
  - intros E. by apply usage_noreturn in E.
  - by intros [? _].
Qed.

(** The [parse_arguments] of these programs. *)
Lemma operand_val help code msg optstring missing many prog args s p s' :
  ('(_, oi) ← while_getopt optstring (prog :: args)
     (fun opt _ optopt _ => cases_with (usage_with help) code msg (prog :: args) opt optopt) tt;
   let optind := Z.of_nat oi in
   die_if (usage_with help) (prog :: args) (argc (prog :: args) <=? optind) missing;;
   die_if (usage_with help) (prog :: args) (optind <? argc (prog :: args) - 1) many;;
   operand ← argv_at (prog :: args) optind;
   mret operand : C W cstr) s = (Val p, s') <->
  exists str, scan_args optstring args = ([], [str]) /\ p = Some str /\ s' = s.
Proof.
  split.
  - intros E. apply bind_inv_val in E as ([st i] & s1 & E1 & E).
    apply while_getopt_operands in E1 as (ops & Hops & -> & -> & ->); [|by intros; apply cases_noreturn].
    apply bind_inv_val in E as ([] & s1 & E1 & E). apply die_if_val in E1 as [B1 ->].
    apply bind_inv_val in E as ([] & s1 & E1 & E). apply die_if_val in E1 as [B2 ->].
    destruct (scan_args_operands optstring args) as [pre Hpre]. rewrite Hops in Hpre. simpl in Hpre.
    unfold argc in *. simpl length in *. subst args. rewrite length_app in *. bools.
    destruct ops as [|str [|str' ops]]; simpl in *; [lia| |lia].
    exists str. unfold argv_at, argv_get in E. rewrite (proj2 (Z.ltb_ge _ _)) in E by lia.
    rewrite (proj2 (Nat.leb_le _ _)) in E by (simpl; rewrite length_app; simpl; lia).
    rewrite Nat2Z.id in E. replace (length pre + 1)%nat with (Datatypes.S (length pre)) in E by lia.
    simpl in E. rewrite list_lookup_middle in E by done. injection E as <- <-. done.
  - intros (str & Hops & -> & ->).
    destruct (scan_args_operands optstring args) as [pre Hpre]. rewrite Hops in Hpre. simpl in Hpre.
    apply bind_val_iff. exists (tt, length args), s. split.
    { apply while_getopt_operands; [by intros; apply cases_noreturn|].
      exists [str]. split_and!; try done. simpl. lia. }
    unfold argc. subst args. cbv zeta. cbn [length]. rewrite length_app. simpl length.
    apply bind_val_iff. exists tt, s. split; [apply die_if_val; split; [apply Z.leb_gt; lia|done]|].
    apply bind_val_iff. exists tt, s. split; [apply die_if_val; split; [apply Z.ltb_ge; lia|done]|].
    unfold argv_at, argv_get. rewrite (proj2 (Z.ltb_ge _ _)) by lia.
    rewrite (proj2 (Nat.leb_le _ _)) by (simpl; rewrite length_app; simpl; lia).
    rewrite Nat2Z.id. replace (length pre + 1)%nat with (Datatypes.S (length pre)) by lia.
    simpl. by rewrite list_lookup_middle.
Qed.
End Operand.

(** The number after it, and the programs. *)
Section Number.
Context {W : Type}.

Lemma number_val help code msg optstring missing many needed prog args
    (parse : string -> C W Z) (denotes : string -> Z -> Prop) (s s' : cstate W) v :
  (forall str s v s', parse str s = (Val v, s') <->
     denotes str v /\ s' = CState 0 (trace s) (world s)) ->
  (p ← ('(_, oi) ← while_getopt optstring (prog :: args)
          (fun opt _ optopt _ => cases_with (usage_with help) code msg (prog :: args) opt optopt) tt;
        let optind := Z.of_nat oi in
        die_if (usage_with help) (prog :: args) (argc (prog :: args) <=? optind) missing;;
        die_if (usage_with help) (prog :: args) (optind <? argc (prog :: args) - 1) many;;
        operand ← argv_at (prog :: args) optind;
        mret operand);
   str ← require (usage_with help) (Some prog) p needed;
   n ← parse str;
   mret n) s = (Val v, s') <->
  exists str, scan_args optstring args = ([], [str]) /\ denotes str v /\
    s' = CState 0 (trace s) (world s).
Proof.
  intros Hparse. rewrite bind_val_iff. setoid_rewrite operand_val. split.
  - intros (p & s1 & (str & Hops & -> & ->) & E).
    apply bind_val_iff in E as (str' & s1 & E1 & E). apply require_val in E1 as [[= <-] ->].
    apply bind_val_iff in E as (n & s1 & E1 & E). apply Hparse in E1 as [Hd ->].
    exists str. unfold mret, C_ret in E. split_and!; [done|..]; congruence.
  - intros (str & Hops & Hd & ->). exists (Some str), s. split; [by exists str|].
    apply bind_val_iff. exists str, s. split; [by apply require_val|].
    apply bind_val_iff. exists v. eexists. split; [by apply Hparse|done].
Qed.

Lemma usage_perror_noreturn {A} m : noreturn (perror m;; exit_ EXIT_FAILURE : C W A).
Proof. intros s a s' E. by apply bind_inv_val in E as (? & ? & _ & ?). Qed.
End Number.

Definition identifier (str : string) (v : Z) : Prop :=
  unsigned_denotes str v /\ v <= UINT_MAX.

(** The parsers of [uid_t], [gid_t] and [unsigned int]. *)
Lemma parse_identifier {W} help b m1 m2 m3 (mx : C W Z) str (s s' : cstate W) v :
  (forall s, mx s = (Val UINT_MAX, s)) ->
  parse_unsigned (fail_usage (usage_with help) b m1) (fail_usage (usage_with help) b m2)
    (fail_usage (usage_with help) b m3) mx 32 str s = (Val v, s') <->
  identifier str v /\ s' = CState 0 (trace s) (world s).
Proof.
  intros Hmx. rewrite (parse_unsigned_val _ _ _ _ UINT_MAX);
    [unfold identifier; tauto|apply usage_noreturn..|done|done].
Qed.

Definition increment (str : string) (v : Z) : Prop :=
  signed_denotes str v /\ INT_MIN <= v <= INT_MAX.

Lemma parse_increment {W} help b m1 m2 m3 str (s s' : cstate W) v :
  parse_signed (fail_usage (usage_with help) b m1) (fail_usage (usage_with help) b m2)
    (fail_usage (usage_with help) b m3) INT_MIN INT_MAX 32 str s = (Val v, s') <->
  increment str v /\ s' = CState 0 (trace s) (world s).
Proof.
  rewrite parse_signed_val; [unfold increment; tauto|apply usage_noreturn..|done|done|done].
Qed.

Ltac number_program :=
  intros W prog args s s' v;
  match goal with |- _ <-> exists str, _ /\ ?d str v /\ _ => eapply (number_val _ _ _ _ _ _ _ _ _ _ d) end;
  intros; first [by apply parse_identifier | by apply parse_increment].

(** These programs start with the number [n] exactly when the command line
    is a single operand that denotes [n] and [n] fits 32 bits; in every other
    case they do not start.  ([process/nice] declares -s with an argument, but no
    case handles it, so it does not start with it either.) *)
Theorem number_programs_exact :
  Forall (fun start_up => reads_number "h" identifier start_up)
    [ @groups_getgrgid.start_up; @groups_setegid.start_up; @groups_setgid.start_up;
      @users_getpwuid.start_up; @users_seteuid.start_up; @users_setuid.start_up;
      @time_difftime.start_up ] /\
  reads_number "hs:" increment (@process_nice.start_up).
Proof.
  split; [|number_program].
  repeat first [apply List.Forall_nil | apply List.Forall_cons; [number_program|]].
Qed.
