(* ===== verification/Words.v ===== *)
(** * Splitting a file into words

    The children of the pipe programs and of [socketpair] read a file one
    character at a time into [char word[size]] and hand every word to
    [send_word].  [child_words] is that loop with the buffer, the [uint8_t]
    counter and the checks of the code; [words] is the reference definition of
    what the words of a text are.  [child_words_deliver] says what the loop
    does on every text, the over-long words included. *)

From S2P Require Import Prelude CMonad CString.

(** ** The loop *)

Definition MAX_WORD_LENGTH : Z := 255.

Definition too_long : string :=
  "Encountered a word longer than the maximum allowed length".

(** [error_exit(msg)]. *)
Definition error_exit {W A} (msg : string) : C W A :=
  perror msg;; exit_ EXIT_FAILURE.

(** [ch == ' ' || ch == '\n' || ch == '\t']. *)
Definition is_separator (ch : byte) : bool :=
  ((ch =?c " ") || (ch =?c "010") || (ch =?c "009"))%c.

Section Child.
Context {W : Type}.
(** [send_word] on the buffer and the length. *)
Context (send : list byte -> Z -> C W unit).

(** [word[length] = '\0'; send_word(fd, word, length)]. *)
Definition end_word (word : list byte) (length : Z) : C W (list byte * Z) :=
  word ← array_set word length NUL; send word length;; mret (word, 0).

(** The body of [while((ch = fgetc(file)) != EOF)]. *)
Definition child_char (ch : byte) (st : list byte * Z) : C W (list byte * Z) :=
  let '(word, length) := st in
  if is_separator ch then
    if 0 <? length then end_word word length else mret (word, length)
  else
    if MAX_WORD_LENGTH <=? length then error_exit too_long
    else
      word ← array_set word length ch;
      mret (word, to_unsigned 8 (length + 1)).

Fixpoint child_loop (file : list byte) (st : list byte * Z) : C W (list byte * Z) :=
  match file with
  | [] => mret st
  | ch :: file => st ← child_char ch st; child_loop file st
  end.

(** The loop and the word that may be left at the end of the file; [word] is
    the uninitialised buffer. *)
Definition child_words (word : list byte) (file : list byte) : C W unit :=
  '(word, length) ← child_loop file (word, 0);
  if 0 <? length then end_word word length;; mret tt else mret tt.
End Child.

(** ** The reference *)

(** The pieces between separators, empty ones included. *)
Fixpoint split (l : list byte) : list (list byte) :=
  match l with
  | [] => [[]]
  | c :: l =>
      if is_separator c then [] :: split l
      else match split l with
           | w :: ws => (c :: w) :: ws
           | [] => [[c]]
           end
  end.

Definition nonempty (w : list byte) : Prop := w <> [].
#[export] Instance nonempty_dec w : Decision (nonempty w).
Proof. unfold nonempty. apply _. Defined.

Definition words (l : list byte) : list (list byte) := filter nonempty (split l).

(** The words that fit the protocol: at most 254 characters, so that
    [word[length] = '\0'] stays inside the array. *)
Definition storable (size : nat) (w : list byte) : Prop := (length w < size)%nat.

(** What the loop does with a word, by its length, when the buffer has [size]
    bytes. *)
Definition deliver {W} (size : nat) (send : list byte -> C W unit) (w : list byte) :
    C W unit :=
  if Z.of_nat (length w) <? Z.of_nat size then send w
  else if Z.of_nat (length w) <=? MAX_WORD_LENGTH then undef "array index"
  else error_exit too_long.

(** ** The loop implements the reference *)

Lemma split_nonempty l : split l <> [].
Proof. induction l as [|c l IH]; simpl; [done|]. case_match; [done|]. by case_match. Qed.

(** The words of a text whose first word has already the letters [cur]. *)
Definition words_after (cur l : list byte) : list (list byte) :=
  match split l with
  | w :: ws => filter nonempty ((cur ++ w) :: ws)
  | [] => []
  end.

Lemma words_after_nil l : words_after [] l = words l.
Proof. unfold words_after, words. by destruct (split l). Qed.

Lemma words_after_sep cur c l : is_separator c = true ->
  words_after cur (c :: l) = filter nonempty [cur] ++ words l.
Proof.
  intros Hc. unfold words_after, words. simpl. rewrite Hc, app_nil_r.
  by rewrite <- list.filter_app.
Qed.

Lemma words_after_char cur c l : is_separator c = false ->
  words_after cur (c :: l) = words_after (cur ++ [c]) l.
Proof.
  intros Hc. unfold words_after. simpl. rewrite Hc.
  destruct (split l) as [|w ws] eqn:E; [by apply split_nonempty in E|].
  by rewrite <- app_assoc.
Qed.

Lemma words_after_long cur l :
  cur <> [] -> exists w ws, words_after cur l = (cur ++ w) :: ws.
Proof.
  unfold words_after. destruct (split l) as [|w ws] eqn:E; [by apply split_nonempty in E|].
  intros Hc. exists w, (filter nonempty ws). rewrite filter_cons_True; [done|].
  unfold nonempty. by destruct cur.
Qed.

(** The letters of a word are letters of the text, and not more of them. *)
Lemma split_letters l w b : w ∈ split l -> b ∈ w -> b ∈ l.
Proof.
  revert w. induction l as [|c l IH]; intros w; simpl.
  { by intros ->%list_elem_of_singleton. }
  destruct (is_separator c).
  { intros [->|Hw]%elem_of_cons Hb; [by apply elem_of_nil in Hb|]. right. by eapply IH. }
  destruct (split l) as [|v vs] eqn:E; [by apply split_nonempty in E|].
  intros [->|Hw]%elem_of_cons Hb.
  - apply elem_of_cons in Hb as [->|Hb]; [by left|]. right. apply (IH v); [by left|done].
  - right. apply (IH w); [by right|done].
Qed.

Lemma words_letters l w b : w ∈ words l -> b ∈ w -> b ∈ l.
Proof. intros [_ Hw]%list_elem_of_filter. by apply split_letters. Qed.

Lemma split_length l w : w ∈ split l -> (length w <= length l)%nat.
Proof.
  revert w. induction l as [|c l IH]; intros w; simpl.
  { by intros ->%list_elem_of_singleton. }
  destruct (is_separator c).
  { intros [->|Hw]%elem_of_cons; [simpl; lia|]. specialize (IH w Hw). lia. }
  destruct (split l) as [|v vs] eqn:E; [by apply split_nonempty in E|].
  intros [->|Hw]%elem_of_cons.
  - specialize (IH v ltac:(by left)). simpl. lia.
  - specialize (IH w ltac:(by right)). lia.
Qed.

(** [array_set] inside the bounds. *)
Lemma array_set_ok {W A} (a : list A) (i : nat) (x : A) (s : cstate W) :
  (i < length a)%nat -> array_set a (Z.of_nat i) x s = (Val (<[i := x]> a), s).
Proof.
  intros Hi. unfold array_set.
  rewrite (proj2 (Z.ltb_ge _ _)), (proj2 (Z.leb_gt _ _)) by lia.
  by rewrite Nat2Z.id.
Qed.

Lemma array_set_out {W A} (a : list A) (i : nat) (x : A) (s : cstate W) :
  (length a <= i)%nat -> array_set a (Z.of_nat i) x s = (Undef "array index", s).
Proof.
  intros Hi. unfold array_set. by rewrite (proj2 (Z.leb_le _ _)), orb_true_r by lia.
Qed.

Lemma take_insert_snoc {A} (l : list A) (i : nat) (x : A) :
  (i < length l)%nat -> take (S i) (<[i := x]> l) = take i l ++ [x].
Proof.
  intros Hi. rewrite (take_S_r _ _ x) by (by apply list_lookup_insert_eq).
  by rewrite take_insert_ge by lia.
Qed.

Section Correct.
Context {W : Type} (size : nat) (Hsize : (255 <= size <= 256)%nat).
Context (send : list byte -> Z -> C W unit) (send1 : list byte -> C W unit).
(** [send_word] looks at the [length] characters of the word, which a NUL
    follows. *)
Context (Hsend : forall buf n s, (n < length buf)%nat -> buf !! n = Some NUL ->
  send buf (Z.of_nat n) s = send1 (take n buf) s).

Lemma end_word_deliver (word : list byte) (n : nat) (s : cstate W) :
  length word = size -> (n <= 255)%nat ->
  end_word send word (Z.of_nat n) s =
  (deliver size send1 (take n word);; mret (<[n := NUL]> word, 0)) s.
Proof using Hsize Hsend.
  intros Hw Hn. unfold end_word, deliver. rewrite length_take, Hw.
  destruct (decide (n < size)%nat) as [Hlt|Hge].
  - rewrite (proj2 (Z.ltb_lt _ _)) by lia. unfold mbind, C_bind.
    rewrite array_set_ok by lia.
    rewrite Hsend by (rewrite ?length_insert, ?list_lookup_insert_eq; done || lia).
    by rewrite take_insert_ge by lia.
  - rewrite (proj2 (Z.ltb_ge _ _)), (proj2 (Z.leb_le _ _))
      by (unfold MAX_WORD_LENGTH; lia).
    unfold mbind, C_bind. by rewrite array_set_out by lia.
Qed.

(** The loop from a state in which the letters [cur] are in the buffer. *)
Lemma child_loop_deliver (file cur word : list byte) (n : nat) (s : cstate W) :
  length word = size -> (n <= 255)%nat -> take n word = cur -> length cur = n ->
  ('(word, length) ← child_loop send file (word, Z.of_nat n);
   if 0 <? length then end_word send word length;; mret tt else mret tt) s =
  for_each (words_after cur file) (deliver size send1) s.
Proof using Hsize Hsend.
  revert cur word n s. induction file as [|c file IH]; intros cur word n s Hw Hn Ht Hl.
  - simpl. unfold words_after. simpl. rewrite app_nil_r, bind_ret.
    destruct (decide (n = O)) as [->|].
    + simpl in *. subst cur. done.
    + rewrite (proj2 (Z.ltb_lt _ _)) by lia.
      rewrite filter_cons_True by (unfold nonempty; intros ->; simpl in *; lia).
      simpl. unfold mbind, C_bind. rewrite end_word_deliver by done.
      rewrite Ht. unfold mbind, C_bind.
      by destruct (deliver size send1 cur s) as [[]].
  - simpl. rewrite bind_assoc. unfold child_char.
    destruct (is_separator c) eqn:Ec.
    + rewrite words_after_sep by done.
      destruct (decide (n = O)) as [->|].
      * simpl. destruct cur; [|done]. rewrite bind_ret. simpl.
        rewrite <- words_after_nil. by apply (IH [] word O).
      * rewrite (proj2 (Z.ltb_lt _ _)) by lia.
        rewrite filter_cons_True by (unfold nonempty; intros ->; simpl in *; lia).
        simpl. unfold mbind at 1, C_bind at 1. rewrite end_word_deliver by done.
        rewrite Ht. unfold mbind, C_bind.
        destruct (deliver size send1 cur s) as [[[]|e|u|] s'] eqn:Ed; try done.
        rewrite <- words_after_nil. simpl.
        by apply (IH [] _ O); rewrite ?length_insert; try done; lia.
    + rewrite words_after_char by done.
      destruct (decide (n = 255)%nat) as [->|].
      * change (MAX_WORD_LENGTH <=? Z.of_nat 255) with true. cbv iota.
        destruct (words_after_long (cur ++ [c]) file) as (w & ws & ->); [by destruct cur|].
        simpl. unfold deliver. rewrite !length_app. simpl.
        unfold MAX_WORD_LENGTH.
        rewrite (proj2 (Z.ltb_ge _ _)), (proj2 (Z.leb_gt _ _)) by lia. done.
      * rewrite (proj2 (Z.leb_gt _ _)) by (unfold MAX_WORD_LENGTH; lia).
        rewrite bind_assoc. erewrite bind_val by (apply array_set_ok; lia).
        rewrite bind_ret, to_unsigned_small by lia.
        replace (Z.of_nat n + 1) with (Z.of_nat (S n)) by lia.
        apply IH; [by rewrite length_insert|lia| |rewrite length_app; simpl; lia].
        rewrite take_insert_snoc by lia. by f_equal.
Qed.

(** The child hands the words of the file over in order; a word that does not
    fit is an error, or writes past the array. *)
Lemma child_words_deliver (word file : list byte) (s : cstate W) :
  length word = size ->
  child_words send word file s = for_each (words file) (deliver size send1) s.
Proof using Hsize Hsend.
  intros Hw. rewrite <- words_after_nil. unfold child_words.
  by apply (child_loop_deliver file [] word O); try done; lia.
Qed.
End Correct.
