(* ===== verification/PipeIO.v ===== *)
(** * Words through a pipe: the two processes, seen one at a time

    The child of [pipe/simple], [pipe/synchronized], [pipe/reliable] and
    [domain-socket/socketpair] writes every word as a length byte followed by
    its characters and ends with a zero byte; the parent reads such frames.
    The four programs share the loop of [Words.child_words] and differ in
    [send_word] and in how the parent reads.  The child is proved against the
    interface [WordSender], which each [send_word] implements under the
    condition on the kernel that it needs: [reliable] lets every call transfer
    part of the data, the others need every call to transfer all of it. *)

From S2P Require Import Prelude CMonad CString Words.

(** ** Frames *)

Definition frame (w : list byte) : list byte := byte_of (Z.of_nat (length w)) :: w.

(** What a file looks like on the wire. *)
Definition encode (ws : list (list byte)) : list byte := concat (frame <$> ws) ++ [NUL].

(** [if(condition) error_exit(msg)]. *)
Definition die_when {W} (b : bool) (msg : string) : C W unit :=
  if b then error_exit msg else mret tt.

(** What [%s] prints of a [char] array. *)
Definition text_of (word : list byte) : string := of_chars (cstring word).

(** ** The processes *)

(** [child_process]: the pipe ends, the contents of the file, the
    uninitialised buffer, and the program's [send_word]. *)
Section ChildProcess.
Context {W} `{Kernel W}.
Context (send_word : option (list byte) -> Z -> C W unit).

Definition child_process (pipefd0 pipefd1 file_handle : Z) (word file : list byte) :
    C W unit :=
  sys (SClose pipefd0);;
  child_words (fun w => send_word (Some w)) word file;;
  send_word None 0;;
  r ← sys (SFclose file_handle);
  die_when (negb (r_val r =? 0)) "Error closing file";;
  r ← sys (SClose pipefd1);
  die_when (negb (r_val r =? 0)) "Error closing pipe".
End ChildProcess.

(** The line the child prints before it sends. *)
Definition sending_line (word : option (list byte)) (length : Z) : string :=
  match word with
  | None => ln "Child: sending word of length 0"
  | Some w => ln ("Child: sending word of length " +:+ fmt_u length +:+ ": " +:+ text_of w)
  end.

(** The [length] bytes a pointer to the word gives to [write]. *)
Definition word_bytes {W} (word : option (list byte)) (length : Z) : C W (list byte) :=
  match word with
  | None => undef "write from NULL"
  | Some w => mret (take (Z.to_nat length) w)
  end.

(** The line the parent prints for a word. *)
Definition received_line (length : Z) (word : list byte) : string :=
  ln ("Parent: received word of length " +:+ fmt_u length +:+ ": " +:+ text_of word).

(** [src/pipe/simple/main.c] *)
Module PipeSimple.
Section PipeSimple.
Context {W} `{Kernel W}.

Definition send_word (pipefd : Z) (word : option (list byte)) (length : Z) : C W unit :=
  out (sending_line word length);;
  r ← sys (SWrite pipefd [byte_of length]);
  die_when (r_val r <? 0) "Error writing word length to pipe";;
  if 0 <? length then
    b ← word_bytes word length;
    r ← sys (SWrite pipefd b);
    die_when (r_val r <? 0) "Error writing word to pipe"
  else mret tt.

Definition child_process (pipefd0 pipefd1 file_handle : Z) (word file : list byte) :
    C W unit :=
  child_process (send_word pipefd1) pipefd0 pipefd1 file_handle word file.

(** One turn of [while(1)]: the variables [length] and [word] keep what an
    earlier turn left when [read] stores nothing. *)
Definition parent_turn (pipefd0 : Z) (st : Z * list byte) : C W (Z * list byte + unit) :=
  let '(length, word) := st in
  r ← sys (SRead pipefd0 1);
  die_when (r_val r <? 0) "Error reading word length from pipe";;
  let length := match r_data r with b :: _ => byte_val b | [] => length end in
  if length =? 0 then mret (inr tt)
  else
    r ← sys (SRead pipefd0 (Z.to_nat length));
    die_when (r_val r <? 0) "Error reading word from pipe";;
    word ← array_set (overwrite (r_data r) word) length NUL;
    out (received_line length word);;
    mret (inl (length, word)).

Definition parent_process (fuel : nat) (pipefd0 pipefd1 : Z) (length : Z)
    (word : list byte) : C W unit :=
  sys (SClose pipefd1);;
  loop fuel (parent_turn pipefd0) (length, word);;
  r ← sys (SClose pipefd0);
  die_when (negb (r_val r =? 0)) "Error closing pipe".
End PipeSimple.
End PipeSimple.

(** [src/pipe/synchronized/main.c] *)
Module PipeSynchronized.
Section PipeSynchronized.
Context {W} `{Kernel W}.

Definition send_word (pipefd : Z) (word : option (list byte)) (length : Z) : C W unit :=
  PipeSimple.send_word pipefd word length;;
  r ← sys (SSemPost "/sem_parent");
  die_when (r_val r =? -1) "Semaphore post operation failed in child process";;
  r ← sys (SSemWait "/sem_child");
  die_when (r_val r =? -1) "Semaphore wait operation failed in child process".

Definition child_process (pipefd0 pipefd1 file_handle : Z) (word file : list byte) :
    C W unit :=
  child_process (send_word pipefd1) pipefd0 pipefd1 file_handle word file.

Definition parent_turn (pipefd0 : Z) (st : Z * list byte) : C W (Z * list byte + unit) :=
  r ← sys (SSemWait "/sem_parent");
  die_when (r_val r =? -1) "Semaphore wait operation failed in parent process";;
  r ← PipeSimple.parent_turn pipefd0 st;
  match r with
  | inr _ => mret (inr tt)
  | inl st =>
      r ← sys (SSemPost "/sem_child");
      die_when (r_val r =? -1) "Semaphore post operation failed in parent process";;
      mret (inl st)
  end.

Definition parent_process (fuel : nat) (pipefd0 pipefd1 : Z) (length : Z)
    (word : list byte) : C W unit :=
  sys (SClose pipefd1);;
  loop fuel (parent_turn pipefd0) (length, word);;
  r ← sys (SClose pipefd0);
  die_when (negb (r_val r =? 0)) "Error closing pipe".
End PipeSynchronized.
End PipeSynchronized.

(** [src/pipe/reliable/main.c] *)
Module PipeReliable.
Section PipeReliable.
Context {W} `{Kernel W}.

(** [while(count > 0) { n = write(fd, ptr, count); ... ptr += n; count -= n; }];
    the state is the part of the buffer not written yet. *)
Definition write_turn (fd : Z) (rest : list byte) : C W (list byte + unit) :=
  match rest with
  | [] => mret (inr tt)
  | _ =>
      r ← sys (SWrite fd rest);
      die_when (r_val r <? 0) "Error writing fully to pipe";;
      if Z.of_nat (length rest) <? r_val r then undef "write returned too much"
      else mret (inl (drop (Z.to_nat (r_val r)) rest))
  end.

Definition write_fully (fd : Z) (buf : list byte) : C W unit :=
  loop (S (length buf)) (write_turn fd) buf.

(** The state of [read_fully] is the bytes stored so far and [count]. *)
Definition read_turn (fd : Z) (st : list byte * nat) :
    C W (list byte * nat + list byte) :=
  let '(got, count) := st in
  match count with
  | O => mret (inr got)
  | _ =>
      r ← sys (SRead fd count);
      die_when (r_val r <? 0) "Error reading fully from pipe";;
      if Z.of_nat count <? r_val r then undef "read returned too much"
      else mret (inl (got ++ r_data r, (count - Z.to_nat (r_val r))%nat))
  end.

Definition read_fully (fuel : nat) (fd : Z) (count : nat) : C W (list byte) :=
  loop fuel (read_turn fd) ([], count).

Definition send_word (pipefd : Z) (word : option (list byte)) (length : Z) : C W unit :=
  out (sending_line word length);;
  write_fully pipefd [byte_of length];;
  (if 0 <? length then b ← word_bytes word length; write_fully pipefd b else mret tt);;
  r ← sys (SSemPost "/sem_parent");
  die_when (r_val r =? -1) "Semaphore post operation failed in child process";;
  r ← sys (SSemWait "/sem_child");
  die_when (r_val r =? -1) "Semaphore wait operation failed in child process".

Definition child_process (pipefd0 pipefd1 file_handle : Z) (word file : list byte) :
    C W unit :=
  child_process (send_word pipefd1) pipefd0 pipefd1 file_handle word file.

(** The bytes [read_fully] stores go to the start of the buffer. *)
Definition parent_turn (pipefd0 : Z) (word : list byte) : C W (list byte + unit) :=
  r ← sys (SSemWait "/sem_parent");
  die_when (r_val r =? -1) "Semaphore wait operation failed in parent process";;
  b ← read_fully 2 pipefd0 1;
  let length := match b with b :: _ => byte_val b | [] => 0 end in
  if length =? 0 then mret (inr tt)
  else
    b ← read_fully (S (Z.to_nat length)) pipefd0 (Z.to_nat length);
    word ← array_set (overwrite b word) length NUL;
    out (received_line length word);;
    r ← sys (SSemPost "/sem_child");
    die_when (r_val r =? -1) "Semaphore post operation failed in parent process";;
    mret (inl word).

Definition parent_process (fuel : nat) (pipefd0 pipefd1 : Z) (word : list byte) :
    C W unit :=
  sys (SClose pipefd1);;
  loop fuel (parent_turn pipefd0) word;;
  r ← sys (SClose pipefd0);
  die_when (negb (r_val r =? 0)) "Error closing pipe".
End PipeReliable.
End PipeReliable.

(** [src/domain-socket/socketpair/main.c] *)
Module Socketpair.
Section Socketpair.
Context {W} `{Kernel W}.

Definition send_word (sockfd : Z) (word : option (list byte)) (length : Z) : C W unit :=
  out (match word with
       | None => "Child: sending word of length 0"
       | Some _ => sending_line word length
       end);;
  r ← sys (SWrite sockfd [byte_of length]);
  die_when (r_val r <? 0) "Error writing word length to socket";;
  if 0 <? length then
    b ← word_bytes word length;
    r ← sys (SWrite sockfd b);
    die_when (r_val r <? 0) "Error writing word to socket"
  else mret tt.

Definition child_process (sockfd : Z) (file_path : string) (word file : list byte) :
    C W unit :=
  r ← sys (SFopen file_path "re");
  die_when (r_val r =? -1) "Error opening file";;
  child_words (fun w => send_word sockfd (Some w)) word file;;
  send_word sockfd None 0;;
  r ← sys (SFclose (r_val r));
  die_when (negb (r_val r =? 0)) "Error closing file";;
  sys (SClose sockfd);; mret tt.

(** [length] and [word] are declared inside the loop: each turn starts with
    what happens to be in them. *)
Definition parent_turn (sockfd : Z) (st : Z * list byte) : C W (Z * list byte + unit) :=
  let '(length, word) := st in
  r ← sys (SRead sockfd 1);
  die_when (r_val r <? 0) "Error reading word length from socket";;
  let length := match r_data r with b :: _ => byte_val b | [] => length end in
  if length =? 0 then mret (inr tt)
  else
    r ← sys (SRead sockfd (Z.to_nat length));
    die_when (r_val r <? 0) "Error reading word from socket";;
    word ← array_set (overwrite (r_data r) word) length NUL;
    out (received_line length word);;
    mret (inl (length, word)).

Definition parent_process (fuel : nat) (sockfd : Z) (length : Z) (word : list byte) :
    C W unit :=
  loop fuel (parent_turn sockfd) (length, word);;
  sys (SClose sockfd);; mret tt.
End Socketpair.
End Socketpair.

(** ** What a computation writes *)

(** The bytes that calls of [write] transferred to [fd], in order. *)
Definition written_by (fd : Z) (e : event) : list byte :=
  match e with
  | ESys (SWrite fd' d) r =>
      if (fd' =? fd) && (0 <? r_val r) then take (Z.to_nat (r_val r)) d else []
  | _ => []
  end.

Definition written (fd : Z) (t : list event) : list byte :=
  concat (written_by fd <$> t).

Lemma written_snoc fd t e : written fd (t ++ [e]) = written fd t ++ written_by fd e.
Proof. unfold written. rewrite fmap_app, concat_app. simpl. by rewrite app_nil_r. Qed.

(** [m] writes [data] to [fd] and returns, or fails with a part of it written. *)
Definition writes {W A} (fd : Z) (m : C W A) (data : list byte) : Prop :=
  forall s, wp m
    (fun _ s' => written fd (trace s') = written fd (trace s) ++ data)
    (fun c s' => c = EXIT_FAILURE /\ exists p, p `prefix_of` data /\
       written fd (trace s') = written fd (trace s) ++ p) s.

(** What the kernel promises about [write] on a descriptor: an error or at
    least one byte transferred; or an error or all of them. *)
Class WriteProgress (W : Type) `{Kernel W} (fd : Z) :=
  write_progress : forall w d r w', d <> [] -> kcall (SWrite fd d) w = (r, w') ->
    r_val r = -1 \/ 1 <= r_val r <= Z.of_nat (length d).

Class WriteAll (W : Type) `{Kernel W} (fd : Z) :=
  write_all : forall w d r w', kcall (SWrite fd d) w = (r, w') ->
    r_val r = -1 \/ r_val r = Z.of_nat (length d).

Section Writes.
Context {W} `{Kernel W} (fd : Z).

Lemma writes_ret {A} (a : A) : writes fd (mret a : C W A) [].
Proof. intros s. apply wp_ret. by rewrite app_nil_r. Qed.

Lemma writes_bind {A B} (m : C W A) (f : A -> C W B) d1 d2 :
  writes fd m d1 -> (forall a, writes fd (f a) d2) -> writes fd (m ≫= f) (d1 ++ d2).
Proof.
  intros Hm Hf s. apply wp_bind. eapply wp_mono; [apply Hm|..]; simpl.
  - intros a s1 E1. eapply wp_mono; [apply Hf|..]; simpl.
    + intros b s2 ->. by rewrite E1, app_assoc.
    + intros c s2 (-> & p & Hp & ->). split; [done|]. exists (d1 ++ p).
      split; [by apply prefix_app|]. by rewrite E1, app_assoc.
  - intros c s1 (-> & p & Hp & ->). split; [done|]. exists p.
    split; [by apply prefix_app_r|done].
Qed.

Lemma writes_bind_nil {A B} (m : C W A) (f : A -> C W B) d :
  writes fd m [] -> (forall a, writes fd (f a) d) -> writes fd (m ≫= f) d.
Proof. intros. by apply (writes_bind m f []). Qed.

Lemma writes_emit e : written_by fd e = [] -> writes fd (emit e : C W unit) [].
Proof. intros He s. apply wp_emit. simpl. by rewrite written_snoc, He. Qed.

Lemma writes_out t : writes fd (out t : C W unit) [].
Proof. by apply writes_emit. Qed.

Lemma writes_error {A} msg d : writes fd (error_exit msg : C W A) d.
Proof.
  intros s. unfold wp, error_exit. cstep. split; [done|]. exists [].
  split; [apply prefix_nil|]. by rewrite written_snoc.
Qed.

Lemma writes_die_when b msg : writes fd (die_when b msg : C W unit) [].
Proof. destruct b; [apply writes_error | apply writes_ret]. Qed.

Lemma writes_sys_other c :
  (forall d, c <> SWrite fd d) -> writes fd (sys c : C W sysret) [].
Proof.
  intros Hc s. apply wp_sys. intros r w e _. simpl. rewrite written_snoc. f_equal.
  destruct c; simpl; try done. destruct (Z.eqb_spec fd0 fd) as [->|]; [|done].
  by destruct (Hc data).
Qed.

Lemma writes_for_each {A} (l : list A) (body : A -> C W unit) (g : A -> list byte) :
  Forall (fun x => writes fd (body x) (g x)) l ->
  writes fd (for_each l body) (concat (g <$> l)).
Proof. induction 1; simpl; [apply writes_ret | by apply writes_bind]. Qed.

Lemma writes_ext {A} (m m' : C W A) d :
  (forall s, m s = m' s) -> writes fd m' d -> writes fd m d.
Proof. intros E Hm s. unfold wp. rewrite E. apply Hm. Qed.

(** One [write] that transfers everything. *)
Lemma writes_sys_write `{!WriteAll W fd} d msg (k : C W unit) d' :
  writes fd k d' ->
  writes fd (r ← sys (SWrite fd d); die_when (r_val r <? 0) msg;; k) (d ++ d').
Proof.
  intros Hk s. apply wp_bind, wp_sys. intros r w e Ek.
  destruct (write_all _ _ _ _ Ek) as [Hr|Hr].
  - rewrite Hr. unfold wp. split; [done|]. exists [].
    split; [apply prefix_nil|]. simpl. rewrite !written_snoc. simpl.
    rewrite ?Hr. by rewrite andb_false_r, !app_nil_r.
  - rewrite (proj2 (Z.ltb_ge _ _)) by lia.
    assert (written_by fd (ESys (SWrite fd d) r) = d) as Hd.
    { simpl. rewrite Z.eqb_refl, Hr. destruct d as [|b d]; [done|].
      rewrite (proj2 (Z.ltb_lt _ _)) by (simpl; lia). simpl andb. cbv iota.
      rewrite Nat2Z.id. by rewrite firstn_all. }
    change (wp k (fun _ s' => written fd (trace s') = written fd (trace s) ++ d ++ d')
      (fun c s' => c = EXIT_FAILURE /\ exists p, p `prefix_of` d ++ d' /\
         written fd (trace s') = written fd (trace s) ++ p)
      (CState e (trace s ++ [ESys (SWrite fd d) r]) w)).
    eapply wp_mono; [apply Hk|..]; simpl; rewrite written_snoc, Hd.
    + intros _ s' ->. by rewrite app_assoc.
    + intros c s' (-> & p & Hp & ->). split; [done|]. exists (d ++ p).
      split; [by apply prefix_app|]. by rewrite app_assoc.
Qed.
End Writes.

(** ** The senders *)

(** What [child_process] needs of [send_word]: it depends only on the word, and
    it writes the word's frame. *)
Class WordSender {W} (fd : Z) (send_word : option (list byte) -> Z -> C W unit) := {
  send_ext : forall buf n s, buf !! n = Some NUL ->
    send_word (Some buf) (Z.of_nat n) s =
    send_word (Some (take n buf ++ [NUL])) (Z.of_nat n) s;
  send_some : forall w, (length w <= 255)%nat -> w <> [] ->
    writes fd (send_word (Some (w ++ [NUL])) (Z.of_nat (length w))) (frame w);
  send_none : writes fd (send_word None 0) [NUL];
}.

Lemma cstring_take_nul (buf : list byte) (n : nat) :
  buf !! n = Some NUL -> cstring buf = cstring (take n buf ++ [NUL]).
Proof.
  revert n. induction buf as [|c buf IH]; intros n Hn; [done|].
  destruct n as [|n]; simpl in *; [by simplify_eq|].
  destruct (c =?c NUL)%c; [done|]. f_equal. auto.
Qed.

Lemma sending_line_ext buf n l :
  buf !! n = Some NUL ->
  sending_line (Some buf) l = sending_line (Some (take n buf ++ [NUL])) l.
Proof. intros Hn. unfold sending_line, text_of. by rewrite (cstring_take_nul buf n). Qed.

Lemma word_bytes_ext {W} buf n : buf !! n = Some NUL ->
  (word_bytes (Some buf) (Z.of_nat n) : C W _) =
  word_bytes (Some (take n buf ++ [NUL])) (Z.of_nat n).
Proof.
  intros Hn%lookup_lt_Some. unfold word_bytes. rewrite Nat2Z.id.
  by rewrite take_app_length' by (rewrite length_take; lia).
Qed.

Lemma word_bytes_frame {W} (w : list byte) :
  (word_bytes (Some (w ++ [NUL])) (Z.of_nat (length w)) : C W _) = mret w.
Proof. unfold word_bytes. by rewrite Nat2Z.id, take_app_length. Qed.

(** Both [send_word]s look at the word through these two functions only. *)
Ltac send_ext :=
  let buf := fresh "buf" in let n := fresh "n" in
  let s0 := fresh "s0" in let Hn := fresh "Hn" in
  intros buf n s0 Hn;
  unfold PipeSynchronized.send_word, PipeSimple.send_word, PipeReliable.send_word,
    Socketpair.send_word;
  rewrite <- ?(word_bytes_ext buf n), <- ?(sending_line_ext buf n) by done; done.

Section Senders.
Context {W} `{Kernel W} (fd : Z).

Lemma writes_sys_write_last `{!WriteAll W fd} d msg :
  writes fd (r ← sys (SWrite fd d); die_when (r_val r <? 0) msg : C W unit) d.
Proof.
  rewrite <- (app_nil_r d) at 2.
  eapply writes_ext; [|apply (writes_sys_write fd d msg (mret tt)), writes_ret].
  intros s. unfold mbind, C_bind. destruct (sys _ s) as [[r|?|?|] s']; [|done..].
  by destruct (die_when _ _ s') as [[[]|?|?|] ?].
Qed.

(** The two [write]s of a [send_word]: the length byte, then the word. *)
Lemma writes_two `{!WriteAll W fd} (w : list byte) m1 m2 :
  w <> [] ->
  writes fd
    (r ← sys (SWrite fd [byte_of (Z.of_nat (length w))]);
     die_when (r_val r <? 0) m1;;
     if 0 <? Z.of_nat (length w) then
       b ← word_bytes (Some (w ++ [NUL])) (Z.of_nat (length w));
       r ← sys (SWrite fd b); die_when (r_val r <? 0) m2
     else mret tt : C W unit) (frame w).
Proof.
  intros Hw. apply (writes_sys_write fd [_] _ _ w).
  rewrite (proj2 (Z.ltb_lt _ _)) by (destruct w; simpl; [done|lia]).
  rewrite word_bytes_frame.
  eapply writes_ext; [|apply (writes_sys_write_last w m2)]. intros s.
  by rewrite bind_ret.
Qed.
End Senders.

Section SenderInstances.
Context {W} `{Kernel W} (fd : Z).

#[export] Instance simple_sender `{!WriteAll W fd} :
  WordSender fd (PipeSimple.send_word fd).
Proof.
  split; [send_ext|..].
  - intros w Hl Hw. unfold PipeSimple.send_word.
    apply writes_bind_nil; [apply writes_out|intros _]. by apply writes_two.
  - unfold PipeSimple.send_word. apply writes_bind_nil; [apply writes_out|intros _].
    apply (writes_sys_write fd [NUL] _ _ []), writes_ret.
Qed.

#[export] Instance synchronized_sender `{!WriteAll W fd} :
  WordSender fd (PipeSynchronized.send_word fd).
Proof.
  assert (writes fd
    (r ← sys (SSemPost "/sem_parent");
     die_when (r_val r =? -1) "Semaphore post operation failed in child process";;
     r ← sys (SSemWait "/sem_child");
     die_when (r_val r =? -1) "Semaphore wait operation failed in child process" : C W unit)
    []) as Hsem.
  { repeat first [ apply writes_die_when | apply writes_sys_other; congruence
                 | apply writes_bind_nil; [|intros ?] ]. }
  split.
  - intros buf n s Hn. unfold PipeSynchronized.send_word, mbind, C_bind.
    by rewrite (send_ext (send_word := PipeSimple.send_word fd)) by done.
  - intros w Hl Hw. rewrite <- (app_nil_r (frame w)).
    apply writes_bind; [by apply send_some|intros _; apply Hsem].
  - change [NUL] with ([NUL] ++ []).
    apply writes_bind; [by apply send_none|intros _; apply Hsem].
Qed.

#[export] Instance socketpair_sender `{!WriteAll W fd} :
  WordSender fd (Socketpair.send_word fd).
Proof.
  split; [send_ext|..].
  - intros w Hl Hw. unfold Socketpair.send_word.
    apply writes_bind_nil; [apply writes_out|intros _]. by apply writes_two.
  - unfold Socketpair.send_word. apply writes_bind_nil; [apply writes_out|intros _].
    apply (writes_sys_write fd [NUL] _ _ []), writes_ret.
Qed.

(** *** [write_fully]: any amount per call will do *)

Lemma write_fully_loop `{!WriteProgress W fd} (n : nat) (buf : list byte) :
  (length buf < n)%nat ->
  writes fd (loop n (PipeReliable.write_turn fd) buf : C W unit) buf.
Proof.
  revert buf. induction n as [|n IH]; intros buf Hn; [lia|]. simpl.
  destruct buf as [|b buf]; [by apply writes_ret|].
  intros s. apply wp_bind. unfold PipeReliable.write_turn. apply wp_bind, wp_sys.
  intros r w e Ek. destruct (write_progress _ (b :: buf) _ _ ltac:(done) Ek) as [Hr|Hr].
  - rewrite Hr. split; [done|]. exists []. split; [apply prefix_nil|]. simpl.
    rewrite !written_snoc. simpl. rewrite ?Hr. by rewrite andb_false_r, !app_nil_r.
  - rewrite !(proj2 (Z.ltb_ge _ _)) by lia. apply wp_bind.
    change (wp (loop n (PipeReliable.write_turn fd) (drop (Z.to_nat (r_val r)) (b :: buf)))
      (fun _ s' => written fd (trace s') = written fd (trace s) ++ b :: buf)
      (fun c s' => c = EXIT_FAILURE /\ exists p, p `prefix_of` b :: buf /\
         written fd (trace s') = written fd (trace s) ++ p)
      (CState e (trace s ++ [ESys (SWrite fd (b :: buf)) r]) w)).
    set (k := Z.to_nat (r_val r)).
    assert (written_by fd (ESys (SWrite fd (b :: buf)) r) = take k (b :: buf)) as Hd.
    { simpl. by rewrite Z.eqb_refl, (proj2 (Z.ltb_lt _ _)) by lia. }
    eapply wp_mono; [apply IH|..]; cbn [trace].
    + rewrite length_drop. simpl in *. lia.
    + intros _ s' ->. rewrite written_snoc, Hd, <- app_assoc. f_equal.
      apply take_drop.
    + intros c s' (-> & p & Hp & ->). split; [done|]. exists (take k (b :: buf) ++ p).
      split; [|by rewrite written_snoc, Hd, <- app_assoc].
      rewrite <- (take_drop k (b :: buf)) at 2. by apply prefix_app.
Qed.

Lemma write_fully_writes `{!WriteProgress W fd} (buf : list byte) :
  writes fd (PipeReliable.write_fully fd buf : C W unit) buf.
Proof. apply write_fully_loop. lia. Qed.

#[export] Instance reliable_sender `{!WriteProgress W fd} :
  WordSender fd (PipeReliable.send_word fd).
Proof.
  split; [send_ext|..].
  - intros w Hl Hw. unfold PipeReliable.send_word.
    apply writes_bind_nil; [apply writes_out|intros _].
    apply (writes_bind fd _ _ [byte_of (Z.of_nat (length w))] w);
      [apply write_fully_writes|intros _].
    rewrite (proj2 (Z.ltb_lt _ _)) by (destruct w; simpl; [done|lia]).
    rewrite <- (app_nil_r w) at 3. apply writes_bind.
    + eapply writes_ext; [|apply write_fully_writes]. intros s.
      by rewrite word_bytes_frame.
    + intros _. repeat first [ apply writes_die_when | apply writes_sys_other; congruence
                 | apply writes_bind_nil; [|intros ?] ].
  - unfold PipeReliable.send_word. apply writes_bind_nil; [apply writes_out|intros _].
    apply (writes_bind fd _ _ [NUL] []); [apply write_fully_writes|intros _].
    repeat first [ apply writes_ret | apply writes_die_when
                 | apply writes_sys_other; congruence
                 | apply writes_bind_nil; [|intros ?] ].
Qed.
End SenderInstances.

(** ** The child *)

Section ChildFacts.
Context {W} `{Kernel W} (fd : Z) (send_word : option (list byte) -> Z -> C W unit).
Context `{!WordSender fd send_word}.

(** [send_word] as a function of the word alone. *)
Definition send_one (w : list byte) : C W unit :=
  send_word (Some (w ++ [NUL])) (Z.of_nat (length w)).

Lemma send_as_one (buf : list byte) (n : nat) (s : cstate W) :
  (n < length buf)%nat -> buf !! n = Some NUL ->
  send_word (Some buf) (Z.of_nat n) s = send_one (take n buf) s.
Proof.
  intros Hn Hb. unfold send_one. rewrite length_take_le by lia. by apply send_ext.
Qed.

Lemma words_nonempty file w : w ∈ words file -> w <> [].
Proof. unfold words. by intros [Hw _]%list_elem_of_filter. Qed.

Lemma child_words_writes (size : nat) (word file : list byte) :
  (255 <= size <= 256)%nat -> length word = size ->
  Forall (storable size) (words file) ->
  writes fd (child_words (fun w => send_word (Some w)) word file)
    (concat (frame <$> words file)).
Proof.
  intros Hs Hw Hf.
  eapply writes_ext; [intros s; by apply (child_words_deliver size Hs _ send_one send_as_one)|].
  apply writes_for_each. rewrite Forall_forall in Hf |- *. intros w Hin.
  pose proof (Hf _ Hin) as Hlt. unfold storable in Hlt.
  unfold deliver. rewrite (proj2 (Z.ltb_lt _ _)) by lia.
  apply send_some; [lia|by apply (words_nonempty file), list_elem_of_In].
Qed.

Lemma child_process_writes (pipefd0 file_handle : Z) (size : nat) (word file : list byte) :
  (255 <= size <= 256)%nat -> length word = size ->
  Forall (storable size) (words file) ->
  writes fd (child_process send_word pipefd0 fd file_handle word file)
    (encode (words file)).
Proof.
  intros Hs Hw Hf. unfold child_process, encode.
  apply writes_bind_nil; [by apply writes_sys_other|intros _].
  apply writes_bind; [by eapply child_words_writes|intros _].
  rewrite <- (app_nil_r [NUL]). apply writes_bind; [apply send_none|intros _].
  repeat first [ apply writes_die_when | apply writes_sys_other; congruence
               | apply writes_bind_nil; [|intros ?] ].
Qed.
End ChildFacts.

(** ** The reader *)

(** What the kernel promises about a descriptor that delivers a byte stream:
    [read] fails, or takes some bytes from the front of the stream, none only
    if there is none left; no call of this process but a [write] touches the
    stream. *)
Class ByteSource (W : Type) `{Kernel W} (fd : Z) := {
  stream : W -> list byte;
  stream_read : forall w n r w', kcall (SRead fd (S n)) w = (r, w') ->
    (r_val r = -1 /\ stream w' = stream w) \/
    (exists k, (k <= S n)%nat /\ (stream w <> [] -> (0 < k)%nat) /\
       r_data r = take k (stream w) /\
       r_val r = Z.of_nat (length (take k (stream w))) /\
       stream w' = drop k (stream w));
  stream_other : forall c w r w', (forall n, c <> SRead fd n) ->
    (forall fd' d, c <> SWrite fd' d) -> kcall c w = (r, w') -> stream w' = stream w;
}.

(** [m] consumes [data] from the stream and prints [text], then satisfies [Q];
    or it fails, having printed one of [texts]. *)
Definition consumes {W A} `{ByteSource W fd} (m : C W A) (data : list byte)
    (text : string) (texts : list string) (Q : A -> Prop) : Prop :=
  forall s rest, stream (world s) = data ++ rest ->
    wp m (fun a s' => stream (world s') = rest /\
                      stdout_of (trace s') = stdout_of (trace s) +:+ text /\ Q a)
         (fun c s' => c = EXIT_FAILURE /\ exists t, t ∈ texts /\
                      stdout_of (trace s') = stdout_of (trace s) +:+ t) s.

Section Consumes.
Context {W} `{Kernel W} (fd : Z) `{!ByteSource W fd}.

Lemma consumes_ret {A} (a : A) (Q : A -> Prop) :
  Q a -> consumes (fd := fd) (mret a : C W A) [] "" [""] Q.
Proof. intros HQ s rest Hs. split_and!; [done|by rewrite string_app_nil_r|done]. Qed.

Lemma consumes_weaken {A} (m : C W A) d t ts ts' (Q Q' : A -> Prop) :
  consumes (fd := fd) m d t ts Q -> (forall x, x ∈ ts -> x ∈ ts') ->
  (forall a, Q a -> Q' a) -> consumes (fd := fd) m d t ts' Q'.
Proof.
  intros Hm Ht HQ s rest Hs. eapply wp_mono; [by apply Hm|..]; simpl.
  - intros a s' (? & ? & ?). auto.
  - intros c s' (? & x & ? & ?). eauto.
Qed.

Lemma consumes_bind {A B} (m : C W A) (f : A -> C W B) d1 t1 ts1 P d2 t2 ts2 d t ts
    (Q : B -> Prop) :
  consumes (fd := fd) m d1 t1 ts1 P ->
  (forall a, P a -> consumes (fd := fd) (f a) d2 t2 ts2 Q) ->
  d = d1 ++ d2 -> t = t1 +:+ t2 ->
  (forall x, x ∈ ts1 -> x ∈ ts) -> (forall x, x ∈ ts2 -> t1 +:+ x ∈ ts) ->
  consumes (fd := fd) (m ≫= f) d t ts Q.
Proof.
  intros Hm Hf -> -> H1 H2 s rest Hs. apply wp_bind. rewrite <- app_assoc in Hs.
  eapply wp_mono; [by apply Hm|..]; simpl.
  - intros a s1 (E1 & E2 & HP). eapply wp_mono; [by apply (Hf a HP)|..]; simpl.
    + intros b s2 (? & -> & ?). rewrite E2. by rewrite string_app_assoc.
    + intros c s2 (-> & x & Hx & ->). split; [done|]. exists (t1 +:+ x).
      rewrite E2, <- string_app_assoc. auto.
  - intros c s1 (-> & x & Hx & ->). eauto.
Qed.

(** A step that neither reads nor prints. *)
Lemma consumes_silent {A B} (m : C W A) (f : A -> C W B) P d t ts (Q : B -> Prop) :
  consumes (fd := fd) m [] "" [""] P ->
  (forall a, P a -> consumes (fd := fd) (f a) d t ts Q) ->
  "" ∈ ts ->
  consumes (fd := fd) (m ≫= f) d t ts Q.
Proof.
  intros Hm Hf Ht. eapply consumes_bind; [exact Hm|exact Hf|done|done|..]; [|done].
  by intros x ->%list_elem_of_singleton.
Qed.

Lemma consumes_sys_other c (Q : sysret -> Prop) :
  (forall n, c <> SRead fd n) -> (forall fd' d, c <> SWrite fd' d) -> (forall r, Q r) ->
  consumes (fd := fd) (sys c) [] "" [""] Q.
Proof.
  intros Hc Hc' HQ s rest Hs. apply wp_sys. intros r w e Ek. simpl.
  rewrite (stream_other c _ _ _ Hc Hc' Ek), stdout_of_app. auto.
Qed.

Lemma consumes_die_when b msg :
  consumes (fd := fd) (die_when b msg : C W unit) [] "" [""] (fun _ => b = false).
Proof.
  destruct b; [|by apply consumes_ret]. intros s rest Hs. unfold wp, die_when, error_exit.
  cstep. split; [done|]. exists "". split; [by apply list_elem_of_singleton|].
  by rewrite stdout_of_app.
Qed.

Lemma consumes_out t : consumes (fd := fd) (out t : C W unit) [] t [""] (fun _ => True).
Proof.
  intros s rest Hs. apply wp_emit. simpl. rewrite stdout_of_app. simpl.
  by rewrite string_app_nil_r.
Qed.
End Consumes.

Section ReaderFacts.
Context {W} `{Kernel W} (fd : Z) `{!ByteSource W fd}.

Lemma read_fully_loop (fuel : nat) (got d : list byte) :
  (length d < fuel)%nat ->
  consumes (fd := fd) (loop fuel (PipeReliable.read_turn fd) (got, length d)) d "" [""]
    (fun b => b = got ++ d).
Proof.
  revert got d. induction fuel as [|fuel IH]; intros got d Hf; [lia|].
  intros s rest Hs. simpl. apply wp_bind.
  destruct d as [|b d]; cbn [length PipeReliable.read_turn].
  { apply wp_ret. cbn beta iota. apply wp_ret. by rewrite string_app_nil_r, app_nil_r. }
  apply wp_bind, wp_sys. intros r w e Ek.
  destruct (stream_read _ _ _ _ Ek) as [[Hr Hw]|(k & Hk & Hpos & Hd & Hr & Hw)].
  - rewrite Hr. split; [done|]. exists "". split; [by apply list_elem_of_singleton|].
    simpl. rewrite !stdout_of_app. simpl. by rewrite !string_app_nil_r.
  - rewrite Hs in *. specialize (Hpos ltac:(done)).
    rewrite take_app_le in Hd, Hr by (simpl; lia).
    rewrite drop_app_le in Hw by (simpl; lia).
    rewrite length_take_le in Hr by (simpl; lia). rewrite Hr.
    rewrite !(proj2 (Z.ltb_ge _ _)) by lia. rewrite Nat2Z.id.
    change (wp (loop fuel (PipeReliable.read_turn fd) (got ++ r_data r, (S (length d) - k)%nat))
      (fun a s' => stream (world s') = rest /\
                   stdout_of (trace s') = stdout_of (trace s) +:+ "" /\ a = got ++ b :: d)
      (fun c s' => c = EXIT_FAILURE /\ exists t, t ∈ [""] /\
                   stdout_of (trace s') = stdout_of (trace s) +:+ t)
      (CState e (trace s ++ [ESys (SRead fd (S (length d))) r]) w)).
    replace (S (length d) - k)%nat with (length (drop k (b :: d)))
      by (rewrite length_drop; done).
    eapply wp_mono; [apply (IH _ (drop k (b :: d))); [rewrite length_drop; simpl in *; lia|exact Hw]|..];
      cbn [trace]; rewrite stdout_of_app; simpl; rewrite ?string_app_nil_r.
    + intros a s' (? & ? & ->). split_and!; [done..|].
      rewrite <- app_assoc, Hd. f_equal. apply take_drop.
    + done.
Qed.

Lemma read_fully_consumes (fuel : nat) (d : list byte) :
  (length d < fuel)%nat ->
  consumes (fd := fd) (PipeReliable.read_fully fuel fd (length d)) d "" [""] (fun b => b = d).
Proof. intros. by apply read_fully_loop. Qed.

(** *** The parent of [pipe/reliable] *)

Definition received (w : list byte) : string :=
  received_line (Z.of_nat (length w)) (w ++ [NUL]).

Definition received_text (ws : list (list byte)) : string :=
  fold_right (fun w t => received w +:+ t) "" ws.

Lemma byte_val_len (w : list byte) :
  (length w <= 255)%nat -> byte_val (byte_of (Z.of_nat (length w))) = Z.of_nat (length w).
Proof. intros. rewrite byte_val_of, to_unsigned_small; lia. Qed.

Lemma received_overwrite (w word : list byte) :
  (length w < length word)%nat ->
  received_line (Z.of_nat (length w)) (<[length w := NUL]> (overwrite w word)) = received w.
Proof.
  intros Hl. unfold received, received_line, text_of. do 5 f_equal.
  rewrite (cstring_take_nul _ (length w)).
  - do 2 f_equal. rewrite take_insert_ge by lia. unfold overwrite. by rewrite take_app_length.
  - apply list_lookup_insert_eq. rewrite length_overwrite; lia.
Qed.

Ltac silent_step :=
  eapply consumes_silent;
  [ first [ apply consumes_die_when
          | apply (consumes_sys_other fd _ (fun _ => True)); [congruence|congruence|done] ]
  | intros ? _ | apply list_elem_of_In; simpl; auto ].

Lemma parent_turn_word (w word : list byte) :
  (0 < length w < 255)%nat -> length word = 255%nat ->
  consumes (fd := fd) (PipeReliable.parent_turn fd word) (frame w) (received w)
    [""; received w] (fun r => exists word', length word' = 255%nat /\ r = inl word').
Proof.
  intros Hw Hl. unfold PipeReliable.parent_turn, frame. do 2 silent_step.
  eapply (consumes_bind fd _ _ [byte_of (Z.of_nat (length w))] "" [""] _ w (received w));
    [by apply (read_fully_consumes 2 [_]); simpl; lia| |done|done| |done].
  2: { intros x ->%list_elem_of_singleton. apply list_elem_of_In. simpl. auto. }
  intros b ->. cbn beta iota. rewrite byte_val_len by lia.
  rewrite (proj2 (Z.eqb_neq _ _)) by lia. rewrite Nat2Z.id.
  eapply (consumes_bind fd _ _ w "" [""] _ [] (received w));
    [apply read_fully_consumes; lia| |by rewrite app_nil_r|done| |done].
  2: { intros x ->%list_elem_of_singleton. apply list_elem_of_In. simpl. auto. }
  intros b ->.
  eapply (consumes_silent fd _ _ (fun x => x = <[length w := NUL]> (overwrite w word))).
  { intros s rest Hs. unfold wp. rewrite array_set_ok by (rewrite length_overwrite; lia).
    by rewrite string_app_nil_r. }
  2: { apply list_elem_of_In. simpl. auto. }
  intros x ->. rewrite received_overwrite by lia.
  eapply (consumes_bind fd _ _ [] (received w) [""] _ [] "" [""]);
    [apply consumes_out| |done|by rewrite string_app_nil_r|..].
  - intros _ _. do 2 silent_step. apply consumes_ret.
    exists (<[length w := NUL]> (overwrite w word)).
    split; [|done]. rewrite length_insert, length_overwrite; lia.
  - intros x ->%list_elem_of_singleton. apply list_elem_of_In. simpl. auto.
  - intros x ->%list_elem_of_singleton. rewrite string_app_nil_r.
    apply list_elem_of_In. simpl. auto.
Qed.

Lemma parent_turn_end (word : list byte) :
  consumes (fd := fd) (PipeReliable.parent_turn fd word) [NUL] "" [""]
    (fun r => r = inr tt).
Proof.
  unfold PipeReliable.parent_turn. do 2 silent_step.
  eapply (consumes_bind fd _ _ [NUL] "" [""] _ [] "" [""]);
    [by apply (read_fully_consumes 2 [_]); simpl; lia| |done..].
  intros b ->. by apply consumes_ret.
Qed.

(** What the parent may have printed when it fails. *)
Definition prefix_texts (ws : list (list byte)) : list string :=
  (fun n => received_text (take n ws)) <$> seq 0 (S (length ws)).

Lemma prefix_texts_cons w ws x :
  x ∈ prefix_texts ws -> received w +:+ x ∈ prefix_texts (w :: ws).
Proof.
  unfold prefix_texts. intros (n & -> & Hn)%list_elem_of_fmap.
  apply list_elem_of_fmap. exists (S n). split; [done|].
  apply elem_of_seq in Hn. apply elem_of_seq. simpl. lia.
Qed.

Lemma prefix_texts_nil ws : "" ∈ prefix_texts ws.
Proof. unfold prefix_texts. apply list_elem_of_fmap. exists O. split; [done|]. by left. Qed.

Lemma parent_loop_words (fuel : nat) (ws : list (list byte)) (word : list byte) :
  Forall (fun w => (0 < length w < 255)%nat) ws -> length word = 255%nat ->
  (length ws < fuel)%nat ->
  consumes (fd := fd) (loop fuel (PipeReliable.parent_turn fd) word) (encode ws)
    (received_text ws) (prefix_texts ws) (fun _ => True).
Proof.
  revert ws word. induction fuel as [|fuel IH]; intros ws word Hws Hl Hf; [lia|].
  cbn [loop]. destruct ws as [|w ws].
  - eapply consumes_bind; [apply parent_turn_end| |done|done|..].
    + intros r ->. by apply consumes_ret.
    + intros x ->%list_elem_of_singleton. apply prefix_texts_nil.
    + intros x ->%list_elem_of_singleton. apply prefix_texts_nil.
  - inversion_clear Hws as [|? ? Hw Hws'].
    eapply consumes_bind; [by apply parent_turn_word| | |..].
    + intros r (word' & Hl' & ->). apply (IH ws); [done..|simpl in *; lia].
    + unfold encode. simpl. by rewrite app_assoc.
    + done.
    + intros x [<-|[<-|[]]]%list_elem_of_In; [apply prefix_texts_nil|].
      rewrite <- (string_app_nil_r (received w)). apply prefix_texts_cons, prefix_texts_nil.
    + intros x Hx. by apply prefix_texts_cons.
Qed.

Lemma parent_process_words (fuel : nat) (pipefd1 : Z) (ws : list (list byte)) (word : list byte) :
  Forall (fun w => (0 < length w < 255)%nat) ws -> length word = 255%nat ->
  (length ws < fuel)%nat ->
  consumes (fd := fd) (PipeReliable.parent_process fuel fd pipefd1 word) (encode ws)
    (received_text ws) (received_text ws :: prefix_texts ws) (fun _ => True).
Proof.
  intros Hws Hl Hf. unfold PipeReliable.parent_process.
  eapply consumes_silent;
    [by apply (consumes_sys_other fd _ (fun _ => True))|intros _ _|right; apply prefix_texts_nil].
  eapply (consumes_bind fd _ _ (encode ws) (received_text ws) _ _ [] "");
    [by apply parent_loop_words| |by rewrite app_nil_r|by rewrite string_app_nil_r|..].
  - intros _ _. eapply consumes_silent;
      [by apply (consumes_sys_other fd _ (fun _ => True))|intros r _|].
    + eapply consumes_weaken; [apply consumes_die_when|done..].
    + by left.
  - intros x Hx. by right.
  - intros x ->%list_elem_of_singleton. rewrite string_app_nil_r. by left.
Qed.
End ReaderFacts.

(** ** Kernels for concrete runs *)

(** A pipe as a byte queue with its read end at 3 and its write end at 4;
    [limit] says how many of the bytes asked for a call moves. *)
Record pipe_world := PipeWorld { inflight : list byte; chunk : nat }.

Definition pipe_call (limit : nat -> nat -> nat) (c : syscall) (w : pipe_world) :
    sysret * pipe_world :=
  match c with
  | SWrite 4 d =>
      let k := limit (chunk w) (length d) in
      (sys_ok (Z.of_nat k), PipeWorld (inflight w ++ take k d) (chunk w))
  | SRead 3 n =>
      let d := take (limit (chunk w) n) (inflight w) in
      (sys_data (Z.of_nat (length d)) d, PipeWorld (drop (length d) (inflight w)) (chunk w))
  | _ => (sys_ok 0, w)
  end.

(** At most [chunk + 1] bytes per call. *)
#[export] Instance pipe_kernel : Kernel pipe_world :=
  pipe_call (fun chunk n => Nat.min n (S chunk)).

#[export] Instance pipe_progress : WriteProgress pipe_world 4.
Proof.
  intros w d r w' Hd E. simpl in E. unfold kcall, pipe_kernel in E. simpl in E.
  simplify_eq. simpl. right. destruct d; [done|]. simpl length. lia.
Qed.

#[export] Instance pipe_source : ByteSource pipe_world 3.
Proof.
  refine {| stream := inflight |}.
  - intros w n r w' E. unfold kcall, pipe_kernel in E. simpl in E. simplify_eq. simpl. right.
    exists (S (Nat.min n (chunk w))). split_and!; [lia|lia|done|done|].
    rewrite length_take. destruct (decide (S (Nat.min n (chunk w)) <= length (inflight w))%nat).
    + f_equal. lia.
    + rewrite !drop_ge; [done|lia..].
  - intros c w r w' Hc Hc' E. unfold kcall, pipe_kernel, pipe_call in E.
    destruct c; simplify_eq; try done; [|by destruct (Hc' fd data)].
    destruct (decide (fd = 3)) as [->|Hfd]; [by destruct (Hc count)|].
    repeat (case_match; simplify_eq; try done).
Defined.

(** All the bytes asked for. *)
Record full_pipe := FullPipe { the_pipe : pipe_world }.

#[export] Instance full_kernel : Kernel full_pipe := fun c w =>
  let '(r, w') := pipe_call (fun _ n => n) c (the_pipe w) in (r, FullPipe w').

#[export] Instance full_write_all : WriteAll full_pipe 4.
Proof.
  intros w d r w' E. unfold kcall, full_kernel in E. simpl in E. simplify_eq. by right.
Qed.

(** A buffer of [n] bytes nobody has written to. *)
Definition fresh (n : nat) : list byte := replicate n "U"%char.

(** ** Properties *)

(** The child of [pipe/reliable] writes exactly the encoding of the words
    of its file, however the kernel cuts its writes, or reports a failure after
    a prefix of it. *)
Theorem reliable_child_writes_words {W} `{Kernel W} (pipefd0 pipefd1 file_handle : Z)
    `{!WriteProgress W pipefd1} (word file : list byte) :
  length word = 255%nat -> Forall (storable 255) (words file) ->
  writes pipefd1
    (PipeReliable.child_process pipefd0 pipefd1 file_handle word file : C W unit)
    (encode (words file)).
Proof. intros Hw Hf. by apply (child_process_writes _ _ _ _ 255); [lia|..]. Qed.

(** The text of the example file. *)
Definition sample_text : list byte := chars ("so it  goes" +:+ nl +:+ "on ").

Lemma reliable_child_writes_words_witness :
  writes 4 (PipeReliable.child_process 3 4 5 (fresh 255) sample_text : C pipe_world unit)
    (encode (words sample_text)).
Proof.
  apply (reliable_child_writes_words 3 4 5 (fresh 255) sample_text); [done|].
  repeat constructor; unfold storable; simpl; lia.
Defined.

(** The children that call [write] once per field do the same when every
    [write] transfers all it is given; [socketpair] alone can send a word of
    255 characters. *)
Theorem simple_children_write_words {W} `{Kernel W} (pipefd0 pipefd1 file_handle : Z)
    `{!WriteAll W pipefd1} (word word' file : list byte) :
  length word = 255%nat -> Forall (storable 255) (words file) ->
  length word' = 256%nat ->
  writes pipefd1 (PipeSimple.child_process pipefd0 pipefd1 file_handle word file : C W unit)
    (encode (words file)) /\
  writes pipefd1
    (PipeSynchronized.child_process pipefd0 pipefd1 file_handle word file : C W unit)
    (encode (words file)) /\
  (forall file_path file', Forall (storable 256) (words file') ->
     writes pipefd1 (Socketpair.child_process pipefd1 file_path word' file' : C W unit)
       (encode (words file'))).
Proof.
  intros Hw Hf Hw'.
  split; [|split]; [by apply (child_process_writes _ _ _ _ 255); [lia|..]..|].
  intros file_path file' Hf'. unfold Socketpair.child_process, encode.
  apply writes_bind_nil; [by apply writes_sys_other|intros r].
  apply writes_bind_nil; [apply writes_die_when|intros _].
  apply writes_bind; [by apply (child_words_writes _ _ 256); [lia|..]|intros _].
  rewrite <- (app_nil_r [NUL]). apply writes_bind; [apply send_none|intros _].
  repeat first [ apply writes_ret | apply writes_die_when
               | apply writes_sys_other; congruence
               | apply writes_bind_nil; [|intros ?] ].
Qed.

Lemma simple_children_write_words_witness :
  writes 4 (PipeSimple.child_process 3 4 5 (fresh 255) sample_text : C full_pipe unit)
    (encode (words sample_text)).
Proof.
  refine (proj1 (simple_children_write_words 3 4 5 (fresh 255) (fresh 256) sample_text _ _ _));
    [done| |done]. repeat constructor; unfold storable; simpl; lia.
Defined.

(** The parent of [pipe/reliable] prints the words a stream encodes, one
    line each and in order, however the kernel cuts its reads, and leaves what
    follows unread; if a call fails it has printed a prefix of them. *)
Theorem reliable_parent_prints_words {W} `{Kernel W} (pipefd0 pipefd1 : Z)
    `{!ByteSource W pipefd0} (fuel : nat) (ws : list (list byte)) (word : list byte) :
  Forall (fun w => (0 < length w < 255)%nat) ws -> length word = 255%nat ->
  (length ws < fuel)%nat ->
  consumes (fd := pipefd0) (PipeReliable.parent_process fuel pipefd0 pipefd1 word : C W unit)
    (encode ws) (received_text ws) (received_text ws :: prefix_texts ws) (fun _ => True).
Proof. apply parent_process_words. Qed.

Lemma reliable_parent_prints_words_witness :
  consumes (fd := 3) (PipeReliable.parent_process 5 3 4 (fresh 255) : C pipe_world unit)
    (encode (words sample_text)) (received_text (words sample_text))
    (received_text (words sample_text) :: prefix_texts (words sample_text)) (fun _ => True).
Proof.
  apply (reliable_parent_prints_words 3 4 5 (words sample_text) (fresh 255));
    [repeat constructor; simpl; lia|done|simpl; lia].
Defined.

(** C1: from the file to the screen: if the child of [pipe/reliable] completes
    and the parent reads what it wrote, with any cuts on either side, the parent
    prints the words of the file, all of them, once and in order. *)
Theorem reliable_end_to_end {W W'} `{Kernel W} `{Kernel W'}
    (pipefd0 pipefd1 file_handle : Z)
    `{!WriteProgress W pipefd1} `{!ByteSource W' pipefd0}
    (fuel : nat) (buf buf' file : list byte) (w : W) (sc : cstate W) (w' : W') (sp : cstate W') :
  length buf = 255%nat -> length buf' = 255%nat ->
  Forall (storable 255) (words file) -> (length (words file) < fuel)%nat ->
  PipeReliable.child_process pipefd0 pipefd1 file_handle buf file (start w) = (Val tt, sc) ->
  stream w' = written pipefd1 (trace sc) ->
  PipeReliable.parent_process fuel pipefd0 pipefd1 buf' (start w') = (Val tt, sp) ->
  stdout_of (trace sp) = received_text (words file) /\ stream (world sp) = [].
Proof.
  intros Hb Hb' Hf Hfuel Ec Es Ep.
  pose proof (child_process_writes pipefd1 (PipeReliable.send_word pipefd1) pipefd0
    file_handle 255 buf file ltac:(lia) Hb Hf (start w)) as Hc.
  unfold wp in Hc. unfold PipeReliable.child_process in Ec. rewrite Ec in Hc.
  simpl in Hc. rewrite Hc in Es. clear Hc Ec.
  assert (Forall (fun w => (0 < length w < 255)%nat) (words file)) as Hws.
  { apply Forall_forall. intros x Hx. split.
    - pose proof (words_nonempty file x (proj2 (list_elem_of_In _ _) Hx)). by destruct x; simpl; [|lia].
    - eapply (proj1 (Forall_forall _ _) Hf) in Hx. done. }
  pose proof (parent_process_words pipefd0 fuel pipefd1 _ buf' Hws Hb' Hfuel (start w') []) as Hp.
  rewrite app_nil_r in Hp. specialize (Hp Es). unfold wp in Hp. rewrite Ep in Hp.
  by destruct Hp as (? & ? & _).
Qed.

(** The two processes on the example file, two bytes per call. *)
Definition sample_child : outcome unit * cstate pipe_world :=
  PipeReliable.child_process 3 4 5 (fresh 255) sample_text (start (PipeWorld [] 1)).
Definition sample_parent : outcome unit * cstate pipe_world :=
  PipeReliable.parent_process 9 3 4 (fresh 255)
    (start (PipeWorld (written 4 (trace (snd sample_child))) 1)).

Lemma reliable_end_to_end_witness :
  stdout_of (trace (snd sample_parent)) = received_text (words sample_text) /\
  stream (fd := 3) (world (snd sample_parent)) = [].
Proof.
  refine (reliable_end_to_end 3 4 5 9 (fresh 255) (fresh 255) sample_text
    (PipeWorld [] 1) (snd sample_child)
    (PipeWorld (written 4 (trace (snd sample_child))) 1) (snd sample_parent)
    _ _ _ _ _ _ _); try (vm_compute; reflexivity).
  - repeat constructor; unfold storable; simpl; lia.
  - vm_compute. lia.
Defined.

(** What a child does before its first word. *)
Lemma child_process_first {W} `{Kernel W} (send_word : option (list byte) -> Z -> C W unit)
    (pipefd0 pipefd1 file_handle : Z) (word file w : list byte) (ws : list (list byte)) s :
  (forall buf n s, buf !! n = Some NUL ->
    send_word (Some buf) (Z.of_nat n) s =
    send_word (Some (take n buf ++ [NUL])) (Z.of_nat n) s) ->
  length word = 255%nat -> words file = w :: ws -> (255 <= length w)%nat ->
  exists s1,
    child_process send_word pipefd0 pipefd1 file_handle word file s =
    (if (length w =? 255)%nat then (Undef "array index", s1)
     else (Exit EXIT_FAILURE,
           CState (errno s1) (trace s1 ++ [EPerror too_long (errno s1)]) (world s1))).
Proof.
  intros Hs Hword Hw Hl. unfold child_process.
  unfold mbind at 1, C_bind at 1, sys. destruct (kcall _ _) as [r w0].
  match goal with |- context [CState ?e ?t ?v] => exists (CState e t v) end.
  unfold mbind at 1, C_bind at 1.
  rewrite (child_words_deliver 255 ltac:(lia) _ (send_one send_word)); [|intros|done].
  - rewrite Hw. cbn [for_each]. unfold mbind, C_bind. unfold deliver at 1.
    rewrite (proj2 (Z.ltb_ge _ _)) by lia. unfold MAX_WORD_LENGTH.
    destruct (Nat.eqb_spec (length w) 255) as [->|Hn]; [done|].
    by rewrite (proj2 (Z.leb_gt _ _)) by lia.
  - unfold send_one. rewrite length_take_le by lia. by apply Hs.
Qed.

(** C40: the array is one byte short: a word of exactly 255 characters makes
    the children of the three pipe programs store the terminating NUL past the
    end of [word], where one of 256 is reported and refused. *)
Theorem child_word_of_255 {W} `{Kernel W} (pipefd0 pipefd1 file_handle : Z)
    (word file w : list byte) (ws : list (list byte)) (s : cstate W) :
  length word = 255%nat -> words file = w :: ws -> (255 <= length w)%nat ->
  Forall (fun child : Z -> Z -> Z -> list byte -> list byte -> C W unit =>
    exists s1, child pipefd0 pipefd1 file_handle word file s =
    (if (length w =? 255)%nat then (Undef "array index", s1)
     else (Exit EXIT_FAILURE,
           CState (errno s1) (trace s1 ++ [EPerror too_long (errno s1)]) (world s1))))
    [PipeReliable.child_process; PipeSynchronized.child_process; PipeSimple.child_process].
Proof.
  intros Hword Hw Hl.
  do 3 (constructor; [eapply child_process_first; eauto; send_ext|]). constructor.
Qed.

(** A word of [n] letters. *)
Definition letters (n : nat) : list byte := replicate n "x"%char.

Lemma child_word_of_255_witness :
  exists s1,
  PipeReliable.child_process 3 4 5 (fresh 255) (letters 255) (start (PipeWorld [] 1)) =
    (Undef "array index", s1).
Proof.
  pose proof (child_word_of_255 3 4 5 (fresh 255) (letters 255) (letters 255) []
    (start (PipeWorld [] 1)) ltac:(vm_compute; reflexivity) ltac:(vm_compute; reflexivity)
    ltac:(vm_compute; lia)) as Hf.
  exact (Forall_inv Hf).
Defined.

(** At end of file [read_fully] never returns: [read] gives 0 and
    [count] does not decrease, so no number of turns is enough. *)
Theorem read_fully_eof_diverges {W} `{Kernel W} (fd : Z) (eof : W -> Prop) (count fuel : nat)
    (s : cstate W) :
  (forall w n r w', eof w -> kcall (SRead fd n) w = (r, w') -> r = sys_data 0 [] /\ eof w') ->
  eof (world s) -> (0 < count)%nat ->
  fst (PipeReliable.read_fully fuel fd count s) = NoFuel.
Proof.
  intros Heof. unfold PipeReliable.read_fully. generalize (@nil byte) as got.
  revert s. induction fuel as [|fuel IH]; intros s got Hs Hc; [done|].
  cbn [loop]. unfold mbind, C_bind. destruct count as [|count]; [lia|].
  unfold PipeReliable.read_turn, mbind, C_bind, sys.
  destruct (kcall _ _) as [r w'] eqn:Ek. destruct (Heof _ _ _ _ Hs Ek) as [-> Hw'].
  simpl. apply IH; [done|lia].
Qed.

Lemma read_fully_eof_diverges_witness :
  fst (PipeReliable.read_fully 1000 3 1 (start (PipeWorld [] 1))) = NoFuel.
Proof.
  apply (read_fully_eof_diverges 3 (fun w => inflight w = [])); [|done|lia].
  intros w n r w' Hw E. unfold kcall, pipe_kernel in E. simpl in E. rewrite Hw in E.
  rewrite !take_nil in E. simpl in E. rewrite ?Hw in E. by simplify_eq.
Defined.

(** The processes of [pipe/simple] on the file "abc" when a call moves one
    byte: the frame is cut short and the parent prints a word nobody sent. *)
Definition short_child : outcome unit * cstate pipe_world :=
  PipeSimple.child_process 3 4 5 (fresh 255) (chars "abc") (start (PipeWorld [] 0)).
Definition short_parent : outcome unit * cstate pipe_world :=
  PipeSimple.parent_process 9 3 4 0 (fresh 255)
    (start (PipeWorld (written 4 (trace (snd short_child))) 0)).

(** [pipe/simple] ignores how much [write] and [read] transferred: with
    short transfers both processes end normally, the stream is not the encoding
    of the file and the text printed is not the word. *)
Theorem simple_loses_data :
  fst short_child = Val tt /\ fst short_parent = Val tt /\
  written 4 (trace (snd short_child)) <> encode (words (chars "abc")) /\
  stdout_of (trace (snd short_parent)) = ln "Parent: received word of length 3: aUU".
Proof. vm_compute. split_and!; done. Qed.
