(* ===== verification/PipeProtocol.v ===== *)
(** * Child and parent running together

    The interleaving of the two processes of [pipe/synchronized] and
    [pipe/reliable]: a transition system whose state has the pipe (a bounded
    byte queue), the two semaphores and where each process is.  A [write] may
    take any non-empty part of its data that fits, a [read] any non-empty part
    that is there; [sem_wait] blocks at zero.  The initial values of the
    semaphores and the capacity are parameters, so the same theorems speak
    about both programs. *)

From S2P Require Import Prelude CString Words PipeIO.

(** ** States *)

(** Where the child is in [send_word]: before the length byte, before the rest
    of the word, before [sem_post(sem_parent)], before [sem_wait(sem_child)],
    or past the last word. *)
Inductive child_pc :=
| CLen
| CBody (rest : list byte)
| CPost
| CWait
| CDone.

(** Where the parent is in its loop: before [sem_wait(sem_parent)], before the
    length byte, with [n] bytes of the word missing, before
    [sem_post(sem_child)], or past the zero length. *)
Inductive parent_pc :=
| PWait
| PLen
| PBody (n : nat) (part : list byte)
| PPost
| PDone.

Record state := State {
  todo : list (list byte);      (* words to send, the current one first *)
  cpc : child_pc;
  pipe : list byte;
  sem_parent : nat;
  sem_child : nat;
  ppc : parent_pc;
  got : list (list byte);       (* words received *)
}.

(** After a word has been waited for. *)
Definition next_child (todo : list (list byte)) : child_pc :=
  match todo with [] => CDone | _ => CLen end.

Section Protocol.
Context (capacity : nat).

Inductive step : state -> state -> Prop :=
| child_len w ws p sp sc q g :
    (length p < capacity)%nat ->
    step (State (w :: ws) CLen p sp sc q g)
         (State (w :: ws) (match w with [] => CPost | _ => CBody w end)
            (p ++ [byte_of (Z.of_nat (length w))]) sp sc q g)
| child_body t a b p sp sc q g :
    a <> [] -> (length p + length a <= capacity)%nat ->
    step (State t (CBody (a ++ b)) p sp sc q g)
         (State t (match b with [] => CPost | _ => CBody b end) (p ++ a) sp sc q g)
| child_post t p sp sc q g :
    step (State t CPost p sp sc q g) (State t CWait p (S sp) sc q g)
| child_wait w ws p sp sc q g :
    step (State (w :: ws) CWait p sp (S sc) q g)
         (State ws (next_child ws) p sp sc q g)
| parent_wait t c p sp sc g :
    step (State t c p (S sp) sc PWait g) (State t c p sp sc PLen g)
| parent_len t c b p sp sc g :
    step (State t c (b :: p) sp sc PLen g)
         (State t c p sp sc
            (if byte_val b =? 0 then PDone else PBody (Z.to_nat (byte_val b)) []) g)
| parent_body t c a p sp sc n part g :
    a <> [] -> (length a <= n)%nat ->
    step (State t c (a ++ p) sp sc (PBody n part) g)
         (if (length a =? n)%nat
          then State t c p sp sc PPost (g ++ [part ++ a])
          else State t c p sp sc (PBody (n - length a) (part ++ a)) g)
| parent_post t c p sp sc g :
    step (State t c p sp sc PPost g) (State t c p sp (S sc) PWait g).

(** [sem_open(name, O_CREAT, ...)]: the first of the variable arguments is the
    mode, the second the initial value. *)
Definition sem_open_value (varargs : list Z) : nat :=
  match varargs with _ :: value :: _ => Z.to_nat value | _ => O end.

Definition O_CREAT : Z := 64.
(** [S_IRUSR | S_IWUSR | S_IRGRP | S_IROTH] *)
Definition SEM_MODE : Z := Z.lor (Z.lor (Z.lor 256 128) 32) 4.

(** The calls of the two programs, as they are written. *)
Definition reliable_sem_parent : nat := sem_open_value [SEM_MODE; 0].
Definition reliable_sem_child : nat := sem_open_value [SEM_MODE; 1].
Definition synchronized_sem_parent : nat := sem_open_value [O_CREAT; SEM_MODE; 0].
Definition synchronized_sem_child : nat := sem_open_value [O_CREAT; SEM_MODE; 1].

(** The words of the file, then the empty word. *)
Definition initial (ip ic : nat) (ws : list (list byte)) : state :=
  State (ws ++ [[]]) CLen [] ip ic PWait [].

Definition finished (s : state) : Prop := cpc s = CDone /\ ppc s = PDone.

(** ** Every run ends *)

(** The bytes not written yet, the current word's and the others'. *)
Definition frames (ws : list (list byte)) : list byte := concat (frame <$> ws).

Definition unsent (t : list (list byte)) (c : child_pc) : list byte :=
  match c with
  | CLen => frames t
  | CBody rest => rest ++ frames (tail t)
  | CPost | CWait => frames (tail t)
  | CDone => []
  end.

Definition child_weight (t : list (list byte)) (c : child_pc) : nat :=
  match c with
  | CLen | CBody _ | CPost => 2 * length t + 1
  | CWait => 2 * length t
  | CDone => 0
  end.

Definition parent_weight (q : parent_pc) : nat :=
  match q with PWait => 2 | PLen => 1 | PBody _ _ => 1 | PPost => 3 | PDone => 0 end.

Definition work (s : state) : nat :=
  5 * length (unsent (todo s) (cpc s)) + 4 * length (pipe s)
  + child_weight (todo s) (cpc s) + parent_weight (ppc s).

Lemma frames_cons w ws : frames (w :: ws) = frame w ++ frames ws.
Proof. done. Qed.

Lemma length_frame w : length (frame w) = S (length w).
Proof. done. Qed.

Lemma step_work s s' : step s s' -> (work s' < work s)%nat.
Proof.
  intros Hs. destruct Hs; unfold work; cbn [todo cpc pipe ppc].
  - destruct w as [|b w]; cbn [unsent child_weight tail];
      rewrite frames_cons, ?length_app, length_frame, ?length_app; simpl length; lia.
  - destruct a as [|x a]; [done|].
    destruct b; cbn [unsent child_weight]; rewrite !length_app; simpl length; lia.
  - cbn [unsent child_weight]. lia.
  - destruct ws as [|v ws]; cbn [unsent child_weight next_child tail]; simpl length; lia.
  - simpl. lia.
  - simpl length. case_match; simpl parent_weight; lia.
  - destruct a as [|x a]; [done|]. rewrite length_app.
    case_match; cbn [todo cpc pipe ppc parent_weight]; simpl length; lia.
  - simpl. lia.
Qed.

(** ** The invariant *)

Section Invariant.
Context (ip ic : nat) (ws : list (list byte)).
Context (Hws : Forall (fun w => (0 < length w <= 255)%nat) ws).

Let F : list (list byte) := ws ++ [[]].

(** What the parent has still to read when it has received [g] words. *)
Definition unread (g : nat) (q : parent_pc) (rest : list byte) : Prop :=
  match q with
  | PWait | PLen | PPost => rest = frames (drop g F)
  | PBody n part => exists r, F !! g = Some (part ++ r) /\ n = length r /\ r <> [] /\
      rest = r ++ frames (drop (S g) F)
  | PDone => g = length ws /\ rest = []
  end.

(** What is left of the current word. *)
Definition child_ok (j : nat) (c : child_pc) : Prop :=
  match c with
  | CBody rest => rest <> [] /\ exists pre, F !! j = Some (pre ++ rest)
  | CDone => j = length F
  | _ => (j < length F)%nat
  end.

Definition posts (c : child_pc) : nat := match c with CWait => 1 | _ => 0 end.
Definition waits (q : parent_pc) : nat :=
  match q with PLen | PBody _ _ | PDone => 1 | _ => 0 end.
Definition owed (q : parent_pc) : nat := match q with PPost => 1 | _ => 0 end.

Record inv (s : state) : Prop := {
  inv_j : exists j, todo s = drop j F /\ child_ok j (cpc s) /\
    (sem_parent s + length (got s) + waits (ppc s) = ip + j + posts (cpc s))%nat /\
    (sem_child s + j + owed (ppc s) = ic + length (got s))%nat;
  inv_got : got s = take (length (got s)) ws;
  inv_stream : unread (length (got s)) (ppc s) (pipe s ++ unsent (todo s) (cpc s));
}.

Lemma inv_initial : inv (initial ip ic ws).
Proof using Type.
  split; simpl; [|done|by rewrite drop_0].
  exists O. rewrite drop_0. split_and!; [done| |lia..].
  unfold F. rewrite length_app. simpl. lia.
Qed.

Lemma frames_drop (g : nat) (w : list byte) :
  F !! g = Some w -> frames (drop g F) = frame w ++ frames (drop (S g) F).
Proof using Type. intros Hg. by rewrite (drop_S F w g Hg). Qed.

Lemma drop_cons_lookup (j : nat) (w : list byte) (t : list (list byte)) :
  w :: t = drop j F -> F !! j = Some w /\ t = drop (S j) F /\ (j < length F)%nat.
Proof using Type.
  intros E. assert (F !! j = Some w) as Hj.
  { rewrite <- (Nat.add_0_r j), <- lookup_drop. by rewrite <- E. }
  split_and!; [done| |by apply lookup_lt_Some in Hj].
  rewrite (drop_S F w j Hj) in E. by simplify_eq.
Qed.

(** A word of the list, or the empty word at its end. *)
Lemma F_lookup (g : nat) (w : list byte) : F !! g = Some w ->
  ((g < length ws)%nat /\ ws !! g = Some w /\ (0 < length w <= 255)%nat) \/
  (g = length ws /\ w = []).
Proof using Hws.
  unfold F. intros Hg. destruct (decide (g < length ws)%nat) as [Hlt|Hge].
  - left. rewrite lookup_app_l in Hg by done. split_and!; try done.
    + rewrite Forall_lookup in Hws. by apply (Hws g w).
    + rewrite Forall_lookup in Hws. by apply (Hws g w).
  - right. pose proof (lookup_lt_Some _ _ _ Hg) as Hl. rewrite length_app in Hl. simpl in Hl.
    assert (g = length ws) as -> by lia. rewrite lookup_snoc in Hg. by simplify_eq.
Qed.

Lemma unread_child g q rest rest' :
  rest = rest' -> unread g q rest -> unread g q rest'.
Proof using Type. by intros ->. Qed.

Lemma inv_child_len w t p sp sc q g :
  inv (State (w :: t) CLen p sp sc q g) ->
  inv (State (w :: t) (match w with [] => CPost | _ => CBody w end)
         (p ++ [byte_of (Z.of_nat (length w))]) sp sc q g).
Proof using Type.
  intros [(j & Ht & Hc & E1 & E2) Hg Hu]. simpl in *.
  destruct (drop_cons_lookup _ _ _ Ht) as (Hj & _ & Hlt).
  split; simpl; [|done|].
  - exists j. split; [done|]. destruct w as [|b w]; simpl in *; [split_and!; [done|lia|lia]|].
    split_and!; [done| |lia|lia]. by exists [].
  - eapply unread_child; [|exact Hu]. simpl. unfold frames at 1. simpl.
    rewrite <- app_assoc. by destruct w.
Qed.

Lemma inv_child_body t a b p sp sc q g :
  inv (State t (CBody (a ++ b)) p sp sc q g) ->
  inv (State t (match b with [] => CPost | _ => CBody b end) (p ++ a) sp sc q g).
Proof using Type.
  intros [(j & Ht & [Hc [pre Hpre]] & E1 & E2) Hg Hu]. simpl in *.
  split; simpl; [|done|].
  - exists j. split; [done|]. pose proof (lookup_lt_Some _ _ _ Hpre) as Hlt.
    destruct b as [|x b]; simpl in *; [split_and!; [done|lia|lia]|].
    split_and!; [done| |lia|lia]. exists (pre ++ a). by rewrite <- app_assoc.
  - eapply unread_child; [|exact Hu]. simpl. rewrite <- !app_assoc. by destruct b.
Qed.

Lemma inv_child_wait w t p sp sc q g :
  inv (State (w :: t) CWait p sp (S sc) q g) -> inv (State t (next_child t) p sp sc q g).
Proof using Type.
  intros [(j & Ht & Hc & E1 & E2) Hg Hu]. simpl in *.
  destruct (drop_cons_lookup _ _ _ Ht) as (Hj & -> & Hlt).
  split; simpl; [|done|].
  - exists (S j). split; [done|]. destruct (drop (S j) F) as [|v l] eqn:Ed; simpl.
    + split_and!; [|lia|lia]. apply (f_equal length) in Ed.
      rewrite length_drop in Ed. simpl in Ed. lia.
    + split_and!; [|lia|lia]. symmetry in Ed. by destruct (drop_cons_lookup _ _ _ Ed) as (_ & _ & ?).
  - eapply unread_child; [|exact Hu]. simpl. by destruct (drop (S j) F).
Qed.

Lemma inv_parent_len t c b p sp sc g :
  inv (State t c (b :: p) sp sc PLen g) ->
  inv (State t c p sp sc
         (if byte_val b =? 0 then PDone else PBody (Z.to_nat (byte_val b)) []) g).
Proof using Hws.
  intros [(j & Ht & Hc & E1 & E2) Hg Hu]. simpl in *.
  assert (exists w, F !! length g = Some w) as [w Hw].
  { destruct (F !! length g) eqn:E; [eauto|]. apply lookup_ge_None in E.
    by rewrite drop_ge in Hu by lia. }
  rewrite (frames_drop _ _ Hw) in Hu. unfold frame in Hu. injection Hu as -> Hu.
  destruct (F_lookup _ _ Hw) as [(Hlt & Hgw & Hl)|(El & ->)].
  - rewrite byte_val_of, to_unsigned_small by lia.
    rewrite (proj2 (Z.eqb_neq _ _)) by lia. rewrite Nat2Z.id.
    split; simpl; [|done|].
    + exists j. split_and!; [done..|lia|lia].
    + exists w. split_and!; [done..| |done]. by destruct w; simpl in *; [lia|].
  - split; simpl; [|done|].
    + exists j. split_and!; [done..|lia|lia].
    + split; [done|]. rewrite Hu, drop_ge; [done|]. unfold F. rewrite length_app. simpl. lia.
Qed.

Lemma inv_parent_body t c a p sp sc n part g :
  a <> [] -> (length a <= n)%nat ->
  inv (State t c (a ++ p) sp sc (PBody n part) g) ->
  inv (if (length a =? n)%nat
       then State t c p sp sc PPost (g ++ [part ++ a])
       else State t c p sp sc (PBody (n - length a) (part ++ a)) g).
Proof using Hws.
  intros Ha Hn [(j & Ht & Hc & E1 & E2) Hg (r & Hr & -> & Hne & Hu)]. simpl in *.
  assert (exists r', r = a ++ r') as [r' ->].
  { exists (drop (length a) r). rewrite <- (take_drop (length a) r) at 1. f_equal.
    apply (f_equal (take (length a))) in Hu. rewrite <- app_assoc, take_app_length in Hu.
    by rewrite take_app_le in Hu by done. }
  rewrite <- !app_assoc in Hu. apply app_inv_head in Hu.
  rewrite length_app. destruct (Nat.eqb_spec (length a) (length a + length r')) as [El|El].
  - destruct r'; [|simpl in El; lia]. rewrite app_nil_r in Hr.
    destruct (F_lookup _ _ Hr) as [(Hlt & Hgw & Hl)|(Hlt & Enil)];
      [|apply app_eq_nil in Enil as [_ ->]; done].
    split; simpl; rewrite length_app; simpl.
    + exists j. split_and!; [done..|lia|lia].
    + rewrite Nat.add_1_r, (take_S_r _ _ _ Hgw). by rewrite <- Hg.
    + by rewrite Nat.add_1_r.
  - split; simpl; [|done|].
    + exists j. split_and!; [done..|lia|lia].
    + exists r'. rewrite <- app_assoc. split_and!; [done|lia| |done].
      intros ->. simpl in El. lia.
Qed.

Lemma inv_step s s' : inv s -> step s s' -> inv s'.
Proof using Hws.
  intros Hi Hs. destruct Hs.
  - by apply inv_child_len.
  - by apply inv_child_body.
  - destruct Hi as [(j & Ht & Hc & E1 & E2) Hg Hu]. split; simpl in *; [|done..].
    exists j. split_and!; [done..|lia|lia].
  - by eapply inv_child_wait.
  - destruct Hi as [(j & Ht & Hc & E1 & E2) Hg Hu]. split; simpl in *; [|done..].
    exists j. split_and!; [done..|lia|lia].
  - by apply inv_parent_len.
  - by apply inv_parent_body.
  - destruct Hi as [(j & Ht & Hc & E1 & E2) Hg Hu]. split; simpl in *; [|done..].
    exists j. split_and!; [done..|lia|lia].
Qed.

Lemma inv_reachable s : run step (initial ip ic ws) s -> inv s.
Proof using Hws.
  apply run_invariant; [intros; by eapply inv_step|apply inv_initial].
Qed.

(** ** No deadlock *)

(** The bytes of the words from the [k]th on. *)
Definition size_from (k : nat) : nat := length (frames (drop k F)).

Lemma size_from_S k w : F !! k = Some w -> size_from k = S (length w + size_from (S k)).
Proof using Type.
  intros Hk. unfold size_from. rewrite (frames_drop _ _ Hk), length_app. simpl. lia.
Qed.

Lemma size_from_lt k k' : (k < k')%nat -> (k < length F)%nat -> (size_from k' < size_from k)%nat.
Proof using Type.
  intros Hlt. induction Hlt as [|k' Hlt IH]; intros Hk.
  - destruct (lookup_lt_is_Some_2 F k Hk) as [w Hw]. rewrite (size_from_S _ _ Hw). lia.
  - specialize (IH Hk). destruct (decide (k' < length F)%nat) as [Hk'|Hk'].
    + destruct (lookup_lt_is_Some_2 F k' Hk') as [w Hw].
      rewrite (size_from_S _ _ Hw) in IH. lia.
    + unfold size_from in *. rewrite !drop_ge in * by lia. done.
Qed.

Lemma size_from_le k k' : (k <= k')%nat -> (size_from k' <= size_from k)%nat.
Proof using Type.
  intros Hle. destruct (decide (k < length F)%nat).
  - destruct (decide (k = k')) as [->|]; [done|].
    pose proof (size_from_lt k k'). lia.
  - unfold size_from. rewrite !drop_ge by lia. done.
Qed.

Definition can_step (s : state) : Prop := exists s', step s s'.

Lemma length_F : length F = S (length ws).
Proof using Type. unfold F. rewrite length_app. simpl. lia. Qed.

Lemma got_bound g : g = take (length g) ws -> (length g <= length ws)%nat.
Proof using Type. intros E. apply (f_equal length) in E. rewrite length_take in E. lia. Qed.

(** A process that finds bytes in the pipe, or a token, goes on. *)
Lemma parent_reads t c b p sp sc q g :
  (q = PLen \/ exists n part, q = PBody (S n) part) ->
  can_step (State t c (b :: p) sp sc q g).
Proof using Type.
  intros [->|(n & part & ->)]; eexists; [apply parent_len|].
  apply (parent_body _ _ [b] p); [done|simpl; lia].
Qed.

(** With the pipe full the parent can read: it has not yet read the whole of
    what was sent, because the current word fits. *)
Lemma full_pipe_step t c p sp sc q g :
  (256 <= capacity)%nat -> inv (State t c p sp sc q g) ->
  (c = CLen \/ exists rest, c = CBody rest) -> (capacity <= length p)%nat ->
  can_step (State t c p sp sc q g).
Proof using Hws.
  intros Hcap [(j & -> & Hc & E1 & E2) Hg Hu] Hcs Hp. simpl in *.
  destruct p as [|b p]; [simpl in Hp; lia|].
  destruct q as [| |n part| |].
  - destruct sp as [|sp]; [exfalso|eexists; apply parent_wait].
    apply (f_equal length) in Hu. rewrite length_app in Hu.
    change (length (frames (drop (length g) F))) with (size_from (length g)) in Hu.
    destruct Hcs as [->|(rest & ->)]; simpl in *.
    + change (length (frames (drop j F))) with (size_from j) in Hu.
      pose proof (size_from_le j (length g)). lia.
    + destruct Hc as [Hne [pre Hpre]]. rewrite length_app, (drop_S F _ j Hpre) in Hu. cbn [tail] in Hu.
      change (length (frames (drop (S j) F))) with (size_from (S j)) in Hu.
      destruct (decide (length g = j)) as [Eg|Eg].
      * rewrite Eg, (size_from_S _ _ Hpre), length_app in Hu.
        destruct (F_lookup _ _ Hpre) as [(_ & _ & Hl)|[_ Hl]]; [rewrite length_app in Hl|].
        -- destruct rest; [done|]. simpl in *. lia.
        -- by apply app_eq_nil in Hl as [_ ->].
      * pose proof (size_from_le (S j) (length g)). lia.
  - apply parent_reads. auto.
  - destruct Hu as (r & _ & -> & Hr & _). destruct r; [done|]. apply parent_reads. eauto.
  - eexists. apply parent_post.
  - by destruct Hu.
Qed.

(** A child that waits for the parent is not forgotten. *)
Lemma waiting_step t p sp sc q g :
  (1 <= ic)%nat -> inv (State t CWait p sp sc q g) ->
  can_step (State t CWait p sp sc q g).
Proof using Hws.
  intros Hic [(j & Ht & Hc & E1 & E2) Hg Hu]. simpl in *. subst t.
  destruct (lookup_lt_is_Some_2 F j Hc) as [w Hw].
  destruct sc as [|sc]; [|rewrite (drop_S F w j Hw); eexists; apply child_wait].
  rewrite (drop_S F w j Hw) in *. simpl in Hu.
  pose proof (got_bound _ Hg) as Hgl. pose proof length_F as HF.
  destruct q as [| |n part| |]; simpl in *.
  - destruct sp; [lia|eexists; apply parent_wait].
  - destruct p as [|b p]; [exfalso|apply parent_reads; auto].
    apply (f_equal length) in Hu. simpl in Hu.
    pose proof (size_from_lt (length g) (S j) ltac:(lia) ltac:(lia)). unfold size_from in *. lia.
  - destruct Hu as (r & _ & -> & Hr & Hu).
    destruct p as [|b p];
      [exfalso|destruct r; [done|apply parent_reads; eauto]].
    apply (f_equal length) in Hu. rewrite !length_app in Hu.
    pose proof (size_from_le (S (length g)) (S j) ltac:(lia)).
    unfold size_from in *. destruct r; [done|]. simpl in *. lia.
  - eexists. apply parent_post.
  - lia.
Qed.

(** Once the child is done the parent reads on to the end. *)
Lemma done_step t p sp sc q g :
  inv (State t CDone p sp sc q g) -> q = PDone \/ can_step (State t CDone p sp sc q g).
Proof using Hws.
  intros [(j & Ht & Hc & E1 & E2) Hg Hu]. simpl in *. subst t. subst j.
  pose proof (got_bound _ Hg) as Hgl. pose proof length_F as HF. rewrite app_nil_r in Hu.
  destruct q as [| |n part| |]; simpl in *; [right..|auto].
  - destruct sp; [lia|eexists; apply parent_wait].
  - destruct p as [|b p]; [exfalso|apply parent_reads; auto].
    apply (f_equal length) in Hu. simpl in Hu.
    pose proof (size_from_lt (length g) (length F) ltac:(lia) ltac:(lia)).
    unfold size_from in *. lia.
  - destruct Hu as (r & _ & -> & Hr & Hu).
    destruct p as [|b p]; [by apply eq_sym, app_eq_nil in Hu as [-> _]|].
    destruct r; [done|]. apply parent_reads. eauto.
  - eexists. apply parent_post.
Qed.

Lemma progress s :
  (256 <= capacity)%nat -> (1 <= ic)%nat -> inv s -> finished s \/ can_step s.
Proof using Hws.
  intros Hcap Hic Hi. destruct s as [t c p sp sc q g].
  destruct c as [|rest| | |].
  - right. destruct (decide (length p < capacity)%nat); [|eapply full_pipe_step; eauto; lia].
    destruct Hi as [(j & Ht & Hc & _) _ _]. simpl in *. subst t.
    destruct (lookup_lt_is_Some_2 F j Hc) as [w Hw]. rewrite (drop_S F w j Hw).
    eexists. by apply child_len.
  - right. destruct (decide (length p < capacity)%nat); [|eapply full_pipe_step; eauto; lia].
    destruct Hi as [(j & Ht & [Hc _] & _) _ _]. simpl in *. destruct rest as [|b rest]; [done|].
    eexists. apply (child_body t [b] rest); [done|simpl; lia].
  - right. eexists. apply child_post.
  - right. by apply waiting_step.
  - destruct (done_step _ _ _ _ _ _ Hi) as [->|?]; [by left|by right].
Qed.

Lemma finished_got s : inv s -> finished s -> got s = ws.
Proof using Type.
  intros [_ Hg Hu] [Hc Hp]. rewrite Hp in Hu. destruct Hu as [El _].
  rewrite Hg, El. apply firstn_all.
Qed.
End Invariant.
End Protocol.

(** ** Without the parent: how far the child gets alone *)

Section Alone.
Context (capacity : nat).

Lemma alone_body t rest p sp sc q g :
  rest <> [] -> (length p + length rest <= capacity)%nat ->
  step capacity (State t (CBody rest) p sp sc q g) (State t CPost (p ++ rest) sp sc q g).
Proof.
  intros Hr Hp. pose proof (child_body capacity t rest [] p sp sc q g Hr Hp) as H.
  by rewrite app_nil_r in H.
Qed.

(** One word: two writes, a post and a wait. *)
Lemma alone_word w t p sp sc q g :
  (length p + S (length w) <= capacity)%nat ->
  run (step capacity) (State (w :: t) CLen p sp (S sc) q g)
    (State t (next_child t) (p ++ frame w) (S sp) sc q g).
Proof.
  intros Hp. eapply run_step; [apply child_len; lia|].
  assert (run (step capacity) (State (w :: t) CPost (p ++ frame w) sp (S sc) q g)
            (State t (next_child t) (p ++ frame w) (S sp) sc q g)) as Hr.
  { eapply run_step; [apply child_post|]. apply run_one, child_wait. }
  destruct w as [|b w]; [exact Hr|].
  eapply run_step; [apply alone_body; [done|rewrite length_app; simpl in *; lia]|].
  by rewrite <- app_assoc.
Qed.

Lemma alone_words t p sp sc q g :
  t <> [] -> (length t <= sc)%nat -> (length p + length (frames t) <= capacity)%nat ->
  run (step capacity) (State t CLen p sp sc q g)
    (State [] CDone (p ++ frames t) (sp + length t) (sc - length t) q g).
Proof.
  revert p sp sc. induction t as [|w t IH]; intros p sp sc Ht Hsc Hp; [done|].
  destruct sc as [|sc]; [simpl in Hsc; lia|].
  rewrite frames_cons, length_app, length_frame in Hp.
  eapply run_trans; [apply alone_word; lia|]. rewrite frames_cons, app_assoc. simpl.
  destruct t as [|v t].
  - simpl. rewrite app_nil_r, Nat.sub_0_r, Nat.add_1_r. apply run_refl.
  - rewrite Nat.add_succ_r, <- Nat.add_succ_l. apply IH; [done|simpl in *; lia|].
    rewrite length_app, length_frame. lia.
Qed.
End Alone.

(** ** Properties *)

(** Whatever the initial values of the semaphores and the interleaving, the
    parent has received a prefix of the words of the file. *)
Theorem received_is_prefix (capacity ip ic : nat) (ws : list (list byte)) (s : state) :
  Forall (fun w => (0 < length w <= 255)%nat) ws ->
  run (step capacity) (initial ip ic ws) s -> got s `prefix_of` ws.
Proof.
  intros Hws Hr. destruct (inv_reachable capacity ip ic ws Hws s Hr) as [_ Hg _].
  rewrite Hg. apply prefix_take.
Qed.

(** Two words, "hi" and "you". *)
Definition two_words : list (list byte) := [chars "hi"; chars "you"].

Lemma received_is_prefix_witness :
  got (State [chars "you"; []] CLen (frame (chars "hi")) 1 0 PWait []) `prefix_of` two_words.
Proof.
  apply (received_is_prefix 256 0 1 two_words); [repeat constructor; simpl; lia|].
  apply (alone_word 256 (chars "hi") [chars "you"; []] [] 0 0 PWait []). simpl. lia.
Defined.

(** C6: the two processes of [pipe/reliable] always come to an end: no run is
    longer than a bound, and a state in which neither can move is one where both
    have finished and the parent has every word, provided the pipe holds 256
    bytes (POSIX asks for 512). *)
Theorem reliable_terminates (capacity : nat) (ws : list (list byte)) :
  (256 <= capacity)%nat -> Forall (fun w => (0 < length w <= 255)%nat) ws ->
  let s0 := initial reliable_sem_parent reliable_sem_child ws in
  (forall n s, nrun (step capacity) n s0 s -> (n <= work s0)%nat) /\
  (forall s, run (step capacity) s0 s -> stuck (step capacity) s ->
     finished s /\ got s = ws).
Proof.
  intros Hcap Hws s0. split.
  - intros n s Hn.
    pose proof (nrun_bounded (step capacity) (fun _ => True) work n s0 s) as H.
    specialize (H ltac:(intros ? ? _ Hs; split; [done|by eapply step_work]) I Hn). lia.
  - intros s Hr Hs. pose proof (inv_reachable capacity _ _ ws Hws s Hr) as Hi.
    destruct (progress capacity _ _ ws Hws s Hcap ltac:(done) Hi) as [Hf|[s' Hs']];
      [|by destruct (Hs s')].
    split; [done|]. by eapply finished_got.
Qed.

Lemma reliable_terminates_witness :
  let s0 := initial reliable_sem_parent reliable_sem_child two_words in
  (forall n s, nrun (step 512) n s0 s -> (n <= work s0)%nat) /\
  (forall s, run (step 512) s0 s -> stuck (step 512) s -> finished s /\ got s = two_words).
Proof.
  apply (reliable_terminates 512 two_words); [lia|]. repeat constructor; simpl; lia.
Defined.

(** The words the child has been let past [sem_wait] for. *)
Definition released (ws : list (list byte)) (s : state) : nat :=
  (S (length ws) - length (todo s))%nat.

(** In [pipe/reliable] the child is released for a new word at most one word
    ahead of what the parent has printed, and it does get one word ahead: the
    first [sem_wait] takes the token [sem_child] starts with, so it does not
    "wait for parent to finish reading". *)
Theorem reliable_window (capacity : nat) (ws : list (list byte)) :
  Forall (fun w => (0 < length w <= 255)%nat) ws -> (256 <= capacity)%nat ->
  (forall s, run (step capacity) (initial reliable_sem_parent reliable_sem_child ws) s ->
     (released ws s <= S (length (got s)))%nat) /\
  (ws <> [] ->
   exists s, run (step capacity) (initial reliable_sem_parent reliable_sem_child ws) s /\
     cpc s = CLen /\ released ws s = 1%nat /\ got s = []).
Proof.
  intros Hws Hcap. split.
  - intros s Hr. destruct (inv_reachable capacity _ _ ws Hws s Hr) as [(j & Ht & Hc & _ & E) _ _].
    unfold released. rewrite Ht, length_drop, length_app. simpl in *.
    change reliable_sem_child with 1%nat in E. lia.
  - intros Hne. destruct ws as [|w ws]; [done|]. inversion_clear Hws as [|? ? Hw _].
    eexists. split; [apply (alone_word capacity w (ws ++ [[]]) []); simpl; lia|].
    simpl. split_and!; [by destruct ws| |done]. unfold released. simpl.
    rewrite length_app. simpl. lia.
Qed.

Lemma reliable_window_witness :
  exists s, run (step 256) (initial reliable_sem_parent reliable_sem_child two_words) s /\
     cpc s = CLen /\ released two_words s = 1%nat /\ got s = [].
Proof.
  refine (proj2 (reliable_window 256 two_words _ _) _); [|lia|done].
  repeat constructor; simpl; lia.
Defined.

(** The [sem_open] calls of [pipe/synchronized] have an argument too many:
    both semaphores start at 420, and the child can send a whole file of up to
    419 words before the parent has read any of it. *)
Theorem synchronized_is_not (capacity : nat) (ws : list (list byte)) :
  (S (length ws) <= 420)%nat -> (length (encode ws) <= capacity)%nat ->
  synchronized_sem_child = 420%nat /\
  exists s, run (step capacity) (initial synchronized_sem_parent synchronized_sem_child ws) s /\
    cpc s = CDone /\ got s = [] /\ pipe s = encode ws.
Proof.
  intros Hl Hcap. split; [vm_compute; reflexivity|].
  assert (frames (ws ++ [[]]) = encode ws) as E.
  { unfold frames, encode. by rewrite fmap_app, concat_app. }
  eexists. split.
  - unfold initial. apply (alone_words capacity (ws ++ [[]]) []); [by destruct ws| |].
    + rewrite length_app. simpl. change synchronized_sem_child with 420%nat. lia.
    + rewrite E. done.
  - simpl. by rewrite E.
Qed.

Lemma synchronized_is_not_witness :
  synchronized_sem_child = 420%nat /\
  exists s, run (step 512) (initial synchronized_sem_parent synchronized_sem_child two_words) s /\
    cpc s = CDone /\ got s = [] /\ pipe s = encode two_words.
Proof. apply (synchronized_is_not 512 two_words); simpl; lia. Defined.
