(* ===== verification/PipeRefinement.v ===== *)
(** * The programs of pipe/reliable keep to their protocol

    [PipeProtocol] is a transition system, [PipeReliable] of [PipeIO] are the
    functions of src/pipe/reliable/main.c.  Here the functions run inside the
    system: a kernel whose calls first let the other process take any steps of the
    protocol and then act on the pipe and the semaphores.  Beside any such partner
    the child and the parent take the steps of the protocol, each call one step, and
    come to an end. *)

From S2P Require Import Prelude CMonad CString Words PipeIO PipeProtocol.

(** ** How a process fails *)

(** The results by which a call says that it failed. *)
Definition call_fails (c : syscall) (r : sysret) : bool :=
  match c with
  | SWrite _ _ | SRead _ _ => r_val r <? 0
  | SClose _ | SFclose _ => negb (r_val r =? 0)
  | _ => r_val r =? -1
  end.

(** The last thing the process did: a call that failed, and a message. *)
Definition failed_call (t : list event) : Prop :=
  exists t0 c r msg e, t = t0 ++ [ESys c r; EPerror msg e] /\ call_fails c r = true.

(** Or it came to a word that is too long, and said so. *)
Definition refused_word (ws : list (list byte)) (t : list event) : Prop :=
  exists t0 w e, t = t0 ++ [EPerror too_long e] /\ w ∈ ws /\
    MAX_WORD_LENGTH < Z.of_nat (length w).

Lemma failed_call_intro t c r msg e :
  call_fails c r = true -> failed_call ((t ++ [ESys c r]) ++ [EPerror msg e]).
Proof. intros Hr. exists t, c, r, msg, e. by rewrite <- app_assoc. Qed.

(** ** The child beside a parent *)

(** The protocol's state without the child. *)
Record parent_side := ParentSide {
  p_pipe : list byte;
  p_sem_parent : nat;
  p_sem_child : nat;
  p_pc : parent_pc;
  p_got : list (list byte);
}.

Definition with_child (t : list (list byte)) (c : child_pc) (a : parent_side) : state :=
  State t c (p_pipe a) (p_sem_parent a) (p_sem_child a) (p_pc a) (p_got a).

(** The parent moves from [a] to [a'], wherever the child is. *)
Definition parent_moves (capacity : nat) (a a' : parent_side) : Prop :=
  forall t c, run (step capacity) (with_child t c a) (with_child t c a').

(** A kernel for the child whose partner is a parent that keeps to the protocol: a
    call fails or has its effect, after steps of the parent. *)
Class BesideParent (W : Type) `{Kernel W} (capacity : nat) (wfd : Z) := {
  around : W -> parent_side;
  around_write : forall w d r w', d <> [] -> kcall (SWrite wfd d) w = (r, w') ->
    exists a, parent_moves capacity (around w) a /\
      (r_val r = -1 /\ around w' = a \/
       exists b e, d = b ++ e /\ b <> [] /\ r_val r = Z.of_nat (length b) /\
         (length (p_pipe a) + length b <= capacity)%nat /\
         around w' = ParentSide (p_pipe a ++ b) (p_sem_parent a) (p_sem_child a) (p_pc a) (p_got a));
  around_post : forall w r w', kcall (SSemPost "/sem_parent") w = (r, w') ->
    exists a, parent_moves capacity (around w) a /\
      (r_val r = -1 /\ around w' = a \/
       r_val r <> -1 /\
       around w' = ParentSide (p_pipe a) (S (p_sem_parent a)) (p_sem_child a) (p_pc a) (p_got a));
  around_wait : forall w r w', kcall (SSemWait "/sem_child") w = (r, w') ->
    exists a, parent_moves capacity (around w) a /\
      (r_val r = -1 /\ around w' = a \/
       r_val r <> -1 /\ exists k, p_sem_child a = S k /\
         around w' = ParentSide (p_pipe a) (p_sem_parent a) k (p_pc a) (p_got a));
  around_close : forall fd w r w',
    kcall (SClose fd) w = (r, w') \/ kcall (SFclose fd) w = (r, w') ->
    parent_moves capacity (around w) (around w');
}.

Section ChildCode.
Context {W} `{Kernel W} (capacity : nat) (wfd : Z) `{!BesideParent W capacity wfd}.
Context (s0 : state) (ws : list (list byte)).
Implicit Types s : cstate W.

(** The child at [t], [c] and the world around it make a state of the protocol. *)
Definition child_at (t : list (list byte)) (c : child_pc) s : Prop :=
  run (step capacity) s0 (with_child t c (around (world s))).

(** How the child fails: after a call that failed or at a word that is too long, in
    a state of the protocol. *)
Definition child_failed (code : Z) s : Prop :=
  code = EXIT_FAILURE /\ (failed_call (trace s) \/ refused_word ws (trace s)) /\
  exists t c, child_at t c s.

(** [m] takes the child from one position to another, or fails between them. *)
Definition child_goes {A} (m : C W A) (t : list (list byte)) (c : child_pc)
    (t' : list (list byte)) (c' : child_pc) : Prop :=
  forall s, child_at t c s -> wp m (fun _ => child_at t' c') child_failed s.

Lemma child_goes_ret {A} (a : A) t c : child_goes (mret a) t c t c.
Proof. by intros s Hs. Qed.

Lemma child_goes_bind {A B} (m : C W A) (f : A -> C W B) t1 c1 t2 c2 t3 c3 :
  child_goes m t1 c1 t2 c2 -> (forall a, child_goes (f a) t2 c2 t3 c3) ->
  child_goes (m ≫= f) t1 c1 t3 c3.
Proof.
  intros Hm Hf s Hs. apply wp_bind. eapply wp_mono; [by apply Hm| |done].
  intros a s' Hs'. by apply Hf.
Qed.

Lemma child_goes_ext {A} (m m' : C W A) t c t' c' :
  (forall s, m s = m' s) -> child_goes m' t c t' c' -> child_goes m t c t' c'.
Proof. intros E Hm s Hs. unfold wp. rewrite E. by apply Hm. Qed.

Lemma child_goes_emit e t c : child_goes (emit e) t c t c.
Proof. by intros s Hs. Qed.

(** The failure of the call that was made last. *)
Lemma child_error {A} msg c0 r t c (Q : A -> cstate W -> Prop) e tr w :
  call_fails c0 r = true -> child_at t c (CState e (tr ++ [ESys c0 r]) w) ->
  wp (error_exit msg) Q child_failed (CState e (tr ++ [ESys c0 r]) w).
Proof.
  intros Hr Hs. unfold wp, error_exit. cstep.
  split_and!; [done|left; by apply failed_call_intro|by exists t, c].
Qed.

Lemma child_at_moves t c s a :
  child_at t c s -> parent_moves capacity (around (world s)) a ->
  run (step capacity) s0 (with_child t c a).
Proof using Type. intros Hs Ha. eapply run_trans; [exact Hs|apply Ha]. Qed.

Lemma close_step c0 t c :
  (exists fd, c0 = SClose fd \/ c0 = SFclose fd) ->
  forall s r w e, child_at t c s -> kcall c0 (world s) = (r, w) ->
  child_at t c (CState e (trace s ++ [ESys c0 r]) w).
Proof.
  intros [fd Hc] s r w e Hs Ek. unfold child_at. cbn [world].
  eapply child_at_moves; [exact Hs|]. eapply (around_close fd). destruct Hc as [-> | ->]; eauto.
Qed.

Lemma child_goes_close c0 t c :
  (exists fd, c0 = SClose fd \/ c0 = SFclose fd) -> child_goes (sys c0) t c t c.
Proof. intros Hc s Hs. apply wp_sys. intros r w e Ek. by apply close_step. Qed.

(** A checked call: [f] runs when it did not fail. *)
Lemma child_goes_sys {A} c0 (bad : sysret -> bool) msg (f : C W A) t c t1 c1 t' c' :
  (forall r, bad r = true -> call_fails c0 r = true) ->
  (forall s r w e, child_at t c s -> kcall c0 (world s) = (r, w) ->
     if bad r then child_at t c (CState e (trace s ++ [ESys c0 r]) w)
     else child_at t1 c1 (CState e (trace s ++ [ESys c0 r]) w)) ->
  child_goes f t1 c1 t' c' ->
  child_goes (r ← sys c0; die_when (bad r) msg;; f) t c t' c'.
Proof.
  intros Hbad Hc Hf s Hs. apply wp_bind, wp_sys. intros r w e Ek. specialize (Hc s r w e Hs Ek).
  apply wp_bind. unfold die_when. destruct (bad r) eqn:Eb.
  - apply (child_error msg c0 r t c); auto.
  - apply wp_ret. by apply Hf.
Qed.

(** *** The calls *)

Lemma post_step t :
  forall s r w e, child_at t CPost s -> kcall (SSemPost "/sem_parent") (world s) = (r, w) ->
  if r_val r =? -1 then child_at t CPost (CState e (trace s ++ [ESys (SSemPost "/sem_parent") r]) w)
  else child_at t CWait (CState e (trace s ++ [ESys (SSemPost "/sem_parent") r]) w).
Proof.
  intros s r w e Hs Ek. unfold child_at. cbn [world].
  destruct (around_post _ _ _ Ek) as (a & Ha & [[Hr ->]|[Hr ->]]).
  - rewrite (proj2 (Z.eqb_eq _ _)) by done. by eapply child_at_moves.
  - rewrite (proj2 (Z.eqb_neq _ _)) by done.
    eapply run_snoc; [by eapply child_at_moves|]. apply child_post.
Qed.

Lemma wait_step v t :
  forall s r w e, child_at (v :: t) CWait s -> kcall (SSemWait "/sem_child") (world s) = (r, w) ->
  if r_val r =? -1
  then child_at (v :: t) CWait (CState e (trace s ++ [ESys (SSemWait "/sem_child") r]) w)
  else child_at t (next_child t) (CState e (trace s ++ [ESys (SSemWait "/sem_child") r]) w).
Proof.
  intros s r w e Hs Ek. unfold child_at. cbn [world].
  destruct (around_wait _ _ _ Ek) as (a & Ha & [[Hr ->]|(Hr & k & Hk & ->)]).
  - rewrite (proj2 (Z.eqb_eq _ _)) by done. by eapply child_at_moves.
  - rewrite (proj2 (Z.eqb_neq _ _)) by done.
    eapply run_snoc; [by eapply child_at_moves|]. unfold with_child. cbn. rewrite Hk. apply child_wait.
Qed.

(** [write_fully] on what is left of a frame: [c] is the position with [d] left. *)
Lemma write_fully_goes (pc_of : list byte -> child_pc) t d :
  (forall a b e, e <> [] -> e `suffix_of` d -> e = a ++ b -> a <> [] ->
     forall p sp sc q g, (length p + length a <= capacity)%nat ->
     step capacity (State t (pc_of e) p sp sc q g) (State t (pc_of b) (p ++ a) sp sc q g)) ->
  child_goes (PipeReliable.write_fully wfd d) t (pc_of d) t (pc_of []).
Proof.
  intros Hstep. unfold PipeReliable.write_fully.
  assert (forall n d', d' `suffix_of` d -> (length d' < n)%nat ->
    child_goes (loop n (PipeReliable.write_turn wfd) d') t (pc_of d') t (pc_of [])) as Hl;
    [|by apply Hl; [|lia]].
  induction n as [|n IH]; intros d' Hd Hn; [lia|]. cbn [loop].
  destruct d' as [|b d']; [by intros s Hs|]. intros s Hs. apply wp_bind.
  unfold PipeReliable.write_turn. apply wp_bind, wp_sys. intros r w e Ek.
  destruct (around_write _ (b :: d') _ _ ltac:(done) Ek) as (a & Ha & [[Hr Hw]|Hw]).
  - rewrite Hr. apply wp_bind, (child_error _ _ _ t (pc_of (b :: d'))); [simpl; by rewrite Hr|].
    unfold child_at. cbn [world]. rewrite Hw. by eapply child_at_moves.
  - destruct Hw as (x & y & Exy & Hx & Hr & Hp & Hw). rewrite Hr.
    rewrite (proj2 (Z.ltb_ge _ 0)) by lia. apply wp_bind, wp_ret.
    rewrite (proj2 (Z.ltb_ge _ _)) by (rewrite Exy, length_app; lia).
    apply wp_ret. rewrite Nat2Z.id, Exy, drop_app_length. apply IH.
    + etrans; [|exact Hd]. rewrite Exy. by exists x.
    + apply (f_equal length) in Exy. rewrite length_app in Exy.
      destruct x; [done|]. simpl in *. lia.
    + unfold child_at. cbn [world]. rewrite Hw.
      eapply run_snoc; [by eapply child_at_moves|]. by apply Hstep with (e := b :: d').
Qed.

(** The length byte, and the characters. *)
Definition len_pc (w : list byte) (rest : list byte) : child_pc :=
  match rest with [] => match w with [] => CPost | _ => CBody w end | _ => CLen end.
Definition body_pc (rest : list byte) : child_pc :=
  match rest with [] => CPost | _ => CBody rest end.

Lemma write_length_goes w t :
  child_goes (PipeReliable.write_fully wfd [byte_of (Z.of_nat (length w))])
    (w :: t) CLen (w :: t) (match w with [] => CPost | _ => CBody w end).
Proof.
  apply (write_fully_goes (len_pc w)).
  intros a b e He [k Hk] -> Ha p sp sc q g Hp.
  assert (a = [byte_of (Z.of_nat (length w))] /\ b = []) as [-> ->].
  { destruct k as [|x k]; [|by destruct k, a]. destruct a as [|y a]; [done|].
    injection Hk as <- Hk. by destruct a, b. }
  simpl in Hp. apply child_len. lia.
Qed.

Lemma write_body_goes w t : w <> [] ->
  child_goes (PipeReliable.write_fully wfd w) t (CBody w) t CPost.
Proof.
  intros Hw. assert (body_pc w = CBody w) as <- by (by destruct w).
  apply (write_fully_goes body_pc). intros a b e He _ -> Ha p sp sc q g Hp.
  assert (body_pc (a ++ b) = CBody (a ++ b)) as -> by (by destruct a).
  by apply child_body.
Qed.

(** The post and the wait that end [send_word]. *)
Lemma handshake_goes v t :
  child_goes
    (r ← sys (SSemPost "/sem_parent");
     die_when (r_val r =? -1) "Semaphore post operation failed in child process";;
     r ← sys (SSemWait "/sem_child");
     die_when (r_val r =? -1) "Semaphore wait operation failed in child process" : C W unit)
    (v :: t) CPost t (next_child t).
Proof.
  apply (child_goes_sys _ (fun r => r_val r =? -1) _ _ _ _ (v :: t) CWait); [done|apply post_step|].
  intros s Hs. apply wp_bind, wp_sys. intros r w e Ek.
  pose proof (wait_step v t s r w e Hs Ek) as Hw. unfold die_when.
  destruct (r_val r =? -1) eqn:Er; [by eapply child_error|by apply wp_ret].
Qed.

Lemma send_one_goes w t : w <> [] ->
  child_goes (send_one (PipeReliable.send_word wfd) w) (w :: t) CLen t (next_child t).
Proof.
  intros Hw. unfold send_one, PipeReliable.send_word.
  eapply child_goes_bind; [apply child_goes_emit|intros _].
  eapply child_goes_bind; [apply write_length_goes|intros _].
  rewrite (proj2 (Z.ltb_lt _ _)) by (destruct w; simpl; [done|lia]).
  eapply child_goes_bind; [|intros _; apply handshake_goes].
  destruct w as [|b w]; [done|].
  eapply child_goes_ext; [intros s; by rewrite word_bytes_frame|]. by apply write_body_goes.
Qed.

Lemma send_end_goes t :
  child_goes (PipeReliable.send_word wfd None 0) ([] :: t) CLen t (next_child t).
Proof.
  unfold PipeReliable.send_word. eapply child_goes_bind; [apply child_goes_emit|intros _].
  eapply child_goes_bind; [apply (write_length_goes [])|intros _].
  eapply child_goes_bind; [apply child_goes_ret|intros _; apply handshake_goes].
Qed.

(** A word the protocol can carry, or one that the child refuses. *)
Definition sendable (size : nat) (w : list byte) : Prop :=
  storable size w \/ MAX_WORD_LENGTH < Z.of_nat (length w).

Lemma next_child_snoc (t : list (list byte)) w : next_child (t ++ [w]) = CLen.
Proof using Type. by destruct t. Qed.

Lemma words_go size l :
  Forall (fun w => w <> [] /\ sendable size w /\ w ∈ ws) l ->
  child_goes (for_each l (deliver size (send_one (PipeReliable.send_word wfd))))
    (l ++ [[]]) CLen [[]] CLen.
Proof.
  induction 1 as [|w l (Hne & Hw & Hin) _ IH]; cbn [for_each app]; [apply child_goes_ret|].
  destruct (Z.ltb_spec (Z.of_nat (length w)) (Z.of_nat size)) as [Hlt|Hge].
  - eapply child_goes_bind; [|intros _; exact IH].
    unfold deliver. rewrite (proj2 (Z.ltb_lt _ _)) by done.
    rewrite <- (next_child_snoc l []) at 2. by apply send_one_goes.
  - destruct Hw as [Hw|Hw]; [unfold storable in Hw; lia|].
    intros s Hs. apply wp_bind. unfold deliver.
    rewrite (proj2 (Z.ltb_ge _ _)), (proj2 (Z.leb_gt _ _)) by done. unfold wp, error_exit. cstep.
    split_and!; [done|right; by exists (trace s), w, (errno s)|by exists ((w :: l) ++ [[]]), CLen].
Qed.

Lemma child_process_goes size pipefd0 file_handle word file :
  (255 <= size <= 256)%nat -> length word = size -> ws = words file ->
  Forall (sendable size) (words file) ->
  child_goes (PipeReliable.child_process pipefd0 wfd file_handle word file)
    (words file ++ [[]]) CLen [] CDone.
Proof.
  intros Hs Hw Hws Hf. unfold PipeReliable.child_process, child_process.
  eapply child_goes_bind; [apply child_goes_close; eauto|intros _].
  eapply child_goes_bind.
  { eapply child_goes_ext.
    - intros s. apply (child_words_deliver size Hs _ (send_one (PipeReliable.send_word wfd)));
        [|done]. intros buf n s' Hn Hb. unfold send_one.
      rewrite length_take_le by lia. unfold PipeReliable.send_word.
      by rewrite (sending_line_ext buf n), (word_bytes_ext buf n).
    - apply words_go. rewrite Forall_forall in Hf |- *. intros v Hv.
      split_and!; [|by apply Hf|by rewrite Hws; apply list_elem_of_In].
      by apply (words_nonempty file), list_elem_of_In. }
  intros _. eapply child_goes_bind; [apply (send_end_goes [])|intros _].
  apply child_goes_sys with (t1 := []) (c1 := CDone); [done|..].
  { intros s r w e Hc Ek. destruct (negb _); (eapply close_step; [|exact Hc|exact Ek]); eauto. }
  intros s Hc. apply wp_bind, wp_sys. intros r w e Ek.
  assert (child_at [] CDone (CState e (trace s ++ [ESys (SClose wfd) r]) w)) as Hd
    by (eapply close_step; [|exact Hc|exact Ek]; eauto).
  unfold die_when. destruct (negb _) eqn:Er; [by eapply child_error|by apply wp_ret].
Qed.
End ChildCode.

(** ** The parent beside a child *)

(** The protocol's state without the parent. *)
Record child_side := ChildSide {
  c_todo : list (list byte);
  c_pc : child_pc;
  c_pipe : list byte;
  c_sem_parent : nat;
  c_sem_child : nat;
}.

Definition with_parent (q : parent_pc) (g : list (list byte)) (b : child_side) : state :=
  State (c_todo b) (c_pc b) (c_pipe b) (c_sem_parent b) (c_sem_child b) q g.

Definition child_moves (capacity : nat) (b b' : child_side) : Prop :=
  forall q g, run (step capacity) (with_parent q g b) (with_parent q g b').

(** A kernel for the parent whose partner is a child that keeps to the protocol. *)
Class BesideChild (W : Type) `{Kernel W} (capacity : nat) (rfd : Z) := {
  facing : W -> child_side;
  facing_read : forall w n r w', kcall (SRead rfd (S n)) w = (r, w') ->
    exists b, child_moves capacity (facing w) b /\
      (r_val r = -1 /\ facing w' = b \/
       exists x p, x <> [] /\ (length x <= S n)%nat /\ c_pipe b = x ++ p /\
         r_data r = x /\ r_val r = Z.of_nat (length x) /\
         facing w' = ChildSide (c_todo b) (c_pc b) p (c_sem_parent b) (c_sem_child b));
  facing_wait : forall w r w', kcall (SSemWait "/sem_parent") w = (r, w') ->
    exists b, child_moves capacity (facing w) b /\
      (r_val r = -1 /\ facing w' = b \/
       r_val r <> -1 /\ exists k, c_sem_parent b = S k /\
         facing w' = ChildSide (c_todo b) (c_pc b) (c_pipe b) k (c_sem_child b));
  facing_post : forall w r w', kcall (SSemPost "/sem_child") w = (r, w') ->
    exists b, child_moves capacity (facing w) b /\
      (r_val r = -1 /\ facing w' = b \/
       r_val r <> -1 /\
       facing w' = ChildSide (c_todo b) (c_pc b) (c_pipe b) (c_sem_parent b) (S (c_sem_child b)));
  facing_close : forall fd w r w', kcall (SClose fd) w = (r, w') ->
    child_moves capacity (facing w) (facing w');
}.

Section ParentCode.
Context {W} `{Kernel W} (capacity : nat) (rfd : Z) `{!BesideChild W capacity rfd}.
Context (ip ic : nat) (ws : list (list byte)).
Context (Hws : Forall (fun w => (0 < length w < 255)%nat) ws).
Implicit Types s : cstate W.

(** The parent at [q] with the words [g] and the world around it make a state of
    the protocol, and [told] are the words printed. *)
Definition parent_at (q : parent_pc) (g told : list (list byte)) s : Prop :=
  run (step capacity) (initial ip ic ws) (with_parent q g (facing (world s))) /\
  stdout_of (trace s) = received_text told.

Definition parent_failed (code : Z) s : Prop :=
  code = EXIT_FAILURE /\ failed_call (trace s) /\ exists q g, parent_at q g g s.

Lemma parent_inv q g told s :
  parent_at q g told s -> inv ip ic ws (with_parent q g (facing (world s))).
Proof using Hws.
  intros [Hr _]. eapply inv_reachable; [|exact Hr].
  eapply Forall_impl; [|exact Hws]. simpl. lia.
Qed.

Lemma parent_at_moves q g b s :
  parent_at q g g s -> child_moves capacity (facing (world s)) b ->
  run (step capacity) (initial ip ic ws) (with_parent q g b).
Proof using Type. intros [Hs _] Hb. eapply run_trans; [exact Hs|apply Hb]. Qed.

(** A call that did not print: the new place of the parent. *)
Lemma parent_at_call c0 q' g' told s r w e :
  stdout_of (trace s) = received_text told ->
  run (step capacity) (initial ip ic ws) (with_parent q' g' (facing w)) ->
  parent_at q' g' told (CState e (trace s ++ [ESys c0 r]) w).
Proof using Type.
  intros Ht Hr. split; [exact Hr|]. cbn [trace]. rewrite stdout_of_app, Ht. simpl.
  by rewrite string_app_nil_r.
Qed.

(** The failure of the call that was made last. *)
Lemma parent_error {A} msg c0 r q g (Q : A -> cstate W -> Prop) e tr w :
  call_fails c0 r = true -> parent_at q g g (CState e (tr ++ [ESys c0 r]) w) ->
  wp (error_exit msg) Q parent_failed (CState e (tr ++ [ESys c0 r]) w).
Proof using Type.
  intros Hc [Hr Ht]. unfold wp, error_exit. cstep.
  split_and!; [done|by apply failed_call_intro|]. exists q, g. split; [done|].
  cbn [trace] in Ht |- *. rewrite stdout_of_app, Ht. simpl. by rewrite string_app_nil_r.
Qed.

Lemma received_text_snoc g w : received_text (g ++ [w]) = received_text g +:+ PipeIO.received w.
Proof using Type.
  induction g as [|v g IH]; simpl; [by rewrite string_app_nil_r|]. by rewrite IH, string_app_assoc.
Qed.

(** *** The calls *)

Lemma parent_wait_at g s :
  parent_at PWait g g s ->
  wp (r ← sys (SSemWait "/sem_parent");
      die_when (r_val r =? -1) "Semaphore wait operation failed in parent process")
    (fun _ => parent_at PLen g g) parent_failed s.
Proof using Type.
  intros Hs. apply wp_bind, wp_sys. intros r w e Ek.
  destruct (facing_wait _ _ _ Ek) as (b & Hb & [[Hr Hw]|(Hr & k & Hk & Hw)]); unfold die_when.
  - rewrite (proj2 (Z.eqb_eq _ _)) by done. apply (parent_error _ _ _ PWait g); [simpl; by rewrite Hr|].
    eapply parent_at_call; [apply Hs|]. rewrite Hw. by eapply parent_at_moves.
  - rewrite (proj2 (Z.eqb_neq _ _)) by done. apply wp_ret.
    eapply parent_at_call; [apply Hs|]. rewrite Hw.
    eapply run_snoc; [by eapply parent_at_moves|]. unfold with_parent. cbn. rewrite Hk.
    apply parent_wait.
Qed.

Lemma parent_post_at g s :
  parent_at PPost g g s ->
  wp (r ← sys (SSemPost "/sem_child");
      die_when (r_val r =? -1) "Semaphore post operation failed in parent process")
    (fun _ => parent_at PWait g g) parent_failed s.
Proof using Type.
  intros Hs. apply wp_bind, wp_sys. intros r w e Ek.
  destruct (facing_post _ _ _ Ek) as (b & Hb & [[Hr Hw]|[Hr Hw]]); unfold die_when.
  - rewrite (proj2 (Z.eqb_eq _ _)) by done. apply (parent_error _ _ _ PPost g); [simpl; by rewrite Hr|].
    eapply parent_at_call; [apply Hs|]. rewrite Hw. by eapply parent_at_moves.
  - rewrite (proj2 (Z.eqb_neq _ _)) by done. apply wp_ret.
    eapply parent_at_call; [apply Hs|]. rewrite Hw.
    eapply run_snoc; [by eapply parent_at_moves|]. apply parent_post.
Qed.

(** [read_fully] for one byte at the length. *)
Lemma read_length_at g s :
  parent_at PLen g g s ->
  wp (PipeReliable.read_fully 2 rfd 1)
    (fun l s' => exists x, l = [x] /\
       parent_at (if byte_val x =? 0 then PDone else PBody (Z.to_nat (byte_val x)) []) g g s')
    parent_failed s.
Proof using Type.
  intros Hs. unfold PipeReliable.read_fully. cbn [loop]. apply wp_bind.
  unfold PipeReliable.read_turn. apply wp_bind, wp_sys. intros r w e Ek.
  destruct (facing_read _ _ _ _ Ek) as (b & Hb & [[Hr Hw]|(x & p & Hx & Hl & Hp & Hd & Hr & Hw)]).
  - rewrite Hr. apply wp_bind, (parent_error _ _ _ PLen g); [simpl; by rewrite Hr|].
    eapply parent_at_call; [apply Hs|]. rewrite Hw. by eapply parent_at_moves.
  - destruct x as [|x [|]]; [done| |simpl in Hl; lia]. rewrite Hr, Hd. simpl.
    apply wp_bind. unfold die_when. apply wp_ret. cbn.
    exists x. split; [done|].
    eapply (parent_at_call (SRead rfd 1)); [apply Hs|]. rewrite Hw.
    eapply run_snoc; [by eapply parent_at_moves|]. unfold with_parent. cbn. rewrite Hp.
    apply parent_len.
Qed.

(** [read_fully] for the [n] characters of a word. *)
Definition body_at (g : list (list byte)) (got : list byte) (n : nat) s : Prop :=
  match n with
  | O => parent_at PPost (g ++ [got]) g s
  | _ => parent_at (PBody n got) g g s
  end.

Lemma read_body_at fuel g n got s :
  (n < fuel)%nat -> body_at g got n s ->
  wp (loop fuel (PipeReliable.read_turn rfd) (got, n))
    (fun l s' => length l = (length got + n)%nat /\ parent_at PPost (g ++ [l]) g s') parent_failed s.
Proof using Type.
  revert n got s. induction fuel as [|fuel IH]; intros n got s Hf Hs; [lia|]. cbn [loop].
  apply wp_bind. destruct n as [|n]; [by rewrite Nat.add_0_r|].
  unfold PipeReliable.read_turn. apply wp_bind, wp_sys. intros r w e Ek.
  destruct (facing_read _ _ _ _ Ek) as (b & Hb & [[Hr Hw]|(x & p & Hx & Hl & Hp & Hd & Hr & Hw)]).
  - rewrite Hr. apply wp_bind, (parent_error _ _ _ (PBody (S n) got) g); [simpl; by rewrite Hr|].
    eapply parent_at_call; [apply Hs|]. rewrite Hw. by eapply parent_at_moves.
  - rewrite Hr, Hd, (proj2 (Z.ltb_ge (Z.of_nat (length x)) 0)) by lia. apply wp_bind, wp_ret.
    rewrite (proj2 (Z.ltb_ge _ _)) by lia. apply wp_ret. cbn beta iota. rewrite Nat2Z.id.
    assert (0 < length x)%nat by (destruct x; simpl; [done|lia]).
    replace (length got + S n)%nat with (length (got ++ x) + (S n - length x))%nat
      by (rewrite length_app; lia).
    apply IH; [lia|].
    assert (run (step capacity) (initial ip ic ws)
      (if (length x =? S n)%nat then with_parent PPost (g ++ [got ++ x]) (facing w)
       else with_parent (PBody (S n - length x) (got ++ x)) g (facing w))) as Hrun.
    { rewrite Hw. eapply run_snoc; [by eapply parent_at_moves|]. unfold with_parent. cbn. rewrite Hp.
      by apply (parent_body capacity). }
    unfold body_at. destruct (Nat.eqb_spec (length x) (S n)) as [El|El].
    + rewrite El, Nat.sub_diag. eapply parent_at_call; [apply Hs|done].
    + destruct (S n - length x)%nat as [|k] eqn:Ek'; [lia|].
      eapply parent_at_call; [apply Hs|done].
Qed.

(** A checked call and what comes after it. *)
Lemma wp_checked {A} c0 (bad : sysret -> bool) msg (f : C W A) (P : unit -> cstate W -> Prop) Q E s :
  wp (r ← sys c0; die_when (bad r) msg) P E s ->
  (forall s', P tt s' -> wp f Q E s') ->
  wp (r ← sys c0; die_when (bad r) msg;; f) Q E s.
Proof using Type.
  unfold wp, mbind, C_bind. destruct (sys c0 s) as [[r|c|u|] s1]; try done.
  destruct (die_when _ _ s1) as [[[]|c|u|] s2]; try done. intros HP Hf. by apply Hf.
Qed.

(** The length of the word that comes next. *)
Lemma next_length x g s :
  parent_at (if byte_val x =? 0 then PDone else PBody (Z.to_nat (byte_val x)) []) g g s ->
  byte_val x <> 0 -> (0 < Z.to_nat (byte_val x) < 255)%nat.
Proof using Hws.
  intros Hs Hx. rewrite (proj2 (Z.eqb_neq _ _)) in Hs by done.
  destruct (parent_inv _ _ _ _ Hs) as [_ _ (r & Hr & -> & Hne & _)].
  destruct (F_lookup ws) with (g := length g) (w := r) as [(Hlt & Hg & _)|[_ ->]].
  - eapply Forall_impl; [|exact Hws]. simpl. lia.
  - exact Hr.
  - rewrite Forall_lookup in Hws. by apply (Hws (length g)).
  - done.
Qed.

Definition turned (g : list (list byte)) (r : list byte + unit) s : Prop :=
  match r with
  | inl word => length word = 255%nat /\ exists w, parent_at PWait (g ++ [w]) (g ++ [w]) s
  | inr _ => parent_at PDone g g s
  end.

Lemma parent_turn_at word g s :
  length word = 255%nat -> parent_at PWait g g s ->
  wp (PipeReliable.parent_turn rfd word) (turned g) parent_failed s.
Proof using Hws.
  intros Hl Hs. unfold PipeReliable.parent_turn.
  eapply wp_checked; [by apply parent_wait_at|]. simpl. intros s1 Hs1.
  apply wp_bind. eapply wp_mono; [by apply read_length_at| |done].
  intros l s2 (x & -> & Hs2). cbn beta iota. pose proof (next_length x g s2 Hs2) as Hn.
  destruct (Z.eqb_spec (byte_val x) 0) as [E|E]; [by apply wp_ret|]. specialize (Hn E).
  apply wp_bind. eapply wp_mono.
  { unfold PipeReliable.read_fully. apply (read_body_at _ g); [lia|].
    destruct (Z.to_nat (byte_val x)) eqn:En; [lia|]. exact Hs2. }
  2: done.
  simpl. intros d s3 [Hd Hs3]. apply wp_bind.
  replace (byte_val x) with (Z.of_nat (length d)) by (pose proof (byte_val_range x); lia).
  unfold wp at 1. rewrite array_set_ok by (rewrite length_overwrite; lia).
  rewrite received_overwrite by lia. apply wp_bind, wp_emit.
  eapply wp_checked.
  - apply (parent_post_at (g ++ [d])). destruct Hs3 as [Hr Ht]. split; [exact Hr|].
    cbn [trace]. rewrite stdout_of_app, Ht, received_text_snoc. simpl. by rewrite string_app_nil_r.
  - intros s4 Hs4. apply wp_ret. split; [|by exists d].
    rewrite length_insert, length_overwrite; lia.
Qed.

Lemma got_at_most q g s : parent_at q g g s -> (length g <= length ws)%nat.
Proof using Hws. intros Hs. destruct (parent_inv _ _ _ _ Hs) as [_ Hg _]. by apply got_bound in Hg. Qed.

Lemma parent_loop_at fuel word g s :
  (length ws < fuel + length g)%nat -> length word = 255%nat -> parent_at PWait g g s ->
  wp (loop fuel (PipeReliable.parent_turn rfd) word) (fun _ s' => parent_at PDone ws ws s')
    parent_failed s.
Proof using Hws.
  revert word g s. induction fuel as [|fuel IH]; intros word g s Hf Hl Hs.
  { pose proof (got_at_most _ _ _ Hs). lia. }
  cbn [loop]. apply wp_bind. eapply wp_mono; [by apply (parent_turn_at word g)| |done].
  intros [word'|[]] s1; cbn [turned].
  - intros [Hl' [w Hs1]]. apply (IH word' (g ++ [w])); [rewrite length_app; simpl; lia|done|done].
  - intros Hs1. apply wp_ret. destruct (parent_inv _ _ _ _ Hs1) as [_ Hg [Hn _]]. simpl in Hg, Hn.
    rewrite Hn, firstn_all in Hg. by subst g.
Qed.

Lemma parent_close_at fd q s (Q : sysret -> cstate W -> Prop) E g :
  parent_at q g g s -> (forall r s', parent_at q g g s' -> Q r s') -> wp (sys (SClose fd)) Q E s.
Proof using Type.
  intros Hs HQ. apply wp_sys. intros r w e Ek. apply HQ.
  eapply parent_at_call; [apply Hs|]. eapply parent_at_moves; [exact Hs|].
  by eapply facing_close.
Qed.

Lemma parent_process_at fuel wfd word s :
  (length ws < fuel)%nat -> length word = 255%nat -> parent_at PWait [] [] s ->
  wp (PipeReliable.parent_process fuel rfd wfd word) (fun _ => parent_at PDone ws ws) parent_failed s.
Proof using Hws.
  intros Hf Hl Hs. unfold PipeReliable.parent_process.
  apply wp_bind. eapply parent_close_at; [exact Hs|]. intros _ s1 Hs1.
  apply wp_bind. eapply wp_mono; [apply (parent_loop_at _ _ []); [simpl; lia|done|exact Hs1]| |done].
  simpl. intros _ s2 Hs2. apply wp_bind, wp_sys. intros r w e Ek.
  assert (parent_at PDone ws ws (CState e (trace s2 ++ [ESys (SClose rfd) r]) w)) as Hs3.
  { eapply parent_at_call; [apply Hs2|]. eapply parent_at_moves; [exact Hs2|]. by eapply facing_close. }
  unfold die_when. destruct (negb _) eqn:Er; [by eapply parent_error|by apply wp_ret].
Qed.
End ParentCode.

(** ** Properties *)

(** C7: the child of [pipe/reliable] implements the protocol's child.  Beside any
    parent that keeps to the protocol, however the two are interleaved and however
    its writes are cut, [child_process] takes the steps of the protocol from its
    beginning: it comes to an end, and the position it ends in, with the pipe, the
    semaphores and the parent as they are then, is a reachable state of the protocol.
    When it returns that is the child's last position; it exits only with
    [EXIT_FAILURE], and only when its last call failed or when it came to a word of
    the file that is too long, with a message for either. *)
Theorem reliable_child_keeps_protocol {W} `{Kernel W} (capacity : nat)
    (pipefd0 pipefd1 file_handle : Z) `{!BesideParent W capacity pipefd1}
    (ip ic : nat) (word file : list byte) (w : W) :
  length word = 255%nat -> Forall (sendable 255) (words file) ->
  around w = ParentSide [] ip ic PWait [] ->
  wp (PipeReliable.child_process pipefd0 pipefd1 file_handle word file)
    (fun _ s => run (step capacity) (initial ip ic (words file))
                  (with_child [] CDone (around (world s))))
    (fun code s => code = EXIT_FAILURE /\
       (failed_call (trace s) \/ refused_word (words file) (trace s)) /\ exists t c,
       run (step capacity) (initial ip ic (words file)) (with_child t c (around (world s))))
    (start w).
Proof.
  intros Hl Hf Ha.
  apply (child_process_goes capacity pipefd1 (initial ip ic (words file)) (words file) 255);
    [lia|done..|]. unfold child_at. simpl. rewrite Ha. apply run_refl.
Qed.

(** C8: the parent of [pipe/reliable] implements the protocol's parent.  Beside any
    child that keeps to the protocol, [parent_process] takes the steps of the protocol
    and comes to an end.  It returns in the parent's last position, having printed
    every word of the file; it exits only with [EXIT_FAILURE] and only when its last
    call failed, with a message, in a reachable state, having printed the words
    received until then. *)
Theorem reliable_parent_keeps_protocol {W} `{Kernel W} (capacity : nat)
    (pipefd0 pipefd1 : Z) `{!BesideChild W capacity pipefd0}
    (ip ic fuel : nat) (ws : list (list byte)) (word : list byte) (w : W) :
  Forall (fun w => (0 < length w < 255)%nat) ws -> (length ws < fuel)%nat ->
  length word = 255%nat -> facing w = ChildSide (ws ++ [[]]) CLen [] ip ic ->
  wp (PipeReliable.parent_process fuel pipefd0 pipefd1 word)
    (fun _ s => run (step capacity) (initial ip ic ws) (with_parent PDone ws (facing (world s))) /\
       stdout_of (trace s) = received_text ws)
    (fun code s => code = EXIT_FAILURE /\ failed_call (trace s) /\ exists q g,
       run (step capacity) (initial ip ic ws) (with_parent q g (facing (world s))) /\
       stdout_of (trace s) = received_text g)
    (start w).
Proof.
  intros Hws Hf Hl Hw. apply (parent_process_at capacity pipefd0 ip ic ws Hws); [done|done|].
  split; [|done]. simpl. rewrite Hw. apply run_refl.
Qed.

(** *** A partner that does what it can before every call *)

Definition room : nat := 256.

Definition parent_move (a : parent_side) : parent_side :=
  let '(ParentSide p sp sc q g) := a in
  match q with
  | PWait => match sp with S k => ParentSide p k sc PLen g | O => a end
  | PLen =>
      match p with
      | b :: p => ParentSide p sp sc
          (if byte_val b =? 0 then PDone else PBody (Z.to_nat (byte_val b)) []) g
      | [] => a
      end
  | PBody n part =>
      match n, p with
      | S m, b :: p => if (m =? 0)%nat then ParentSide p sp sc PPost (g ++ [part ++ [b]])
                       else ParentSide p sp sc (PBody m (part ++ [b])) g
      | _, _ => a
      end
  | PPost => ParentSide p sp (S sc) PWait g
  | PDone => a
  end.

Definition child_move (b : child_side) : child_side :=
  let '(ChildSide t c p sp sc) := b in
  match c with
  | CLen =>
      match t with
      | w :: ws =>
          if (length p <? room)%nat then
            ChildSide t (match w with [] => CPost | _ => CBody w end)
              (p ++ [byte_of (Z.of_nat (length w))]) sp sc
          else b
      | [] => b
      end
  | CBody (x :: rest) =>
      if (length p <? room)%nat then
        ChildSide t (match rest with [] => CPost | _ => CBody rest end) (p ++ [x]) sp sc
      else b
  | CPost => ChildSide t CWait p (S sp) sc
  | CWait =>
      match t, sc with w :: ws, S k => ChildSide ws (next_child ws) p sp k | _, _ => b end
  | _ => b
  end.

Lemma parent_move_moves a : parent_moves room a (parent_move a).
Proof.
  intros t c. destruct a as [p sp sc [| |[|m] part| |] g]; simpl; try apply run_refl.
  - destruct sp; [apply run_refl|]. apply run_one, parent_wait.
  - destruct p; [apply run_refl|]. apply run_one, parent_len.
  - destruct p as [|b p]; [apply run_refl|]. apply run_one.
    pose proof (parent_body room t c [b] p sp sc (S m) part g ltac:(done) ltac:(simpl; lia)) as Hb.
    simpl in Hb. rewrite Nat.sub_0_r in Hb. by destruct m.
  - apply run_one, parent_post.
Qed.

Lemma child_move_moves b : child_moves room b (child_move b).
Proof.
  intros q g. destruct b as [t c p sp sc]. destruct c as [|[|x rest]| | |]; simpl; try apply run_refl.
  - destruct t as [|w ws]; [apply run_refl|]. destruct (Nat.ltb_spec (length p) room); [|apply run_refl].
    by apply run_one, child_len.
  - destruct (Nat.ltb_spec (length p) room); [|apply run_refl].
    apply run_one, (child_body room t [x] rest); [done|simpl; lia].
  - apply run_one, child_post.
  - destruct t as [|w ws]; [apply run_refl|]. destruct sc; [apply run_refl|]. apply run_one, child_wait.
Qed.

Lemma parent_moves_iter n a : parent_moves room a (Nat.iter n parent_move a).
Proof.
  intros t c. induction n as [|n IH]; simpl; [apply run_refl|].
  eapply run_trans; [exact IH|apply parent_move_moves].
Qed.

Lemma child_moves_iter n b : child_moves room b (Nat.iter n child_move b).
Proof.
  intros q g. induction n as [|n IH]; simpl; [apply run_refl|].
  eapply run_trans; [exact IH|apply child_move_moves].
Qed.

(** The worlds: writes take two bytes at most, reads give one. *)
Record busy_parent := BusyParent { bp_side : parent_side }.
#[export] Instance busy_parent_kernel : Kernel busy_parent := fun c w =>
  let a := Nat.iter 9 parent_move (bp_side w) in
  let '(ParentSide p sp sc q g) := a in
  match c with
  | SWrite _ d =>
      let x := take (Nat.min 2 (room - length p)) d in
      match x with
      | [] => (sys_fail EIO, BusyParent a)
      | _ => (sys_ok (Z.of_nat (length x)), BusyParent (ParentSide (p ++ x) sp sc q g))
      end
  | SSemPost _ => (sys_ok 0, BusyParent (ParentSide p (S sp) sc q g))
  | SSemWait _ =>
      match sc with
      | S k => (sys_ok 0, BusyParent (ParentSide p sp k q g))
      | O => (sys_fail EINTR, BusyParent a)
      end
  | _ => (sys_ok 0, BusyParent a)
  end.

Record busy_child := BusyChild { bc_side : child_side }.
#[export] Instance busy_child_kernel : Kernel busy_child := fun c w =>
  let b := Nat.iter 9 child_move (bc_side w) in
  let '(ChildSide t pc p sp sc) := b in
  match c with
  | SRead _ _ =>
      match p with
      | [] => (sys_fail EIO, BusyChild b)
      | x :: p => (sys_data 1 [x], BusyChild (ChildSide t pc p sp sc))
      end
  | SSemPost _ => (sys_ok 0, BusyChild (ChildSide t pc p sp (S sc)))
  | SSemWait _ =>
      match sp with
      | S k => (sys_ok 0, BusyChild (ChildSide t pc p k sc))
      | O => (sys_fail EINTR, BusyChild b)
      end
  | _ => (sys_ok 0, BusyChild b)
  end.

#[export] Instance busy_beside_parent fd : BesideParent busy_parent room fd.
Proof.
  split with (around := bp_side); intros *; unfold kcall, busy_parent_kernel;
    pose proof (parent_moves_iter 9 (bp_side w)) as Hm;
    destruct (Nat.iter 9 parent_move (bp_side w)) as [p sp sc q g].
  - intros Hd E. eexists. split; [exact Hm|].
    destruct (take (Nat.min 2 (room - length p)) d) as [|x xs] eqn:Et;
      injection E as <- <-; [by left|]. right.
    exists (x :: xs), (drop (Nat.min 2 (room - length p)) d). split_and!; [|done|done| |done].
    + by rewrite <- Et, take_drop.
    + cbn [p_pipe]. apply (f_equal length) in Et. rewrite length_take in Et.
      cbn [length] in *. lia.
  - intros E. injection E as <- <-. eexists. split; [exact Hm|]. right. by split.
  - intros E. eexists. split; [exact Hm|]. destruct sc as [|k]; injection E as <- <-; [by left|].
    right. split; [done|]. by exists k.
  - intros [E|E]; injection E as _ <-; exact Hm.
Defined.

#[export] Instance busy_beside_child fd : BesideChild busy_child room fd.
Proof.
  split with (facing := bc_side); intros *; unfold kcall, busy_child_kernel;
    pose proof (child_moves_iter 9 (bc_side w)) as Hm;
    destruct (Nat.iter 9 child_move (bc_side w)) as [t c p sp sc].
  - intros E. eexists. split; [exact Hm|]. destruct p as [|x p]; injection E as <- <-; [by left|].
    right. exists [x], p. split_and!; [done|simpl; lia|done..].
  - intros E. eexists. split; [exact Hm|]. destruct sp as [|k]; injection E as <- <-; [by left|].
    right. split; [done|]. by exists k.
  - intros E. injection E as <- <-. eexists. split; [exact Hm|]. right. by split.
  - intros E. injection E as _ <-. exact Hm.
Defined.

Definition beside_parent_start : busy_parent :=
  BusyParent (ParentSide [] reliable_sem_parent reliable_sem_child PWait []).
Definition child_run : outcome unit * cstate busy_parent :=
  PipeReliable.child_process 3 4 5 (fresh 255) sample_text (start beside_parent_start).

Lemma reliable_child_keeps_protocol_witness :
  fst child_run = Val tt /\
  run (step room) (initial reliable_sem_parent reliable_sem_child (words sample_text))
    (with_child [] CDone (bp_side (world (snd child_run)))) /\
  p_got (bp_side (world (snd child_run))) = words sample_text.
Proof.
  assert (PipeReliable.child_process 3 4 5 (fresh 255) sample_text (start beside_parent_start) =
    (Val tt, snd child_run)) as Hrun by (vm_compute; reflexivity).
  split_and!; [by vm_compute| |by vm_compute].
  refine (wp_run _ _ _ _ _ _ (reliable_child_keeps_protocol room 3 4 5 reliable_sem_parent
    reliable_sem_child (fresh 255) sample_text beside_parent_start eq_refl _ eq_refl) Hrun).
  repeat constructor; unfold storable; simpl; lia.
Defined.

Definition beside_child_start : busy_child :=
  BusyChild (ChildSide (two_words ++ [[]]) CLen [] reliable_sem_parent reliable_sem_child).
Definition parent_run : outcome unit * cstate busy_child :=
  PipeReliable.parent_process 5 3 4 (fresh 255) (start beside_child_start).

Lemma reliable_parent_keeps_protocol_witness :
  fst parent_run = Val tt /\
  stdout_of (trace (snd parent_run)) = received_text two_words /\
  c_pc (bc_side (world (snd parent_run))) = CDone.
Proof.
  assert (PipeReliable.parent_process 5 3 4 (fresh 255) (start beside_child_start) =
    (Val tt, snd parent_run)) as Hrun by (vm_compute; reflexivity).
  split_and!; [by vm_compute| |by vm_compute].
  refine (proj2 (wp_run _ _ _ _ _ _ (reliable_parent_keeps_protocol room 3 4 reliable_sem_parent
    reliable_sem_child 5 two_words (fresh 255) beside_child_start _ _ eq_refl eq_refl) Hrun)).
  - repeat constructor; simpl; lia.
  - simpl. lia.
Defined.
