(* ===== verification/ShmProtocol.v ===== *)
(** * Words through shared memory

    [src/shared-memory/mmap-munmap]: the client copies each word into the
    mapping, posts [client_sem] and waits on [server_sem]; the server waits on
    [client_sem], prints the string and posts [server_sem].  An empty string
    ends the conversation.  The two processes are a transition system over the
    shared bytes and the two semaphores; a step is one statement of the code. *)

From S2P Require Import Prelude CString Words.

(** ** The size of the mapping *)

Module ShmSize.
Definition SHM_SIZE : Z := 1024.

(** [shm_size = (SHM_SIZE + page_size - 1) & ~(page_size - 1)] on [size_t]. *)
Definition client_size (page_size : Z) : Z :=
  Z.land (to_unsigned 64 (SHM_SIZE + page_size - 1))
         (to_unsigned 64 (Z.lnot (to_unsigned 64 (page_size - 1)))).

(** The server adds [page_size - (shm_size % page_size)] to that. *)
Definition server_size (page_size : Z) : Z :=
  let shm_size := client_size page_size in
  to_unsigned 64 (shm_size + (page_size - shm_size mod page_size)).
End ShmSize.

(** ** The processes *)

(** The client: before [strncpy], before [shm_ptr[len] = '\0'], before
    [sem_post(client_sem)], before [sem_wait(server_sem)], past its last wait. *)
Inductive client_pc := KCopy | KTerm | KPost | KWait | KDone.

(** The server: before [sem_wait(client_sem)], before [strcmp(shm_ptr, "")],
    before [printf], before [sem_post(server_sem)], before the [sem_post] of
    the end, before its own [sem_wait(server_sem)], past it. *)
Inductive server_pc := SWait | SCheck | SPrint | SPost | SEndPost | SEndWait | SDone.

Record shm_state := ShmState {
  to_send : list (list byte);     (* the current word first *)
  kpc : client_pc;
  shm : list byte;
  client_sem : nat;
  server_sem : nat;
  spc : server_pc;
  printed : list (list byte);
}.

(** Where the client starts on a word: nothing is copied for the empty one. *)
Definition client_start (ws : list (list byte)) : client_pc :=
  match ws with [] => KDone | [] :: _ => KTerm | _ => KCopy end.

Inductive shm_step : shm_state -> shm_state -> Prop :=
| client_copy w ws m cs ss q o :
    shm_step (ShmState (w :: ws) KCopy m cs ss q o)
             (ShmState (w :: ws) KTerm (overwrite w m) cs ss q o)
| client_term w ws m cs ss q o :
    shm_step (ShmState (w :: ws) KTerm m cs ss q o)
             (ShmState (w :: ws) KPost (<[length w := NUL]> m) cs ss q o)
| client_post ws m cs ss q o :
    shm_step (ShmState ws KPost m cs ss q o) (ShmState ws KWait m (S cs) ss q o)
| client_wait w ws m cs ss q o :
    shm_step (ShmState (w :: ws) KWait m cs (S ss) q o)
             (ShmState ws (client_start ws) m cs ss q o)
| server_wait ws c m cs ss o :
    shm_step (ShmState ws c m (S cs) ss SWait o) (ShmState ws c m cs ss SCheck o)
| server_check ws c m cs ss o :
    shm_step (ShmState ws c m cs ss SCheck o)
             (ShmState ws c m cs ss (if decide (cstring m = []) then SEndPost else SPrint) o)
| server_print ws c m cs ss o :
    shm_step (ShmState ws c m cs ss SPrint o)
             (ShmState ws c m cs ss SPost (o ++ [cstring m]))
| server_post ws c m cs ss o :
    shm_step (ShmState ws c m cs ss SPost o) (ShmState ws c m cs (S ss) SWait o)
| server_end_post ws c m cs ss o :
    shm_step (ShmState ws c m cs ss SEndPost o) (ShmState ws c m cs (S ss) SEndWait o)
| server_end_wait ws c m cs ss o :
    shm_step (ShmState ws c m cs (S ss) SEndWait o) (ShmState ws c m cs ss SDone o).

(** [sem_open(name, O_CREAT, mode, 0)] for both; the mapping holds [m]. *)
Definition shm_initial (m : list byte) (ws : list (list byte)) : shm_state :=
  ShmState (ws ++ [[]]) (client_start (ws ++ [[]])) m 0 0 SWait [].

(** ** The invariant: one token at a time *)

Section ShmInvariant.
Context (ws : list (list byte)) (size : nat).
(** What [strtok_r] gives for a buffer of 100 bytes: not empty, no NUL. *)
Context (Hws : Forall (fun w => (w <> []) /\ (NUL ∉ w) /\ (length w < size)%nat) ws).
Context (Hsize : (0 < size)%nat).

Let F : list (list byte) := ws ++ [[]].

(** The server's part, while the client waits with word number [j] posted. *)
Definition server_ok (j : nat) (cs ss : nat) (q : server_pc) (o : list (list byte)) : Prop :=
  match q with
  | SWait => (cs = 1 /\ ss = 0 /\ o = take j ws)%nat \/
             (cs = 0 /\ ss = 1 /\ o = take (S j) ws /\ j < length ws)%nat
  | SCheck => (cs = 0 /\ ss = 0)%nat /\ o = take j ws
  | SPrint => (cs = 0 /\ ss = 0 /\ j < length ws)%nat /\ o = take j ws
  | SPost => (cs = 0 /\ ss = 0 /\ j < length ws)%nat /\ o = take (S j) ws
  | SEndPost => (cs = 0 /\ ss = 0 /\ j = length ws)%nat /\ o = ws
  | SEndWait => (cs = 0 /\ ss = 1 /\ j = length ws)%nat /\ o = ws
  | SDone => (cs = 0 /\ ss = 0 /\ j = length ws)%nat /\ o = ws
  end.

(** The client alone touches the memory until it has posted. *)
Definition alone_ok (j : nat) (cs ss : nat) (q : server_pc) (o : list (list byte)) : Prop :=
  (cs = 0 /\ ss = 0)%nat /\ q = SWait /\ o = take j ws.

Definition shm_inv (s : shm_state) : Prop :=
  length (shm s) = size /\
  match kpc s with
  | KDone => (client_sem s = 0 /\ server_sem s = 0)%nat /\ spc s = SEndWait /\ printed s = ws
  | c => exists j w, to_send s = drop j F /\ F !! j = Some w /\
      match c with
      | KCopy => w <> [] /\ alone_ok j (client_sem s) (server_sem s) (spc s) (printed s)
      | KTerm => take (length w) (shm s) = w /\
          alone_ok j (client_sem s) (server_sem s) (spc s) (printed s)
      | KPost => cstring (shm s) = w /\
          alone_ok j (client_sem s) (server_sem s) (spc s) (printed s)
      | _ => cstring (shm s) = w /\
          server_ok j (client_sem s) (server_sem s) (spc s) (printed s)
      end
  end.

Lemma words_lookup (j : nat) (w : list byte) : F !! j = Some w ->
  ((w <> []) /\ (NUL ∉ w) /\ (length w < size)%nat /\ ws !! j = Some w /\ (j < length ws)%nat) \/
  (w = [] /\ j = length ws).
Proof using Hsize Hws.
  unfold F. intros Hj. destruct (decide (j < length ws)%nat) as [Hlt|Hge].
  - left. rewrite lookup_app_l in Hj by done.
    destruct (proj1 (Forall_lookup _ _) Hws _ _ Hj) as (? & ? & ?). auto.
  - right. pose proof (lookup_lt_Some _ _ _ Hj) as Hl. rewrite length_app in Hl. simpl in Hl.
    assert (j = length ws) as -> by lia. rewrite lookup_snoc in Hj. by simplify_eq.
Qed.

Lemma cstring_terminated (w m : list byte) :
  NUL ∉ w -> (length w < length m)%nat -> take (length w) m = w ->
  cstring (<[length w := NUL]> m) = w.
Proof using Hsize Hws.
  intros Hn Hl Ht. rewrite insert_take_drop by done. rewrite Ht.
  by apply cstring_app_nul.
Qed.

(** The client's first step on word number [j]. *)
Lemma start_ok (j : nat) (m : list byte) :
  (j <= length ws)%nat -> length m = size ->
  shm_inv (ShmState (drop j F) (client_start (drop j F)) m 0 0 SWait (take j ws)).
Proof using Hsize Hws.
  intros Hj Hm. split; [done|].
  assert (exists w, F !! j = Some w) as [w Hw].
  { apply lookup_lt_is_Some_2. unfold F. rewrite length_app. simpl. lia. }
  simpl. rewrite (drop_S F w j Hw). destruct w as [|b w]; simpl.
  - exists j, []. by rewrite (drop_S F [] j Hw).
  - exists j, (b :: w). by rewrite (drop_S F (b :: w) j Hw).
Qed.

Lemma shm_inv_initial m : length m = size -> shm_inv (shm_initial m ws).
Proof using Hsize Hws. intros Hm. apply (start_ok 0); [lia|done]. Qed.

Lemma to_send_head w l j w' : w :: l = drop j F -> F !! j = Some w' -> w' = w /\ l = drop (S j) F.
Proof using Hsize Hws. intros E Hj. rewrite (drop_S F w' j Hj) in E. by simplify_eq. Qed.

(** The server runs only while the client waits. *)
Lemma server_active s :
  shm_inv s ->
  match spc s with
  | SWait => (0 < client_sem s)%nat
  | SEndWait => (0 < server_sem s)%nat
  | _ => True
  end -> kpc s = KWait.
Proof using Hsize Hws.
  intros [_ Hi] Hq. destruct s as [t c m cs ss q o]. simpl in *.
  destruct c; [..|done|].
  1-3: destruct Hi as (j & w & _ & _ & _ & (-> & ->) & -> & _); simpl in Hq; lia.
  destruct Hi as ((-> & ->) & -> & _). lia.
Qed.

Lemma shm_inv_step s s' : shm_inv s -> shm_step s s' -> shm_inv s'.
Proof using Hws Hsize.
  intros Hi0 Hs. pose proof (server_active _ Hi0) as Hact. destruct Hi0 as [Hm Hi].
  destruct Hs; simpl in *.
  - destruct Hi as (j & w' & Et & Hj & Hne & Ha). destruct (to_send_head _ _ _ _ Et Hj) as [-> _].
    destruct (words_lookup j w Hj) as [(_ & _ & Hl & _)|[? _]]; [|done].
    split; [simpl; by rewrite length_overwrite by lia|]. exists j, w.
    split_and!; try done. unfold overwrite. simpl. apply take_app_length.
  - destruct Hi as (j & w' & Et & Hj & Ht & Ha). destruct (to_send_head _ _ _ _ Et Hj) as [-> _].
    split; [simpl; by rewrite length_insert|]. exists j, w. split_and!; try done. simpl.
    destruct (words_lookup j w Hj) as [(_ & Hn & Hl & _)|[-> _]];
      apply cstring_terminated; try done; simpl; [lia|apply not_elem_of_nil|lia].
  - destruct Hi as (j & w' & Et & Hj & Hc & (-> & ->) & -> & ->).
    split; [done|]. exists j. eexists. simpl. eauto 12.
  - destruct Hi as (j & w' & Et & Hj & Hc & Hq). destruct (to_send_head _ _ _ _ Et Hj) as [-> ->].
    destruct q; simpl in Hq; destruct_and?; simplify_eq; try lia.
    + destruct Hq as [(_ & ? & _)|(-> & ? & -> & Hlt)]; simplify_eq.
      by apply start_ok; [lia|].
    + split; [done|]. simpl. rewrite drop_ge by (unfold F; rewrite length_app; simpl; lia). done.
  - assert (c = KWait) as -> by (apply Hact; lia).
    destruct Hi as (j & w' & Et & Hj & Hc & [(? & -> & ->)|(? & _)]); simplify_eq.
    split; [done|]. exists j. eexists. simpl. eauto 12.
  - assert (c = KWait) as -> by by apply Hact.
    destruct Hi as (j & w' & Et & Hj & <- & [-> ->] & ->).
    split; [done|]. exists j, (cstring m). simpl. split_and!; try done.
    destruct (words_lookup j _ Hj) as [(Hne & _ & _ & _ & Hlt)|[E ->]]; case_decide; try done.
    split; [done|]. apply firstn_all.
  - assert (c = KWait) as -> by by apply Hact.
    destruct Hi as (j & w' & Et & Hj & <- & (-> & -> & Hlt) & ->).
    split; [done|]. exists j, (cstring m). simpl. split_and!; try done.
    destruct (words_lookup j _ Hj) as [(_ & _ & _ & Hw & _)|[_ ?]]; [|lia].
    by rewrite (take_S_r _ _ _ Hw).
  - assert (c = KWait) as -> by by apply Hact.
    destruct Hi as (j & w' & Et & Hj & Hc & (-> & -> & Hlt) & ->).
    split; [done|]. exists j. eexists. simpl. eauto 12.
  - assert (c = KWait) as -> by by apply Hact.
    destruct Hi as (j & w' & Et & Hj & Hc & (-> & -> & ->) & ->).
    split; [done|]. exists (length ws). eexists. simpl. eauto 12.
  - assert (c = KWait) as -> by (apply Hact; lia).
    destruct Hi as (j & w' & Et & Hj & Hc & (-> & ? & ->) & ->). simplify_eq.
    split; [done|]. exists (length ws). eexists. simpl. eauto 12.
Qed.
End ShmInvariant.

(** ** The length of a run, and where it stops *)

Definition client_work (t : list (list byte)) (c : client_pc) : nat :=
  match c with
  | KCopy => 8 * length t + 8
  | KTerm => 8 * length t + 7
  | KPost => 8 * length t + 6
  | KWait => 8 * length t + 1
  | KDone => 0
  end.

Definition server_work (q : server_pc) : nat :=
  match q with
  | SCheck => 3 | SPrint => 2 | SPost => 1 | SEndPost => 2 | SEndWait => 1
  | SWait | SDone => 0
  end.

Definition shm_work (s : shm_state) : nat :=
  client_work (to_send s) (kpc s) + 4 * client_sem s + server_work (spc s).

Lemma shm_step_work s s' : shm_step s s' -> (shm_work s' < shm_work s)%nat.
Proof.
  intros Hs. destruct Hs; unfold shm_work; simpl; try lia.
  - destruct ws as [|[|? ?] ?]; simpl; lia.
  - case_decide; simpl; lia.
Qed.

(** The client has finished and the server waits for a token that nobody will
    post, or the other way round. *)
Definition client_out (s : shm_state) : Prop :=
  kpc s = KDone /\ spc s = SEndWait /\ server_sem s = O.
Definition server_out (s : shm_state) : Prop :=
  kpc s = KWait /\ spc s = SDone /\ server_sem s = O.

Section Outcome.
Context (ws : list (list byte)) (size : nat).
Context (Hws : Forall (fun w => (w <> []) /\ (NUL ∉ w) /\ (length w < size)%nat) ws).
Context (Hsize : (0 < size)%nat).

Lemma shm_reachable m s :
  length m = size -> run shm_step (shm_initial m ws) s -> shm_inv ws size s.
Proof using Hws Hsize.
  intros Hm. apply run_invariant;
    [intros; by eapply shm_inv_step|by apply shm_inv_initial].
Qed.

(** What is printed, anywhere and at the end. *)
Lemma inv_printed s : shm_inv ws size s -> printed s `prefix_of` ws.
Proof using Type.
  intros [_ Hi]. destruct s as [t c m cs ss q o]. simpl in *. destruct c.
  1-3: destruct Hi as (j & w & _ & _ & _ & _ & _ & ->); apply prefix_take.
  - destruct Hi as (j & w & _ & _ & _ & Hq).
    destruct q; simpl in Hq; destruct_and?; destruct_or?; destruct_and?; subst;
      first [apply prefix_take|done].
  - by destruct Hi as (_ & _ & ->).
Qed.

Lemma inv_printed_all s : shm_inv ws size s -> spc s = SEndWait -> printed s = ws.
Proof using Type.
  intros [_ Hi] Hq. destruct s as [t c m cs ss q o]. simpl in *. subst q. destruct c.
  1-3: by destruct Hi as (j & w & _ & _ & _ & _ & ? & _).
  - by destruct Hi as (j & w & _ & _ & _ & _ & ->).
  - by destruct Hi as (_ & _ & ->).
Qed.

(** A state that cannot move. *)
Lemma shm_stuck s :
  shm_inv ws size s -> stuck shm_step s -> printed s = ws /\ (client_out s \/ server_out s).
Proof using Hws Hsize.
  intros [Hm Hi] Hs. destruct s as [t c m cs ss q o]. simpl in *.
  destruct c.
  - destruct Hi as (j & w & -> & Hj & _). rewrite (drop_S _ w j Hj) in Hs.
    destruct (Hs _ (client_copy _ _ _ _ _ _ _)).
  - destruct Hi as (j & w & -> & Hj & _). rewrite (drop_S _ w j Hj) in Hs.
    destruct (Hs _ (client_term _ _ _ _ _ _ _)).
  - destruct (Hs _ (client_post _ _ _ _ _ _)).
  - destruct Hi as (j & w & -> & Hj & Hc & Hq). rewrite (drop_S _ w j Hj) in Hs.
    destruct ss as [|ss]; [|destruct (Hs _ (client_wait _ _ _ _ _ _ _))].
    destruct q; simpl in Hq.
    + destruct Hq as [(-> & _)|(_ & ? & _)]; [|done].
      destruct (Hs _ (server_wait _ _ _ _ _ _)).
    + destruct (Hs _ (server_check _ _ _ _ _ _)).
    + destruct (Hs _ (server_print _ _ _ _ _ _)).
    + destruct (Hs _ (server_post _ _ _ _ _ _)).
    + destruct (Hs _ (server_end_post _ _ _ _ _ _)).
    + destruct Hq as ((_ & ? & _) & _). done.
    + destruct Hq as (_ & ->). split; [done|]. by right.
  - destruct Hi as ((-> & ->) & -> & ->). split; [done|]. by left.
Qed.

(** *** Both ends are possible *)

(** One word, from the client's start on it to its start on the next. *)
Lemma shm_word w v t m o :
  (w <> []) -> (NUL ∉ w) -> (length w < length m)%nat ->
  exists m', length m' = length m /\
    run shm_step (ShmState (w :: v :: t) (client_start (w :: v :: t)) m 0 0 SWait o)
      (ShmState (v :: t) (client_start (v :: t)) m' 0 0 SWait (o ++ [w])).
Proof using Type. clear Hws Hsize.
  intros Hne Hn Hl. exists (<[length w := NUL]> (overwrite w m)).
  split; [by rewrite length_insert, length_overwrite by lia|].
  assert (cstring (<[length w := NUL]> (overwrite w m)) = w) as Hc.
  { rewrite insert_take_drop by (rewrite length_overwrite by lia; lia).
    unfold overwrite at 1. rewrite take_app_length. by apply cstring_app_nul. }
  destruct w as [|b w]; [done|]. cbn [client_start].
  eapply run_step; [apply client_copy|]. eapply run_step; [apply client_term|].
  eapply run_step; [apply client_post|]. eapply run_step; [apply server_wait|].
  eapply run_step; [apply server_check|]. rewrite Hc.
  rewrite decide_False by done. eapply run_step; [apply server_print|]. rewrite Hc.
  eapply run_step; [apply server_post|]. eapply run_step; [apply client_wait|].
  apply run_refl.
Qed.

Lemma shm_all_words l t m o :
  Forall (fun w => (w <> []) /\ (NUL ∉ w) /\ (length w < length m)%nat) l -> t <> [] ->
  exists m', length m' = length m /\
    run shm_step (ShmState (l ++ t) (client_start (l ++ t)) m 0 0 SWait o)
      (ShmState t (client_start t) m' 0 0 SWait (o ++ l)).
Proof using Type. clear Hws Hsize.
  revert m o. induction l as [|w l IH]; intros m o Hl Ht.
  - exists m. rewrite app_nil_r. split; [done|apply run_refl].
  - inversion_clear Hl as [|? ? (? & ? & ?) Hl']. simpl.
    destruct (l ++ t) as [|v r] eqn:E; [by apply app_eq_nil in E as [_ ->]|].
    destruct (shm_word w v r m o) as (m1 & Hm1 & Hr1); [done..|].
    rewrite <- Hm1 in Hl'. destruct (IH m1 (o ++ [w]) Hl' Ht) as (m2 & Hm2 & Hr2).
    exists m2. split; [by rewrite Hm2|]. eapply run_trans; [exact Hr1|].
    by rewrite <- app_assoc in Hr2.
Qed.

(** The conversation up to the single token that both want. *)
Lemma shm_race m : length m = size ->
  exists m' s, run shm_step (shm_initial m ws) s /\
    s = ShmState [[]] KWait m' 0 1 SEndWait ws.
Proof using Hws Hsize.
  intros Hm. subst size.
  destruct (shm_all_words ws [[]] m [] Hws) as (m1 & Hm1 & Hr); [done|].
  exists (<[0%nat := NUL]> m1). eexists. split; [|done].
  eapply run_trans; [exact Hr|]. cbn [client_start app].
  eapply run_step; [apply client_term|]. eapply run_step; [apply client_post|].
  eapply run_step; [apply server_wait|]. eapply run_step; [apply server_check|].
  rewrite decide_True by (destruct m1; simpl in *; [lia|done]).
  apply run_one, server_end_post.
Qed.
End Outcome.

(** ** Properties *)

(** C15: the server prints the client's words in order, none twice, and the two
    processes never touch the shared memory at the same time: the client writes
    to it only while the server waits for [client_sem]. *)
Theorem shm_in_order (m : list byte) (ws : list (list byte)) (s : shm_state) :
  Forall (fun w => (w <> []) /\ (NUL ∉ w) /\ (length w < length m)%nat) ws ->
  (0 < length m)%nat -> run shm_step (shm_initial m ws) s ->
  printed s `prefix_of` ws /\
  (kpc s = KCopy \/ kpc s = KTerm -> spc s = SWait /\ client_sem s = O).
Proof.
  intros Hws Hm Hr. pose proof (shm_reachable ws (length m) Hws Hm m s eq_refl Hr) as Hi.
  split; [by eapply inv_printed|]. destruct Hi as [_ Hi].
  destruct s as [t c mm cs ss q o]. simpl in *.
  intros [-> | ->]; by destruct Hi as (j & w & _ & _ & _ & (-> & _) & -> & _).
Qed.

(** "a" and "word", into 64 bytes of shared memory. *)
Definition shm_words : list (list byte) := [chars "a"; chars "word"].

Lemma shm_words_fit n : (4 < n)%nat ->
  Forall (fun w => (w <> []) /\ (NUL ∉ w) /\ (length w < n)%nat) shm_words.
Proof.
  intros Hn. unfold shm_words. rewrite !list.Forall_cons. simpl.
  split_and!; try done; try lia; by apply no_nul_spec.
Qed.

Lemma shm_in_order_witness :
  printed (shm_initial (replicate 64 NUL) shm_words) `prefix_of` shm_words /\
  (kpc (shm_initial (replicate 64 NUL) shm_words) = KCopy \/
   kpc (shm_initial (replicate 64 NUL) shm_words) = KTerm ->
   spc (shm_initial (replicate 64 NUL) shm_words) = SWait /\
   client_sem (shm_initial (replicate 64 NUL) shm_words) = O).
Proof.
  apply (shm_in_order (replicate 64 NUL) shm_words); [apply shm_words_fit; simpl; lia|simpl; lia|].
  apply run_refl.
Defined.

(** C39: the conversation itself always completes, within a bounded number of
    steps and with every word printed, but then only one of the two processes
    ends: the server posts [server_sem] once and both wait for it.  Either of
    them can be the one that waits for ever. *)
Theorem shm_one_is_left_waiting (m : list byte) (ws : list (list byte)) :
  Forall (fun w => (w <> []) /\ (NUL ∉ w) /\ (length w < length m)%nat) ws ->
  (0 < length m)%nat ->
  let s0 := shm_initial m ws in
  (forall n s, nrun shm_step n s0 s -> (n <= shm_work s0)%nat) /\
  (forall s, run shm_step s0 s -> stuck shm_step s ->
     printed s = ws /\ (client_out s \/ server_out s)) /\
  (exists s, run shm_step s0 s /\ client_out s) /\
  (exists s, run shm_step s0 s /\ server_out s).
Proof.
  intros Hws Hm s0. split_and!.
  - intros n s Hn.
    pose proof (nrun_bounded shm_step (fun _ => True) shm_work n s0 s) as H.
    specialize (H ltac:(intros ? ? _ Hs; split; [done|by apply shm_step_work]) I Hn). lia.
  - intros s Hr. eapply shm_stuck; eauto. by eapply shm_reachable.
  - destruct (shm_race ws (length m) Hws Hm m eq_refl) as (m' & s & Hr & ->).
    eexists. split; [eapply run_snoc; [exact Hr|apply client_wait]|done].
  - destruct (shm_race ws (length m) Hws Hm m eq_refl) as (m' & s & Hr & ->).
    eexists. split; [eapply run_snoc; [exact Hr|apply server_end_wait]|done].
Qed.

Lemma shm_one_is_left_waiting_witness :
  exists s, run shm_step (shm_initial (replicate 64 NUL) shm_words) s /\ server_out s.
Proof.
  refine (proj2 (proj2 (proj2 (shm_one_is_left_waiting (replicate 64 NUL) shm_words _ _))));
    [apply shm_words_fit; simpl; lia|simpl; lia].
Defined.

(** For every page size from 1 byte to a megabyte the client maps the
    least number of whole pages that hold 1024 bytes, and the server one page
    more than that. *)
Theorem shm_sizes (k : Z) :
  0 <= k <= 20 ->
  let page_size := 2 ^ k in
  ShmSize.client_size page_size = page_size * ((1024 + page_size - 1) / page_size) /\
  ShmSize.server_size page_size = ShmSize.client_size page_size + page_size.
Proof.
  intros Hk page_size. unfold page_size.
  assert (In k (Z.of_nat <$> seq 0 21)) as Hin.
  { apply list_elem_of_In, list_elem_of_fmap. exists (Z.to_nat k).
    split; [lia|]. apply elem_of_seq. lia. }
  simpl in Hin. repeat destruct Hin as [<-|Hin]; try done; by vm_compute.
Qed.

Lemma shm_sizes_witness :
  ShmSize.client_size 4096 = 4096 /\ ShmSize.server_size 4096 = 8192.
Proof. apply (shm_sizes 12). lia. Defined.
