(* ===== verification/CondVar.v ===== *)
(** * Words through a condition variable

    [src/pthread-condition/pthread_cond_wait-pthread_cond_signal/main.c]: the
    child thread stores a duplicate of each word in [data->shared_word] and sets
    [word_ready]; the parent clears [word_ready] and prints the word.  The two
    threads are a transition system in which a step is one access to the shared
    data; [pthread_cond_wait] releases the mutex, blocks until a signal (or
    spuriously wakes up) and takes the mutex again.  The parent reads
    [shared_word] after it has released the mutex. *)

From S2P Require Import Prelude.

Inductive thread := Child | Parent.

(** The child in [send_word]: before [lock]; at [while(word_ready)]; inside
    [pthread_cond_wait], blocked, then woken and waiting for the mutex; before
    [free]; before the assignment to [shared_word]; before [word_ready = 1];
    before [signal]; before [unlock]; after the last word. *)
Inductive child_pc :=
| KLock | KCheck | KBlocked | KRelock | KFree | KSet | KReady | KSignal | KUnlock | KEnd.

(** The parent: before [lock]; at [while(!word_ready)]; inside
    [pthread_cond_wait]; before [word_ready = 0]; before [signal]; before
    [unlock]; before [word = data->shared_word]; before [printf], with the
    pointer; after the loop. *)
Inductive parent_pc :=
| PLock | PCheck | PBlocked | PRelock | PTake | PSignal | PUnlock | PRead
| PPrint (p : nat) | PEnd.

Definition word := list byte.

(** A block of the heap: the string [strdup] made, and whether it was freed. *)
Record cstate := CState {
  items : list (option word);    (* what [send_word] is still to be called with *)
  kpc : child_pc;
  ppc : parent_pc;
  mutex : option thread;
  word_ready : bool;
  shared_word : option nat;
  heap : list (word * bool);
  output : list (option word);   (* [None]: the text of a freed block *)
}.

(** [free(p)], [strdup(w)], and what [%s] finds at [p]. *)
Definition free_at (p : option nat) (h : list (word * bool)) : list (word * bool) :=
  match p with
  | Some p => match h !! p with Some (w, _) => <[p := (w, false)]> h | None => h end
  | None => h
  end.

Definition text_at (p : nat) (h : list (word * bool)) : option word :=
  match h !! p with Some (w, true) => Some w | _ => None end.

(** [pthread_cond_signal]: wakes the other thread if it is blocked. *)
Definition wake_parent (q : parent_pc) : parent_pc :=
  match q with PBlocked => PRelock | _ => q end.
Definition wake_child (c : child_pc) : child_pc :=
  match c with KBlocked => KRelock | _ => c end.

(** After [send_word] returns. *)
Definition after_send (l : list (option word)) : child_pc :=
  match l with [] => KEnd | _ => KLock end.

(** [spurious] says whether a blocked thread may wake up without a signal. *)
Inductive cstep (spurious : bool) : cstate -> cstate -> Prop :=
| k_lock l q r p h o :
    cstep spurious (CState l KLock q None r p h o) (CState l KCheck q (Some Child) r p h o)
| k_check l q m r p h o :
    cstep spurious (CState l KCheck q m r p h o)
          (if r then CState l KBlocked q None r p h o else CState l KFree q m r p h o)
| k_spurious l q m r p h o :
    spurious = true ->
    cstep spurious (CState l KBlocked q m r p h o) (CState l KRelock q m r p h o)
| k_relock l q r p h o :
    cstep spurious (CState l KRelock q None r p h o) (CState l KCheck q (Some Child) r p h o)
| k_free l q m r p h o :
    cstep spurious (CState l KFree q m r p h o) (CState l KSet q m r p (free_at p h) o)
| k_set_null l q m r p h o :
    cstep spurious (CState (None :: l) KSet q m r p h o)
          (CState (None :: l) KReady q m r None h o)
| k_set_word w l q m r p h o :
    cstep spurious (CState (Some w :: l) KSet q m r p h o)
          (CState (Some w :: l) KReady q m r (Some (length h)) (h ++ [(w, true)]) o)
| k_ready l q m r p h o :
    cstep spurious (CState l KReady q m r p h o) (CState l KSignal q m true p h o)
| k_signal l q m r p h o :
    cstep spurious (CState l KSignal q m r p h o) (CState l KUnlock (wake_parent q) m r p h o)
| k_unlock i l q m r p h o :
    cstep spurious (CState (i :: l) KUnlock q m r p h o) (CState l (after_send l) q None r p h o)
| p_lock l c r p h o :
    cstep spurious (CState l c PLock None r p h o) (CState l c PCheck (Some Parent) r p h o)
| p_check l c m r p h o :
    cstep spurious (CState l c PCheck m r p h o)
          (if r then CState l c PTake m r p h o else CState l c PBlocked None r p h o)
| p_spurious l c m r p h o :
    spurious = true ->
    cstep spurious (CState l c PBlocked m r p h o) (CState l c PRelock m r p h o)
| p_relock l c r p h o :
    cstep spurious (CState l c PRelock None r p h o) (CState l c PCheck (Some Parent) r p h o)
| p_take l c m r p h o :
    cstep spurious (CState l c PTake m r p h o) (CState l c PSignal m false p h o)
| p_signal l c m r p h o :
    cstep spurious (CState l c PSignal m r p h o) (CState l (wake_child c) PUnlock m r p h o)
| p_unlock l c m r p h o :
    cstep spurious (CState l c PUnlock m r p h o) (CState l c PRead None r p h o)
| p_read l c m r p h o :
    cstep spurious (CState l c PRead m r p h o)
          (CState l c (match p with Some p => PPrint p | None => PEnd end) m r p h o)
| p_print l c p' m r p h o :
    cstep spurious (CState l c (PPrint p') m r p h o) (CState l c PLock m r p h (o ++ [text_at p' h])).

(** [main]: nothing is ready, the pointer is NULL; the child sends the words of
    the file, then NULL. *)
Definition cinitial (ws : list word) : cstate :=
  CState ((Some <$> ws) ++ [None]) KLock PLock None false None [] [].

(** ** Invariants *)

Definition child_holds (c : child_pc) : bool :=
  match c with KCheck | KFree | KSet | KReady | KSignal | KUnlock => true | _ => false end.
Definition parent_holds (q : parent_pc) : bool :=
  match q with PCheck | PTake | PSignal | PUnlock => true | _ => false end.

(** The mutex is held by the thread that is between [lock] and [unlock]. *)
Definition lock_ok (s : cstate) : Prop :=
  match mutex s with
  | None => child_holds (kpc s) = false /\ parent_holds (ppc s) = false
  | Some Child => child_holds (kpc s) = true /\ parent_holds (ppc s) = false
  | Some Parent => child_holds (kpc s) = false /\ parent_holds (ppc s) = true
  end.

(** A blocked thread is not forgotten: what it waits for has not happened, or
    the other thread is about to signal. *)
Definition wake_ok (s : cstate) : Prop :=
  (kpc s = KBlocked -> word_ready s = true \/ ppc s = PSignal) /\
  (ppc s = PBlocked -> word_ready s = false \/ kpc s = KSignal).

(** [word_ready] where the code relies on it. *)
Definition ready_ok (s : cstate) : Prop :=
  match kpc s with
  | KFree | KSet | KReady => word_ready s = false
  | _ => True
  end /\
  (ppc s = PTake -> word_ready s = true).

(** The child is past the assignment of [send_word(NULL)]. *)
Definition null_stored (l : list (option word)) (c : child_pc) : bool :=
  match l with
  | [] => true
  | [None] => match c with KReady | KSignal | KUnlock => true | _ => false end
  | _ => false
  end.

(** What is left to send ends with NULL; the child has ended when it is empty. *)
Definition items_ok (s : cstate) : Prop :=
  (items s = [] <-> kpc s = KEnd) /\
  (items s = [] \/ exists ws, items s = (Some <$> ws) ++ [None]).

(** The parent has been past its first [word_ready = 0]. *)
Definition parent_started (q : parent_pc) : bool :=
  match q with PSignal | PUnlock | PRead | PPrint _ | PEnd => true | _ => false end.

(** NULL is seen only when the child has stored it, and once it is stored it is
    either announced or about to be seen; before that the pointer is NULL only
    while the parent has not had a word. *)
Definition end_ok (s : cstate) : Prop :=
  if null_stored (items s) (kpc s) then
    shared_word s = None /\
    (kpc s = KReady \/ word_ready s = true \/
     match ppc s with PSignal | PUnlock | PRead | PEnd => True | _ => False end)
  else
    ppc s <> PEnd /\
    (shared_word s = None ->
       word_ready s = false /\ parent_started (ppc s) = false /\
       match kpc s with KReady | KSignal | KUnlock => False | _ => True end).

Record cinv (s : cstate) : Prop := {
  c_lock : lock_ok s;
  c_wake : wake_ok s;
  c_ready : ready_ok s;
  c_items : items_ok s;
  c_end : end_ok s;
}.

Lemma cinv_initial ws : cinv (cinitial ws).
Proof.
  split; unfold lock_ok, wake_ok, ready_ok, items_ok, end_ok; simpl; try done.
  - split; [|eauto]. split; [|done]. intros E. by apply app_eq_nil in E as [_ ?].
  - by destruct ws as [|w [|? ?]].
Qed.

Lemma items_tail (i : option word) (l : list (option word)) :
  (i :: l = [] \/ exists ws, i :: l = (Some <$> ws) ++ [None]) ->
  (i = None -> l = []) /\ (l = [] -> i = None) /\
  (l = [] \/ exists ws, l = (Some <$> ws) ++ [None]).
Proof.
  intros [?|[[|w ws] E]]; simplify_eq/=; [by split_and!; auto|].
  split; [done|]. split; [|by right; exists ws].
  intros E. by apply app_eq_nil in E as [_ ?].
Qed.

Lemma items_step sp s s' : items_ok s -> cstep sp s s' -> items_ok s'.
Proof.
  intros [[H1 H2] H3] Hs. unfold items_ok.
  assert (forall c' : child_pc, kpc s <> KEnd -> c' <> KEnd ->
    items s = [] <-> c' = KEnd) as Hc.
  { intros c' ? ?. split; [|done]. intros E. by apply H1 in E. }
  destruct Hs; simpl in *; try (split; [apply Hc; congruence|done]); try done.
  - destruct r; simpl; (split; [apply Hc; congruence|done]).
  - destruct (items_tail _ _ H3) as (_ & _ & H). split; [|done]. by destruct l.
  - by destruct r.
  - split; [|done]. by destruct c; simpl; split; intros E; try apply H1 in E; auto.
Qed.

Lemma wake_parent_holds q : parent_holds (wake_parent q) = parent_holds q.
Proof. by destruct q. Qed.

Lemma wake_child_holds c : child_holds (wake_child c) = child_holds c.
Proof. by destruct c. Qed.

Lemma lock_step sp s s' : lock_ok s -> cstep sp s s' -> lock_ok s'.
Proof.
  unfold lock_ok. intros Hl Hs. destruct Hs; simpl in *;
    try destruct m as [[|]|]; try destruct r; simpl in *;
    rewrite ?wake_parent_holds, ?wake_child_holds; try (intuition congruence).
  all: first [by destruct l; simpl; intuition congruence | by destruct p; simpl; intuition congruence].
Qed.

Lemma wake_step sp s s' : cinv s -> cstep sp s s' -> wake_ok s'.
Proof.
  intros [Hl Hw Hr Hi He] Hs. unfold lock_ok, wake_ok, ready_ok in *.
  clear He. destruct Hs; simpl in *; try destruct r; simpl in *;
    try (intuition congruence).
  - destruct q; simpl; intuition congruence.
  - destruct l; simpl; intuition congruence.
  - destruct c; simpl; intuition congruence.
  - destruct p; simpl; intuition congruence.
Qed.

Lemma ready_step sp s s' : cinv s -> cstep sp s s' -> ready_ok s'.
Proof.
  intros [Hl Hw Hr Hi He] Hs. unfold lock_ok, ready_ok in *. clear He Hw Hi.
  destruct Hs; simpl in *; try destruct r; simpl in *; try (intuition congruence).
  all: try (by destruct m as [[|]|]; intuition congruence).
  all: first [ by destruct q; simpl; intuition congruence
             | by destruct l; simpl; intuition congruence
             | by destruct c; simpl in *; intuition congruence
             | by destruct c, p; simpl in *; intuition congruence ].
Qed.

Lemma end_step sp s s' : cinv s -> cstep sp s s' -> end_ok s'.
Proof.
  intros [Hl Hw Hr Hi He] Hs. unfold lock_ok, ready_ok, end_ok in *. clear Hw.
  destruct Hs; simpl in *.
  all: try match type of Hi with items_ok (CState (?i :: ?l) _ _ _ _ _ _ _) =>
         destruct (items_tail i l (proj2 Hi)) as (? & ? & ?) end.
  all: try destruct r; simpl in *; try (by destruct l as [|[?|] [|]]; simpl in *; intuition congruence).
  all: try (by destruct (null_stored l c); simpl in *; intuition congruence).
  all: first
    [ by destruct i, l as [|[?|] [|]]; simpl in *; intuition congruence
    | by destruct q, l as [|[?|] [|]]; simpl in *; intuition congruence
    | by destruct l as [|[?|] [|]]; simpl in *; intuition congruence
    | by destruct c, l as [|[?|] [|]]; simpl in *; intuition congruence
    | by destruct (null_stored l c), p; simpl in *; intuition congruence ].
Qed.

Lemma cinv_step sp s s' : cinv s -> cstep sp s s' -> cinv s'.
Proof.
  intros Hc Hs. pose proof Hc as [Hl _ _ Hi _].
  split; [by eapply lock_step|by eapply wake_step|by eapply ready_step|
          by eapply items_step|by eapply end_step].
Qed.

Lemma cinv_reachable sp ws s : run (cstep sp) (cinitial ws) s -> cinv s.
Proof. apply run_invariant; [intros; by eapply cinv_step|apply cinv_initial]. Qed.

(** A thread that holds the mutex, or waits for it while it is free, can go on
    without any spurious wake-up. *)
Definition can_go (s : cstate) : Prop := exists s', cstep false s s'.

Lemma child_goes s :
  items_ok s -> child_holds (kpc s) = true -> can_go s.
Proof.
  destruct s as [l c q m r p h o]. intros [Hi _] Hc. simpl in *. unfold can_go.
  destruct l as [|[w|] l]; [by rewrite (proj1 Hi eq_refl) in Hc|..];
    destruct c; try done; eexists; constructor.
Qed.

Lemma parent_goes s : parent_holds (ppc s) = true -> can_go s.
Proof.
  destruct s as [l c q m r p h o]. intros Hq. simpl in *. unfold can_go.
  destruct q; try done; eexists; constructor.
Qed.

(** Both threads have ended, or one of them can go on. *)
Lemma cond_progress s : cinv s -> (kpc s = KEnd /\ ppc s = PEnd) \/ can_go s.
Proof.
  intros [Hl Hw Hr Hi He].
  destruct (child_holds (kpc s)) eqn:Ec; [right; by apply child_goes|].
  destruct (parent_holds (ppc s)) eqn:Eq; [right; by apply parent_goes|].
  destruct s as [l c q m r p h o]. unfold lock_ok, wake_ok, end_ok, can_go in *.
  destruct Hi as [Hi _]. simpl in *.
  destruct m as [[|]|]; [destruct Hl; congruence..|].
  destruct c; try done; try (right; eexists; solve [constructor]).
  - destruct q; try done; try (right; eexists; solve [constructor]); exfalso.
    + intuition congruence.
    + destruct l as [|[?|] [|]]; simpl in *; intuition congruence.
  - rewrite (proj2 Hi eq_refl) in *. simpl in He.
    destruct q; try done; try (right; eexists; solve [constructor]); [exfalso|by left].
    intuition congruence.
Qed.

(** ** Properties *)

(** C11: with or without spurious wake-ups, the two threads are never both
    inside the mutex, and they cannot get stuck: unless both have ended, one of
    them can take a step that is not a spurious wake-up.  No signal is lost. *)
Theorem cond_no_deadlock (spurious : bool) (ws : list word) (s : cstate) :
  run (cstep spurious) (cinitial ws) s ->
  ~ (child_holds (kpc s) = true /\ parent_holds (ppc s) = true) /\
  (stuck (cstep false) s -> kpc s = KEnd /\ ppc s = PEnd).
Proof.
  intros Hr%cinv_reachable. split.
  - destruct Hr as [Hl _ _ _ _]. unfold lock_ok in Hl.
    destruct (mutex s) as [[|]|]; intuition congruence.
  - intros Hs. destruct (cond_progress s Hr) as [?|[s' Hs']]; [done|by destruct (Hs s')].
Qed.

Lemma cond_no_deadlock_witness :
  ~ (child_holds (kpc (cinitial [])) = true /\ parent_holds (ppc (cinitial [])) = true) /\
  (stuck (cstep false) (cinitial []) -> kpc (cinitial []) = KEnd /\ ppc (cinitial []) = PEnd).
Proof. apply (cond_no_deadlock true []). apply run_refl. Defined.

Ltac go c := eapply run_step; [apply c|]; cbn [wake_parent wake_child after_send].

(** The child sends its current item; the parent takes the mutex and the item
    but has not read the pointer yet. *)
Ltac child_sends k_set :=
  go k_lock; go k_check; go k_free; go k_set; go k_ready; go k_signal; go k_unlock.
Ltac parent_takes := go p_check; go p_take; go p_signal; go p_unlock.

(** The parent uses [data->shared_word] after it has released the mutex, and
    the child may send the next word in between.  So there are runs in which of
    two words the first is lost and the second printed twice, in which the only
    word is lost, and in which the parent prints a string that has been freed. *)
Theorem cond_races (a b : word) :
  (exists s, run (cstep false) (cinitial [a; b]) s /\ kpc s = KEnd /\ ppc s = PEnd /\
     output s = [Some b; Some b]) /\
  (exists s, run (cstep false) (cinitial [a]) s /\ kpc s = KEnd /\ ppc s = PEnd /\
     output s = []) /\
  (exists s, run (cstep false) (cinitial [a; b]) s /\ output s = [None]).
Proof.
  split_and!.
  - eexists. split.
    + unfold cinitial. simpl. child_sends k_set_word. go p_lock. parent_takes.
      child_sends k_set_word. go p_read. go p_print. go p_lock. parent_takes.
      go p_read. go p_print. go p_lock. go p_check.
      child_sends k_set_null. go p_relock. parent_takes. go p_read. apply run_refl.
    + simpl. done.
  - eexists. split.
    + unfold cinitial. simpl. child_sends k_set_word. go p_lock. parent_takes.
      child_sends k_set_null. go p_read. apply run_refl.
    + simpl. done.
  - eexists. split.
    + unfold cinitial. simpl. child_sends k_set_word. go p_lock. parent_takes.
      go p_read. child_sends k_set_word. go p_print. apply run_refl.
    + simpl. done.
Qed.
