(* ===== verification/Mutex.v ===== *)
(** * Ten threads and a counter

    [src/pthread-mutex/pthread_mutex_lock-pthread_mutex_unlock/main.c]: every
    thread runs [thread_function], which increments the shared variable (a load
    and a store) and prints it, between [lock] and [unlock] when the program is
    run with [-m].  The number of threads is a parameter; the program has
    [NUM_THREADS]. *)

From S2P Require Import Prelude.

Definition NUM_THREADS : nat := 10.

(** A thread: before [lock], before the load, before the store of [v + 1],
    before [printf] (which loads again), before [unlock], after it. *)
Inductive thread_pc := TLock | TLoad | TStore (v : Z) | TPrint | TUnlock | TDone.

#[export] Instance thread_pc_eq_dec : EqDecision thread_pc.
Proof. solve_decision. Defined.

Record mstate := MState {
  threads : list thread_pc;
  holder : option nat;
  sharedVariable : Z;
  printed : list Z;
}.

(** One step of thread [i]. *)
Inductive mstep (use_mutex : bool) : mstate -> mstate -> Prop :=
| m_lock i ts h x o :
    ts !! i = Some TLock -> (use_mutex = true -> h = None) ->
    mstep use_mutex (MState ts h x o)
      (MState (<[i := TLoad]> ts) (if use_mutex then Some i else h) x o)
| m_load i ts h x o :
    ts !! i = Some TLoad ->
    mstep use_mutex (MState ts h x o) (MState (<[i := TStore x]> ts) h x o)
| m_store i ts h x o v :
    ts !! i = Some (TStore v) ->
    mstep use_mutex (MState ts h x o) (MState (<[i := TPrint]> ts) h (v + 1) o)
| m_print i ts h x o :
    ts !! i = Some TPrint ->
    mstep use_mutex (MState ts h x o) (MState (<[i := TUnlock]> ts) h x (o ++ [x]))
| m_unlock i ts h x o :
    ts !! i = Some TUnlock ->
    mstep use_mutex (MState ts h x o)
      (MState (<[i := TDone]> ts) (if use_mutex then None else h) x o).

(** [main] after the loop of [pthread_create]. *)
Definition minitial (n : nat) : mstate := MState (replicate n TLock) None 0 [].

Definition all_done (s : mstate) : Prop := Forall (eq TDone) (threads s).

(** ** The invariant under the mutex *)

(** How many threads have finished. *)
Fixpoint dones (ts : list thread_pc) : nat :=
  match ts with
  | [] => 0
  | TDone :: ts => S (dones ts)
  | _ :: ts => dones ts
  end.

Definition outside (t : thread_pc) : Prop := t = TLock \/ t = TDone.

(** What the holder's position says about the variable and the output, when [d]
    threads have finished. *)
Definition holder_ok (d : nat) (t : thread_pc) (x : Z) (o : list Z) : Prop :=
  match t with
  | TLoad => x = Z.of_nat d /\ o = seqZ 1 (Z.of_nat d)
  | TStore v => x = Z.of_nat d /\ v = x /\ o = seqZ 1 (Z.of_nat d)
  | TPrint => x = Z.of_nat d + 1 /\ o = seqZ 1 (Z.of_nat d)
  | TUnlock => x = Z.of_nat d + 1 /\ o = seqZ 1 (Z.of_nat d + 1)
  | TLock | TDone => False
  end.

Definition minv (s : mstate) : Prop :=
  match holder s with
  | None => Forall outside (threads s) /\ sharedVariable s = Z.of_nat (dones (threads s)) /\
      printed s = seqZ 1 (Z.of_nat (dones (threads s)))
  | Some i => exists t, threads s !! i = Some t /\
      holder_ok (dones (threads s)) t (sharedVariable s) (printed s) /\
      (forall j u, j <> i -> threads s !! j = Some u -> outside u)
  end.

Lemma dones_insert ts i t t' :
  ts !! i = Some t -> t <> TDone ->
  dones (<[i := t']> ts) = (dones ts + match t' with TDone => 1 | _ => 0 end)%nat.
Proof.
  revert i. induction ts as [|u ts IH]; intros i Hi Ht; [done|].
  destruct i as [|i]; simpl in *.
  - simplify_eq. destruct t, t'; simpl; try done; lia.
  - rewrite (IH i Hi Ht). destruct u; lia.
Qed.

(** A step of a thread inside keeps it the holder. *)
Lemma inside_is_holder ts h x o i t :
  minv (MState ts h x o) -> ts !! i = Some t -> ~ outside t ->
  h = Some i /\ holder_ok (dones ts) t x o.
Proof.
  unfold minv. simpl. intros Hi Ht Hn. destruct h as [j|].
  - destruct Hi as (u & Hu & Hok & Ho). destruct (decide (i = j)) as [->|Hne].
    + by simplify_eq.
    + by destruct Hn; eapply Ho.
  - destruct Hi as (Hf & _). rewrite Forall_lookup in Hf. by destruct Hn; eapply Hf.
Qed.

Lemma holder_moves ts x o i t t' x' o' :
  minv (MState ts (Some i) x o) -> ts !! i = Some t -> t <> TDone -> t' <> TDone ->
  holder_ok (dones ts) t' x' o' -> minv (MState (<[i := t']> ts) (Some i) x' o').
Proof.
  intros (u & Hu & _ & Ho) Ht Hd Hd' Hok. exists t'. simpl in *.
  rewrite (dones_insert _ _ _ _ Ht Hd).
  split_and!.
  - apply list_lookup_insert_eq. by eapply lookup_lt_Some.
  - replace (dones ts + _)%nat with (dones ts) by (destruct t'; done || lia). done.
  - intros j v Hj Hv. rewrite list_lookup_insert_ne in Hv by done. by eapply Ho.
Qed.

Lemma minv_step s s' : minv s -> mstep true s s' -> minv s'.
Proof.
  intros Hi Hs. destruct Hs as [i ts h x o Ht Hh|i ts h x o Ht|i ts h x o v Ht|i ts h x o Ht|i ts h x o Ht].
  - rewrite (Hh eq_refl) in Hi. unfold minv in *. simpl in *. destruct Hi as (Hf & -> & ->).
    exists TLoad. simpl. rewrite (dones_insert _ _ _ TLoad Ht) by done.
    rewrite Nat.add_0_r. split_and!; [|done..|].
    + apply list_lookup_insert_eq. by eapply lookup_lt_Some.
    + intros j u Hj Hu. rewrite list_lookup_insert_ne in Hu by done.
      rewrite Forall_lookup in Hf. by eapply Hf.
  - destruct (inside_is_holder _ _ _ _ _ _ Hi Ht) as [-> (-> & ->)]; [by intros [?|?]|].
    by eapply holder_moves.
  - destruct (inside_is_holder _ _ _ _ _ _ Hi Ht) as [-> (-> & -> & ->)]; [by intros [?|?]|].
    by eapply holder_moves.
  - destruct (inside_is_holder _ _ _ _ _ _ Hi Ht) as [-> (-> & ->)]; [by intros [?|?]|].
    eapply holder_moves; try done. simpl. by rewrite seqZ_snoc.
  - destruct (inside_is_holder _ _ _ _ _ _ Hi Ht) as [-> (-> & ->)]; [by intros [?|?]|].
    destruct Hi as (u & Hu & _ & Ho). unfold minv. simpl in *.
    rewrite (dones_insert _ _ _ TDone Ht) by done.
    replace (Z.of_nat (dones ts + 1)) with (Z.of_nat (dones ts) + 1) by lia.
    split; [|done]. apply Forall_lookup. intros j v Hv.
    destruct (decide (j = i)) as [->|Hj].
    + rewrite list_lookup_insert_eq in Hv by (by eapply lookup_lt_Some).
      simplify_eq. by right.
    + rewrite list_lookup_insert_ne in Hv by done. by eapply Ho.
Qed.

Lemma minv_initial n : minv (minitial n).
Proof.
  unfold minv. simpl. assert (dones (replicate n TLock) = O) as ->
    by (induction n; simpl; auto). split; [|done].
  apply Forall_replicate. by left.
Qed.

Lemma length_step b s s' : mstep b s s' -> length (threads s') = length (threads s).
Proof. by destruct 1; simpl; rewrite length_insert. Qed.

Lemma dones_all ts : Forall (eq TDone) ts -> dones ts = length ts.
Proof. induction 1; simplify_eq; simpl; auto. Qed.

Lemma mreachable n s : run (mstep true) (minitial n) s -> minv s /\ length (threads s) = n.
Proof.
  intros Hr. split.
  - eapply (run_invariant _ minv); [intros; by eapply minv_step|apply minv_initial|done].
  - eapply (run_invariant (mstep true) (fun s => length (threads s) = n)); [|simpl|exact Hr].
    + intros ? ? <- ?. by eapply length_step.
    + apply length_replicate.
Qed.

(** ** Without the mutex *)

(** Every thread in turn takes the same step. *)
Lemma phase (k m : nat) (p q : thread_pc) (h : option nat) (x x' : Z) (o : list Z) (out : list Z) :
  (forall i ts o, ts !! i = Some p ->
    exists y, (i = O -> y = x) /\ (i <> O -> y = x') /\
    mstep false (MState ts h y o) (MState (<[i := q]> ts) h x' (o ++ out))) ->
  (0 < m)%nat ->
  run (mstep false) (MState (replicate k q ++ replicate m p) h (if decide (k = O) then x else x') o)
    (MState (replicate (k + m) q) h x' (o ++ concat (replicate m out))).
Proof.
  revert k o. induction m as [|m IH]; intros k o Hs Hm; [lia|].
  assert ((replicate k q ++ replicate (S m) p) !! k = Some p) as Hk.
  { rewrite lookup_app_r by (rewrite length_replicate; lia).
    by rewrite length_replicate, Nat.sub_diag. }
  destruct (Hs k _ o Hk) as (y & H0 & H1 & Hstep).
  assert (y = if decide (k = O) then x else x') as -> by (case_decide; auto).
  eapply run_step; [exact Hstep|].
  rewrite insert_app_r_alt by (rewrite length_replicate; lia).
  rewrite length_replicate, Nat.sub_diag. simpl.
  change (q :: replicate m p) with ([q] ++ replicate m p). rewrite app_assoc.
  change [q] with (replicate 1 q). rewrite <- replicate_add, Nat.add_1_r.
  destruct m as [|m].
  - simpl. rewrite !app_nil_r. rewrite Nat.add_1_r. apply run_refl.
  - pose proof (IH (S k) (o ++ out) Hs ltac:(lia)) as Hr.
    rewrite decide_False in Hr by done. rewrite <- app_assoc in Hr.
    replace (k + S (S m))%nat with (S k + S m)%nat by lia. exact Hr.
Qed.

(** ** Progress and termination *)

Definition left_of (t : thread_pc) : nat :=
  match t with TLock => 5 | TLoad => 4 | TStore _ => 3 | TPrint => 2 | TUnlock => 1 | TDone => 0 end.

Fixpoint steps_left (ts : list thread_pc) : nat :=
  match ts with [] => 0 | t :: ts => left_of t + steps_left ts end.

Lemma steps_left_insert ts i t t' :
  ts !! i = Some t -> (left_of t' < left_of t)%nat ->
  (steps_left (<[i := t']> ts) < steps_left ts)%nat.
Proof.
  revert i. induction ts as [|u ts IH]; intros i Hi Ht; [done|].
  destruct i as [|i]; simpl in *; [simplify_eq; lia|]. specialize (IH i Hi Ht). lia.
Qed.

Lemma mstep_left b s s' : mstep b s s' -> (steps_left (threads s') < steps_left (threads s))%nat.
Proof. destruct 1; simpl; eapply steps_left_insert; eauto; simpl; lia. Qed.

Lemma mprogress s : minv s -> all_done s \/ exists s', mstep true s s'.
Proof.
  destruct s as [ts h x o]. unfold minv, all_done. simpl. intros Hi.
  destruct h as [i|].
  - right. destruct Hi as (t & Ht & Hok & _).
    destruct t; try done; eexists;
      [by eapply m_load|by eapply m_store|by eapply m_print|by eapply m_unlock].
  - destruct Hi as (Hf & _).
    destruct (decide (Exists (eq TLock) ts)) as [He|He].
    + right. apply Exists_exists in He as (t & Hin & <-).
      apply list_elem_of_In, list_elem_of_lookup in Hin as [i Hi].
      eexists. by eapply m_lock.
    + left. rewrite <- Forall_Exists_neg in He. apply Forall_lookup. intros i t Ht.
      rewrite Forall_lookup in Hf, He. destruct (Hf i t Ht) as [->| ->]; [|done].
      by destruct (He i TLock Ht).
Qed.

(** ** Properties *)

(** C16: with the mutex the threads always come to an end, and when they have,
    each of the [n] increments has counted and the values printed are 1 to [n]
    in order, whatever the scheduling. *)
Theorem mutex_counts_all (n : nat) :
  (forall k s, nrun (mstep true) k (minitial n) s -> (k <= 5 * n)%nat) /\
  (forall s, run (mstep true) (minitial n) s -> stuck (mstep true) s ->
     all_done s /\ sharedVariable s = Z.of_nat n /\ printed s = seqZ 1 (Z.of_nat n)).
Proof.
  split.
  - intros k s Hk.
    pose proof (nrun_bounded (mstep true) (fun _ => True) (fun s => steps_left (threads s))
      k (minitial n) s) as H.
    specialize (H ltac:(intros ? ? _ Hs; split; [done|by eapply mstep_left]) I Hk).
    assert (steps_left (replicate n TLock) = (5 * n)%nat) as E.
    { clear. induction n; simpl in *; lia. }
    unfold minitial in H. cbn [threads] in H. lia.
  - intros s Hr Hs. destruct (mreachable n s Hr) as [Hi Hl].
    destruct (mprogress s Hi) as [Hd|[s' Hs']]; [|by destruct (Hs s')].
    split; [done|]. unfold minv in Hi. destruct (holder s) as [i|].
    + destruct Hi as (t & Ht & Hok & _).
      unfold all_done in Hd. rewrite Forall_lookup in Hd. by rewrite <- (Hd i t Ht) in Hok.
    + destruct Hi as (_ & -> & ->). by rewrite (dones_all _ Hd), Hl.
Qed.

(** Without the mutex increments can be lost: there is a run in which every
    thread prints 1 and the variable ends at 1, however many threads there
    are. *)
Theorem no_mutex_loses_updates (n : nat) :
  (0 < n)%nat ->
  exists s, run (mstep false) (minitial n) s /\ all_done s /\
    sharedVariable s = 1 /\ printed s = replicate n 1.
Proof.
  intros Hn. exists (MState (replicate n TDone) None 1 (replicate n 1)).
  split; [|split; [by apply Forall_replicate|done]].
  assert (forall m, concat (replicate m (@nil Z)) = []) as Hnil by (induction m; simpl; auto).
  assert (forall m, concat (replicate m [1]) = replicate m 1) as Hone
    by (induction m; simpl; f_equal; auto).
  unfold minitial.
  pose proof (phase 0 n TLock TLoad None 0 0 [] []) as P1.
  pose proof (phase 0 n TLoad (TStore 0) None 0 0 [] []) as P2.
  pose proof (phase 0 n (TStore 0) TPrint None 0 1 [] []) as P3.
  pose proof (phase 0 n TPrint TUnlock None 1 1 [] [1]) as P4.
  pose proof (phase 0 n TUnlock TDone None 1 1 (replicate n 1) []) as P5.
  simpl in *. rewrite Hnil in *. rewrite Hone in *. rewrite app_nil_r in *.
  eapply run_trans; [apply P1; [|done]|eapply run_trans; [apply P2; [|done]|
    eapply run_trans; [apply P3; [|done]|eapply run_trans; [apply P4; [|done]|apply P5; [|done]]]]].
  - intros i ts o Hi. exists 0. split_and!; try done. rewrite app_nil_r.
    by apply (m_lock false i ts None 0 o).
  - intros i ts o Hi. exists 0. split_and!; try done. rewrite app_nil_r. by apply m_load.
  - intros i ts o Hi. exists (if decide (i = O) then 0 else 1).
    split_and!; [by intros ->|by intros; rewrite decide_False|]. rewrite app_nil_r.
    by apply (m_store false i ts None _ o 0).
  - intros i ts o Hi. exists 1. split_and!; try done. by apply m_print.
  - intros i ts o Hi. exists 1. split_and!; try done. rewrite app_nil_r.
    by apply (m_unlock false i ts None 1 o).
Qed.

Lemma no_mutex_loses_updates_witness :
  exists s, run (mstep false) (minitial NUM_THREADS) s /\ all_done s /\
    sharedVariable s = 1 /\ printed s = replicate NUM_THREADS 1.
Proof. apply (no_mutex_loses_updates NUM_THREADS). unfold NUM_THREADS. lia. Defined.
