(* ===== verification/TryLock.v ===== *)
(** * Ten threads and a counter, without waiting

    [src/pthread-mutex/pthread_mutex_trylock/main.c]: the threads of [Mutex], which
    leave when the mutex is taken instead of waiting for it.  Every step is one of
    that program run with its mutex, or nothing as seen from there: a thread that
    left counts as one that has not come yet. *)

From S2P Require Import Prelude Mutex.

(** A thread: before [trylock], before the load, before the store of [v + 1],
    before [printf], before [unlock], after it; or gone because of [trylock]. *)
Inductive try_pc := YTry | YLoad | YStore (v : Z) | YPrint | YUnlock | YDone | YSkipped.

Record ystate := YState {
  ythreads : list try_pc;
  yholder : option nat;
  yshared : Z;
  yprinted : list Z;
}.

(** One step of thread [i]. *)
Inductive ystep : ystate -> ystate -> Prop :=
| y_lock i ts x o :
    ts !! i = Some YTry ->
    ystep (YState ts None x o) (YState (<[i := YLoad]> ts) (Some i) x o)
| y_busy i j ts x o :
    ts !! i = Some YTry ->
    ystep (YState ts (Some j) x o) (YState (<[i := YSkipped]> ts) (Some j) x o)
| y_load i ts h x o :
    ts !! i = Some YLoad ->
    ystep (YState ts h x o) (YState (<[i := YStore x]> ts) h x o)
| y_store i ts h x o v :
    ts !! i = Some (YStore v) ->
    ystep (YState ts h x o) (YState (<[i := YPrint]> ts) h (v + 1) o)
| y_print i ts h x o :
    ts !! i = Some YPrint ->
    ystep (YState ts h x o) (YState (<[i := YUnlock]> ts) h x (o ++ [x]))
| y_unlock i ts h x o :
    ts !! i = Some YUnlock ->
    ystep (YState ts h x o) (YState (<[i := YDone]> ts) None x o).

(** [main] after the loop of [pthread_create]. *)
Definition yinitial (n : nat) : ystate := YState (replicate n YTry) None 0 [].

(** ** The simulation *)

Definition waits (t : try_pc) : thread_pc :=
  match t with
  | YTry | YSkipped => TLock
  | YLoad => TLoad | YStore v => TStore v | YPrint => TPrint | YUnlock => TUnlock
  | YDone => TDone
  end.

Definition as_mutex (s : ystate) : mstate :=
  MState (waits <$> ythreads s) (yholder s) (yshared s) (yprinted s).

Lemma waits_lookup (ts : list try_pc) (i : nat) t : ts !! i = Some t -> (waits <$> ts) !! i = Some (waits t).
Proof. intros Hi. by rewrite list_lookup_fmap, Hi. Qed.

Lemma simulates s s' : ystep s s' -> mstep true (as_mutex s) (as_mutex s') \/ as_mutex s' = as_mutex s.
Proof.
  destruct 1 as [i ts x o Hi|i j ts x o Hi|i ts h x o Hi|i ts h x o v Hi|i ts h x o Hi|i ts h x o Hi];
    unfold as_mutex; simpl; rewrite list_fmap_insert; apply waits_lookup in Hi; simpl in *.
  - left. by apply (m_lock true i).
  - right. by rewrite list_insert_id.
  - left. by apply m_load.
  - left. by apply m_store.
  - left. by apply m_print.
  - left. by apply (m_unlock true i).
Qed.

(** ** Invariants *)

(** Nobody has left before somebody had the mutex. *)
Definition someone_in (s : ystate) : Prop :=
  match yholder s with
  | Some _ => True
  | None => YSkipped ∉ ythreads s \/ YDone ∈ ythreads s
  end.

Definition yinv (s : ystate) : Prop := minv (as_mutex s) /\ someone_in s.

Definition inside (t : try_pc) : bool :=
  match t with YLoad | YStore _ | YPrint | YUnlock => true | _ => false end.

(** A thread inside is the holder. *)
Lemma inside_holds s i t :
  minv (as_mutex s) -> ythreads s !! i = Some t -> inside t = true -> yholder s = Some i.
Proof.
  intros Hi Ht Hin. apply waits_lookup in Ht. destruct s as [ts h x o].
  destruct (inside_is_holder _ _ _ _ _ _ Hi Ht) as [Hh _]; [|done].
  destruct t; try done; by intros [?|?].
Qed.

Lemma yinv_step s s' : yinv s -> ystep s s' -> yinv s'.
Proof.
  intros [Hi Hs] Hst. split.
  { destruct (simulates _ _ Hst) as [Hm| ->]; [by eapply minv_step|done]. }
  destruct Hst as [i ts x o Ht|i j ts x o Ht|i ts h x o Ht|i ts h x o v Ht|i ts h x o Ht|i ts h x o Ht];
    unfold someone_in; simpl; [done|done|..].
  1-3: assert (h = Some i) as -> by (eapply (inside_holds (YState ts h x o)); done); done.
  right. eapply list_elem_of_lookup_2, list_lookup_insert_eq. by eapply lookup_lt_Some.
Qed.

Lemma dones_waits_zero n : dones (waits <$> replicate n YTry) = O.
Proof. by induction n. Qed.

Lemma as_mutex_initial n : as_mutex (yinitial n) = minitial n.
Proof. unfold as_mutex, yinitial, minitial. simpl. by rewrite fmap_replicate. Qed.

Lemma yreachable n s : run ystep (yinitial n) s -> yinv s /\ length (ythreads s) = n.
Proof.
  intros Hr. split.
  - eapply (run_invariant _ yinv); [intros; by eapply yinv_step| |done]. split.
    + rewrite as_mutex_initial. apply minv_initial.
    + left. by intros [? _]%elem_of_replicate.
  - eapply (run_invariant ystep (fun s => length (ythreads s) = n)); [| |exact Hr].
    + intros s1 s2 <- Hst. by destruct Hst; simpl; rewrite length_insert.
    + apply length_replicate.
Qed.

(** ** Progress and termination *)

Definition ended (t : try_pc) : bool :=
  match t with YDone | YSkipped => true | _ => false end.

Lemma thread_can_step s i t :
  ythreads s !! i = Some t -> ended t = false -> exists s', ystep s s'.
Proof.
  destruct s as [ts [j|] x o]; simpl; intros Hi Ht; destruct t; try done; eexists;
    first [by eapply y_lock|by eapply y_busy|by eapply y_load|by eapply y_store
          |by eapply y_print|by eapply y_unlock].
Qed.

Lemma stuck_ended s : stuck ystep s -> Forall (fun t => ended t = true) (ythreads s).
Proof.
  intros Hs. apply Forall_lookup. intros i t Hi. destruct (ended t) eqn:E; [done|].
  destruct (thread_can_step _ _ _ Hi E) as [s' Hst]. by destruct (Hs s').
Qed.

Definition try_left (t : try_pc) : nat :=
  match t with
  | YTry => 5 | YLoad => 4 | YStore _ => 3 | YPrint => 2 | YUnlock => 1 | YDone | YSkipped => 0
  end.

Fixpoint all_left (ts : list try_pc) : nat :=
  match ts with [] => 0 | t :: ts => try_left t + all_left ts end.

Lemma all_left_insert ts i t t' :
  ts !! i = Some t -> (try_left t' < try_left t)%nat -> (all_left (<[i := t']> ts) < all_left ts)%nat.
Proof.
  revert i. induction ts as [|u ts IH]; intros i Hi Ht; [done|].
  destruct i as [|i]; simpl in *; [simplify_eq; lia|]. specialize (IH i Hi Ht). lia.
Qed.

Lemma ystep_left s s' : ystep s s' -> (all_left (ythreads s') < all_left (ythreads s))%nat.
Proof. destruct 1; simpl; eapply all_left_insert; eauto; simpl; lia. Qed.

(** ** The end *)

(** How many threads had the mutex. *)
Definition successes (ts : list try_pc) : nat := dones (waits <$> ts).

Lemma successes_some ts : YDone ∈ ts -> (1 <= successes ts)%nat.
Proof.
  unfold successes. induction ts as [|t ts IH]; [by intros ?%elem_of_nil|].
  intros [<-|Hin]%elem_of_cons; rewrite fmap_cons; [simpl; lia|]. specialize (IH Hin).
  destruct t; cbn [waits dones]; lia.
Qed.

Lemma yend n s :
  yinv s -> length (ythreads s) = n -> Forall (fun t => ended t = true) (ythreads s) ->
  yshared s = Z.of_nat (successes (ythreads s)) /\
  yprinted s = seqZ 1 (Z.of_nat (successes (ythreads s))) /\
  ((0 < n)%nat -> (1 <= successes (ythreads s))%nat).
Proof.
  intros [Hi Hs] Hn He. destruct s as [ts h x o]. unfold minv, someone_in in *. simpl in *.
  destruct h as [j|].
  - destruct Hi as (t & Ht & Hok & _). rewrite list_lookup_fmap in Ht.
    destruct (ts !! j) as [u|] eqn:Hu; [|done]. simpl in Ht. simplify_eq.
    rewrite Forall_lookup in He. specialize (He j u Hu). by destruct u.
  - destruct Hi as (_ & Hx & Ho). split_and!; [done..|]. intros Hp.
    destruct Hs as [Hs|Hs]; [|by apply successes_some].
    destruct ts as [|t ts]; simpl in *; [lia|]. apply successes_some.
    apply Forall_cons_1 in He as [He _]. destruct t; try done; [left|].
    destruct Hs. left.
Qed.

(** ** Every number of successes *)

(** Thread [i] from [trylock] to its end with nobody else moving. *)
Lemma goes_through ts i h x o :
  ts !! i = Some YLoad ->
  run ystep (YState ts h x o) (YState (<[i := YDone]> ts) None (x + 1) (o ++ [x + 1])).
Proof.
  intros Hi. assert (i < length ts)%nat as Hl by (by eapply lookup_lt_Some).
  assert (forall t, <[i := t]> ts !! i = Some t) as Ht by (intros t; by apply list_lookup_insert_eq).
  eapply run_step; [by apply (y_load i)|].
  eapply run_step; [by apply (y_store i)|]. rewrite list_insert_insert_eq.
  eapply run_step; [by apply (y_print i)|]. rewrite list_insert_insert_eq.
  eapply run_step; [by apply (y_unlock i)|]. rewrite list_insert_insert_eq. apply run_refl.
Qed.

Lemma alone ts i x o :
  ts !! i = Some YTry ->
  run ystep (YState ts None x o) (YState (<[i := YDone]> ts) None (x + 1) (o ++ [x + 1])).
Proof.
  intros Hi. eapply run_step; [by apply (y_lock i)|].
  rewrite <- (list_insert_insert_eq ts i YDone YLoad).
  apply goes_through, list_lookup_insert_eq. by eapply lookup_lt_Some.
Qed.

Lemma middle {A} (l r : list A) x y i : length l = i -> <[i := y]> (l ++ x :: r) = (l ++ [y]) ++ r.
Proof.
  intros <-. rewrite insert_app_r_alt, Nat.sub_diag by lia. simpl. by rewrite <- app_assoc.
Qed.

Lemma middle_lookup {A} (l r : list A) x i : length l = i -> (l ++ x :: r) !! i = Some x.
Proof. intros <-. by rewrite lookup_app_r, Nat.sub_diag by lia. Qed.

(** The first [k] threads one after the other. *)
Lemma one_by_one k r j :
  run ystep (YState (replicate j YDone ++ replicate k YTry ++ r) None (Z.of_nat j) (seqZ 1 (Z.of_nat j)))
    (YState (replicate (j + k) YDone ++ r) None (Z.of_nat (j + k)) (seqZ 1 (Z.of_nat (j + k)))).
Proof.
  revert j. induction k as [|k IH]; intros j; [rewrite Nat.add_0_r; apply run_refl|]. simpl.
  eapply run_trans; [apply (alone _ j), middle_lookup, length_replicate|].
  rewrite middle by apply length_replicate.
  change [YDone] with (replicate 1 YDone). rewrite <- replicate_add, <- seqZ_snoc.
  replace (Z.of_nat j + 1) with (Z.of_nat (j + 1)) by lia.
  replace (j + S k)%nat with (j + 1 + k)%nat by lia. apply IH.
Qed.

(** The last [m] threads while another has the mutex. *)
Lemma turned_away m l i x o :
  run ystep (YState (l ++ replicate m YTry) (Some i) x o)
    (YState (l ++ replicate m YSkipped) (Some i) x o).
Proof.
  revert l. induction m as [|m IH]; intros l; [apply run_refl|]. simpl.
  eapply run_step; [by apply (y_busy (length l)), middle_lookup|]. rewrite middle by done.
  change (YSkipped :: replicate m YSkipped) with ([YSkipped] ++ replicate m YSkipped).
  rewrite (app_assoc l). apply IH.
Qed.

Lemma all_left_initial n : all_left (replicate n YTry) = (5 * n)%nat.
Proof. induction n; simpl in *; lia. Qed.

Lemma ended_stuck ts h x o : Forall (fun t => ended t = true) ts -> stuck ystep (YState ts h x o).
Proof.
  intros He s' Hst. rewrite Forall_lookup in He.
  inversion Hst; subst; match goal with H : ts !! _ = _ |- _ => by specialize (He _ _ H) end.
Qed.

Lemma successes_of k m : successes (replicate k YDone ++ replicate m YSkipped) = k.
Proof.
  unfold successes. induction k as [|k IH]; simpl; [by induction m|]. by f_equal.
Qed.

(** Threads 0 to [k - 1] get the mutex; while the last of them has it, the others
    come. *)
Lemma some_succeed k m :
  exists s, run ystep (yinitial (S k + m)) s /\ stuck ystep s /\ successes (ythreads s) = S k.
Proof.
  exists (YState (replicate (S k) YDone ++ replicate m YSkipped) None (Z.of_nat k + 1)
            (seqZ 1 (Z.of_nat k) ++ [Z.of_nat k + 1])).
  split_and!; [|apply ended_stuck, Forall_app; split; by apply Forall_replicate|apply successes_of].
  unfold yinitial. replace (S k + m)%nat with (k + S m)%nat by lia. rewrite replicate_add.
  eapply run_trans; [apply (one_by_one k (replicate (S m) YTry) 0)|]. simpl.
  eapply run_step; [by apply (y_lock k), middle_lookup, length_replicate|].
  rewrite middle by apply length_replicate.
  eapply run_trans; [apply turned_away|]. rewrite <- app_assoc. cbn [app].
  eapply run_trans; [by apply (goes_through _ k), middle_lookup, length_replicate|].
  rewrite middle by apply length_replicate.
  change [YDone] with (replicate 1 YDone). rewrite <- replicate_add, Nat.add_1_r. apply run_refl.
Qed.

(** ** The property *)

(** C17: the threads always come to an end; then the variable is the number of
    threads that got the mutex, each of which printed its own value, 1, 2, ... in
    order, and at least one did.  Any number from 1 to [n] is possible, whatever
    the threads that could not lock would have done. *)
Theorem trylock_counts_successes (n : nat) :
  (forall k s, nrun ystep k (yinitial n) s -> (k <= 5 * n)%nat) /\
  (forall s, run ystep (yinitial n) s -> stuck ystep s ->
     Forall (fun t => t = YDone \/ t = YSkipped) (ythreads s) /\
     yshared s = Z.of_nat (successes (ythreads s)) /\
     yprinted s = seqZ 1 (Z.of_nat (successes (ythreads s))) /\
     ((0 < n)%nat -> (1 <= successes (ythreads s))%nat)) /\
  (forall k, (1 <= k <= n)%nat ->
     exists s, run ystep (yinitial n) s /\ stuck ystep s /\ successes (ythreads s) = k).
Proof.
  split_and!.
  - intros k s Hk.
    pose proof (nrun_bounded ystep (fun _ => True) (fun s => all_left (ythreads s)) k (yinitial n) s) as Hb.
    specialize (Hb ltac:(intros ? ? _ Hst; split; [done|by eapply ystep_left]) I Hk).
    cbn [yinitial ythreads] in Hb. rewrite all_left_initial in Hb. lia.
  - intros s Hr Hs. destruct (yreachable n s Hr) as [Hi Hl]. pose proof (stuck_ended s Hs) as He.
    split; [|by apply yend]. revert He. apply Forall_impl. intros []; simpl; auto; done.
  - intros k Hk. destruct k as [|k]; [lia|]. destruct (some_succeed k (n - S k)) as (s & Hr & Hst & Hc).
    replace (S k + (n - S k))%nat with n in Hr by lia. by exists s.
Qed.
