(* ===== verification/Broadcast.v ===== *)
(** * Threads that wait for a value

    [src/pthread-condition/pthread_cond_broadcast/main.c]: [main] counts the shared
    variable up to [ITERATIONS] and broadcasts every value; each thread waits until
    it has the last one.  A step is one statement of [main] or of a thread;
    [pthread_cond_wait] releases the mutex, blocks until a broadcast (or wakes up
    spuriously) and takes the mutex again.  The numbers of threads and of
    iterations are parameters. *)

From S2P Require Import Prelude.

Definition NUM_THREADS : nat := 3.
Definition ITERATIONS : nat := 10.

Inductive who := Main | Thread (i : nat).

(** [main]: the statements of turn [i] of its loop; joining; the end. *)
Inductive main_pc :=
| MLock (i : nat) | MSet (i : nat) | MPrint (i : nat) | MBroadcast (i : nat) | MUnlock (i : nat)
| MJoin | MEnd.

(** [thread_function]: before [lock]; at [while]; before the first [printf]; before
    [pthread_cond_wait]; inside it, blocked, then woken and waiting for the mutex;
    before the second [printf]; before [unlock]; after it. *)
Inductive thread_pc :=
| TLock | TCheck | TWaiting | TWait | TBlocked | TRelock | TAwake | TUnlock | TDone.

#[export] Instance thread_pc_eq_dec : EqDecision thread_pc.
Proof. solve_decision. Defined.

Inductive line := Updating (v : Z) | Waiting (i : nat) | Awake (i : nat) (v : Z).

Record bstate := BState {
  mpc : main_pc;
  tpcs : list thread_pc;
  mutex : option who;
  shared_data : Z;
  lines : list line;
}.

(** [pthread_cond_broadcast]: wakes every thread that is blocked. *)
Definition wake (t : thread_pc) : thread_pc := match t with TBlocked => TRelock | _ => t end.

(** After turn [i] of [n]. *)
Definition next_turn (n i : nat) : main_pc := if (S i <? n)%nat then MLock (S i) else MJoin.

Inductive bstep (spurious : bool) (n : nat) : bstate -> bstate -> Prop :=
| m_lock i ts x o :
    bstep spurious n (BState (MLock i) ts None x o) (BState (MSet i) ts (Some Main) x o)
| m_set i ts m x o :
    bstep spurious n (BState (MSet i) ts m x o) (BState (MPrint i) ts m (Z.of_nat i + 1) o)
| m_print i ts m x o :
    bstep spurious n (BState (MPrint i) ts m x o)
      (BState (MBroadcast i) ts m x (o ++ [Updating x]))
| m_broadcast i ts m x o :
    bstep spurious n (BState (MBroadcast i) ts m x o) (BState (MUnlock i) (wake <$> ts) m x o)
| m_unlock i ts m x o :
    bstep spurious n (BState (MUnlock i) ts m x o) (BState (next_turn n i) ts None x o)
| m_join ts m x o :
    Forall (eq TDone) ts -> bstep spurious n (BState MJoin ts m x o) (BState MEnd ts m x o)
| t_lock j c ts x o :
    ts !! j = Some TLock ->
    bstep spurious n (BState c ts None x o) (BState c (<[j := TCheck]> ts) (Some (Thread j)) x o)
| t_check j c ts m x o :
    ts !! j = Some TCheck ->
    bstep spurious n (BState c ts m x o)
      (BState c (<[j := if x <? Z.of_nat n then TWaiting else TUnlock]> ts) m x o)
| t_waiting j c ts m x o :
    ts !! j = Some TWaiting ->
    bstep spurious n (BState c ts m x o) (BState c (<[j := TWait]> ts) m x (o ++ [Waiting j]))
| t_wait j c ts m x o :
    ts !! j = Some TWait ->
    bstep spurious n (BState c ts m x o) (BState c (<[j := TBlocked]> ts) None x o)
| t_spurious j c ts m x o :
    spurious = true -> ts !! j = Some TBlocked ->
    bstep spurious n (BState c ts m x o) (BState c (<[j := TRelock]> ts) m x o)
| t_relock j c ts x o :
    ts !! j = Some TRelock ->
    bstep spurious n (BState c ts None x o) (BState c (<[j := TAwake]> ts) (Some (Thread j)) x o)
| t_awake j c ts m x o :
    ts !! j = Some TAwake ->
    bstep spurious n (BState c ts m x o) (BState c (<[j := TCheck]> ts) m x (o ++ [Awake j x]))
| t_unlock j c ts m x o :
    ts !! j = Some TUnlock ->
    bstep spurious n (BState c ts m x o) (BState c (<[j := TDone]> ts) None x o).

(** [main] after the loop of [pthread_create]: [k] threads, [n] turns. *)
Definition binitial (k n : nat) : bstate :=
  BState (if (0 <? n)%nat then MLock 0 else MJoin) (replicate k TLock) None 0 [].

(** ** The invariant *)

Definition main_inside (c : main_pc) : bool :=
  match c with MSet _ | MPrint _ | MBroadcast _ | MUnlock _ => true | _ => false end.

Definition thread_inside (t : thread_pc) : bool :=
  match t with TCheck | TWaiting | TWait | TAwake | TUnlock => true | _ => false end.

(** The holder of the mutex, and nobody else, is inside. *)
Definition exclusive (s : bstate) : Prop :=
  (main_inside (mpc s) = true <-> mutex s = Some Main) /\
  (forall j t, tpcs s !! j = Some t -> (thread_inside t = true <-> mutex s = Some (Thread j))) /\
  (forall j, mutex s = Some (Thread j) -> (j < length (tpcs s))%nat).

(** What [main]'s position says about the variable. *)
Definition value_ok (n : nat) (c : main_pc) (x : Z) : Prop :=
  match c with
  | MLock i | MSet i => (i < n)%nat /\ x = Z.of_nat i
  | MPrint i | MBroadcast i | MUnlock i => (i < n)%nat /\ x = Z.of_nat i + 1
  | MJoin | MEnd => x = Z.of_nat n
  end.

(** A broadcast is still to come. *)
Definition will_broadcast (n : nat) (c : main_pc) : Prop :=
  match c with
  | MLock _ | MSet _ | MPrint _ | MBroadcast _ => True
  | MUnlock i => (S i < n)%nat
  | MJoin | MEnd => False
  end.

(** Whoever waits, or is about to, will be woken. *)
Definition will_be_woken (s : bstate) (n : nat) : Prop :=
  forall j t, tpcs s !! j = Some t -> t = TWaiting \/ t = TWait \/ t = TBlocked ->
    will_broadcast n (mpc s).

Definition updates (o : list line) : list Z :=
  omap (fun l => match l with Updating v => Some v | _ => None end) o.

Definition updated (c : main_pc) (n : nat) : Z :=
  match c with
  | MLock i | MSet i | MPrint i => Z.of_nat i
  | MBroadcast i | MUnlock i => Z.of_nat i + 1
  | MJoin | MEnd => Z.of_nat n
  end.

(** What thread [j] has printed: that it waits, or the value it is awake with. *)
Definition own (j : nat) (o : list line) : list (option Z) :=
  omap (fun l =>
    match l with
    | Updating _ => None
    | Waiting i => if (i =? j)%nat then Some None else None
    | Awake i v => if (i =? j)%nat then Some (Some v) else None
    end) o.

(** A wait for each of the values [vs]. *)
Definition rounds (vs : list Z) : list (option Z) := concat ((fun v => [None; Some v]) <$> vs).

(** The thread did not wait at all, or it waited again after every value below [n]
    and [x] is the value of its last wait. *)
Definition heard (n : nat) (x : Z) (l : list (option Z)) : Prop :=
  l = [] \/ exists vs, l = rounds (vs ++ [x]) /\ Forall (fun v => v < Z.of_nat n) vs.

(** What a thread has printed, by its position. *)
Definition told (n : nat) (x : Z) (t : thread_pc) (l : list (option Z)) : Prop :=
  match t with
  | TLock => l = []
  | TCheck => heard n x l
  | TUnlock | TDone => heard n x l /\ x = Z.of_nat n
  | TWaiting => exists vs, l = rounds vs /\ Forall (fun v => v < Z.of_nat n) vs
  | TWait | TBlocked | TRelock | TAwake =>
      exists vs, l = rounds vs ++ [None] /\ Forall (fun v => v < Z.of_nat n) vs
  end.

Record binv (n : nat) (s : bstate) : Prop := {
  b_exclusive : exclusive s;
  b_value : value_ok n (mpc s) (shared_data s);
  b_woken : will_be_woken s n;
  b_updates : updates (lines s) = seqZ 1 (updated (mpc s) n);
  b_joined : mpc s = MEnd -> Forall (eq TDone) (tpcs s);
  b_told : forall j t, tpcs s !! j = Some t -> told n (shared_data s) t (own j (lines s));
}.

(** ** It is kept *)

(** A thread moves on without the mutex changing hands; takes it; gives it back. *)
Lemma exclusive_move c ts m x o j t t' x' o' :
  exclusive (BState c ts m x o) -> ts !! j = Some t -> thread_inside t' = thread_inside t ->
  exclusive (BState c (<[j := t']> ts) m x' o').
Proof.
  intros (Hm & Ht & Hl) Hj E. simpl in *. split_and!; simpl; [done| |by rewrite length_insert].
  intros i u Hi. apply insert_cases in Hi as [[-> ->]|[_ Hi]]; [rewrite E|]; by apply Ht.
Qed.

Lemma exclusive_take c ts x o j t t' x' o' :
  exclusive (BState c ts None x o) -> ts !! j = Some t -> thread_inside t' = true ->
  exclusive (BState c (<[j := t']> ts) (Some (Thread j)) x' o').
Proof.
  intros (Hm & Ht & _) Hj E. split_and!; simpl in *.
  - rewrite Hm. by split.
  - intros i u Hi. apply insert_cases in Hi as [[-> ->]|[Hn Hi]]; [by rewrite E|].
    rewrite (Ht i u Hi). by split; intros [= ?].
  - intros i [= <-]. rewrite length_insert. by eapply lookup_lt_Some.
Qed.

Lemma exclusive_give c ts m x o j t t' x' o' :
  exclusive (BState c ts m x o) -> ts !! j = Some t -> thread_inside t = true ->
  thread_inside t' = false -> exclusive (BState c (<[j := t']> ts) None x' o').
Proof.
  intros (Hm & Ht & _) Hj E E'. simpl in *. assert (m = Some (Thread j)) as -> by (by apply (Ht j t Hj)).
  split_and!; simpl; [| |done].
  - rewrite Hm. by split.
  - intros i u Hi. apply insert_cases in Hi as [[-> ->]|[Hn Hi]]; [by rewrite E'|].
    rewrite (Ht i u Hi). split; [|done]. by intros [= ?].
Qed.

(** Whoever is outside does not wait for a signal he could miss. *)
Lemma woken_move c ts m x o j t' m' x' o' n :
  will_be_woken (BState c ts m x o) n ->
  (t' = TWaiting \/ t' = TWait \/ t' = TBlocked -> will_broadcast n c) ->
  will_be_woken (BState c (<[j := t']> ts) m' x' o') n.
Proof.
  intros Hw Ht' i u Hi Hu. simpl in *.
  apply insert_cases in Hi as [[-> ->]|[_ Hi]]; [by apply Ht'|by eapply (Hw i u)].
Qed.

Lemma updates_app o l : updates (o ++ l) = updates o ++ updates l.
Proof. apply omap_app. Qed.

(** While a thread is inside, [main] is at the start of a turn or after the loop. *)
Lemma main_outside s j t :
  exclusive s -> tpcs s !! j = Some t -> thread_inside t = true -> main_inside (mpc s) = false.
Proof.
  intros (Hm & Ht & _) Hj E. apply (Ht j t Hj) in E. destruct (main_inside (mpc s)); [|done].
  destruct Hm as [Hm _]. specialize (Hm eq_refl). congruence.
Qed.

(** A step of a thread. *)
Lemma thread_keeps c ts m x o j t t' m' o' n :
  binv n (BState c ts m x o) -> ts !! j = Some t -> t <> TDone ->
  exclusive (BState c (<[j := t']> ts) m' x o') ->
  (t' = TWaiting \/ t' = TWait \/ t' = TBlocked -> will_broadcast n c) ->
  updates o' = updates o -> (forall i, i <> j -> own i o' = own i o) ->
  (told n x t (own j o) -> told n x t' (own j o')) ->
  binv n (BState c (<[j := t']> ts) m' x o').
Proof.
  intros [Hx Hv Hw Hu He Hl] Hj Ht Hx' Hw' Ho Ho' Hl'.
  split; simpl in *; [done|done| |congruence| |].
  - by eapply woken_move.
  - intros Ec. specialize (He Ec). rewrite Forall_lookup in He. by specialize (He j t Hj).
  - intros i u Hi. apply insert_cases in Hi as [[-> ->]|[Hn Hi]]; [by apply Hl', Hl|].
    rewrite Ho' by done. by apply Hl.
Qed.

Lemma own_app j o l : own j (o ++ l) = own j o ++ own j l.
Proof. apply omap_app. Qed.

Lemma own_other i j o l :
  i <> j -> l = Waiting j \/ (exists v, l = Awake j v) -> own i (o ++ [l]) = own i o.
Proof.
  intros Hn Hl. rewrite own_app.
  destruct Hl as [->|[v ->]]; simpl; rewrite (proj2 (Nat.eqb_neq _ _)) by congruence; apply app_nil_r.
Qed.

Lemma rounds_snoc vs v : rounds (vs ++ [v]) = (rounds vs ++ [None]) ++ [Some v].
Proof. unfold rounds. rewrite fmap_app, concat_app. simpl. by rewrite <- app_assoc. Qed.

(** A value below [n] is one more that the thread waited for. *)
Lemma heard_below n x l :
  heard n x l -> x < Z.of_nat n -> exists vs, l = rounds vs /\ Forall (fun v => v < Z.of_nat n) vs.
Proof.
  intros [->|(vs & -> & Hf)] Hx; [by exists []|]. exists (vs ++ [x]). split; [done|].
  apply Forall_app. split; [done|by apply Forall_singleton].
Qed.

(** [main] inside the mutex may change the variable while values are to come. *)
Lemma told_main n c ts m x o x' j t :
  exclusive (BState c ts m x o) -> main_inside c = true -> ts !! j = Some t ->
  x < Z.of_nat n \/ x' = x -> told n x t (own j o) -> told n x' t (own j o).
Proof.
  intros Hx Hc Hj [Hlt| ->] Ht; [|done]. destruct t; simpl in *; try done.
  - exfalso. pose proof (main_outside _ _ _ Hx Hj eq_refl) as He. simpl in He. congruence.
  - lia.
  - lia.
Qed.

Lemma told_wake n x t l : told n x t l -> told n x (wake t) l.
Proof. by destruct t. Qed.

Lemma exclusive_main_move c c' ts m x o x' o' :
  exclusive (BState c ts m x o) -> main_inside c' = main_inside c ->
  exclusive (BState c' ts m x' o').
Proof. intros (Hm & Ht & Hl) E. split_and!; simpl in *; [by rewrite E|done|done]. Qed.

Lemma exclusive_main_take c c' ts x o x' o' :
  exclusive (BState c ts None x o) -> main_inside c' = true ->
  exclusive (BState c' ts (Some Main) x' o').
Proof.
  intros (Hm & Ht & _) E. split_and!; simpl in *; [by rewrite E| |done]. intros j t Hj.
  rewrite (Ht j t Hj). by split.
Qed.

Lemma exclusive_main_give c c' ts m x o x' o' :
  exclusive (BState c ts m x o) -> main_inside c = true -> main_inside c' = false ->
  exclusive (BState c' ts None x' o').
Proof.
  intros (Hm & Ht & _) E E'. simpl in *. apply Hm in E as ->. split_and!; simpl; [by rewrite E'| |done].
  intros j t Hj. rewrite (Ht j t Hj). by split.
Qed.

Lemma exclusive_wake c ts m x o c' x' o' :
  exclusive (BState c ts m x o) -> main_inside c' = main_inside c ->
  exclusive (BState c' (wake <$> ts) m x' o').
Proof.
  intros (Hm & Ht & Hl) E. split_and!; simpl in *; [by rewrite E| |by rewrite length_fmap].
  intros j t Hj. rewrite list_lookup_fmap in Hj. destruct (ts !! j) as [u|] eqn:Hu; [|done]. simpl in Hj.
  simplify_eq. rewrite <- (Ht j u Hu). by destruct u.
Qed.

(** After a broadcast nobody waits for one. *)
Lemma woken_by_broadcast i ts m x o x' o' n :
  exclusive (BState (MBroadcast i) ts m x o) ->
  will_be_woken (BState (MUnlock i) (wake <$> ts) m x' o') n.
Proof.
  intros (Hm & Ht & _) j t Hj Hw. simpl in *. destruct Hm as [Hm _]. specialize (Hm eq_refl). subst m.
  rewrite list_lookup_fmap in Hj. destruct (ts !! j) as [u|] eqn:Hu; [|done]. simpl in Hj.
  simplify_eq. specialize (Ht j u Hu). destruct u; simpl in *; destruct Hw as [Hw|[Hw|Hw]]; try done;
    by destruct Ht as [Ht _]; specialize (Ht eq_refl).
Qed.

(** The end of a turn. *)
Lemma binv_next n i ts m x o :
  binv n (BState (MUnlock i) ts m x o) -> binv n (BState (next_turn n i) ts None x o).
Proof.
  intros [Hx Hv Hw Hu He Hp]. unfold next_turn. simpl in *.
  destruct (Nat.ltb_spec (S i) n) as [Hl|Hl]; split; simpl;
    try (by eapply exclusive_main_give); try done; try lia.
  - rewrite Hu. f_equal. lia.
  - intros j t Hj Ht. specialize (Hw j t Hj Ht). simpl in Hw. lia.
  - rewrite Hu. f_equal. lia.
Qed.

(** What a step of thread [j] leaves: the mutex, the signals, and what it prints. *)
Ltac thread_step :=
  eapply thread_keeps;
    [eassumption|eassumption|done| | |first [done|by rewrite updates_app, app_nil_r]
    |intros ? ?; first [done|eapply own_other; eauto]|].

Lemma binv_step spurious n s s' : binv n s -> bstep spurious n s s' -> binv n s'.
Proof.
  intros Hi Hs. pose proof Hi as [Hx Hv Hw Hu He Hl].
  destruct Hs as [i ts x o|i ts m x o|i ts m x o|i ts m x o|i ts m x o|ts m x o Hd
    |j c ts x o Hj|j c ts m x o Hj|j c ts m x o Hj|j c ts m x o Hj|j c ts m x o Hsp Hj
    |j c ts x o Hj|j c ts m x o Hj|j c ts m x o Hj]; simpl in *.
  - split; simpl; [by eapply exclusive_main_take|done|by intros ????|done|done|done].
  - split; simpl; [by eapply exclusive_main_move|lia|by intros ????|done|done|].
    intros j t Hj. eapply (told_main _ (MSet i)); [exact Hx|done|exact Hj|left; lia|by apply Hl].
  - split; simpl; [by eapply exclusive_main_move|lia|by intros ????| |done|].
    + rewrite updates_app, Hu, seqZ_snoc. simpl. do 2 f_equal. lia.
    + intros j t Hj. rewrite own_app. simpl. rewrite app_nil_r. by apply Hl.
  - split; simpl; [by eapply exclusive_wake|lia|by eapply woken_by_broadcast|done|done|].
    intros j t Hj. rewrite list_lookup_fmap in Hj. destruct (ts !! j) as [u|] eqn:Hu'; [|done].
    simpl in Hj. simplify_eq. by apply told_wake, Hl.
  - by apply binv_next with (m := m).
  - split; simpl; [by eapply exclusive_main_move|done..].
  - thread_step; [by eapply exclusive_take|by intros [?|[?|?]]|]. intros E. by left.
  - thread_step; [eapply exclusive_move; [done..|by case_match]|case_match eqn:E; [|by intros [?|[?|?]]]|].
    all: pose proof (main_outside _ _ _ Hx Hj eq_refl) as Ho; simpl in Ho.
    + intros _. bools. destruct c; simpl in *; try done; lia.
    + intros Hh. case_match eqn:E; bools; [by eapply heard_below|]. split; [done|].
      destruct c; simpl in *; try done; lia.
  - thread_step; [by eapply exclusive_move|intros _; eapply (Hw j); eauto|].
    intros (vs & E & Hf). exists vs. by rewrite own_app, E; simpl; rewrite Nat.eqb_refl.
  - thread_step; [by eapply exclusive_give|intros _; eapply (Hw j); eauto|done].
  - thread_step; [by eapply exclusive_move|by intros [?|[?|?]]|done].
  - thread_step; [by eapply exclusive_take|by intros [?|[?|?]]|done].
  - thread_step; [by eapply exclusive_move|by intros [?|[?|?]]|].
    intros (vs & E & Hf). right. exists vs. split; [|done].
    rewrite own_app, E, rounds_snoc. simpl. by rewrite Nat.eqb_refl.
  - thread_step; [by eapply exclusive_give|by intros [?|[?|?]]|done].
Qed.

Lemma binv_initial k n : binv n (binitial k n).
Proof.
  unfold binitial. split; simpl.
  - split_and!; simpl; [by destruct (0 <? n)%nat| |done].
    intros j t [-> _]%lookup_replicate. by split.
  - destruct (Nat.ltb_spec 0 n); simpl; lia.
  - intros j t [-> _]%lookup_replicate. by intros [?|[?|?]].
  - destruct (Nat.ltb_spec 0 n); simpl; [done|]. by replace n with O by lia.
  - by destruct (0 <? n)%nat.
  - by intros j t [-> _]%lookup_replicate.
Qed.

Lemma bstep_threads spurious n s s' :
  bstep spurious n s s' -> length (tpcs s') = length (tpcs s).
Proof. intros []; simpl; by rewrite ?length_insert, ?length_fmap. Qed.

Lemma breachable spurious k n s : run (bstep spurious n) (binitial k n) s -> binv n s.
Proof.
  intros Hr. eapply (run_invariant _ (binv n)); [|apply binv_initial|exact Hr].
  intros; by eapply binv_step.
Qed.

(** No thread is lost. *)
Lemma breachable_threads spurious k n s :
  run (bstep spurious n) (binitial k n) s -> length (tpcs s) = k.
Proof.
  intros Hr. eapply (run_invariant _ (fun s => length (tpcs s) = k)); [| |exact Hr].
  - intros s1 s2 E Hs. by rewrite (bstep_threads _ _ _ _ Hs).
  - simpl. apply length_replicate.
Qed.

(** ** Progress *)

Lemma thread_moves spurious n s j t :
  tpcs s !! j = Some t -> thread_inside t = true -> exists s', bstep spurious n s s'.
Proof.
  destruct s as [c ts m x o]. simpl. intros Hj Ht. destruct t; try done; eexists;
    first [by eapply t_check|by eapply t_waiting|by eapply t_wait|by eapply t_awake|by eapply t_unlock].
Qed.

Lemma main_moves spurious n s : main_inside (mpc s) = true -> exists s', bstep spurious n s s'.
Proof.
  destruct s as [c ts m x o]. simpl. destruct c; try done; intros _; eexists;
    first [by eapply m_set|by eapply m_print|by eapply m_broadcast|by eapply m_unlock].
Qed.

(** When nobody is inside, the mutex is free. *)
Lemma mutex_free s :
  exclusive s -> main_inside (mpc s) = false ->
  ~ Exists (fun t => thread_inside t = true) (tpcs s) -> mutex s = None.
Proof.
  intros (Hm & Ht & Hl) Em Hn. destruct (mutex s) as [[|j]|] eqn:E; [|exfalso|done].
  - destruct Hm as [_ Hm]. rewrite Hm in Em by done. done.
  - destruct (lookup_lt_is_Some_2 (tpcs s) j) as [t Hj]; [by apply Hl|]. apply Hn, Exists_exists.
    exists t. split; [by eapply list_elem_of_In, list_elem_of_lookup_2|]. by apply (Ht j t Hj).
Qed.

Lemma bprogress spurious n s : binv n s -> mpc s = MEnd \/ exists s', bstep spurious n s s'.
Proof.
  intros [Hx Hv Hw Hu He _]. destruct (main_inside (mpc s)) eqn:Em; [right; by apply main_moves|].
  destruct (decide (Exists (fun t => thread_inside t = true) (tpcs s))) as [Hin|Hout].
  { apply Exists_exists in Hin as (t & Hin & Ht). apply list_elem_of_In, list_elem_of_lookup in Hin as [j Hj].
    right. by eapply thread_moves. }
  pose proof (mutex_free s Hx Em Hout) as Hm. destruct s as [c ts m x o]. simpl in *. subst m.
  destruct c; try done; [right; eexists; by apply m_lock| |by left]. right.
  destruct (decide (Forall (eq TDone) ts)) as [Hd|Hnd]; [eexists; by apply m_join|].
  apply not_Forall_Exists in Hnd; [|apply _]. apply Exists_exists in Hnd as (t & Hin & Ht).
  apply list_elem_of_In, list_elem_of_lookup in Hin as [j Hj].
  destruct t; try (by destruct Ht); try (by destruct Hout; apply Exists_exists;
    eexists; split; [by eapply list_elem_of_In, list_elem_of_lookup_2|]).
  - eexists. by apply (t_lock _ _ j).
  - exfalso. apply (Hw j TBlocked Hj). auto.
  - eexists. by apply (t_relock _ _ j).
Qed.

(** ** Termination without spurious wake-ups *)

Definition thread_left (t : thread_pc) : nat :=
  match t with
  | TLock => 6 | TCheck => 5 | TWaiting => 4 | TWait => 3 | TBlocked => 2 | TRelock => 7
  | TAwake => 6 | TUnlock => 1 | TDone => 0
  end.

Fixpoint threads_left (ts : list thread_pc) : nat :=
  match ts with [] => 0 | t :: ts => thread_left t + threads_left ts end.

Definition main_left (n : nat) (c : main_pc) : nat :=
  match c with
  | MLock i => 5 * (n - i) + 1 | MSet i => 5 * (n - i) | MPrint i => 5 * (n - i) - 1
  | MBroadcast i => 5 * (n - i) - 2 | MUnlock i => 5 * (n - i) - 3
  | MJoin => 1 | MEnd => 0
  end.

(** A broadcast may set every thread back by five steps. *)
Definition all_left (n : nat) (s : bstate) : nat :=
  main_left n (mpc s) * (5 * length (tpcs s) + 1) + threads_left (tpcs s).

Lemma threads_left_insert ts j t t' :
  ts !! j = Some t -> (thread_left t' < thread_left t)%nat ->
  (threads_left (<[j := t']> ts) < threads_left ts)%nat.
Proof.
  revert j. induction ts as [|u ts IH]; intros j Hj Ht; [done|].
  destruct j as [|j]; simpl in *; [simplify_eq; lia|]. specialize (IH j Hj Ht). lia.
Qed.

Lemma threads_left_wake ts :
  (threads_left (wake <$> ts) <= threads_left ts + 5 * length ts)%nat.
Proof.
  induction ts as [|t ts IH]; [done|]. rewrite fmap_cons. cbn [threads_left length].
  destruct t; cbn [wake thread_left]; lia.
Qed.

Lemma bstep_left n s s' : binv n s -> bstep false n s s' -> (all_left n s' < all_left n s)%nat.
Proof.
  intros [_ Hv _ _ _ _] Hs. unfold all_left.
  destruct Hs as [i ts x o|i ts m x o|i ts m x o|i ts m x o|i ts m x o|ts m x o Hd
    |j c ts x o Hj|j c ts m x o Hj|j c ts m x o Hj|j c ts m x o Hj|j c ts m x o Hsp Hj
    |j c ts x o Hj|j c ts m x o Hj|j c ts m x o Hj]; simpl mpc in *; simpl tpcs in *; simpl in Hv;
    rewrite ?length_insert;
    try (apply Nat.add_lt_mono_l, (threads_left_insert _ _ _ _ Hj); simpl; try case_match; simpl; lia);
    try done.
  1-3: apply Nat.add_lt_mono_r, Nat.mul_lt_mono_pos_r; [lia|]; cbn [main_left]; lia.
  - rewrite length_fmap. pose proof (threads_left_wake ts).
    cbn [main_left]. replace (5 * (n - i) - 2)%nat with (S (5 * (n - i) - 3)) by lia.
    rewrite Nat.mul_succ_l. lia.
  - apply Nat.add_lt_mono_r, Nat.mul_lt_mono_pos_r; [lia|]. unfold next_turn.
    destruct (Nat.ltb_spec (S i) n); cbn [main_left]; lia.
  - apply Nat.add_lt_mono_r, Nat.mul_lt_mono_pos_r; [lia|]. cbn [main_left]. lia.
Qed.

Lemma binitial_left k n : (all_left n (binitial k n) <= (5 * n + 1) * (5 * k + 1) + 6 * k)%nat.
Proof.
  unfold all_left, binitial. simpl tpcs. rewrite length_replicate.
  assert (threads_left (replicate k TLock) = (6 * k)%nat) as -> by (induction k; simpl in *; lia).
  apply Nat.add_le_mono_r, Nat.mul_le_mono_r. simpl mpc.
  destruct (Nat.ltb_spec 0 n); cbn [main_left]; lia.
Qed.

(** ** The property *)

(** C18: for [k] threads and [n] values, the program is never stuck before its end,
    also when waits may end spuriously: no thread misses the broadcast it needs.
    Without spurious wake-ups every run ends.  A thread is at its end only when
    the variable has the last value, and it has seen it: either it found it when it
    arrived and printed nothing, or it waited for one value after another, again
    after each below the last, and the value of its last wait is the last.  At the
    end all [k] threads are there and [main] has printed 1 to [n] in order. *)
Theorem broadcast_reaches_all (k n : nat) :
  (forall spurious s, run (bstep spurious n) (binitial k n) s ->
     mpc s = MEnd \/ exists s', bstep spurious n s s') /\
  (forall j s, nrun (bstep false n) j (binitial k n) s ->
     (j <= (5 * n + 1) * (5 * k + 1) + 6 * k)%nat) /\
  (forall spurious s j, run (bstep spurious n) (binitial k n) s -> tpcs s !! j = Some TDone ->
     shared_data s = Z.of_nat n /\ heard n (Z.of_nat n) (own j (lines s))) /\
  (forall spurious s, run (bstep spurious n) (binitial k n) s -> mpc s = MEnd ->
     tpcs s = replicate k TDone /\ shared_data s = Z.of_nat n /\
     updates (lines s) = seqZ 1 (Z.of_nat n)).
Proof.
  split_and!.
  - intros spurious s Hr. by eapply bprogress, breachable.
  - intros j s Hj. pose proof (binitial_left k n) as Hl.
    pose proof (nrun_bounded (bstep false n) (binv n) (all_left n) j (binitial k n) s) as Hb.
    specialize (Hb ltac:(intros ? ? Hi Hs; split; [by eapply binv_step|by eapply bstep_left])
      (binv_initial k n) Hj). lia.
  - intros spurious s j Hr Hj. destruct (b_told _ _ (breachable _ _ _ _ Hr) j TDone Hj) as [Hh Hx].
    by rewrite Hx in Hh.
  - intros spurious s Hr He. destruct (breachable _ _ _ _ Hr) as [_ Hv _ Hu Hj _].
    rewrite He in Hv, Hu. split_and!; [|done|done].
    rewrite <- (breachable_threads _ _ _ _ Hr). symmetry. apply replicate_as_elem_of. split; [done|].
    intros t Ht. specialize (Hj He). rewrite Forall_forall in Hj. symmetry. by apply Hj, list_elem_of_In.
Qed.
