(* ===== verification/Semaphores.v ===== *)
(** * Two processes and a semaphore

    [src/semaphores/sem_post-sem_wait/main.c] and [src/semaphores/sem_trywait/main.c]
    after the fork: the child takes the semaphore, works and posts it; the parent
    takes it, by waiting or by trying [TRY_COUNT] times, posts it, waits for the
    child and removes the name.  A step is one call or one [printf] of a process;
    [sleep] says nothing about the order of steps.  Calls on the semaphore do not
    fail. *)

From S2P Require Import Prelude.

Definition TRY_COUNT : nat := 5.

(** How the parent takes the semaphore: the two programs. *)
Inductive taking := Blocking | Trying.

(** The child: before its first [printf]; before [sem_wait]; before [sleep] and the
    second [printf]; before [sem_post]; before [sem_close]; returned. *)
Inductive child_pc := CBegin | CWait | CWork | CPost | CClose | CGone.

(** The parent: before its first [printf]; before [sem_wait], or before a
    [sem_trywait] with [try_count] tries left; with the semaphore, before
    [printf]; before [sem_post]; before the message after it; before [sem_close];
    before [wait]; before the last [printf]; before [sem_unlink]; returned with
    success or failure.  After the last try: before [sem_close]; before
    [sem_unlink]. *)
Inductive parent_pc :=
| PBegin | PTake (try_count : nat) | PHave | PPost | PPosted | PClose | PJoin | PJoined | PUnlink
| PGaveUp | PGaveUpUnlink | PGone (success : bool).

Inductive speaker := Child | Parent.

#[export] Instance child_pc_eq_dec : EqDecision child_pc.
Proof. solve_decision. Defined.

#[export] Instance speaker_eq_dec : EqDecision speaker.
Proof. solve_decision. Defined.

(** The line ["Child process (PID n): text"], or the parent's. *)
Definition line : Type := speaker * string.

#[export] Instance line_eq_dec : EqDecision line.
Proof. unfold line. apply _. Defined.

Record pstate := PState {
  child : child_pc;
  parent : parent_pc;
  value : nat;
  named : bool;
  output : list line;
}.

Section Semaphore.
Context (how : taking).

Definition child_says (text : string) : line := (Child, text).
Definition parent_says (text : string) : line := (Parent, text).

Definition got_it : line :=
  parent_says (match how with Blocking => "Done sem_wait" | Trying => "Done waiting" end).
Definition child_over : line :=
  parent_says (match how with Blocking => "Done waiting." | Trying => "Child completed." end).
(** Only sem_trywait says something between [sem_post] and [sem_close]. *)
Definition after_post : list line :=
  match how with
  | Blocking => []
  | Trying => [parent_says "Child signaled. Continue processing..."]
  end.

Inductive pstep : pstate -> pstate -> Prop :=
| c_begin q v n o :
    pstep (PState CBegin q v n o) (PState CWait q v n (o ++ [child_says "Simulating some work..."]))
| c_wait q v n o :
    pstep (PState CWait q (S v) n o) (PState CWork q v n o)
| c_work q v n o :
    pstep (PState CWork q v n o) (PState CPost q v n (o ++ [child_says "Done work."]))
| c_post q v n o :
    pstep (PState CPost q v n o) (PState CClose q (S v) n o)
| c_close q v n o :
    pstep (PState CClose q v n o) (PState CGone q v n o)
| p_begin c v n o :
    pstep (PState c PBegin v n o)
          (PState c (PTake TRY_COUNT) v n
             (o ++ [parent_says "Waiting for the child to complete..."]))
| p_take k c v n o :
    pstep (PState c (PTake (S k)) (S v) n o) (PState c PHave v n o)
| p_retry k c n o :
    how = Trying ->
    pstep (PState c (PTake (S (S k))) 0 n o)
          (PState c (PTake (S k)) 0 n (o ++ [parent_says "Child not ready. Retrying..."]))
| p_last_try c n o :
    how = Trying -> pstep (PState c (PTake 1) 0 n o) (PState c PGaveUp 0 n o)
| p_have c v n o :
    pstep (PState c PHave v n o) (PState c PPost v n (o ++ [got_it]))
| p_post c v n o :
    pstep (PState c PPost v n o) (PState c PPosted (S v) n o)
| p_posted c v n o :
    pstep (PState c PPosted v n o) (PState c PClose v n (o ++ after_post))
| p_close c v n o :
    pstep (PState c PClose v n o) (PState c PJoin v n o)
| p_join v n o :
    pstep (PState CGone PJoin v n o) (PState CGone PJoined v n o)
| p_joined c v n o :
    pstep (PState c PJoined v n o) (PState c PUnlink v n (o ++ [child_over]))
| p_unlink c v n o :
    pstep (PState c PUnlink v n o) (PState c (PGone true) v false o)
| p_gave_up c v n o :
    pstep (PState c PGaveUp v n o) (PState c PGaveUpUnlink v n o)
| p_gave_up_unlink c v n o :
    pstep (PState c PGaveUpUnlink v n o) (PState c (PGone false) v false o).

(** After [sem_open(sem_name, O_CREAT | O_EXCL, S_IRUSR | S_IWUSR, 1)] and [fork]. *)
Definition pinitial : pstate := PState CBegin PBegin 1 true [].

Definition both_gone (s : pstate) : Prop := child s = CGone /\ exists b, parent s = PGone b.

(** ** Invariants *)

Definition child_inside (c : child_pc) : nat :=
  match c with CWork | CPost => 1 | _ => 0 end.
Definition parent_inside (q : parent_pc) : nat :=
  match q with PHave | PPost => 1 | _ => 0 end.

(** What the parent has said of its tries. *)
Definition retries (o : list line) : nat :=
  length (filter (eq (parent_says "Child not ready. Retrying...")) o).

(** What the position of the child says of its lines. *)
Definition child_ok (s : pstate) : Prop :=
  match child s with
  | CPost | CClose | CGone => child_says "Done work." ∈ output s
  | _ => True
  end.

Definition joined (s : pstate) : Prop :=
  named s = true /\ child s = CGone.

(** The last line came after the child's. *)
Definition over (o : list line) : Prop :=
  exists l, o = l ++ [child_over] /\ child_says "Done work." ∈ l.

Definition parent_ok (s : pstate) : Prop :=
  match parent s with
  | PBegin => named s = true /\ retries (output s) = 0%nat
  | PTake k => named s = true /\ (1 <= k <= TRY_COUNT)%nat /\
               (retries (output s) + k = TRY_COUNT)%nat
  | PHave | PPost | PPosted | PClose | PJoin => named s = true
  | PJoined => joined s
  | PUnlink => joined s /\ over (output s)
  | PGone true => named s = false /\ child s = CGone /\ over (output s)
  | PGaveUp | PGaveUpUnlink => named s = true /\ how = Trying /\ S (retries (output s)) = TRY_COUNT
  | PGone false => named s = false /\ how = Trying /\ S (retries (output s)) = TRY_COUNT
  end.

Definition pinv (s : pstate) : Prop :=
  (value s + child_inside (child s) + parent_inside (parent s) = 1)%nat /\
  child_ok s /\ parent_ok s.

Lemma retries_app o l : retries (o ++ l) = (retries o + retries l)%nat.
Proof. unfold retries. by rewrite list.filter_app, length_app. Qed.

Lemma retries_says : retries [parent_says "Child not ready. Retrying..."] = 1%nat.
Proof. reflexivity. Qed.

Lemma child_ok_app c q v n o q' v' n' l :
  child_ok (PState c q v n o) -> child_ok (PState c q' v' n' (o ++ l)).
Proof. unfold child_ok. simpl. destruct c; try done; intros Hc; apply elem_of_app; by left. Qed.

Lemma child_ok_same c q v n o q' v' n' :
  child_ok (PState c q v n o) -> child_ok (PState c q' v' n' o).
Proof. done. Qed.

(** The child says nothing the parent counts, and nothing after its end. *)
Lemma parent_ok_child c c' q v v' n o l :
  parent_ok (PState c q v n o) -> c <> CGone -> retries l = 0%nat ->
  parent_ok (PState c' q v' n (o ++ l)).
Proof.
  unfold parent_ok, joined. simpl. intros Hp Hc Hl.
  destruct q as [| | | | | | | | | | |[]]; rewrite ?retries_app, ?Hl, ?Nat.add_0_r; try done;
    naive_solver.
Qed.

Lemma parent_ok_quiet c c' q v v' n o :
  parent_ok (PState c q v n o) -> c <> CGone -> parent_ok (PState c' q v' n o).
Proof.
  intros Hp Hc. rewrite <- (app_nil_r o). by eapply parent_ok_child.
Qed.

Lemma pinv_step s s' : pinv s -> pstep s s' -> pinv s'.
Proof.
  intros (Hv & Hc & Hp) Hs. destruct Hs; simpl in *; (split; [simpl in *; lia|]).
  - split; [done|by eapply parent_ok_child].
  - split; [done|by eapply parent_ok_quiet].
  - split; [|by eapply parent_ok_child]. apply elem_of_app. right. by left.
  - split; [done|by eapply parent_ok_quiet].
  - split; [done|by eapply parent_ok_quiet].
  - split; [by eapply child_ok_app|]. unfold parent_ok, TRY_COUNT in *. simpl in *.
    rewrite retries_app. destruct Hp as [? ->]. simpl. split_and!; [done|lia..].
  - split; [done|]. unfold parent_ok in *. simpl in *. tauto.
  - split; [by eapply child_ok_app|]. unfold parent_ok, TRY_COUNT in *. simpl in *.
    destruct Hp as (Hn & Hk & Hr). rewrite retries_app, retries_says. by split_and!; [|lia..].
  - split; [done|]. unfold parent_ok in *. simpl in *. split_and!; [tauto|done|lia].
  - split; [by eapply child_ok_app|done].
  - by split.
  - split; [by eapply child_ok_app|done].
  - by split.
  - split; [done|]. by split.
  - split; [by eapply child_ok_app|]. unfold parent_ok, joined, child_ok in *. simpl in *.
    destruct Hp as [? ->]. split; [done|]. by exists o.
  - split; [done|]. unfold parent_ok, joined in *. simpl in *. tauto.
  - by split.
  - split; [done|]. unfold parent_ok in *. simpl in *. tauto.
Qed.

Lemma pinv_initial : pinv pinitial.
Proof. by split. Qed.

Lemma preachable s : run pstep pinitial s -> pinv s.
Proof. intros Hr. eapply (run_invariant _ pinv); [apply pinv_step|apply pinv_initial|done]. Qed.

(** ** Progress and termination *)

Definition child_left (c : child_pc) : nat :=
  match c with CBegin => 5 | CWait => 4 | CWork => 3 | CPost => 2 | CClose => 1 | CGone => 0 end.

Definition parent_left (q : parent_pc) : nat :=
  match q with
  | PBegin => 9 + TRY_COUNT | PTake k => 8 + k | PHave => 7 | PPost => 6 | PPosted => 5
  | PClose => 4 | PJoin => 3 | PJoined => 2 | PUnlink => 1
  | PGaveUp => 2 | PGaveUpUnlink => 1 | PGone _ => 0
  end.

Definition both_left (s : pstate) : nat := child_left (child s) + parent_left (parent s).

Lemma pstep_left s s' : pstep s s' -> (both_left s' < both_left s)%nat.
Proof. destruct 1; unfold both_left; simpl; lia. Qed.

Lemma child_moves c q v n o :
  c <> CGone -> c <> CWait \/ (0 < v)%nat -> exists s', pstep (PState c q v n o) s'.
Proof.
  intros Hc Hv. destruct c; try done; try (eexists; constructor).
  destruct v; [by destruct Hv; [|lia]|]. eexists. constructor.
Qed.

Lemma pprogress s : pinv s -> both_gone s \/ exists s', pstep s s'.
Proof.
  intros (Hv & Hc & Hp). destruct s as [c q v n o]. simpl in *.
  destruct (decide (parent_inside q = 0%nat)) as [Hq|Hq].
  2: { right. destruct q; try done; eexists; constructor. }
  assert (c <> CGone -> exists s', pstep (PState c q v n o) s') as Hm.
  { intros Hg. apply child_moves; [done|]. destruct c; try (by left). right. simpl in Hv. lia. }
  destruct (decide (c = CGone)) as [->|Hg]; [|by right; apply Hm].
  assert (v = 1%nat) as -> by (simpl in Hv; lia).
  destruct q as [|k| | | | | | | | | |b]; try done; try (right; eexists; by constructor).
  - destruct Hp as (_ & Hk & _). right. destruct k as [|k]; [lia|]. eexists. constructor.
  - left. split; [done|]. by exists b.
Qed.
End Semaphore.

(** ** The property *)

(** C19: the two programs.  Every run ends; when none of the two processes can move,
    both have returned, the semaphore has its first value and its name is removed.
    Child and parent never work with the semaphore at the same time.  The parent
    that waits always succeeds, and its last line comes after the child's; the one
    that tries gives up only after it found the semaphore taken [TRY_COUNT] times,
    and then has not waited for the child. *)
Theorem semaphore_programs_end (how : taking) :
  (forall k s, nrun (pstep how) k pinitial s -> (k <= 19)%nat) /\
  (forall s, run (pstep how) pinitial s ->
     ~ (child_inside (child s) = 1%nat /\ parent_inside (parent s) = 1%nat)) /\
  (forall s, run (pstep how) pinitial s -> stuck (pstep how) s ->
     both_gone s /\ value s = 1%nat /\ named s = false /\
     (parent s = PGone true -> over how (output s)) /\
     (parent s = PGone false -> how = Trying /\ S (retries (output s)) = TRY_COUNT)).
Proof.
  split_and!.
  - intros k s Hk.
    pose proof (nrun_bounded (pstep how) (fun _ => True) both_left k pinitial s) as Hb.
    specialize (Hb ltac:(intros ? ? _ Hs; split; [done|by eapply pstep_left]) I Hk).
    change (both_left pinitial) with 19%nat in Hb. lia.
  - intros s Hr [Hc Hq]. destruct (preachable how s Hr) as [Hv _]. lia.
  - intros s Hr Hs. destruct (preachable how s Hr) as (Hv & Hc & Hp).
    destruct (pprogress how s (preachable how s Hr)) as [[Eg [b Eb]]|[s' Hst]]; [|by destruct (Hs s')].
    unfold parent_ok in Hp. rewrite Eg, Eb in Hv, Hp. simpl in Hv.
    split_and!; [by split; [|by exists b]|lia| | |].
    + by destruct b, Hp.
    + intros E. rewrite Eb in E. simplify_eq. by destruct Hp as (_ & _ & ?).
    + intros E. rewrite Eb in E. simplify_eq. by destruct Hp.
Qed.

(** The [sleep] calls alone make the parent wait for the child's work: it can take
    the semaphore, and say so, before the child has begun. *)
Lemma parent_may_be_first (how : taking) :
  exists s, run (pstep how) pinitial s /\ child s = CBegin /\ got_it how ∈ output s.
Proof.
  eexists. split; [|split; [|]].
  - eapply run_step; [apply p_begin|]. eapply run_step; [apply p_take|].
    eapply run_step; [apply p_have|]. apply run_refl.
  - done.
  - simpl. right. left.
Qed.
