(* ===== verification/TimedWait.v ===== *)
(** * A wait with a time limit

    [src/pthread-condition/pthread_cond_timedwait/main.c]: a thread sleeps and then
    signals; [main] waits for the signal until a moment of the clock, says what the
    call returned and joins the thread.  The two are a transition system with a clock:
    before every step any time may pass.  [pthread_create] may fail, which [main] does
    not look at; the sum of the clock and the operand may leave [time_t]. *)

From S2P Require Import Prelude CMonad CString Getopt ArgParse OptionPrograms.

Definition ETIMEDOUT : Z := 110.
(** Nanoseconds of a second. *)
Definition second : Z := 1000000000.

(** ** The threads *)

(** [main]: before [pthread_create], [clock_gettime], the addition, [lock], the wait;
    blocked in it; woken with a result and waiting for the mutex; before [unlock],
    [printf], [join], the two [destroy]; after them; after something undefined. *)
Inductive main_pc :=
| MCreate | MClock | MAdd | MLock | MWait | MBlocked | MRelock (result : Z)
| MUnlock (result : Z) | MReport (result : Z) | MJoin | MDestroyMutex | MDestroyCond
| MDone | MUndef.

(** The thread: not created; before [sleep_time = *arg], [printf], [sleep]; asleep;
    before [lock], [signal], [unlock]; after it. *)
Inductive thread_pc :=
| TNone | TRead | TSay | TSleep | TAsleep (until : Z) | TLock | TSignal | TUnlock | TEnd.

Inductive thread := Main | Sleeper.

Record tstate := TState {
  now : Z;                  (* the clock, in nanoseconds *)
  abs_timeout : Z;
  mpc : main_pc;
  tpc : thread_pc;
  mutex : option thread;
  lines : list string;
}.

(** What [main] says of the result. *)
Definition report (result : Z) : string :=
  if result =? 0 then ln "Condition variable signaled before timeout."
  else if result =? ETIMEDOUT then ln "Timeout occurred. Condition variable was not signaled."
  else ln "Error while waiting for the condition variable.".

Definition sleep_line (seconds : Z) : string :=
  ln ("Thread will sleep for " +:+ fmt_u seconds +:+ " seconds.").

(** [pthread_cond_signal] *)
Definition signal (q : main_pc) : main_pc :=
  match q with MBlocked => MRelock 0 | _ => q end.

(** [abs_timeout.tv_sec += main_seconds] stays in [time_t]. *)
Definition fits (abs_timeout main_seconds : Z) : bool :=
  (LONG_MIN <=? abs_timeout / second + main_seconds) && (abs_timeout / second + main_seconds <=? LONG_MAX).

Section Steps.
Context (spurious : bool) (main_seconds thread_seconds : Z).

(** What one of the two does at a moment. *)
Inductive acts : tstate -> tstate -> Prop :=
| m_create n a x o : acts (TState n a MCreate TNone x o) (TState n a MClock TRead x o)
| m_create_fails n a x o : acts (TState n a MCreate TNone x o) (TState n a MClock TNone x o)
| m_clock n a t x o : acts (TState n a MClock t x o) (TState n n MAdd t x o)
| m_add n a t x o :
    acts (TState n a MAdd t x o)
      (if fits a main_seconds then TState n (a + main_seconds * second) MLock t x o
       else TState n a MUndef t x o)
| m_lock n a t o : acts (TState n a MLock t None o) (TState n a MWait t (Some Main) o)
| m_wait n a t x o : acts (TState n a MWait t x o) (TState n a MBlocked t None o)
| m_timeout n a t x o :
    a <= n -> acts (TState n a MBlocked t x o) (TState n a (MRelock ETIMEDOUT) t x o)
| m_spurious n a t x o :
    spurious = true -> acts (TState n a MBlocked t x o) (TState n a (MRelock 0) t x o)
| m_relock n a r t o : acts (TState n a (MRelock r) t None o) (TState n a (MUnlock r) t (Some Main) o)
| m_unlock n a r t x o : acts (TState n a (MUnlock r) t x o) (TState n a (MReport r) t None o)
| m_report n a r t x o : acts (TState n a (MReport r) t x o) (TState n a MJoin t x (o ++ [report r]))
| m_join n a x o : acts (TState n a MJoin TEnd x o) (TState n a MDestroyMutex TEnd x o)
| m_join_garbage n a x o : acts (TState n a MJoin TNone x o) (TState n a MUndef TNone x o)
| m_destroy_mutex n a t o :
    acts (TState n a MDestroyMutex t None o) (TState n a MDestroyCond t None o)
| m_destroy_cond n a t x o : acts (TState n a MDestroyCond t x o) (TState n a MDone t x o)
| t_read n a q x o : acts (TState n a q TRead x o) (TState n a q TSay x o)
| t_say n a q x o : acts (TState n a q TSay x o) (TState n a q TSleep x (o ++ [sleep_line thread_seconds]))
| t_sleep n a q x o :
    acts (TState n a q TSleep x o) (TState n a q (TAsleep (n + thread_seconds * second)) x o)
| t_wake n a q u x o : u <= n -> acts (TState n a q (TAsleep u) x o) (TState n a q TLock x o)
| t_lock n a q o : acts (TState n a q TLock None o) (TState n a q TSignal (Some Sleeper) o)
| t_signal n a q x o : acts (TState n a q TSignal x o) (TState n a (signal q) TUnlock x o)
| t_unlock n a q x o : acts (TState n a q TUnlock x o) (TState n a q TEnd None o).

(** Time passes, then one of the two acts. *)
Definition wait_until (later : Z) (s : tstate) : tstate :=
  TState later (abs_timeout s) (mpc s) (tpc s) (mutex s) (lines s).
Definition tstep (s s' : tstate) : Prop :=
  exists later, now s <= later /\ acts (wait_until later s) s'.
End Steps.

(** [main] after [handle_arguments]. *)
Definition tinitial (n : Z) : tstate := TState n 0 MCreate TNone None [].

(** ** Invariants *)

Definition main_holds (q : main_pc) : bool :=
  match q with MWait | MUnlock _ => true | _ => false end.
Definition sleeper_holds (t : thread_pc) : bool :=
  match t with TSignal | TUnlock => true | _ => false end.

Definition lock_ok (s : tstate) : Prop :=
  match mutex s with
  | None => main_holds (mpc s) = false /\ sleeper_holds (tpc s) = false
  | Some Main => main_holds (mpc s) = true /\ sleeper_holds (tpc s) = false
  | Some Sleeper => main_holds (mpc s) = false /\ sleeper_holds (tpc s) = true
  end.

(** The thread has signalled. *)
Definition signalled (t : thread_pc) : bool :=
  match t with TUnlock | TEnd => true | _ => false end.
Definition said (t : thread_pc) : bool :=
  match t with TNone | TRead | TSay => false | _ => true end.

Section Invariant.
Context (spurious : bool) (main_seconds thread_seconds : Z).

(** A result tells what has happened. *)
Definition result_ok (s : tstate) (r : Z) : Prop :=
  (r = 0 /\ (spurious = false -> signalled (tpc s) = true)) \/
  (r = ETIMEDOUT /\ abs_timeout s <= now s).

(** [main] has reported [r]. *)
Definition reported (s : tstate) (r : option Z) : Prop :=
  match mpc s with
  | MCreate => tpc s = TNone /\ r = None
  | MRelock r' | MUnlock r' | MReport r' => result_ok s r' /\ r = None
  | MJoin => exists r', result_ok s r' /\ r = Some r'
  | MDestroyMutex | MDestroyCond | MDone => tpc s = TEnd /\ exists r', result_ok s r' /\ r = Some r'
  | MUndef =>
      (tpc s = TNone /\ exists r', result_ok s r' /\ r = Some r') \/
      (fits (abs_timeout s) main_seconds = false /\ r = None)
  | _ => r = None
  end.

Definition lines_ok (s : tstate) (r : option Z) : Prop :=
  lines s ≡ₚ (if said (tpc s) then [sleep_line thread_seconds] else []) ++ (report <$> option_list r).

Definition tinv (s : tstate) : Prop :=
  lock_ok s /\ exists r, reported s r /\ lines_ok s r.

Lemma tinv_later later s : now s <= later -> tinv s -> tinv (wait_until later s).
Proof.
  intros Hl (Hk & r & Hr & Ho). split; [exact Hk|]. exists r. split; [|exact Ho].
  assert (forall r, result_ok s r -> result_ok (wait_until later s) r) as Hm.
  { intros r' [?|[? ?]]; [by left|right; simpl; lia]. }
  unfold reported in *. simpl. destruct (mpc s); naive_solver.
Qed.
Lemma holder_step s s' : lock_ok s -> acts spurious main_seconds thread_seconds s s' -> lock_ok s'.
Proof.
  unfold lock_ok. intros Hl Hs. destruct Hs; simpl in *;
    try destruct (fits a main_seconds); simpl in *;
    try destruct x as [[|]|]; try destruct q; simpl in *; try done; intuition congruence.
Qed.

(** A thread that goes on keeps what the result tells. *)
Lemma result_ok_thread n a q q' t t' x x' o o' r :
  (signalled t = true -> signalled t' = true) ->
  result_ok (TState n a q t x o) r -> result_ok (TState n a q' t' x' o') r.
Proof. intros Ht [[-> Hr]|[-> Hr]]; [left|by right]. simpl in *. auto. Qed.

(** The thread does nothing that [main] has to report, except to wake it. *)
Lemma reported_thread n a q t t' x x' o o' r :
  t <> TNone -> t <> TEnd -> (signalled t = true -> signalled t' = true) ->
  reported (TState n a q t x o) r -> reported (TState n a q t' x' o') r.
Proof.
  intros H1 H2 Ht Hr. unfold reported in *. simpl in *.
  destruct q; try done; destruct_and?; destruct_or?; destruct_and?; try done;
    try (destruct Hr as [r' [Hr ->]]); eauto 6 using result_ok_thread.
Qed.

Lemma reported_step s s' r :
  acts spurious main_seconds thread_seconds s s' -> reported s r -> lines_ok s r ->
  exists r', reported s' r' /\ lines_ok s' r'.
Proof.
  intros Hs Hr Ho. destruct Hs; unfold lines_ok in *; simpl in *.
  all: try (exists r; split; [|done]).
  all: try (refine (reported_thread _ _ _ _ _ _ _ _ _ _ _ _ _ Hr); done).
  all: try (unfold reported, result_ok in *; simpl in *; naive_solver).
  - destruct (fits a main_seconds) eqn:Ef; exists r; (split; [|done]); [done|by right].
  - destruct Hr as [Hr ->]. exists (Some r0). split; [by eexists|]. simpl.
    by rewrite Ho, app_nil_r.
  - exists r. split; [by refine (reported_thread _ _ _ _ _ _ _ _ _ _ _ _ _ Hr)|].
    by rewrite Ho, Permutation_app_comm.
  - destruct q; try (refine (reported_thread _ _ _ _ _ _ _ _ _ _ _ _ _ Hr); done).
    split; [by left|done].
Qed.

Lemma tinv_step s s' : tinv s -> tstep spurious main_seconds thread_seconds s s' -> tinv s'.
Proof.
  intros Hi (later & Hl & Hs). destruct (tinv_later _ _ Hl Hi) as (Hk & r & Hr & Ho).
  split; [by eapply holder_step|by eapply reported_step].
Qed.

Lemma tinv_reachable n s :
  run (tstep spurious main_seconds thread_seconds) (tinitial n) s -> tinv s.
Proof.
  apply run_invariant; [intros; by eapply tinv_step|]. split; [done|]. exists None. split; [done|].
  by unfold lines_ok.
Qed.

(** ** Every run ends *)

(** The steps that are left. *)
Definition main_left (q : main_pc) : nat :=
  match q with
  | MCreate => 12 | MClock => 11 | MAdd => 10 | MLock => 9 | MWait => 8 | MBlocked => 7
  | MRelock _ => 6 | MUnlock _ => 5 | MReport _ => 4 | MJoin => 3 | MDestroyMutex => 2
  | MDestroyCond => 1 | MDone | MUndef => 0
  end.
Definition thread_left (t : thread_pc) : nat :=
  match t with
  | TNone => 8 | TRead => 7 | TSay => 6 | TSleep => 5 | TAsleep _ => 4 | TLock => 3 | TSignal => 2
  | TUnlock => 1 | TEnd => 0
  end.
Definition left (s : tstate) : nat := (main_left (mpc s) + thread_left (tpc s))%nat.

Lemma left_step s s' : tstep spurious main_seconds thread_seconds s s' -> (left s' < left s)%nat.
Proof.
  intros (later & _ & Hs). destruct s as [n a q t x o]. unfold left. simpl.
  inversion Hs; subst; simpl; try lia.
  - destruct (fits a main_seconds); simpl; lia.
  - destruct q; simpl; lia.
Qed.

(** Whoever is not at the end can go on, if time passes and the mutex is free or its
    own; a thread that holds the mutex can. *)
Definition can_go (s : tstate) : Prop := exists s', tstep false main_seconds thread_seconds s s'.

Lemma goes_now n a q t x o s' :
  acts false main_seconds thread_seconds (TState n a q t x o) s' -> can_go (TState n a q t x o).
Proof. intros Hs. exists s', n. by split; [simpl; lia|]. Qed.

Lemma tprogress s :
  tinv s -> mpc s = MUndef \/ (mpc s = MDone /\ tpc s = TEnd) \/ can_go s.
Proof.
  destruct s as [n a q t x o]. intros (Hk & r & Hr & _). unfold lock_ok, reported in *. simpl in *.
  assert (forall later s', n <= later -> acts false main_seconds thread_seconds (TState later a q t x o) s' ->
    can_go (TState n a q t x o)) as Hgo by (intros later s' Hl Hs; exists s', later; by split).
  destruct x as [[|]|].
  - right; right. destruct Hk as [Hq _]. destruct q; try done; eapply (Hgo n); [lia|constructor|lia|constructor].
  - right; right. destruct Hk as [_ Ht]. destruct t; try done; eapply (Hgo n); [lia|constructor|lia|constructor].
  - destruct Hk as [Hq Ht].
    destruct t as [| | | |u| | | |]; try done;
      try (right; right; eapply (Hgo n); [lia|constructor]; fail);
      try (right; right; apply (Hgo (Z.max n u)) with (s' := TState (Z.max n u) a q TLock None o);
           [lia|constructor; lia]; fail).
    all: destruct q; try done; try (by left); try (by right; left);
      try (by destruct Hr);
      try (right; right; eapply (Hgo n); [lia|constructor]; fail).
    all: right; right; eapply (Hgo (Z.max n a)); [lia|apply m_timeout; lia].
Qed.
End Invariant.

(** ** What the report means *)

(** The signal came while [main] was blocked in the wait. *)
Definition woken_by_signal (spurious : bool) (main_seconds thread_seconds n : Z) (s : tstate) : Prop :=
  exists s1 s2, run (tstep spurious main_seconds thread_seconds) (tinitial n) s1 /\
    mpc s1 = MBlocked /\ tpc s1 = TSignal /\
    tstep spurious main_seconds thread_seconds s1 s2 /\ tpc s2 = TUnlock /\
    run (tstep spurious main_seconds thread_seconds) s2 s.

(** The limit is the clock as [main] read it, after the start, and the operand. *)
Definition timed (main_seconds n : Z) (s : tstate) : Prop :=
  n <= now s /\
  match mpc s with
  | MCreate | MClock => True
  | MAdd => n <= abs_timeout s <= now s
  | MUndef => True
  | _ => exists c, n <= c <= now s /\ abs_timeout s = c + main_seconds * second
  end.

(** [main] has, or will give, the report of the signal. *)
Definition told_signal (s : tstate) : Prop :=
  match mpc s with
  | MRelock r | MUnlock r | MReport r => r = 0
  | _ => report 0 ∈ lines s
  end.
(** And no other. *)
Definition only_signal (s : tstate) : Prop :=
  told_signal s /\
  match mpc s with
  | MRelock _ | MUnlock _ | MReport _ | MJoin | MDestroyMutex | MDestroyCond | MDone | MUndef => True
  | _ => False
  end.

Lemma report_zero r : report 0 = report r -> r = 0.
Proof.
  unfold report. destruct (Z.eqb_spec r 0); [done|]. simpl. by case_match.
Qed.

Lemma not_sleep_line r seconds : report r <> sleep_line seconds.
Proof. unfold report. by repeat case_match. Qed.

Section Meaning.
Context (spurious : bool) (main_seconds thread_seconds n : Z).
Local Abbreviation steps := (tstep spurious main_seconds thread_seconds).

Lemma timed_later later s :
  now s <= later -> timed main_seconds n s -> timed main_seconds n (wait_until later s).
Proof using Type.
  destruct s as [m a q t x o]. unfold timed. simpl. intros Hl [Hn Ht]. split; [lia|].
  destruct q; try done; try lia; destruct Ht as (c & Hc & ->); exists c; (split; [lia|done]).
Qed.

Lemma timed_acts s s' :
  acts spurious main_seconds thread_seconds s s' -> timed main_seconds n s -> timed main_seconds n s'.
Proof.
  intros Hs. destruct Hs; unfold timed; simpl; try done.
  - intros [Hn _]. split; [done|lia].
  - intros [Hn Ha]. destruct (fits a main_seconds); simpl; (split; [done|]); [by exists a|done].
  - tauto.
  - match goal with |- context [signal ?q] => by destruct q end.
Qed.

Lemma timed_reachable s : run steps (tinitial n) s -> timed main_seconds n s.
Proof.
  apply run_invariant; [|simpl; split; simpl; [lia|done]].
  intros s1 s2 Ht (later & Hl & Hs). eapply timed_acts; [exact Hs|]. by apply timed_later.
Qed.

(** [main] has reported nothing before its report. *)
Lemma no_report_yet s :
  tinv spurious main_seconds thread_seconds s ->
  match mpc s with MJoin | MDestroyMutex | MDestroyCond | MDone | MUndef => False | _ => True end ->
  forall r, report r ∉ lines s.
Proof using Type.
  intros (_ & o & Hr & Ho) Hq r Hin. unfold reported in Hr.
  assert (o = None) as -> by (destruct (mpc s); naive_solver).
  rewrite Ho in Hin. simpl in Hin. rewrite app_nil_r in Hin. destruct (said (tpc s)).
  - apply list_elem_of_singleton in Hin. by apply not_sleep_line in Hin.
  - by apply elem_of_nil in Hin.
Qed.

(** Once the signal has come it is what [main] reports. *)
Lemma only_signal_step s s' : only_signal s -> steps s s' -> only_signal s'.
Proof.
  intros [Ht Hq] (later & _ & Hs). destruct s as [m a q t x o]. unfold only_signal, told_signal in *.
  simpl in *. inversion Hs; subst; simpl in *; try done.
  - split; [|done]. apply elem_of_app. right. rewrite Ht. apply list_elem_of_here.
  - destruct q; try done; (split; [|done]; apply elem_of_app; by left).
  - by destruct q.
Qed.

Lemma told_by_signal s :
  woken_by_signal spurious main_seconds thread_seconds n s -> told_signal s.
Proof.
  intros (s1 & s2 & _ & Hm & Ht & (later & _ & Hs) & Ht2 & Hr).
  enough (only_signal s2) as Ho by (by eapply run_invariant in Ho as [Ho _];
    [|intros ? ?; apply only_signal_step|exact Hr]).
  destruct s1 as [m a q t x o]. simpl in *. subst q t. inversion Hs; subst; try done.
Qed.

(** Without spurious wake-ups nothing else makes [main] report it. *)
Lemma signal_came s :
  spurious = false -> run steps (tinitial n) s -> told_signal s ->
  woken_by_signal spurious main_seconds thread_seconds n s.
Proof.
  intros Hsp Hr. enough (run steps (tinitial n) s /\
    (told_signal s -> woken_by_signal spurious main_seconds thread_seconds n s)) by tauto.
  pattern s. eapply run_invariant; [|split; [apply run_refl|]; by intros ?%elem_of_nil|exact Hr].
  clear s Hr. intros s s' [Hr Hw] Hs. split; [by eapply run_snoc|]. intros Ht.
  assert (told_signal s \/ (mpc s = MBlocked /\ tpc s = TSignal /\ tpc s' = TUnlock)) as [Hs0|(H1 & H2 & H3)].
  - pose proof (no_report_yet _ (tinv_reachable _ _ _ _ _ Hr)) as Hno.
    clear Hr Hw. destruct Hs as (later & _ & Hs). destruct s as [m a q t x o]. unfold told_signal in *.
    simpl in *. inversion Hs; subst; simpl in *; try (by left); try done.
    + left. by destruct (fits a main_seconds).
    + left. apply elem_of_app in Ht as [Ht|Ht%list_elem_of_singleton]; [|by apply report_zero].
      by apply Hno in Ht.
    + left. destruct q; try done; apply elem_of_app in Ht as [Ht|Ht%list_elem_of_singleton]; try done;
        by apply not_sleep_line in Ht.
    + destruct q; simpl in *; auto.
  - destruct (Hw Hs0) as (s1 & s2 & Hr1 & ? & ? & ? & ? & Hr2). exists s1, s2.
    split_and!; try done. by eapply run_snoc.
  - by exists s, s'.
Qed.
End Meaning.

(** ** Properties *)

(** Both have ended and have printed a line each.  [main] reports the signal, and
    then it came while [main] was blocked if wake-ups are not spurious; or that the
    time is over, and the clock is past the limit.  A signal that came while [main]
    was blocked is reported. *)
Definition ended (spurious : bool) (main_seconds thread_seconds n : Z) (s : tstate) : Prop :=
  let woken := woken_by_signal spurious main_seconds thread_seconds n s in
  mpc s = MDone /\ tpc s = TEnd /\ mutex s = None /\
  (exists c, n <= c <= now s /\ abs_timeout s = c + main_seconds * second) /\
  exists r, lines s ≡ₚ [sleep_line thread_seconds; report r] /\
    (r = 0 /\ (spurious = false -> woken) \/ r = ETIMEDOUT /\ abs_timeout s <= now s) /\
    (woken -> r = 0).

Lemma reports_signal seconds s r :
  lines s ≡ₚ [sleep_line seconds; report r] -> report 0 ∈ lines s -> r = 0.
Proof.
  intros -> [E|E%list_elem_of_singleton]%elem_of_cons; [by apply not_sleep_line in E|].
  by apply report_zero.
Qed.

Lemma ended_reachable spurious main_seconds thread_seconds n s :
  run (tstep spurious main_seconds thread_seconds) (tinitial n) s ->
  mpc s = MDone -> tpc s = TEnd -> ended spurious main_seconds thread_seconds n s.
Proof.
  intros Hrun Hm Ht. destruct (tinv_reachable _ _ _ _ _ Hrun) as (Hl & r & Hr & Ho).
  destruct (timed_reachable _ _ _ _ _ Hrun) as [_ Hd].
  unfold reported, lock_ok, lines_ok in *. rewrite Hm in *. rewrite Ht in *.
  destruct Hr as (_ & r' & Hr & ->). simpl in Ho.
  split_and!; [done|done|by destruct (mutex s) as [[|]|]; [destruct Hl..|]|done|].
  exists r'. split_and!; [done| |].
  - destruct Hr as [[-> _]|Hr]; [left|by right]. split; [done|]. intros Hsp.
    apply signal_came; [done..|]. unfold told_signal. rewrite Hm, Ho. right. apply list_elem_of_here.
  - intros Hw. eapply reports_signal; [exact Ho|]. apply told_by_signal in Hw.
    unfold told_signal in Hw. by rewrite Hm in Hw.
Qed.

(** C37: the program with a time limit.  The two are never both inside the mutex; every
    run makes at most 20 steps; and where it stops either [main] has joined a thread
    that was not created or computed a time beyond [time_t], or both have ended, with
    one line of the thread and one of [main].  A signal given while [main] is blocked
    in the wait is reported as the signal.  Without spurious wake-ups only such a
    signal is: [main] says that the condition variable was signaled exactly when the
    signal came while it was blocked, and otherwise (an earlier signal included) that
    the time is over, and then the clock is past the limit, which is the clock as
    [main] read it and the operand.  With spurious wake-ups [main] may say so without
    a signal.  Nobody waits for ever. *)
Theorem timedwait_ends (spurious : bool) (main_seconds thread_seconds n : Z) (s : tstate) :
  run (tstep spurious main_seconds thread_seconds) (tinitial n) s ->
  ~ (main_holds (mpc s) = true /\ sleeper_holds (tpc s) = true) /\
  (forall k s', nrun (tstep spurious main_seconds thread_seconds) k s s' -> (k <= 20)%nat) /\
  (stuck (tstep false main_seconds thread_seconds) s ->
     ended spurious main_seconds thread_seconds n s \/
     (mpc s = MUndef /\ (tpc s = TNone \/ fits (abs_timeout s) main_seconds = false))).
Proof.
  intros Hrun. pose proof (tinv_reachable _ _ _ _ _ Hrun) as Hr. split_and!.
  - destruct Hr as [Hl _]. unfold lock_ok in Hl. destruct (mutex s) as [[|]|]; intuition congruence.
  - intros k s' Hk. eapply nrun_bounded with (I := fun _ => True) (m := left) in Hk; [|by eauto using left_step|done].
    assert (left s <= 20)%nat; [|lia]. unfold left. destruct (mpc s), (tpc s); simpl; lia.
  - intros Hs. destruct (tprogress _ _ _ _ Hr) as [Hu|[[Hm Ht]|[s' Hs']]]; [right|left|by destruct (Hs s')];
      destruct Hr as (Hl & r & Hr & Ho); unfold reported, lock_ok, lines_ok in *.
    + rewrite Hu in Hr. split; [done|]. destruct Hr as [[? _]|[? _]]; auto.
    + by eapply ended_reachable.
Qed.

Ltac one_step rule :=
  eapply run_step; [eexists; split; [simpl; reflexivity|eapply rule]|];
  cbn [tinitial now abs_timeout mpc tpc mutex lines wait_until signal].

(** A run in which the signal comes while [main] waits; the clock stands at 5. *)
Definition signalled_end : tstate :=
  TState 5 (5 + 1 * second) MDone TEnd None ([sleep_line 0] ++ [report 0]).

Lemma run_signalled : run (tstep false 1 0) (tinitial 5) signalled_end.
Proof.
  assert (fits 5 1 = true) as Hf by (by vm_compute).
  one_step m_create. one_step t_read. one_step t_say. one_step t_sleep. one_step m_clock.
  one_step m_add. rewrite Hf. one_step m_lock. one_step m_wait.
  eapply run_step; [exists 5; split; [simpl; lia|apply t_wake; lia]|].
  one_step t_lock. one_step t_signal. one_step t_unlock. one_step m_relock. one_step m_unlock.
  one_step m_report. one_step m_join. one_step m_destroy_mutex.
  apply run_one. exists 5. split; [simpl; lia|apply m_destroy_cond].
Qed.

Lemma timedwait_ends_witness :
  stuck (tstep false 1 0) signalled_end /\
  woken_by_signal false 1 0 5 signalled_end.
Proof.
  assert (stuck (tstep false 1 0) signalled_end) as Hs
    by (intros s' (later & _ & Hs); inversion Hs).
  split; [exact Hs|].
  destruct (timedwait_ends false 1 0 5 signalled_end run_signalled) as (_ & _ & He).
  destruct (He Hs) as [(_ & _ & _ & _ & r & Hl & [[_ Hw]|[-> _]] & _)|[[=] _]]; [by apply Hw|].
  exfalso. assert (ETIMEDOUT = 0) as [=]. eapply reports_signal; [exact Hl|]. right. left.
Defined.

(** Before [main] waits, or after it has waited in vain. *)
Definition unheard (q : main_pc) : Prop :=
  match q with
  | MRelock r | MUnlock r | MReport r => r = ETIMEDOUT
  | _ => True
  end.
Definition waits_in_vain (s : tstate) : Prop :=
  signalled (tpc s) = true /\ unheard (mpc s) /\ report 0 ∉ lines s.

(** A signal given before [main] waits is lost: [main] says that the condition variable
    was not signaled, although it was. *)
Theorem early_signal_is_lost (main_seconds thread_seconds : Z) (s s' : tstate) :
  waits_in_vain s ->
  run (tstep false main_seconds thread_seconds) s s' ->
  waits_in_vain s'.
Proof.
  intros Hi. apply run_invariant; [|done]. clear. intros s s' (Ht & Hq & Ho) (later & _ & Hs).
  destruct s as [n a q t x o]. unfold waits_in_vain. simpl in *.
  inversion Hs; subst; simpl in *; try done.
  - by destruct (fits a main_seconds).
  - split_and!; [done..|]. rewrite elem_of_app, list_elem_of_singleton. intros [?|E]; [done|]. rewrite Hq in E. discriminate E.
Qed.

(** It happens: the thread can be through before [main] has looked at the clock. *)
Theorem signal_can_be_lost (main_seconds thread_seconds n : Z) :
  0 <= thread_seconds ->
  exists s, run (tstep false main_seconds thread_seconds) (tinitial n) s /\
    waits_in_vain s /\ mpc s = MClock /\ tpc s = TEnd /\ lines s = [sleep_line thread_seconds].
Proof.
  intros Ht. eexists. split.
  - one_step m_create. one_step t_read. one_step t_say. one_step t_sleep.
    eapply run_step.
    { exists (n + thread_seconds * second). split; [simpl; unfold second; lia|apply t_wake; lia]. }
    one_step t_lock. one_step t_signal. one_step t_unlock. apply run_refl.
  - unfold waits_in_vain. simpl. split_and!; [done..| |done|done|done].
    rewrite list_elem_of_singleton. done.
Qed.

(** A spurious wake-up is reported as the signal, while the thread is asleep. *)
Theorem spurious_is_reported (main_seconds thread_seconds n : Z) :
  fits n main_seconds = true ->
  exists s, run (tstep true main_seconds thread_seconds) (tinitial n) s /\
    tpc s = TAsleep (n + thread_seconds * second) /\ lines s = [sleep_line thread_seconds; report 0].
Proof.
  intros Hf. eexists. split.
  - one_step m_create. one_step t_read. one_step t_say. one_step t_sleep. one_step m_clock.
    one_step m_add. simpl. rewrite Hf. one_step m_lock. one_step m_wait.
    eapply run_step; [eexists; split; [simpl; reflexivity|by apply m_spurious]|].
    one_step m_relock. one_step m_unlock. one_step m_report. apply run_refl.
  - done.
Qed.
