(* ===== verification/Threads.v ===== *)
(** * Threads that are created and joined

    src/pthread: pthread_create-pthread_join, pthread_equal, pthread_exit and
    pthread_self.  A thread is what it still has to do; the threads of a process take
    their steps in any order.  [pthread_create] and [malloc] may fail.  One theorem
    holds for the four programs: every run ends, the lines of each thread are those of
    its function, and [main] ends when all threads have. *)

From S2P Require Import Prelude CMonad CString.

(** ** The machine *)

(** The variables of a thread: its number, the [pthread_t] in the order of the calls
    of [pthread_create] ([None]: the call failed and stored nothing), and what the
    last [pthread_join] stored. *)
Record frame := Frame { me : nat; handles : list (option nat); joined : option Z }.

(** A text is undefined when it needs a variable without a value. *)
Inductive instr :=
| Create (body : list instr) (checked : option string)  (* [perror] and [return 1] on failure *)
| Join (slot : nat)
| Say (text : frame -> option string)
| Nap (seconds : Z)
| Alloc (msg : string)                                  (* [perror] and [exit] on failure *)
| Result (value : Z)                                    (* what the result points to *)
| Free.                                                 (* of what was joined last *)

Record thread := Thread { code : list instr; vars : frame; result : option Z }.

Inductive ending := Returned (status : Z) | Undefined.

(** The threads by number, [main] first; the lines, each with who wrote it. *)
Record pool := Pool { threads : list thread; output : list (nat * string); over : option ending }.

Definition with_handle (h : option nat) (f : frame) : frame :=
  Frame (me f) (handles f ++ [h]) (joined f).
Definition with_joined (r : option Z) (f : frame) : frame := Frame (me f) (handles f) r.

Inductive pstep : pool -> pool -> Prop :=
| p_create i ts o b ck c f r :
    ts !! i = Some (Thread (Create b ck :: c) f r) ->
    pstep (Pool ts o None)
      (Pool (<[i := Thread c (with_handle (Some (length ts)) f) r]> ts ++
             [Thread b (Frame (length ts) [] None) None]) o None)
| p_create_fails i ts o b c f r :
    ts !! i = Some (Thread (Create b None :: c) f r) ->
    pstep (Pool ts o None) (Pool (<[i := Thread c (with_handle None f) r]> ts) o None)
| p_create_reported i ts o b msg c f r :
    ts !! i = Some (Thread (Create b (Some msg) :: c) f r) ->
    pstep (Pool ts o None) (Pool ts (o ++ [(i, msg)]) (Some (Returned 1)))
| p_join i j ts o k c f r fj rj :
    ts !! i = Some (Thread (Join k :: c) f r) ->
    handles f !! k = Some (Some j) -> ts !! j = Some (Thread [] fj rj) ->
    pstep (Pool ts o None) (Pool (<[i := Thread c (with_joined rj f) r]> ts) o None)
| p_join_garbage i ts o k c f r :
    ts !! i = Some (Thread (Join k :: c) f r) ->
    handles f !! k = Some None \/ handles f !! k = None ->
    pstep (Pool ts o None) (Pool ts o (Some Undefined))
| p_say i ts o text l c f r :
    ts !! i = Some (Thread (Say text :: c) f r) -> text f = Some l ->
    pstep (Pool ts o None) (Pool (<[i := Thread c f r]> ts) (o ++ [(i, l)]) None)
| p_say_garbage i ts o text c f r :
    ts !! i = Some (Thread (Say text :: c) f r) -> text f = None ->
    pstep (Pool ts o None) (Pool ts o (Some Undefined))
| p_nap i ts o n c f r :
    ts !! i = Some (Thread (Nap n :: c) f r) ->
    pstep (Pool ts o None) (Pool (<[i := Thread c f r]> ts) o None)
| p_alloc i ts o msg c f r :
    ts !! i = Some (Thread (Alloc msg :: c) f r) ->
    pstep (Pool ts o None) (Pool (<[i := Thread c f r]> ts) o None)
| p_alloc_fails i ts o msg c f r :
    ts !! i = Some (Thread (Alloc msg :: c) f r) ->
    pstep (Pool ts o None) (Pool ts (o ++ [(i, msg)]) (Some (Returned EXIT_FAILURE)))
| p_result i ts o v c f r :
    ts !! i = Some (Thread (Result v :: c) f r) ->
    pstep (Pool ts o None) (Pool (<[i := Thread c f (Some v)]> ts) o None)
| p_free i ts o c f r v :
    ts !! i = Some (Thread (Free :: c) f r) -> joined f = Some v ->
    pstep (Pool ts o None) (Pool (<[i := Thread c (with_joined None f) r]> ts) o None)
| p_free_garbage i ts o c f r :
    ts !! i = Some (Thread (Free :: c) f r) -> joined f = None ->
    pstep (Pool ts o None) (Pool ts o (Some Undefined))
| p_return ts o f r :
    ts !! 0%nat = Some (Thread [] f r) ->
    pstep (Pool ts o None) (Pool ts o (Some (Returned EXIT_SUCCESS))).

Definition pinitial (main : list instr) : pool := Pool [Thread main (Frame 0 [] None) None] [] None.

(** ** The programs *)

Definition say (l : string) : instr := Say (fun _ => Some (ln l)).

(** [src/pthread/pthread_create-pthread_join/main.c] *)
Module CreateJoin.
Definition NUMBERS_LEN : nat := 5.

(** [for(int i = 1; i <= NUMBERS_LEN; ++i)] *)
Definition print_numbers : list instr :=
  concat ((fun i => [say ("Thread: " +:+ fmt_d (Z.of_nat i)); Nap 1]) <$> seq 1 NUMBERS_LEN).

Definition main : list instr :=
  [ Create print_numbers (Some "Thread creation failed");
    say "Main is working"; Nap 2;
    say "Main is still working"; Nap 2;
    say "Main is done working, waiting for the thread to finish";
    Join 0;
    say "Thread execution completed." ].
End CreateJoin.

(** [src/pthread/pthread_equal/main.c] *)
Module Equal.
Definition thread_function : list instr := [].

(** The two handles, and what is said of them. *)
Definition pthread_equal (a b : frame -> option nat) (name : string) : instr :=
  Say (fun f =>
    match a f, b f with
    | Some i, Some j =>
        Some (ln ("Thread 1 and " +:+ name +:+ (if (i =? j)%nat then " have the same thread ID."
                                              else " have different thread IDs.")))
    | _, _ => None
    end).

Definition handle (k : nat) (f : frame) : option nat := mjoin (handles f !! k).

Definition main : list instr :=
  [ Create thread_function None; Create thread_function None;
    pthread_equal (handle 0) (handle 0) "Thread 1";
    pthread_equal (handle 0) (handle 1) "Thread 2";
    pthread_equal (handle 0) (fun f => Some (me f)) "the main thread";
    Join 0; Join 1; say "Main thread is done." ].
End Equal.

(** [src/pthread/pthread_exit/main.c]: the result is in a block of the thread's own,
    which [main] frees. *)
Module ExitThreads.
Definition thread_function (thread_id : Z) : list instr :=
  [ say ("Thread " +:+ fmt_d thread_id +:+ " is executing.");
    say ("Thread " +:+ fmt_d thread_id +:+ " is done.");
    Alloc "malloc"; Result (thread_id * 2) ].

Definition join_and_show (i : nat) : list instr :=
  [ Join i;
    Say (fun f => (fun v => ln ("Thread " +:+ fmt_d (Z.of_nat i + 1) +:+ " returned: " +:+ fmt_d v)) <$> joined f);
    Free ].

Definition main : list instr :=
  ((fun arg => Create (thread_function arg) None) <$> [1; 2; 3]) ++
  concat (join_and_show <$> seq 0 3) ++ [say "Main thread is done."].
End ExitThreads.

(** [src/pthread/pthread_self/main.c]; [pthread_t] is how the system numbers threads. *)
Module SelfThreads.
Section Program.
Context (pthread_t : nat -> Z).
Definition thread_function : list instr :=
  [ Say (fun f => Some (ln ("Thread ID: " +:+ fmt_u (pthread_t (me f))))) ].
Definition main : list instr :=
  replicate 3 (Create thread_function None) ++ (Join <$> seq 0 3) ++ [say "Main thread is done."].
End Program.
End SelfThreads.

(** ** What a program is expected to write *)

(** The functions of the threads neither create nor join nor free. *)
Fixpoint leaf (c : list instr) : bool :=
  match c with
  | [] => true
  | (Create _ _ | Join _ | Free) :: _ => false
  | _ :: c => leaf c
  end.

(** The lines of thread [i], and its result. *)
Fixpoint says (i : nat) (c : list instr) : option (list string) :=
  match c with
  | [] => Some []
  | Say text :: c => l ← text (Frame i [] None); ls ← says i c; Some (l :: ls)
  | _ :: c => says i c
  end.

Fixpoint result_of (c : list instr) (r : option Z) : option Z :=
  match c with
  | [] => r
  | Result v :: c => result_of c (Some v)
  | _ :: c => result_of c r
  end.

(** The functions that [main] starts. *)
Fixpoint started (c : list instr) : list (list instr) :=
  match c with
  | [] => []
  | Create b _ :: c => b :: started c
  | _ :: c => started c
  end.

(** The lines of [main] when every call succeeds; [bs] are the functions started. *)
Fixpoint main_says (f : frame) (bs : list (list instr)) (c : list instr) : option (list string) :=
  match c with
  | [] => Some []
  | Create b _ :: c => main_says (with_handle (Some (S (length bs))) f) (bs ++ [b]) c
  | Join k :: c =>
      j ← mjoin (handles f !! k);
      b ← bs !! pred j;
      main_says (with_joined (result_of b None) f) bs c
  | Say text :: c => l ← text f; ls ← main_says f bs c; Some (l :: ls)
  | Nap _ :: c => main_says f bs c
  | Free :: c => _ ← joined f; main_says (with_joined None f) bs c
  | (Alloc _ | Result _) :: _ => None
  end.

(** Every thread [main] starts is joined later, and only those; [n] are started. *)
Fixpoint joins (k : nat) (c : list instr) : bool :=
  match c with
  | [] => false
  | Join k' :: c => (k =? k')%nat || joins k c
  | _ :: c => joins k c
  end.

Fixpoint well_joined (n : nat) (c : list instr) : bool :=
  match c with
  | [] => true
  | Create b _ :: c => leaf b && joins n c && well_joined (S n) c
  | Join k :: c => (k <? n)%nat && well_joined n c
  | (Alloc _ | Result _) :: _ => false
  | _ :: c => well_joined n c
  end.

Fixpoint weight (i : instr) : nat :=
  S (match i with Create b _ => foldr (fun i n => weight i + n)%nat O b | _ => O end).
Definition weights (c : list instr) : nat := foldr (fun i n => weight i + n)%nat O c.

(** The lines of one thread. *)
Definition lines_of (i : nat) (o : list (nat * string)) : list string :=
  snd <$> filter (fun x => x.1 = i) o.

Lemma lines_of_snoc i j l o :
  lines_of i (o ++ [(j, l)]) = lines_of i o ++ (if decide (j = i) then [l] else []).
Proof.
  unfold lines_of. rewrite list.filter_app, fmap_app. f_equal. rewrite filter_cons. simpl.
  by destruct (decide (j = i)).
Qed.

(** ** The invariant *)

Section Invariant.
Context (M : list instr) (E : list string).

(** Thread [S j] has done a part of its function [b]. *)
Definition child_ok (o : list (nat * string)) (j : nat) (b : list instr) (t : thread) : Prop :=
  vars t = Frame (S j) [] None /\ leaf (code t) = true /\
  (exists ls, says (S j) (code t) = Some ls /\ says (S j) b = Some (lines_of (S j) o ++ ls)) /\
  result_of (code t) (result t) = result_of b None.

Definition children (o : list (nat * string)) (bs : list (list instr)) (cs : list thread) : Prop :=
  length cs = length bs /\
  (forall j, (length cs <= j)%nat -> lines_of (S j) o = []) /\
  forall j b t, bs !! j = Some b -> cs !! j = Some t -> child_ok o j b t.

(** The function can be run by any thread. *)
Definition defined (b : list instr) : Prop := forall j, is_Some (says j b).

Record main_ok (o : list (nat * string)) (bs : list (list instr)) (cs : list thread)
    (c : list instr) (f : frame) : Prop := {
  m_joined : well_joined (length (handles f)) c = true;
  m_defined : Forall defined (started c);
  m_failed k : handles f !! k = Some None -> joins k c = true;
  m_handle k j : handles f !! k = Some (Some j) ->
    exists i t, j = S i /\ cs !! i = Some t /\ (joins k c = true \/ code t = []);
  m_known i : (i < length cs)%nat -> exists k, handles f !! k = Some (Some (S i));
  m_says : None ∉ handles f -> exists rest,
    main_says f bs c = Some rest /\ lines_of 0 o ++ rest = E /\ bs ++ started c = started M;
}.

Definition pool_inv (s : pool) : Prop := exists c f r cs bs,
  threads s = Thread c f r :: cs /\
  match over s with
  | None => children (output s) bs cs /\ main_ok (output s) bs cs c f
  | Some Undefined => None ∈ handles f
  | Some (Returned z) =>
      z = EXIT_SUCCESS -> c = [] /\ children (output s) bs cs /\ main_ok (output s) bs cs c f
  end.

Lemma pool_inv_initial :
  well_joined 0 M = true -> Forall defined (started M) -> main_says (Frame 0 [] None) [] M = Some E ->
  pool_inv (pinitial M).
Proof.
  intros Hw Hd He. exists M, (Frame 0 [] None), None, [], []. split; [done|]. split; [by split|].
  split; simpl; try done.
  - intros i Hi. lia.
  - intros _. by exists E.
Qed.

Lemma children_main o bs cs l :
  children o bs cs -> children (o ++ [(0%nat, l)]) bs cs.
Proof.
  intros (Hl & Hn & Hc). split_and!; [done|..].
  - intros j Hj. rewrite lines_of_snoc, app_nil_r. by apply Hn.
  - intros j b t Hb Ht. destruct (Hc j b t Hb Ht) as (? & ? & ? & ?). split_and!; try done.
    by rewrite lines_of_snoc, app_nil_r.
Qed.

Lemma lines_of_other i j o (ls : list string) :
  i <> j -> lines_of i (o ++ ((fun l => (j, l)) <$> ls)) = lines_of i o.
Proof.
  intros Hi. induction ls as [|l ls IH] using rev_ind; simpl; [by rewrite app_nil_r|].
  rewrite fmap_app. simpl. rewrite app_assoc, lines_of_snoc, decide_False by congruence.
  by rewrite app_nil_r.
Qed.

Lemma lines_of_own j o (ls : list string) :
  lines_of j (o ++ ((fun l => (j, l)) <$> ls)) = lines_of j o ++ ls.
Proof.
  induction ls as [|l ls IH] using rev_ind; simpl; [by rewrite !app_nil_r|].
  rewrite fmap_app. simpl. by rewrite app_assoc, lines_of_snoc, decide_True, IH, app_assoc.
Qed.

(** A step of a thread that is not [main]. *)
Lemma child_step o bs cs j t t' (ls : list string) :
  children o bs cs -> cs !! j = Some t ->
  (forall b, child_ok o j b t -> child_ok (o ++ ((fun l => (S j, l)) <$> ls)) j b t') ->
  children (o ++ ((fun l => (S j, l)) <$> ls)) bs (<[j := t']> cs).
Proof.
  intros (Hl & Hn & Hc) Hj Hstep. pose proof (lookup_lt_Some _ _ _ Hj). split_and!.
  - by rewrite length_insert.
  - intros i Hi. rewrite length_insert in Hi. rewrite lines_of_other by lia. by apply Hn.
  - intros i b u Hb Hu. destruct (decide (i = j)) as [->|Hi].
    + rewrite list_lookup_insert_eq in Hu by done. simplify_eq. eauto.
    + rewrite list_lookup_insert_ne in Hu by done.
      destruct (Hc i b u Hb Hu) as (? & ? & (ls' & ? & Hls) & ?). split_and!; try done.
      exists ls'. rewrite lines_of_other by lia. done.
Qed.

(** [main] does not notice. *)
Lemma main_child o bs cs c f j t t' (ls : list string) :
  main_ok o bs cs c f -> cs !! j = Some t -> code t <> [] ->
  main_ok (o ++ ((fun l => (S j, l)) <$> ls)) bs (<[j := t']> cs) c f.
Proof.
  intros [Hw Hd Hf Hh Hk Hs] Hj Ht. pose proof (lookup_lt_Some _ _ _ Hj). split; try done.
  - intros k j' Hk'. destruct (Hh k j' Hk') as (i & u & -> & Hu & Hc). exists i.
    destruct (decide (i = j)) as [->|Hi].
    + exists t'. rewrite list_lookup_insert_eq by done. simplify_eq.
      destruct Hc; [by auto|done].
    + exists u. by rewrite list_lookup_insert_ne.
  - intros i. rewrite length_insert. apply Hk.
  - rewrite lines_of_other by done. exact Hs.
Qed.

(** A new thread. *)
Lemma children_create o bs cs b :
  children o bs cs -> leaf b = true -> defined b ->
  children o (bs ++ [b]) (cs ++ [Thread b (Frame (S (length cs)) [] None) None]).
Proof.
  intros (Hl & Hn & Hc) Hb Hd. split_and!.
  - rewrite !length_app. simpl. lia.
  - intros j. rewrite length_app. simpl. intros Hj. apply Hn. lia.
  - intros j b' t Hb' Ht. apply lookup_app_Some in Hb' as [Hb'|[Hj Hb']].
    + rewrite lookup_app_l in Ht by (rewrite Hl; by eapply lookup_lt_Some). eauto.
    + rewrite lookup_app_r in Ht by lia. apply list_lookup_singleton_Some in Hb' as [Hj' <-].
      assert (j = length cs) as -> by lia. rewrite Nat.sub_diag in Ht. injection Ht as <-.
      split_and!; [done|done| |done]. destruct (Hd (S (length cs))) as [ls Hls].
      exists ls. simpl. by rewrite Hls, Hn.
Qed.
(** The steps of [main]. *)
Lemma main_create o bs cs b ck c f :
  length cs = length bs ->
  main_ok o bs cs (Create b ck :: c) f ->
  main_ok o (bs ++ [b]) (cs ++ [Thread b (Frame (S (length cs)) [] None) None]) c
    (with_handle (Some (S (length cs))) f).
Proof.
  intros Hl [Hw Hd Hf Hh Hk Hs]. simpl in *. apply andb_prop in Hw as [[_ Hj]%andb_prop Hw].
  split; simpl.
  - by rewrite length_app, Nat.add_comm.
  - by inversion Hd.
  - intros k [Hk'|[_ Hk']]%lookup_app_Some; [by apply Hf|by destruct (k - _)%nat].
  - intros k j [Hk'|[Hge Hk']]%lookup_app_Some.
    + destruct (Hh k j Hk') as (i & t & -> & Ht & Hc). exists i, t. by rewrite lookup_app_l by (by eapply lookup_lt_Some).
    + apply list_lookup_singleton_Some in Hk' as [Hk' [= <-]]. assert (k = length (handles f)) as -> by lia.
      eexists _, _. split; [done|]. rewrite lookup_app_r, Nat.sub_diag by lia. split; [done|]. by left.
  - intros i. rewrite length_app. simpl. intros Hi. destruct (decide (i = length cs)) as [->|].
    + exists (length (handles f)). by rewrite lookup_app_r, Nat.sub_diag by lia.
    + destruct (Hk i ltac:(lia)) as [k Hk']. exists k. by apply lookup_app_l_Some.
  - rewrite elem_of_app. intros Hn. destruct (Hs ltac:(tauto)) as (rest & Hr & Ho & Hb).
    exists rest. rewrite Hl. split_and!; [done..|]. by rewrite <- app_assoc.
Qed.

Lemma main_create_fails o bs cs b ck c f :
  main_ok o bs cs (Create b ck :: c) f -> main_ok o bs cs c (with_handle None f).
Proof.
  intros [Hw Hd Hf Hh Hk Hs]. simpl in *. apply andb_prop in Hw as [[_ Hj]%andb_prop Hw].
  split; simpl.
  - by rewrite length_app, Nat.add_comm.
  - by inversion Hd.
  - intros k [Hk'|[Hge Hk']]%lookup_app_Some; [by apply Hf|].
    apply list_lookup_singleton_Some in Hk' as [Hk' _]. by replace k with (length (handles f)) by lia.
  - intros k j [Hk'|[_ Hk']]%lookup_app_Some; [by apply Hh|by destruct (k - _)%nat].
  - intros i Hi. destruct (Hk i Hi) as [k Hk']. exists k. by apply lookup_app_l_Some.
  - rewrite elem_of_app, list_elem_of_singleton. tauto.
Qed.

Lemma main_join o bs cs k c f i fi ri :
  children o bs cs -> handles f !! k = Some (Some (S i)) -> cs !! i = Some (Thread [] fi ri) ->
  main_ok o bs cs (Join k :: c) f -> main_ok o bs cs c (with_joined ri f).
Proof.
  intros (Hl & _ & Hc) Hki Hi [Hw Hd Hf Hh Hk Hs]. simpl in *. apply andb_prop in Hw as [_ Hw].
  split; simpl; try done.
  - intros k' Hk'. destruct (Nat.eqb_spec k' k) as [->|Hne]; [congruence|].
    specialize (Hf k' Hk'). by destruct (Nat.eqb_spec k' k).
  - intros k' j Hk'. destruct (Hh k' j Hk') as (i' & t & -> & Ht & Hj). exists i', t.
    split_and!; [done..|]. destruct (Nat.eqb_spec k' k) as [->|Hne]; [right; by simplify_eq|done].
  - intros Hn. destruct (Hs Hn) as (rest & Hr & Ho & Hb). exists rest. rewrite Hki in Hr. simpl in Hr.
    destruct (bs !! i) as [b|] eqn:Eb; [|done]. simpl in Hr.
    destruct (Hc i b _ Eb Hi) as (_ & _ & _ & Hres). simpl in Hres. by rewrite Hres.
Qed.

Lemma main_say o bs cs text l c f :
  text f = Some l -> main_ok o bs cs (Say text :: c) f ->
  main_ok (o ++ [(0%nat, l)]) bs cs c f.
Proof.
  intros Ht [Hw Hd Hf Hh Hk Hs]. split; simpl in *; try done.
  intros Hn. destruct (Hs Hn) as (rest & Hr & Ho & Hb). rewrite Ht in Hr. simpl in Hr.
  destruct (main_says f bs c) as [ls|]; [|done]. injection Hr as <-. exists ls.
  split_and!; [done| |done]. by rewrite lines_of_snoc, <- app_assoc.
Qed.

Lemma main_nap o bs cs n c f : main_ok o bs cs (Nap n :: c) f -> main_ok o bs cs c f.
Proof. by intros [Hw Hd Hf Hh Hk Hs]. Qed.

Lemma main_free o bs cs c f v :
  joined f = Some v -> main_ok o bs cs (Free :: c) f -> main_ok o bs cs c (with_joined None f).
Proof.
  intros Hv [Hw Hd Hf Hh Hk Hs]. split; simpl in *; try done.
  intros Hn. destruct (Hs Hn) as (rest & Hr & Ho & Hb). rewrite Hv in Hr. by exists rest.
Qed.

Lemma child_of o bs cs j t :
  children o bs cs -> cs !! j = Some t -> exists b, bs !! j = Some b /\ child_ok o j b t.
Proof.
  intros (Hl & _ & Hc) Ht. destruct (lookup_lt_is_Some_2 bs j) as [b Hb];
    [rewrite <- Hl; by eapply lookup_lt_Some|eauto].
Qed.

(** A thread that writes [ls] and goes on with [c]. *)
Lemma pool_inv_child f0 c0 r0 o bs cs j i c f r r' (ls : list string) :
  children o bs cs -> main_ok o bs cs c0 f0 -> cs !! j = Some (Thread (i :: c) f r) ->
  leaf c = leaf (i :: c) -> result_of c r' = result_of (i :: c) r ->
  (forall l, says (S j) (i :: c) = Some l -> exists l', l = ls ++ l' /\ says (S j) c = Some l') ->
  pool_inv (Pool (Thread c0 f0 r0 :: <[j := Thread c f r']> cs) (o ++ ((fun l => (S j, l)) <$> ls)) None).
Proof.
  intros Hc Hm Hj Hleaf Hres Hsays. exists c0, f0, r0, (<[j := Thread c f r']> cs), bs.
  split; [done|]. split; [|by eapply main_child].
  eapply child_step; [done..|]. intros b (Hf & Hl & (l & Hl1 & Hl2) & Hr). simpl in *.
  destruct (Hsays l Hl1) as (l' & -> & Hl'). split_and!; simpl; [done|congruence| |congruence].
  exists l'. split; [done|]. by rewrite Hl2, lines_of_own, <- app_assoc.
Qed.

(** A thread that writes nothing. *)
Lemma pool_inv_child_silent f0 c0 r0 o bs cs j i c f r r' :
  children o bs cs -> main_ok o bs cs c0 f0 -> cs !! j = Some (Thread (i :: c) f r) ->
  leaf c = leaf (i :: c) -> result_of c r' = result_of (i :: c) r ->
  says (S j) (i :: c) = says (S j) c ->
  pool_inv (Pool (Thread c0 f0 r0 :: <[j := Thread c f r']> cs) o None).
Proof.
  intros Hc Hm Hj Hl Hr Hs. rewrite <- (app_nil_r o).
  eapply (pool_inv_child _ _ _ _ bs _ _ i _ _ r r' []); try done. intros l. rewrite Hs. by exists l.
Qed.

Lemma pool_inv_step s s' : pool_inv s -> pstep s s' -> pool_inv s'.
Proof.
  intros (c0 & f0 & r0 & cs & bs & Ets & Ho) Hs.
  destruct Hs; simpl in *; subst ts; destruct Ho as [Hc Hm];
    try (destruct i as [|i]; simpl in *; simplify_eq).
  all: try match goal with Hi : ?cs !! _ = Some _, Hc : children _ _ ?cs |- _ =>
    destruct (child_of _ _ _ _ _ Hc Hi) as (b' & Hb' & Hf' & Hleaf & (l' & Hl' & _) & _); simpl in * end.
  all: try discriminate Hleaf.
  - (* create *)
    pose proof Hm as [Hw Hd _ _ _ _]. simpl in Hw, Hd.
    apply andb_prop in Hw as [[Hb _]%andb_prop _]. apply Forall_cons_1 in Hd as [Hd _].
    eexists _, _, _, (cs ++ [_]), (bs ++ [b]). split; [done|].
    split; [by apply children_create|]. eapply main_create; [apply Hc|done].
  - eexists _, _, _, cs, bs. split; [done|]. split; [done|by eapply main_create_fails].
  - eexists _, _, _, cs, bs. split; [done|]. done.
  - (* join *)
    destruct j as [|j]; simpl in *; simplify_eq.
    eexists _, _, _, cs, bs. split; [done|]. split; [done|by eapply main_join].
  - eexists _, _, _, cs, bs. split; [done|]. simpl. destruct H0 as [Hk|Hk].
    + by eapply list_elem_of_lookup_2.
    + pose proof (m_joined _ _ _ _ _ Hm) as Hw. simpl in Hw. apply andb_prop in Hw as [Hw _].
      apply lookup_ge_None in Hk. apply Nat.ltb_lt in Hw. lia.
  - eexists _, _, _, cs, bs. split; [done|]. split; [by apply children_main|by eapply main_say].
  - rewrite Hf' in H0. rewrite H0 in Hl'. simpl in Hl'.
    eapply (pool_inv_child _ _ _ _ bs _ _ (Say text) _ _ r r [l]); try done.
    simpl. rewrite H0. intros ls. simpl. destruct (says (S i) c) as [l''|]; [|done].
    intros [= <-]. by exists l''.
  - eexists _, _, _, cs, bs. split; [done|]. simpl.
    destruct (decide (None ∈ handles f)) as [|Hn]; [done|].
    destruct (m_says _ _ _ _ _ Hm Hn) as (rest & Hr & _). simpl in Hr. by rewrite H0 in Hr.
  - rewrite Hf' in H0. by rewrite H0 in Hl'.
  - eexists _, _, _, cs, bs. split; [done|]. split; [done|by eapply main_nap].
  - by eapply (pool_inv_child_silent _ _ _ _ bs _ _ (Nap n) _ _ r r).
  - pose proof (m_joined _ _ _ _ _ Hm) as Hw. done.
  - by eapply (pool_inv_child_silent _ _ _ _ bs _ _ (Alloc msg) _ _ r r).
  - eexists _, _, _, cs, bs. split; [done|]. done.
  - eexists _, _, _, cs, bs. split; [done|]. done.
  - pose proof (m_joined _ _ _ _ _ Hm) as Hw. done.
  - by eapply (pool_inv_child_silent _ _ _ _ bs _ _ (Result v) _ _ r (Some v)).
  - eexists _, _, _, cs, bs. split; [done|]. split; [done|by eapply main_free].
  - eexists _, _, _, cs, bs. split; [done|]. simpl.
    destruct (decide (None ∈ handles f)) as [|Hn]; [done|].
    destruct (m_says _ _ _ _ _ Hm Hn) as (rest & Hr & _). simpl in Hr. by rewrite H0 in Hr.
  - injection H as -> -> ->. by eexists _, _, _, cs, bs.
Qed.
End Invariant.

(** ** Every run ends *)

Definition total (ts : list thread) : nat := foldr (fun t n => weights (code t) + n)%nat O ts.
Definition work (s : pool) : nat := (total (threads s) + match over s with None => 1 | Some _ => 0 end)%nat.

Lemma total_insert ts i t t' :
  ts !! i = Some t -> (total (<[i := t']> ts) + weights (code t) = total ts + weights (code t'))%nat.
Proof.
  revert i. induction ts as [|u ts IH]; intros [|i] Hi; simplify_eq/=; [lia|].
  specialize (IH i Hi). lia.
Qed.

Lemma total_threads_app ts ts' : total (ts ++ ts') = (total ts + total ts')%nat.
Proof. unfold total. induction ts as [|t ts IH]; simpl; [done|]. rewrite IH. lia. Qed.

Lemma work_step s s' : pstep s s' -> (work s' < work s)%nat.
Proof.
  destruct 1; unfold work; simpl; try lia;
    match goal with |- context [<[_ := ?t']> _] => pose proof (total_insert _ _ _ t' H) as Ht end;
    simpl in Ht; rewrite ?total_threads_app; simpl; unfold weights in *; lia.
Qed.

(** A thread that neither creates nor joins goes on. *)
Lemma leaf_goes ts o i t :
  ts !! i = Some t -> leaf (code t) = true -> code t <> [] -> exists s', pstep (Pool ts o None) s'.
Proof.
  destruct t as [[|[] c] f r]; simpl; intros Ht Hl Hc; try done.
  - destruct (text f) eqn:E; eexists; [by eapply p_say|by eapply p_say_garbage].
  - eexists. by eapply p_nap.
  - eexists. by eapply p_alloc.
  - eexists. by eapply p_result.
Qed.

Section Ends.
Context (M : list instr) (E : list string).

Lemma pool_progress s : pool_inv M E s -> over s = None -> exists s', pstep s s'.
Proof.
  destruct s as [ts o ov]. intros (c & f & r & cs & bs & Ets & Ho) Hov. simpl in *. subst ov ts.
  destruct Ho as [Hc Hm]. destruct c as [|[b ck|k|text|n|msg|v|] c].
  - eexists. by apply p_return with (f := f) (r := r).
  - eexists. by eapply (p_create 0).
  - destruct (handles f !! k) as [[j|]|] eqn:Ek.
    + destruct (m_handle _ _ _ _ _ _ _ Hm k j Ek) as (i & t & -> & Ht & _).
      destruct (decide (code t = [])) as [E0|Hne].
      * destruct t as [ct ft rt]. simpl in E0. subst ct. eexists. by eapply (p_join 0 (S i)).
      * destruct (child_of _ _ _ _ _ Hc Ht) as (b & _ & _ & Hl & _). by eapply (leaf_goes _ _ (S i)).
    + eexists. eapply (p_join_garbage 0); [done|by left].
    + eexists. eapply (p_join_garbage 0); [done|by right].
  - destruct (text f) eqn:Et; eexists; [by eapply (p_say 0)|by eapply (p_say_garbage 0)].
  - eexists. by eapply (p_nap 0).
  - eexists. by eapply (p_alloc 0).
  - eexists. by eapply (p_result 0).
  - destruct (joined f) eqn:Ej; eexists; [by eapply (p_free 0)|by eapply (p_free_garbage 0)].
Qed.

Lemma no_joins n c :
  well_joined n c = true -> (forall k, joins k c = false) -> started c = [].
Proof.
  revert n. induction c as [|[b ck|k|text|m|msg|v|] c IH]; simpl; intros n Hw Hj; try done.
  - rewrite Hj in Hw. by rewrite andb_false_r in Hw.
  - specialize (Hj k). by rewrite Nat.eqb_refl in Hj.
  - by eapply IH.
  - by eapply IH.
  - by eapply IH.
Qed.

(** Once nothing is left to be joined, the threads have written all they write. *)
Lemma joined_complete o bs cs c f j b :
  children o bs cs -> main_ok M E o bs cs c f -> (forall k, joins k c = false) ->
  started M !! j = Some b -> Some (lines_of (S j) o) = says (S j) b.
Proof.
  intros Hc Hm Hj Hb. pose proof Hm as [Hw _ Hf Hh Hk Hs].
  assert (None ∉ handles f) as Hn.
  { intros (k & Ek)%list_elem_of_lookup. specialize (Hf k Ek). by rewrite Hj in Hf. }
  destruct (Hs Hn) as (_ & _ & _ & Hb'). rewrite (no_joins _ _ Hw Hj), app_nil_r in Hb'. subst bs.
  destruct Hc as (Hl & _ & Hc). pose proof (lookup_lt_Some _ _ _ Hb) as Hlt.
  destruct (Hk j ltac:(lia)) as [k Ek]. destruct (Hh k _ Ek) as (i & t & [= <-] & Ht & Hd).
  destruct Hd as [Hd|Hd]; [by rewrite Hj in Hd|].
  destruct (Hc j b t Hb Ht) as (_ & _ & (ls & Hls & ->) & _). rewrite Hd in Hls.
  injection Hls as <-. by rewrite app_nil_r.
Qed.
End Ends.

(** ** Property *)

(** What [main] still has to do. *)
Definition main_left (s : pool) : list instr :=
  match threads s with t :: _ => code t | [] => [] end.
Definition main_handles (s : pool) : list (option nat) :=
  match threads s with t :: _ => handles (vars t) | [] => [] end.

(** Every run of [M] ends; it does something undefined only if a thread could not be
    created; from the last [pthread_join] on every thread has written its lines; and
    if [main] returns with success it has written its own. *)
Definition joins_its_threads (M : list instr) : Prop := forall s,
  run pstep (pinitial M) s ->
  (forall k s', nrun pstep k s s' -> (k <= work s)%nat) /\
  (stuck pstep s -> is_Some (over s)) /\
  (over s = Some Undefined -> None ∈ main_handles s) /\
  (over s = None \/ over s = Some (Returned EXIT_SUCCESS) ->
     (forall k, joins k (main_left s) = false) ->
     forall j b, started M !! j = Some b -> Some (lines_of (S j) (output s)) = says (S j) b) /\
  (over s = Some (Returned EXIT_SUCCESS) ->
     main_left s = [] /\ Some (lines_of 0 (output s)) = main_says (Frame 0 [] None) [] M).

Lemma joins_threads M :
  well_joined 0 M = true -> Forall defined (started M) ->
  is_Some (main_says (Frame 0 [] None) [] M) -> joins_its_threads M.
Proof.
  intros Hw Hd [E He] s Hr.
  assert (pool_inv M E s) as Hi.
  { eapply run_invariant; [intros ??; apply pool_inv_step|by apply pool_inv_initial|done]. }
  split_and!.
  - intros k s' Hk. eapply nrun_bounded with (I := fun _ => True) (m := work) in Hk;
      [lia|by eauto using work_step|done].
  - intros Hs. destruct (over s) as [e|] eqn:Eo; [by eexists|].
    destruct (pool_progress _ _ _ Hi Eo) as [s' Hs']. by destruct (Hs s').
  - intros Eo. destruct Hi as (c & f & r & cs & bs & Ets & Ho). unfold main_handles.
    by rewrite Eo, Ets in *.
  - intros Eo Hj j b Hb. destruct Hi as (c & f & r & cs & bs & Ets & Ho). unfold main_left in Hj.
    rewrite Ets in Hj. destruct Eo as [Eo|Eo]; rewrite Eo in Ho.
    + destruct Ho as [Hc Hm]. by eapply joined_complete.
    + destruct (Ho eq_refl) as (-> & Hc & Hm). by eapply joined_complete.
  - intros Eo. destruct Hi as (c & f & r & cs & bs & Ets & Ho). unfold main_left. rewrite Ets, Eo in *.
    destruct (Ho eq_refl) as (-> & Hc & Hm). split; [done|].
    assert (None ∉ handles f) as Hn.
    { intros (k & Ek)%list_elem_of_lookup. by apply (m_failed _ _ _ _ _ _ _ Hm) in Ek. }
    destruct (m_says _ _ _ _ _ _ _ Hm Hn) as (rest & [= <-] & Hl & _).
    by rewrite He, <- Hl, app_nil_r.
Qed.

(** C38: the four programs that create and join threads, whatever the order of the
    threads' steps and whether or not threads and memory can be had: every run ends,
    with something undefined only if a thread could not be created; after its last
    [pthread_join] [main] finds the lines of every thread written, all and in the
    order of its function; and [main] returns with success only after it has written
    its own, the results of the threads among them. *)
Theorem thread_programs_join (pthread_t : nat -> Z) :
  Forall joins_its_threads
    [ CreateJoin.main; Equal.main; ExitThreads.main; SelfThreads.main pthread_t ].
Proof.
  repeat apply Forall_cons_2; try apply Forall_nil_2; apply joins_threads;
    try reflexivity; try (by eexists; reflexivity);
    repeat constructor; intros j; eexists; reflexivity.
Qed.

(** What [main] writes. *)
Example exit_main_says :
  main_says (Frame 0 [] None) [] ExitThreads.main =
  Some (ln <$> [ "Thread 1 returned: 2"; "Thread 2 returned: 4"; "Thread 3 returned: 6";
                 "Main thread is done." ]).
Proof. reflexivity. Qed.

Example equal_main_says :
  main_says (Frame 0 [] None) [] Equal.main =
  Some (ln <$> [ "Thread 1 and Thread 1 have the same thread ID.";
                 "Thread 1 and Thread 2 have different thread IDs.";
                 "Thread 1 and the main thread have different thread IDs.";
                 "Main thread is done." ]).
Proof. reflexivity. Qed.
