(* ===== verification/Servers.v ===== *)
(** * What the multiplexing servers share

    [src/io-multiplexing/poll/main.c] and [src/io-multiplexing/select/main.c]
    have [min_size] and [read_full] in common, keep their clients in a table from
    which a client is removed by moving the last one into its slot, and owe the
    system the descriptors [socket] and [accept] gave them.  This file has those
    functions, that operation on lists, and the accounting of descriptors in a
    trace. *)

From S2P Require Import Prelude CMonad CString Words.

Definition MAX_WORD_LEN : Z := 256.
Definition SOCKET_PATH : string := "/tmp/example_socket".
Definition SOMAXCONN : Z := 4096.
Definition SIGINT : Z := 2.
Definition SOCK_CLOEXEC : Z := 524288.
Definition sizeof_int : Z := 4.

Section Common.
Context {W} `{Kernel W}.

Definition min_size (a b : Z) : Z := if a <? b then a else b.

(** [if(malloc(...) == NULL) { perror(msg); exit(EXIT_FAILURE); }] *)
Definition alloc (bytes : Z) (msg : string) : C W unit :=
  r ← sys (SAlloc bytes);
  if r_val r =? -1 then error_exit msg else mret tt.

(** 1 when [n] bytes have been read (the bytes), 0 at end of file, -1 on an
    error; [EINTR] is tried again. *)
Definition read_turn (fd : Z) (st : list byte * nat) :
    C W (list byte * nat + (Z * list byte)) :=
  let '(got, n) := st in
  match n with
  | O => mret (inr (1, got))
  | _ =>
      r ← sys (SRead fd n);
      if r_val r =? 0 then mret (inr (0, got))
      else if r_val r <? 0 then
        e ← get_errno;
        if e =? EINTR then mret (inl (got, n)) else mret (inr (-1, got))
      else mret (inl (got ++ r_data r, (n - Z.to_nat (r_val r))%nat))
  end.

Definition read_full (fuel : nat) (fd : Z) (n : nat) : C W (Z * list byte) :=
  loop fuel (read_turn fd) ([], n).

End Common.

(** ** Removal and accounting *)

(** Removing a client: the last one takes its place. *)
Definition swap_remove (clients : list Z) (i : nat) : list Z :=
  let last := (length clients - 1)%nat in
  match clients !! last with
  | Some l => take last (<[i := l]> clients)
  | None => clients
  end.

(** The descriptors a trace obtained (from [socket] and [accept]) and closed. *)
Fixpoint obtained (t : list event) : list Z :=
  match t with
  | [] => []
  | ESys (SAccept _ | SSocket _ _ _) r :: t =>
      if r_val r =? -1 then obtained t else r_val r :: obtained t
  | _ :: t => obtained t
  end.

Fixpoint closed (t : list event) : list Z :=
  match t with
  | [] => []
  | ESys (SClose fd) _ :: t => fd :: closed t
  | _ :: t => closed t
  end.

(** ** Lemmas *)

Lemma wlp_array_get {W A} (l : list A) (i : nat) (x : A) Q E (s : cstate W) :
  l !! i = Some x -> Q x s -> wlp (array_get l (Z.of_nat i)) Q E s.
Proof. intros Hi HQ. unfold wlp. by rewrite (array_get_ok l i x). Qed.

Lemma wlp_array_set {W A} (l : list A) (i : nat) (x : A) Q E (s : cstate W) :
  (i < length l)%nat -> Q (<[i := x]> l) s -> wlp (array_set l (Z.of_nat i) x) Q E s.
Proof. intros Hi HQ. unfold wlp. by rewrite array_set_ok. Qed.

Lemma of_nat_S i : Z.of_nat i + 1 = Z.of_nat (S i).
Proof. lia. Qed.

Lemma obtained_app t1 t2 : obtained (t1 ++ t2) = obtained t1 ++ obtained t2.
Proof.
  induction t1 as [|[| | |[] r] t1 IH]; simpl; rewrite ?IH; try done; by case_match.
Qed.

Lemma closed_app t1 t2 : closed (t1 ++ t2) = closed t1 ++ closed t2.
Proof. induction t1 as [|[| | |[] r] t1 IH]; simpl; by rewrite ?IH. Qed.

(** The last of the elements moves to position [i], its own slot is cleared. *)
Lemma swap_out {A} (xs : list A) (k i : nat) (l d : A) :
  (i < length xs)%nat -> xs !! (length xs - 1)%nat = Some l ->
  <[(length xs - 1)%nat := d]> (<[i := l]> (xs ++ replicate k d)) =
  take (length xs - 1) (<[i := l]> xs) ++ replicate (S k) d.
Proof.
  intros Hi Hl. rewrite insert_app_l by done.
  rewrite insert_app_l by (rewrite length_insert; lia).
  rewrite insert_take_drop by (rewrite length_insert; lia).
  rewrite drop_ge by (rewrite length_insert; lia).
  by rewrite <- app_assoc.
Qed.

Lemma swap_remove_last {A} (xs : list A) : xs <> [] -> exists l, xs !! (length xs - 1)%nat = Some l.
Proof.
  intros Hx. apply lookup_lt_is_Some_2. destruct xs; [done|]. simpl. lia.
Qed.

Lemma swap_remove_perm (clients : list Z) (i : nat) (c : Z) :
  clients !! i = Some c -> clients ≡ₚ c :: swap_remove clients i.
Proof.
  intros Hi. unfold swap_remove.
  destruct clients as [|x clients _] using rev_ind; [done|].
  rewrite length_app. simpl. rewrite Nat.add_sub, lookup_snoc.
  destruct (decide (i = length clients)) as [->|Hne].
  - rewrite lookup_snoc in Hi. simplify_eq.
    rewrite list_insert_id by apply lookup_snoc. rewrite take_app_length.
    by rewrite Permutation_app_comm.
  - assert (i < length clients)%nat as Hlt.
    { apply lookup_lt_Some in Hi. rewrite length_app in Hi. simpl in Hi. lia. }
    rewrite lookup_app_l in Hi by done.
    rewrite insert_app_l, take_app_length' by (rewrite ?length_insert; done).
    rewrite insert_take_drop by done.
    rewrite <- (take_drop_middle clients i c Hi) at 1.
    rewrite <- !app_assoc. simpl. rewrite <- !Permutation_middle.
    by rewrite app_nil_r.
Qed.

Lemma length_swap_remove clients i :
  clients <> [] -> length (swap_remove clients i) = (length clients - 1)%nat.
Proof.
  intros Hc. unfold swap_remove. destruct (swap_remove_last clients Hc) as [l ->].
  rewrite length_take, length_insert. lia.
Qed.

(** The descriptors a trace has called [read] on. *)
Fixpoint readers (t : list event) : list Z :=
  match t with
  | [] => []
  | ESys (SRead fd _) _ :: t => fd :: readers t
  | _ :: t => readers t
  end.

Lemma readers_app t1 t2 : readers (t1 ++ t2) = readers t1 ++ readers t2.
Proof. induction t1 as [|[| | |[] r] t1 IH]; simpl; by rewrite ?IH. Qed.

(** Around slot [i]: what came before stays, what comes after is still there. *)
Lemma swap_remove_snoc (xs : list Z) (i : nat) (l : Z) :
  swap_remove (xs ++ [l]) i = take (length xs) (<[i := l]> (xs ++ [l])).
Proof.
  unfold swap_remove. rewrite length_app. simpl. by rewrite Nat.add_sub, lookup_snoc.
Qed.

Lemma take_swap_remove (clients : list Z) (i : nat) :
  (i < length clients)%nat -> take i (swap_remove clients i) = take i clients.
Proof.
  intros Hi. destruct clients as [|l xs _] using rev_ind; [simpl in Hi; lia|].
  rewrite length_app in Hi. simpl in Hi. rewrite swap_remove_snoc, take_take.
  rewrite Nat.min_l by lia. by rewrite take_insert_ge by lia.
Qed.

Lemma drop_swap_remove (clients : list Z) (i : nat) :
  (i < length clients)%nat -> drop i (swap_remove clients i) ≡ₚ drop (S i) clients.
Proof.
  intros Hi. destruct clients as [|l xs _] using rev_ind; [simpl in Hi; lia|].
  rewrite length_app in Hi. simpl in Hi. rewrite swap_remove_snoc.
  destruct (decide (i = length xs)) as [->|Hne].
  - rewrite !drop_ge; [done| |]; rewrite ?length_take, ?length_insert, ?length_app; simpl; lia.
  - rewrite insert_app_l by lia. rewrite take_app_length' by (by rewrite length_insert).
    rewrite drop_insert_ge by lia. rewrite Nat.sub_diag.
    rewrite drop_app_le by lia. destruct (lookup_lt_is_Some_2 xs i) as [x Hx]; [lia|].
    rewrite (drop_S _ _ _ Hx). simpl. by rewrite Permutation_app_comm.
Qed.

Lemma elem_of_swap_remove (clients : list Z) (i : nat) (c : Z) :
  (i < length clients)%nat -> c ∈ swap_remove clients i -> c ∈ clients.
Proof.
  intros Hi Hc. destruct (lookup_lt_is_Some_2 _ _ Hi) as [x Hx].
  rewrite (swap_remove_perm _ _ _ Hx). by right.
Qed.

Section Accounting.
Context {W} `{Kernel W} (sockfd : Z).

(** [accept] returns -1 or a descriptor that was free; 0 stays in use. *)
Definition accept_positive : Prop :=
  forall fd w r w', kcall (SAccept fd) w = (r, w') -> r_val r = -1 \/ 0 < r_val r.

(** What every handler keeps: the descriptors obtained are those closed, those
    in the table and the listening socket. *)
Definition balanced (clients : list Z) (s : cstate W) : Prop :=
  obtained (trace s) ≡ₚ sockfd :: closed (trace s) ++ clients /\
  Forall (fun c => 0 < c) clients.

(** An event that is neither [accept] nor [close]. *)
Definition neutral (e : event) : Prop :=
  match e with
  | ESys (SAccept _ | SClose _ | SSocket _ _ _) _ => False
  | _ => True
  end.

Lemma neutral_balanced clients (s : cstate W) e er (w : W) :
  neutral e -> balanced clients s -> balanced clients (CState er (trace s ++ [e]) w).
Proof.
  intros He [Hb Hp]. split; [|done]. simpl. rewrite obtained_app, closed_app.
  destruct e as [| | |[] r]; simpl in *; rewrite ?app_nil_r; done.
Qed.

Lemma balanced_close clients i c (s : cstate W) e r w :
  clients !! i = Some c -> balanced clients s ->
  balanced (swap_remove clients i) (CState e (trace s ++ [ESys (SClose c) r]) w).
Proof.
  intros Hi [Hb Hp]. pose proof (swap_remove_perm _ _ _ Hi) as Hperm. split.
  - simpl. rewrite obtained_app, closed_app. simpl. rewrite app_nil_r, Hb.
    rewrite Hperm at 1. by rewrite <- app_assoc.
  - rewrite Hperm in Hp. by apply Forall_cons_1 in Hp as [_ ?].
Qed.

Definition failed (code : Z) (s : cstate W) : Prop := code = EXIT_FAILURE.

Lemma wlp_error_exit {A} msg (Q : A -> cstate W -> Prop) s :
  wlp (error_exit msg) Q failed s.
Proof. done. Qed.

(** No descriptor was obtained or closed between two states. *)
Definition quiet (s s' : cstate W) : Prop :=
  obtained (trace s') = obtained (trace s) /\ closed (trace s') = closed (trace s).

Lemma quiet_refl s : quiet s s.
Proof. done. Qed.

Lemma quiet_trans s1 s2 s3 : quiet s1 s2 -> quiet s2 s3 -> quiet s1 s3.
Proof. unfold quiet. intuition congruence. Qed.

Lemma quiet_event (s : cstate W) ev e (w : W) :
  neutral ev -> quiet s (CState e (trace s ++ [ev]) w).
Proof.
  intros Hev. unfold quiet. simpl. rewrite obtained_app, closed_app.
  destruct ev as [| | |[] r]; simpl in *; rewrite ?app_nil_r; done.
Qed.

Lemma alloc_quiet bytes msg s0 (s : cstate W) :
  quiet s0 s -> wlp (alloc bytes msg) (fun _ s' => quiet s0 s') failed s.
Proof.
  intros Hq. apply wlp_bind, wlp_sys. intros r w e _. case_match; [done|].
  apply wlp_ret. eapply quiet_trans; [exact Hq|by apply quiet_event].
Qed.

Lemma alloc_twice_quiet {A} n msg n' msg' (x : A) (s : cstate W) :
  wlp (alloc n msg;; alloc n' msg';; mret x) (fun y s' => y = x /\ quiet s s') failed s.
Proof.
  apply wlp_bind. eapply wlp_mono; [by apply alloc_quiet, quiet_refl| |done]. intros [] s1 Hq1.
  apply wlp_bind. eapply wlp_mono; [by apply alloc_quiet| |done]. intros [] s2 Hq2.
  by apply wlp_ret.
Qed.

Lemma quiet_balanced clients (s s' : cstate W) :
  quiet s s' -> balanced clients s -> balanced clients s'.
Proof. intros [Ha Hc] [Hb Hp]. split; [by rewrite Ha, Hc|done]. Qed.

Lemma read_turn_quiet fd st s0 (s : cstate W) E :
  quiet s0 s -> wlp (read_turn fd st) (fun _ s' => quiet s0 s') E s.
Proof.
  intros Hq. destruct st as [got [|n]]; [by apply wlp_ret|]. unfold read_turn.
  apply wlp_bind, wlp_sys. intros r w e _.
  assert (quiet s0 (CState e (trace s ++ [ESys (SRead fd (S n)) r]) w)) as Hq'
    by (eapply quiet_trans; [exact Hq|by apply quiet_event]).
  case_match; [by apply wlp_ret|]. case_match; [|by apply wlp_ret].
  apply wlp_bind. unfold wlp at 1, get_errno. case_match; by apply wlp_ret.
Qed.

Lemma read_full_quiet fuel fd n s0 (s : cstate W) E :
  quiet s0 s -> wlp (read_full fuel fd n) (fun _ s' => quiet s0 s') E s.
Proof.
  intros Hq. unfold read_full.
  apply (wlp_loop _ (fun _ s' => quiet s0 s')); [|done]. intros x s1 Hs1.
  eapply wlp_mono; [by apply read_turn_quiet|..]; [|done]. by intros [] ?.
Qed.

(** [read_full] reads from its descriptor only, at least once when it is asked
    for something. *)
Definition reads_from (fd : Z) (s s' : cstate W) : Prop :=
  (forall c, c ∈ readers (trace s') -> c ∈ readers (trace s) \/ c = fd) /\
  (forall c, c ∈ readers (trace s) -> c ∈ readers (trace s')).

Lemma reads_from_refl fd s : reads_from fd s s.
Proof. split; auto. Qed.

Lemma reads_from_trans fd s1 s2 s3 :
  reads_from fd s1 s2 -> reads_from fd s2 s3 -> reads_from fd s1 s3.
Proof. intros [H1 H2] [H3 H4]. split; intros c Hc; [|auto]. apply H3 in Hc as [?| ->]; auto. Qed.

Lemma reads_from_read fd n r (s : cstate W) e (w : W) :
  reads_from fd s (CState e (trace s ++ [ESys (SRead fd n) r]) w).
Proof.
  split; intros c; simpl; rewrite readers_app; simpl; rewrite elem_of_app; [|auto].
  rewrite list_elem_of_singleton. done.
Qed.

Lemma read_turn_reads fd got n s0 (s : cstate W) E :
  reads_from fd s0 s ->
  wlp (read_turn fd (got, n)) (fun _ s' => reads_from fd s0 s' /\
    (fd ∈ readers (trace s) \/ (0 < n)%nat -> fd ∈ readers (trace s'))) E s.
Proof.
  intros Hs. destruct n as [|n].
  { apply wlp_ret. split; [done|]. intros [?|?]; [done|lia]. }
  unfold read_turn. apply wlp_bind, wlp_sys. intros r w e _.
  match goal with |- wlp _ _ _ ?s1 => assert (reads_from fd s0 s1 /\ fd ∈ readers (trace s1))
    as [H1 H2] end.
  { split; [by eapply reads_from_trans, reads_from_read|]. simpl. rewrite readers_app.
    apply elem_of_app. right. by left. }
  case_match; [by apply wlp_ret|]. case_match; [|by apply wlp_ret].
  apply wlp_bind. unfold wlp at 1, get_errno. case_match; by apply wlp_ret.
Qed.

Lemma read_full_reads fuel fd n s0 (s : cstate W) E :
  reads_from fd s0 s ->
  wlp (read_full fuel fd n) (fun _ s' => reads_from fd s0 s' /\
    ((0 < n)%nat \/ fd ∈ readers (trace s) -> fd ∈ readers (trace s'))) E s.
Proof.
  intros Hs. unfold read_full. generalize (@nil byte) as got. revert n s Hs.
  induction fuel as [|fuel IH]; intros n s Hs got; cbn [loop]; [done|].
  apply wlp_bind. eapply wlp_mono; [by apply read_turn_reads| |done].
  intros [[got' n']|v] s1 [H1 H2].
  - eapply wlp_mono; [by apply IH| |done]. intros v s2 [H3 H4]. split; [done|].
    intros Hn. apply H4. right. apply H2. tauto.
  - apply wlp_ret. split; [done|]. intros Hn. apply H2. tauto.
Qed.

Lemma wlp_and {A} (m : C W A) (Q1 Q2 : A -> cstate W -> Prop) E s :
  wlp m Q1 E s -> wlp m Q2 E s -> wlp m (fun a s' => Q1 a s' /\ Q2 a s') E s.
Proof. unfold wlp. by destruct (m s) as [[a|c|u|] s']. Qed.

Lemma balanced_sys {A} clients c (f : sysret -> C W A) Q E (s : cstate W) :
  (forall r, neutral (ESys c r)) -> balanced clients s ->
  (forall r s', balanced clients s' -> wlp (f r) Q E s') -> wlp (sys c ≫= f) Q E s.
Proof.
  intros Hc Hb HQ. apply wlp_bind, wlp_sys. intros r w e _.
  apply HQ. by apply neutral_balanced.
Qed.

Lemma balanced_out {A} clients msg (f : unit -> C W A) Q E (s : cstate W) :
  balanced clients s -> (forall s', balanced clients s' -> wlp (f tt) Q E s') ->
  wlp (out msg ≫= f) Q E s.
Proof. intros Hb HQ. apply wlp_bind. apply HQ. by apply neutral_balanced. Qed.

Lemma wlp_check {A} (b : bool) msg (m : C W A) Q (s : cstate W) :
  (b = false -> wlp m Q failed s) ->
  wlp ((if b then error_exit msg else mret tt);; m) Q failed s.
Proof. intros Hm. apply wlp_bind. destruct b; [done|]. by apply Hm. Qed.


(** [read] gives a count, or fails with an error other than [EINTR]. *)
Definition prompt_reads : Prop :=
  forall fd n w r w', kcall (SRead fd n) w = (r, w') ->
    0 <= r_val r \/ r_val r = -1 /\ r_err r <> EINTR.

(** Then [read_full] needs one call per byte at most. *)
Lemma read_full_fueled fuel fd n :
  prompt_reads -> (n < fuel)%nat -> fueled (read_full fuel fd n : C W _).
Proof.
  intros Hp. unfold read_full. generalize (@nil byte) as got. revert n.
  induction fuel as [|fuel IH]; intros n got Hn; [lia|]. cbn [loop].
  destruct n as [|n]; [by intros s|]. intros s.
  unfold read_turn. unfold mbind, C_bind, sys, get_errno.
  destruct (kcall _ _) as [r w] eqn:Ek. apply Hp in Ek. simpl.
  destruct (Z.eqb_spec (r_val r) 0) as [H0|H0]; [done|].
  destruct (Z.ltb_spec (r_val r) 0) as [Hneg|Hpos].
  - destruct Ek as [?|[Hv He]]; [lia|]. rewrite Hv. simpl.
    by rewrite (proj2 (Z.eqb_neq _ _)) by done.
  - apply IH. lia.
Qed.
End Accounting.

Lemma fueled_undef {W A} why : fueled (undef why : C W A).
Proof. done. Qed.

Ltac fuel_solve :=
  repeat first
    [ apply fueled_ret | apply fueled_exit | apply fueled_emit | apply fueled_sys
    | apply fueled_array_get | apply fueled_array_set | apply fueled_undef | assumption
    | apply fueled_bind; [|intros ?] | case_match ].

(** ** A kernel for concrete runs

    Results played back in order; an [accept] gives a positive descriptor or
    fails, a [read] is not interrupted. *)
Record playback := Playback { answers : list sysret }.
#[export] Instance playback_kernel : Kernel playback := fun c w =>
  match answers w with
  | [] => (sys_fail EIO, w)
  | r :: rs =>
      (match c with
       | SAccept _ => if 0 <? r_val r then r else sys_fail EIO
       | SRead _ _ => if 0 <=? r_val r then r else sys_fail EIO
       | _ => r
       end, Playback rs)
  end.

Lemma playback_accept : accept_positive (W := playback).
Proof.
  intros fd [[|r rs]] r' w' E; unfold kcall, playback_kernel in E; simpl in E.
  - injection E as <- _. by left.
  - destruct (Z.ltb_spec 0 (r_val r)); injection E as <- _; [by right|by left].
Qed.

Lemma playback_prompt : prompt_reads (W := playback).
Proof.
  intros fd n [[|r rs]] r' w' E; unfold kcall, playback_kernel in E; simpl in E.
  - injection E as <- _. by right.
  - destruct (Z.leb_spec 0 (r_val r)); injection E as <- _; [by left|by right].
Qed.
