(* ===== verification/PollServer.v ===== *)
(** * The server that waits with [poll]

    [src/io-multiplexing/poll/main.c]: a table of client sockets and a table of
    [struct pollfd], one entry longer, that grow together; one pass accepts at
    most one connection and reads at most one word from every ready client.
    The arrays are lists, every access is checked against their bounds, so that
    a run without [Undef] is a run without a memory error. *)

From S2P Require Import Prelude CMonad CString Words Servers.

Record pollfd := PollFd { fd : Z; events : Z; revents : Z }.

Definition POLLIN : Z := 1.

(** [client_sockets], [fds], [client_count] and [client_capacity] of [main]. *)
Record table := Table {
  client_sockets : list Z;
  fds : list pollfd;
  client_count : nat;
  client_capacity : nat;
}.

Section PollServer.
Context {W} `{Kernel W}.

Definition socket_close (sockfd : Z) : C W unit :=
  r ← sys (SClose sockfd);
  (if r_val r =? -1 then error_exit "Error closing socket" else mret tt);;
  out (ln "Socket closed.").

Definition socket_create : C W Z :=
  r ← sys (SSocket AF_UNIX (Z.lor SOCK_STREAM SOCK_CLOEXEC) 0);
  (if negb (r_val r =? -1) then out (ln "Socket created successfully.") else mret tt);;
  mret (r_val r).

Definition socket_bind (sockfd : Z) (path : string) : C W Z :=
  r ← sys (SBind sockfd (chars path));
  (if negb (r_val r =? -1) then out (ln ("Bound to domain socket: " +:+ path)) else mret tt);;
  mret (r_val r).

Definition sizeof_pollfd : Z := 8.

(** The tables of [client_capacity] cleared slots. *)
Definition empty_table (sockfd : Z) (client_capacity : nat) : table :=
  Table (replicate client_capacity (-1))
        (PollFd sockfd POLLIN 0 :: replicate client_capacity (PollFd (-1) 0 0))
        0 client_capacity.

Definition initialize_pollfds (sockfd : Z) : C W table :=
  let client_capacity := 4%nat in
  alloc (Z.of_nat client_capacity * sizeof_int) "malloc";;
  alloc ((Z.of_nat client_capacity + 1) * sizeof_pollfd) "malloc";;
  mret (empty_table sockfd client_capacity).

(** [if(count == capacity)]: both arrays grow, the new slots are cleared. *)
Definition new_cap (t : table) : nat :=
  if (client_capacity t =? 0)%nat then 4%nat else (client_capacity t * 2)%nat.

Definition grown (t : table) : table :=
  Table (client_sockets t ++ replicate (new_cap t - client_capacity t) (-1))
        (fds t ++ replicate (new_cap t - client_capacity t) (PollFd (-1) 0 0))
        (client_count t) (new_cap t).

Definition grow (t : table) : C W table :=
  alloc (Z.of_nat (new_cap t) * sizeof_int) "realloc";;
  alloc ((Z.of_nat (new_cap t) + 1) * sizeof_pollfd) "realloc";;
  mret (grown t).

Definition handle_new_connection (sockfd : Z) (t : table) : C W table :=
  f0 ← array_get (fds t) 0;
  if Z.land (revents f0) POLLIN =? 0 then mret t
  else
    r ← sys (SAccept sockfd);
    if r_val r =? -1 then error_exit "Accept error"
    else
      t ← (if (client_count t =? client_capacity t)%nat then grow t else mret t);
      cs ← array_set (client_sockets t) (Z.of_nat (client_count t)) (r_val r);
      fs ← array_set (fds t) (Z.of_nat (client_count t) + 1) (PollFd (r_val r) POLLIN 0);
      mret (Table cs fs (S (client_count t)) (client_capacity t)).

Definition handle_client_disconnection (t : table) (client_index : nat) : C W table :=
  disconnected_socket ← array_get (client_sockets t) (Z.of_nat client_index);
  sys (SClose disconnected_socket);;
  let last := Z.of_nat (client_count t) - 1 in
  '(cs, fs) ← (if negb (Z.of_nat client_index =? last) then
     c ← array_get (client_sockets t) last;
     cs ← array_set (client_sockets t) (Z.of_nat client_index) c;
     f ← array_get (fds t) (last + 1);
     fs ← array_set (fds t) (Z.of_nat client_index + 1) f;
     mret (cs, fs)
   else mret (client_sockets t, fds t));
  cs ← array_set cs last (-1);
  fs ← array_set fs (last + 1) (PollFd (-1) 0 0);
  mret (Table cs fs (client_count t - 1) (client_capacity t)).

(** The body of the loop over the clients: the word read, or a disconnection. *)
Definition client_turn (fuel : nat) (t : table) (i : nat) : C W table :=
  c ← array_get (client_sockets t) (Z.of_nat i);
  f ← array_get (fds t) (Z.of_nat i + 1);
  if (c =? -1) || (Z.land (revents f) POLLIN =? 0) then mret t
  else
    let disconnected :=
      out (ln ("Client " +:+ fmt_d c +:+ " disconnected"));;
      handle_client_disconnection t i in
    '(rc, b) ← read_full fuel c 1;
    if rc <=? 0 then disconnected
    else
      let word_length := match b with x :: _ => byte_val x | [] => 0 end in
      if min_size (MAX_WORD_LEN - 1) 255 <? word_length then
        out (ln ("Client " +:+ fmt_d c +:+ " sent oversize word length ("
                 +:+ fmt_u word_length +:+ ")"));;
        handle_client_disconnection t i
      else
        '(rc, word) ← read_full fuel c (Z.to_nat word_length);
        if rc <=? 0 then disconnected
        else
          out (ln ("Received word from client " +:+ fmt_d c +:+ ": "
                   +:+ of_chars (cstring (word ++ [NUL]))));;
          fs ← array_set (fds t) (Z.of_nat i + 1) (PollFd (fd f) (events f) 0);
          mret (Table (client_sockets t) fs (client_count t) (client_capacity t)).

(** [for(i = 0; i < *client_count; i++)]; a client moved into the slot of one
    that left is not looked at in this pass. *)
Fixpoint data_loop (n : nat) (fuel : nat) (t : table) (i : nat) : C W table :=
  match n with
  | O => no_fuel
  | S n =>
      if (i <? client_count t)%nat then
        t ← client_turn fuel t i; data_loop n fuel t (S i)
      else mret t
  end.

(** One turn per client and the last test of the condition. *)
Definition handle_client_data (fuel : nat) (t : table) : C W table :=
  data_loop (S (client_count t)) fuel t 0.

(** [poll(fds, client_count + 1, -1)]: the [revents] it stores. *)
Definition store_revents (fs : list pollfd) (r : list byte) : list pollfd :=
  zip_with (fun f b => PollFd (fd f) (events f) (byte_val b)) fs r
  ++ drop (length r) fs.

Definition poll_call (t : table) : C W (Z * table) :=
  let n := S (client_count t) in
  r ← sys (SPoll ((fun f => (fd f, events f)) <$> take n (fds t)));
  mret (r_val r,
        Table (client_sockets t) (store_revents (fds t) (take n (r_data r)))
              (client_count t) (client_capacity t)).

(** One turn of [while(!exit_flag)]. *)
Definition server_turn (fuel : nat) (sockfd : Z) (t : table) : C W (table + table) :=
  flag ← sys SExitFlag;
  if negb (r_val flag =? 0) then mret (inr t)
  else
    '(activity, t) ← poll_call t;
    if activity <? 0 then error_exit "Poll error"
    else
      t ← handle_new_connection sockfd t;
      t ← (if (0 <? client_count t)%nat then handle_client_data fuel t else mret t);
      f0 ← array_get (fds t) 0;
      fs ← array_set (fds t) 0 (PollFd (fd f0) (events f0) 0);
      mret (inl (Table (client_sockets t) fs (client_count t) (client_capacity t))).

(** [for(i = 0; i < client_count; i++) if(client_sockets[i] > 0) close]. *)
Fixpoint close_clients (n : nat) (cs : list Z) (i : nat) : C W unit :=
  match n with
  | O => mret tt
  | S n =>
      c ← array_get cs (Z.of_nat i);
      (if 0 <? c then socket_close c else mret tt);;
      close_clients n cs (S i)
  end.

(** [turns] bounds the turns of the main loop, [fuel] the calls of one
    [read_full]. *)
Definition main (turns fuel : nat) : C W Z :=
  sys (SSigaction SIGINT);;
  sys (SUnlink SOCKET_PATH);;
  sockfd ← socket_create;
  (if sockfd =? -1 then error_exit "socket" else mret tt);;
  b ← socket_bind sockfd SOCKET_PATH;
  (if b =? -1 then error_exit "bind" else mret tt);;
  l ← sys (SListen sockfd SOMAXCONN);
  (if r_val l =? -1 then error_exit "Listen error" else mret tt);;
  out (ln "Server listening for incoming connections...");;
  t ← initialize_pollfds sockfd;
  t ← loop turns (server_turn fuel sockfd) t;
  close_clients (client_count t) (client_sockets t) 0;;
  socket_close sockfd;;
  sys (SUnlink SOCKET_PATH);;
  out (ln "Server exited successfully.");;
  mret EXIT_SUCCESS.
End PollServer.

(** ** What the tables represent *)

(** The entry of a client that is watched. *)
Definition watches (c : Z) (p : pollfd) : Prop := fd p = c /\ events p = POLLIN.

(** The table holds [clients], in this order; the free slots are cleared. *)
Record represents (sockfd : Z) (t : table) (clients : list Z) : Prop := {
  rep_count : client_count t = length clients;
  rep_capacity : (0 < client_capacity t)%nat;
  rep_sockets : exists k, client_sockets t = clients ++ replicate k (-1) /\
    client_capacity t = (length clients + k)%nat /\
    exists r0 ps, Forall2 watches clients ps /\
      fds t = PollFd sockfd POLLIN r0 :: ps ++ replicate k (PollFd (-1) 0 0);
}.

Section Handlers.
Context {W} `{Kernel W} (sockfd : Z).
Local Abbreviation balanced := (balanced sockfd).
Lemma disconnection_keeps t clients i c (s : cstate W) E :
  represents sockfd t clients -> balanced clients s -> clients !! i = Some c ->
  wlp (handle_client_disconnection t i)
    (fun t' s' => represents sockfd t' (swap_remove clients i) /\
                  balanced (swap_remove clients i) s' /\
                  closed (trace s') = closed (trace s) ++ [c] /\
                  obtained (trace s') = obtained (trace s)) E s.
Proof.
  intros [Hc Hcap (k & Hcs & Hk & r0 & ps & Hps & Hfs)] [Hb Hpos] Hi.
  pose proof (lookup_lt_Some _ _ _ Hi) as Hlt.
  assert (clients <> []) as Hne by (by destruct clients).
  destruct (swap_remove_last clients Hne) as [l Hl].
  assert (length clients = length ps) as Hlen by (by eapply Forall2_length).
  destruct (swap_remove_last ps) as [lp Hlp]; [by destruct ps, clients|].
  unfold handle_client_disconnection. rewrite Hc, Hcs, Hfs.
  replace (Z.of_nat (length clients) - 1) with (Z.of_nat (length clients - 1)) by lia.
  rewrite !of_nat_S.
  apply wlp_bind, (wlp_array_get _ _ c); [by rewrite lookup_app_l|].
  apply wlp_bind, wlp_sys. intros r w e _. apply wlp_bind.
  set (s1 := CState _ _ _).
  assert (wlp (if negb (Z.of_nat i =? Z.of_nat (length clients - 1)) then
       c ← array_get (clients ++ replicate k (-1)) (Z.of_nat (length clients - 1));
       cs ← array_set (clients ++ replicate k (-1)) (Z.of_nat i) c;
       f ← array_get (PollFd sockfd POLLIN r0 :: ps ++ replicate k (PollFd (-1) 0 0))
             (Z.of_nat (S (length clients - 1)));
       fs ← array_set (PollFd sockfd POLLIN r0 :: ps ++ replicate k (PollFd (-1) 0 0))
             (Z.of_nat (S i)) f;
       mret (cs, fs)
     else mret (clients ++ replicate k (-1),
                PollFd sockfd POLLIN r0 :: ps ++ replicate k (PollFd (-1) 0 0)))
     (fun p s' => s' = s1 /\ p = (<[i := l]> (clients ++ replicate k (-1)),
       PollFd sockfd POLLIN r0 :: <[i := lp]> (ps ++ replicate k (PollFd (-1) 0 0)))) E s1) as Hswap.
  { destruct (Z.eqb_spec (Z.of_nat i) (Z.of_nat (length clients - 1))) as [Ei|Ei]; simpl.
    - assert (i = length clients - 1)%nat as -> by lia. apply wlp_ret. split; [done|].
      rewrite !list_insert_id; [done|..].
      + rewrite lookup_app_l by lia. rewrite <- Hlp. f_equal. lia.
      + rewrite lookup_app_l by lia. done.
    - apply wlp_bind, (wlp_array_get _ _ l); [by rewrite lookup_app_l by lia|].
      apply wlp_bind, wlp_array_set; [rewrite length_app; lia|].
      apply wlp_bind, (wlp_array_get _ _ lp).
      { simpl. rewrite lookup_app_l by lia. rewrite <- Hlp. f_equal. lia. }
      apply wlp_bind, wlp_array_set; [simpl; rewrite length_app; lia|].
      by apply wlp_ret. }
  eapply wlp_mono; [exact Hswap| |done]. simpl. intros p s' [-> ->].
  apply wlp_bind, wlp_array_set; [rewrite length_insert, length_app; lia|].
  apply wlp_bind, wlp_array_set; [simpl; rewrite length_insert, length_app; lia|].
  apply wlp_ret. rewrite (swap_out _ _ _ _ _ Hlt Hl). simpl.
  pose proof (swap_out ps k i lp (PollFd (-1) 0 0)) as Hso. rewrite <- Hlen in Hso, Hlp.
  rewrite (Hso Hlt Hlp).
  assert (swap_remove clients i = take (length clients - 1) (<[i := l]> clients)) as Hsr
    by (unfold swap_remove; by rewrite Hl).
  split_and!.
  - split; simpl.
    + rewrite length_swap_remove by done. lia.
    + done.
    + exists (S k). rewrite length_swap_remove by done. split_and!; [by rewrite Hsr|lia|].
      exists r0, (take (length clients - 1) (<[i := lp]> ps)). split; [|done].
      rewrite Hsr. apply Forall2_take, Forall2_insert; [done|].
      eapply Forall2_lookup_lr; [exact Hps|exact Hl|exact Hlp].
  - split.
    + subst s1. simpl. rewrite obtained_app, closed_app. simpl. rewrite app_nil_r, Hb.
      rewrite (swap_remove_perm _ _ _ Hi) at 1. by rewrite <- app_assoc.
    + pose proof (swap_remove_perm _ _ _ Hi) as Hperm. rewrite Hperm in Hpos.
      by apply Forall_cons_1 in Hpos as [_ ?].
  - subst s1. simpl. by rewrite closed_app.
  - subst s1. simpl. rewrite obtained_app. simpl. by rewrite app_nil_r.
Qed.

Lemma represents_parts t clients :
  represents sockfd t clients ->
  exists k r0 ps, client_sockets t = clients ++ replicate k (-1) /\
    client_capacity t = (length clients + k)%nat /\
    Forall2 watches clients ps /\ length ps = length clients /\
    fds t = PollFd sockfd POLLIN r0 :: ps ++ replicate k (PollFd (-1) 0 0).
Proof.
  intros [_ _ (k & Hcs & Hk & r0 & ps & Hps & Hfs)]. exists k, r0, ps.
  split_and!; try done. symmetry. by eapply Forall2_length.
Qed.

(** Storing in the entry of the listening socket or of a client an entry that
    watches the same descriptor. *)
Lemma represents_set_0 t clients r :
  represents sockfd t clients ->
  represents sockfd (Table (client_sockets t) (<[O := PollFd sockfd POLLIN r]> (fds t))
    (client_count t) (client_capacity t)) clients.
Proof.
  intros Hr. destruct (represents_parts _ _ Hr) as (k & r0 & ps & Hcs & Hk & Hps & Hl & Hfs).
  destruct Hr as [Hc Hcap _]. split; [done..|]. exists k. split_and!; [done..|].
  exists r, ps. split; [done|]. simpl. by rewrite Hfs.
Qed.

Lemma represents_set_S t clients i c r :
  represents sockfd t clients -> clients !! i = Some c ->
  represents sockfd (Table (client_sockets t) (<[S i := PollFd c POLLIN r]> (fds t))
    (client_count t) (client_capacity t)) clients.
Proof.
  intros Hr Hi. destruct (represents_parts _ _ Hr) as (k & r0 & ps & Hcs & Hk & Hps & Hl & Hfs).
  destruct Hr as [Hc Hcap _]. split; [done..|]. exists k. split_and!; [done..|].
  exists r0, (<[i := PollFd c POLLIN r]> ps). simpl. rewrite Hfs. split.
  - rewrite <- (list_insert_id clients i c Hi). apply Forall2_insert; [done|]. by split.
  - simpl. rewrite insert_app_l; [done|]. rewrite Hl. by eapply lookup_lt_Some.
Qed.

Lemma represents_grow t clients :
  represents sockfd t clients -> client_count t = client_capacity t ->
  exists k, represents sockfd (grown t) clients /\
    client_sockets (grown t) = clients ++ replicate (S k) (-1).
Proof.
  intros Hr Hfull. destruct (represents_parts _ _ Hr) as (k & r0 & ps & Hcs & Hk & Hps & Hl & Hfs).
  destruct Hr as [Hc Hcap _]. unfold grown, new_cap.
  rewrite (proj2 (Nat.eqb_neq _ _)) by lia.
  assert (k = 0%nat) as -> by lia. simpl in *. rewrite app_nil_r in *.
  exists (client_capacity t - 1)%nat.
  replace (client_capacity t * 2 - client_capacity t)%nat with (client_capacity t) by lia.
  change (-1 :: replicate (client_capacity t - 1) (-1))
    with (replicate (S (client_capacity t - 1)) (-1)).
  replace (S (client_capacity t - 1)) with (client_capacity t) by lia.
  split; [split; simpl; [done|lia|]|by rewrite Hcs].
  exists (client_capacity t). split_and!; [simpl; by rewrite Hcs|simpl; lia|].
  exists r0, ps. split; [done|]. simpl. by rewrite Hfs.
Qed.

Lemma represents_append t clients k c :
  represents sockfd t clients -> client_sockets t = clients ++ replicate (S k) (-1) ->
  represents sockfd
    (Table (<[length clients := c]> (client_sockets t))
       (<[S (length clients) := PollFd c POLLIN 0]> (fds t))
       (S (client_count t)) (client_capacity t)) (clients ++ [c]).
Proof.
  intros Hr Hfree. destruct (represents_parts _ _ Hr) as (k' & r0 & ps & Hcs & Hk & Hps & Hl & Hfs).
  assert (k' = S k) as ->.
  { apply (f_equal length) in Hfree. rewrite Hcs, !length_app, !length_replicate in Hfree. lia. }
  destruct Hr as [Hc Hcap _]. rewrite Hcs, Hfs. split; simpl.
  - rewrite length_app. simpl. lia.
  - done.
  - exists k. rewrite !length_app. simpl. split_and!; [|lia|].
    + rewrite <- app_assoc. by rewrite insert_app_r_alt, Nat.sub_diag by lia.
    + exists r0, (ps ++ [PollFd c POLLIN 0]). split; [apply Forall2_app; [done|]|].
      * repeat constructor.
      * rewrite <- app_assoc. rewrite insert_app_r_alt by lia.
        rewrite Hl. by rewrite Nat.sub_diag.
Qed.

Lemma grow_if_full t clients (s : cstate W) :
  represents sockfd t clients ->
  wlp (if (client_count t =? client_capacity t)%nat then grow t else mret t)
    (fun t' s' => exists k, represents sockfd t' clients /\
       client_sockets t' = clients ++ replicate (S k) (-1) /\ quiet s s') failed s.
Proof.
  intros Hr. destruct (Nat.eqb_spec (client_count t) (client_capacity t)) as [Ef|Ef].
  - destruct (represents_grow _ _ Hr Ef) as (k & Hr' & Hf).
    eapply wlp_mono; [apply alloc_twice_quiet| |done]. intros t' s' [-> Hq]. by exists k.
  - destruct (represents_parts _ _ Hr) as (k & _ & _ & Hcs & Hk & _).
    pose proof (rep_count _ _ _ Hr). destruct k as [|k]; [lia|].
    apply wlp_ret. by exists k.
Qed.

Lemma new_connection_keeps t clients (s : cstate W) :
  accept_positive -> represents sockfd t clients -> balanced clients s ->
  wlp (handle_new_connection sockfd t)
    (fun t' s' => exists new, represents sockfd t' (clients ++ new) /\
       balanced (clients ++ new) s' /\ (length new <= 1)%nat /\
       obtained (trace s') = obtained (trace s) ++ new /\
       closed (trace s') = closed (trace s)) failed s.
Proof.
  intros Hpos Hr [Hb Hp]. unfold handle_new_connection.
  destruct (represents_parts _ _ Hr) as (k & r0 & ps & Hcs & Hk & Hps & Hl & Hfs).
  apply wlp_bind, (wlp_array_get _ 0 (PollFd sockfd POLLIN r0)); [by rewrite Hfs|].
  case_match eqn:Hin.
  { apply wlp_ret. exists []. rewrite !app_nil_r. split_and!; [done..|simpl; lia|done|done]. }
  apply wlp_bind, wlp_sys. intros r w e Hacc. apply Hpos in Hacc.
  case_match eqn:Hm; [apply wlp_error_exit|]. bools. destruct Hacc as [?|Hacc]; [done|].
  set (s1 := CState _ _ _).
  assert (obtained (trace s1) = obtained (trace s) ++ [r_val r] /\
          closed (trace s1) = closed (trace s)) as [Ho1 Hcl1].
  { subst s1. simpl. rewrite obtained_app, closed_app. simpl. rewrite app_nil_r.
    by rewrite (proj2 (Z.eqb_neq _ _)) by done. }
  clearbody s1. apply wlp_bind. eapply wlp_mono; [by apply grow_if_full| |done].
  intros t1 s2 (k1 & Hr1 & Hfree & Hq). destruct (quiet_trans _ _ _ (quiet_refl s1) Hq) as [Ho2 Hcl2].
  clear Hfs Hps Hl Hcs Hk. pose proof (represents_append _ _ _ (r_val r) Hr1 Hfree) as Hr2.
  destruct (represents_parts _ _ Hr1) as (k' & r1 & ps1 & Hcs & Hk & Hps & Hl & Hfs).
  assert (k' = S k1) as ->.
  { apply (f_equal length) in Hfree. rewrite Hcs, !length_app, !length_replicate in Hfree. lia. }
  pose proof (rep_count _ _ _ Hr1) as Hc1. rewrite of_nat_S, Hc1 in *.
  apply wlp_bind, wlp_array_set; [rewrite Hcs, length_app; simpl; lia|].
  apply wlp_bind, wlp_array_set.
  { rewrite Hfs. simpl. rewrite length_app. simpl. lia. }
  apply wlp_ret. exists [r_val r]. split; [exact Hr2|].
  rewrite Hcl2, Hcl1, Ho2, Ho1. unfold balanced. rewrite Hcl2, Hcl1, Ho2, Ho1.
  split_and!; [rewrite Hb; simpl; by rewrite <- app_assoc|apply Forall_app; eauto|simpl; lia|done|done].
Qed.

(** What one visit of slot [i] does to the clients. *)
Definition visited (clients : list Z) (i : nat) (s : cstate W) (t' : table) (s' : cstate W) : Prop :=
  exists clients', (clients' = clients \/ clients' = swap_remove clients i) /\
    represents sockfd t' clients' /\ balanced clients' s' /\
    obtained (trace s') = obtained (trace s).

Lemma disconnect_visits t clients i c (s0 s : cstate W) E :
  represents sockfd t clients -> balanced clients s0 -> clients !! i = Some c ->
  quiet s0 s ->
  wlp (handle_client_disconnection t i) (visited clients i s0) E s.
Proof.
  intros Hr Hb Hi Hq. eapply wlp_mono.
  { eapply disconnection_keeps; [done| |done]. by eapply quiet_balanced. }
  2: done.
  intros t' s' (Hr' & Hb' & _ & Ha). exists (swap_remove clients i).
  split_and!; [by right|done|done|]. by rewrite Ha, (proj1 Hq).
Qed.

Lemma out_disconnect_visits t clients i c msg (s0 s : cstate W) E :
  represents sockfd t clients -> balanced clients s0 -> clients !! i = Some c ->
  quiet s0 s ->
  wlp (out msg;; handle_client_disconnection t i) (visited clients i s0) E s.
Proof.
  intros Hr Hb Hi Hq. apply wlp_bind. unfold wlp at 1, out, emit.
  eapply disconnect_visits; [done..|].
  eapply quiet_trans; [exact Hq|by apply quiet_event].
Qed.

Lemma client_turn_visits fuel t clients i (s : cstate W) E :
  represents sockfd t clients -> balanced clients s -> (i < length clients)%nat ->
  wlp (client_turn fuel t i) (visited clients i s) E s.
Proof.
  intros Hr Hb Hi. destruct (lookup_lt_is_Some_2 _ _ Hi) as [c Hc].
  destruct (represents_parts _ _ Hr) as (k & r0 & ps & Hcs & Hk & Hps & Hl & Hfs).
  destruct (Forall2_lookup_l _ _ _ _ _ Hps Hc) as (p & Hp & Hw).
  assert (visited clients i s t s) as Hsame.
  { exists clients. split_and!; [by left|done..]. }
  unfold client_turn.
  apply wlp_bind, (wlp_array_get _ _ c); [rewrite Hcs; by apply lookup_app_l_Some|].
  rewrite of_nat_S.
  apply wlp_bind, (wlp_array_get _ _ p); [rewrite Hfs; simpl; by apply lookup_app_l_Some|].
  case_match; [by apply wlp_ret|].
  apply wlp_bind. eapply wlp_mono; [by apply read_full_quiet, quiet_refl| |done].
  intros [rc b] s1 Hs1. case_match; [by eapply out_disconnect_visits|].
  generalize (match b with x :: _ => byte_val x | [] => 0 end). intros word_length.
  case_match; [by eapply out_disconnect_visits|].
  apply wlp_bind. eapply wlp_mono; [by apply read_full_quiet| |done].
  intros [rc' word] s2 Hs2. case_match; [by eapply out_disconnect_visits|].
  apply wlp_bind. unfold wlp at 1, out, emit.
  apply wlp_bind, wlp_array_set.
  { rewrite Hfs. simpl. rewrite length_app. lia. }
  apply wlp_ret. exists clients. destruct Hw as [Hfd Hev]. rewrite Hfd, Hev.
  match goal with |- context [CState _ (trace s2 ++ [?e]) _] =>
    assert (quiet s (CState (errno s2) (trace s2 ++ [e]) (world s2))) as Hq
      by (eapply quiet_trans; [exact Hs2|by apply quiet_event]) end.
  split_and!; [by left|by apply represents_set_S|by eapply quiet_balanced|by apply Hq].
Qed.

(** What the handlers keep, with the descriptors obtained so far. *)
Definition serving (acc : list Z) (t : table) (s : cstate W) : Prop :=
  exists clients, represents sockfd t clients /\ balanced clients s /\
    obtained (trace s) = acc.

Lemma data_loop_keeps n fuel acc t i (s : cstate W) E :
  serving acc t s -> wlp (data_loop n fuel t i) (serving acc) E s.
Proof.
  revert t i s. induction n as [|n IH]; intros t i s (clients & Hr & Hb & Ha); simpl.
  { done. }
  rewrite (rep_count _ _ _ Hr).
  destruct (Nat.ltb_spec i (length clients)) as [Hi|Hi]; [|apply wlp_ret; by exists clients].
  apply wlp_bind. eapply wlp_mono; [by apply client_turn_visits| |done].
  intros t' s' (clients' & _ & Hr' & Hb' & Ha'). apply IH. exists clients'.
  split_and!; [done..|by rewrite Ha'].
Qed.

Lemma client_turn_fueled fuel t i : prompt_reads -> (255 < fuel)%nat -> fueled (client_turn fuel t i).
Proof.
  intros Hp Hf. unfold client_turn, handle_client_disconnection.
  apply fueled_bind; [apply fueled_array_get|intros c].
  apply fueled_bind; [apply fueled_array_get|intros f].
  case_match; [apply fueled_ret|].
  assert (fueled (out (ln ("Client " +:+ fmt_d c +:+ " disconnected"));;
    handle_client_disconnection t i : C W table)) as Hd by fuel_solve.
  apply fueled_bind; [apply read_full_fueled; [done|lia]|intros [rc b]].
  case_match; [done|].
  assert (0 <= match b with x :: _ => byte_val x | [] => 0 end < 256) as Hl.
  { destruct b as [|x b]; [lia|apply byte_val_range]. }
  revert Hl. generalize (match b with x :: _ => byte_val x | [] => 0 end). intros l Hl.
  case_match; [fuel_solve|].
  apply fueled_bind; [apply read_full_fueled; [done|lia]|intros [rc' word]].
  case_match; [done|]. fuel_solve.
Qed.

(** The pass visits each slot once. *)
Lemma data_loop_total n fuel acc t i (s : cstate W) E :
  prompt_reads -> (255 < fuel)%nat -> (client_count t - i < n)%nat ->
  serving acc t s -> wp (data_loop n fuel t i) (serving acc) E s.
Proof.
  intros Hp Hf. revert t i s. induction n as [|n IH]; intros t i s Hn Hserve; [lia|].
  destruct Hserve as (clients & Hr & Hb & Ha). cbn [data_loop].
  pose proof (rep_count _ _ _ Hr) as Hc.
  destruct (Nat.ltb_spec i (client_count t)) as [Hi|Hi]; [|apply wp_ret; by exists clients].
  apply wp_bind. eapply wp_mono.
  { apply wp_fueled; [apply client_turn_visits; [done|done|lia]|by apply client_turn_fueled]. }
  2: done.
  intros t' s' (clients' & Hcl & Hr' & Hb' & Ha'). apply IH.
  - rewrite (rep_count _ _ _ Hr').
    assert (length clients' <= length clients)%nat; [|lia].
    destruct Hcl as [->| ->]; [done|]. rewrite length_swap_remove by (destruct clients; simpl in *; [lia|done]).
    lia.
  - exists clients'. split_and!; [done..|by rewrite Ha'].
Qed.

Lemma represents_store t clients (r : list byte) :
  represents sockfd t clients -> (length r <= S (client_count t))%nat ->
  represents sockfd (Table (client_sockets t) (store_revents (fds t) r)
    (client_count t) (client_capacity t)) clients.
Proof.
  intros Hr Hlen. destruct (represents_parts _ _ Hr) as (k & r0 & ps & Hcs & Hk & Hps & Hl & Hfs).
  destruct Hr as [Hc Hcap _]. split; [done..|]. exists k. split_and!; [done..|].
  rewrite Hc in Hlen. simpl. rewrite Hfs. destruct r as [|b r].
  { exists r0, ps. split; [done|]. done. }
  simpl in *. exists (byte_val b), (zip_with (fun f b => PollFd (fd f) (events f) (byte_val b)) ps r
    ++ drop (length r) ps).
  assert (length r <= length ps)%nat as Hlr by lia. clear -Hps Hlr. split.
  - revert r Hlr. induction Hps as [|c p cs ps [Hf He] Hps IH]; intros [|b' r] Hlr; simpl in *.
    + constructor.
    + lia.
    + constructor; [by split|done].
    + constructor; [by split|]. apply IH. lia.
  - unfold store_revents. simpl. apply (f_equal (cons _)). clear Hps.
    revert r Hlr. induction ps as [|p ps IH]; intros [|b' r] Hlr; simpl in *;
      rewrite ?zip_with_nil_r; try done; try lia.
    f_equal. apply IH. lia.
Qed.

Lemma poll_turn_keeps fuel t (s : cstate W) :
  accept_positive -> (exists acc, serving acc t s) ->
  wlp (server_turn fuel sockfd t)
    (fun r s' => match r with
                 | inl t' => exists acc, serving acc t' s'
                 | inr t' => exists acc, serving acc t' s' end) failed s.
Proof.
  intros Hpos (acc & clients & Hr & Hb & Ha). unfold server_turn.
  apply wlp_bind, wlp_sys. intros r w e _.
  assert (balanced clients (CState e (trace s ++ [ESys SExitFlag r]) w)) as Hb1
    by (by apply neutral_balanced).
  case_match.
  { apply wlp_ret. eexists _, clients. split_and!; [done..|reflexivity]. }
  apply wlp_bind. unfold poll_call. apply wlp_bind, wlp_sys. intros r1 w1 e1 _. simpl.
  match goal with |- context [CState e1 (?tr ++ [?ev]) w1] =>
    assert (balanced clients (CState e1 (tr ++ [ev]) w1)) as Hb2
      by (by apply (neutral_balanced _ _ (CState e tr w))) end.
  apply wlp_ret. case_match; [apply wlp_error_exit|].
  apply wlp_bind. eapply wlp_mono.
  { apply new_connection_keeps; [done| |exact Hb2].
    apply represents_store; [done|]. rewrite length_take. lia. }
  2: done.
  intros t2 s2 (new & Hr2 & Hb3 & _). apply wlp_bind.
  eapply (wlp_mono _ (serving (obtained (trace s2)))); [| |done].
  { case_match; [|apply wlp_ret; by eexists].
    apply data_loop_keeps. by eexists. }
  intros t3 s3 (clients3 & Hr3 & Hb4 & Ha3).
  destruct (represents_parts _ _ Hr3) as (k & r0 & ps & Hcs & Hk & Hps & Hl & Hfs).
  apply wlp_bind, (wlp_array_get _ 0 (PollFd sockfd POLLIN r0)); [by rewrite Hfs|].
  apply wlp_bind, (wlp_array_set _ 0); [rewrite Hfs; simpl; lia|].
  apply wlp_ret. eexists _, clients3. split_and!; [by apply represents_set_0|done|reflexivity].
Qed.

Lemma socket_close_closes fd (s : cstate W) :
  wlp (socket_close fd) (fun _ s' => closed (trace s') = closed (trace s) ++ [fd] /\
    obtained (trace s') = obtained (trace s)) failed s.
Proof.
  unfold socket_close. apply wlp_bind, wlp_sys. intros r w e _. apply wlp_bind.
  case_match; [apply wlp_error_exit|]. apply wlp_ret. unfold wlp, out, emit. simpl.
  rewrite !closed_app, !obtained_app. simpl. by rewrite !app_nil_r.
Qed.

(** Closing the clients of the table. *)
Lemma close_clients_closes n cs i clients k (s : cstate W) :
  cs = clients ++ replicate k (-1) -> (i + n = length clients)%nat ->
  Forall (fun c => 0 < c) clients ->
  wlp (close_clients n cs i) (fun _ s' =>
    closed (trace s') = closed (trace s) ++ drop i clients /\
    obtained (trace s') = obtained (trace s)) failed s.
Proof.
  intros -> Hn Hp. revert i s Hn. induction n as [|n IH]; intros i s Hn; simpl.
  { apply wlp_ret. rewrite drop_ge by lia. by rewrite app_nil_r. }
  destruct (lookup_lt_is_Some_2 clients i) as [c Hc]; [lia|].
  apply wlp_bind, (wlp_array_get _ _ c); [by apply lookup_app_l_Some|].
  rewrite Forall_lookup in Hp. pose proof (Hp _ _ Hc) as Hcp.
  rewrite (proj2 (Z.ltb_lt _ _)) by done.
  apply wlp_bind. eapply wlp_mono; [by apply socket_close_closes| |done].
  intros _ s1 [Hc1 Ha1]. eapply wlp_mono; [apply IH; lia| |done].
  intros _ s2 [-> ->]. rewrite Hc1. split; [|done].
  rewrite (drop_S _ _ _ Hc). by rewrite <- app_assoc.
Qed.

Lemma represents_initial : represents sockfd (empty_table sockfd 4) [].
Proof. split; simpl; [done|lia|]. exists 4%nat. split_and!; [done..|]. by exists 0, []. Qed.

(** From the bound and listening socket on. *)
Lemma serve_closes turns fuel (s : cstate W) :
  accept_positive -> balanced [] s ->
  wlp (t ← initialize_pollfds sockfd;
       t ← loop turns (server_turn fuel sockfd) t;
       close_clients (client_count t) (client_sockets t) 0;;
       socket_close sockfd;;
       sys (SUnlink SOCKET_PATH);;
       out (ln "Server exited successfully.");;
       mret EXIT_SUCCESS)
    (fun v s' => v = EXIT_SUCCESS /\ closed (trace s') ≡ₚ obtained (trace s')) failed s.
Proof.
  intros Hpos Hb. apply wlp_bind.
  eapply wlp_mono; [apply alloc_twice_quiet| |done]. intros t0 s0 [-> Hq0].
  apply wlp_bind. eapply wlp_mono.
  { apply (wlp_loop _ (fun t s' => exists acc, serving acc t s')
             (fun t s' => exists acc, serving acc t s')).
    - intros t s' Hs. by apply poll_turn_keeps.
    - eexists _, []. split_and!; [apply represents_initial|by eapply quiet_balanced|reflexivity]. }
  2: done.
  intros t s1 (acc & clients & Hr & [Hb1 Hp] & _). apply wlp_bind.
  destruct (represents_parts _ _ Hr) as (k & r0 & ps & Hcs & Hk & Hps & Hl & Hfs).
  eapply wlp_mono; [|..|done].
  { eapply (close_clients_closes _ _ 0 clients k); [done| |done].
    by rewrite (rep_count _ _ _ Hr). }
  intros _ s2 [Hc2 Ha2]. apply wlp_bind.
  eapply wlp_mono; [apply socket_close_closes| |done]. intros _ s3 [Hc3 Ha3].
  apply wlp_bind, wlp_sys. intros r w e _. apply wlp_bind.
  unfold wlp at 1, out, emit. apply wlp_ret. split; [done|]. simpl.
  rewrite !closed_app, !obtained_app. simpl. rewrite !app_nil_r.
  rewrite Hc3, Ha3, Hc2, Ha2, Hb1. simpl. by rewrite drop_0, Permutation_app_comm.
Qed.
End Handlers.

(** ** The properties of the server *)

Section Properties.
Context {W} `{Kernel W}.


(** [poll] server, a client that leaves.  The disconnection handler closes
    the descriptor of the client in slot [i] and no other, moves the last client
    into its slot and clears the last slot of both tables, on every table that
    represents a list of clients (those reachable do). *)
Theorem poll_disconnection (sockfd : Z) (t : table) (clients : list Z) (i : nat) (c : Z)
    (s : cstate W) :
  represents sockfd t clients -> balanced sockfd clients s -> clients !! i = Some c ->
  wlp (handle_client_disconnection t i)
    (fun t' s' => represents sockfd t' (swap_remove clients i) /\
       clients ≡ₚ c :: swap_remove clients i /\
       closed (trace s') = closed (trace s) ++ [c])
    (fun _ _ => False) s.
Proof.
  intros Hr Hb Hi. eapply wlp_mono; [by eapply (disconnection_keeps _ _ _ _ _ _ (fun _ _ => False))| |done].
  intros t' s' (Hr' & _ & Hc & _). split_and!; [done|by apply swap_remove_perm|done].
Qed.

(** [poll] server, a client that arrives.  The handler accepts at most one
    connection, appends it behind the clients it has, in both tables, and the
    tables grow when they are full: no store is out of their bounds. *)
Theorem poll_new_connection (sockfd : Z) (t : table) (clients : list Z) (s : cstate W) :
  accept_positive (W := W) -> represents sockfd t clients -> balanced sockfd clients s ->
  wlp (handle_new_connection sockfd t)
    (fun t' s' => exists new, (length new <= 1)%nat /\
       represents sockfd t' (clients ++ new) /\
       obtained (trace s') = obtained (trace s) ++ new)
    (fun code _ => code = EXIT_FAILURE) s.
Proof.
  intros Hp Hr Hb. eapply wlp_mono; [by apply new_connection_keeps| |done].
  intros t' s' (new & Hr' & _ & Hn & Ho & _). by exists new.
Qed.

(** [poll] server, one pass over the clients.  When reads are not interrupted
    for ever, the pass always comes to an end, without an out-of-bounds access,
    having looked at every slot at most once; every client that is not in the
    table afterwards has been closed, and no other. *)
Theorem poll_pass_ends (sockfd : Z) (fuel : nat) (t : table) (clients : list Z) (s : cstate W) :
  prompt_reads (W := W) -> (255 < fuel)%nat ->
  represents sockfd t clients -> balanced sockfd clients s ->
  wp (handle_client_data fuel t)
    (fun t' s' => exists clients', represents sockfd t' clients' /\
       obtained (trace s') = obtained (trace s) /\
       closed (trace s') ++ clients' ≡ₚ closed (trace s) ++ clients)
    (fun _ _ => False) s.
Proof.
  intros Hp Hf Hr Hb. eapply (wp_mono _ _ _ (fun _ _ => False)).
  { apply (data_loop_total sockfd _ fuel (obtained (trace s))); [done|done|lia|]. by exists clients. }
  - intros t' s' (clients' & Hr' & [Hb' _] & Ho). exists clients'. split_and!; [done..|].
    apply (Permutation_cons_inv (a := sockfd)). rewrite <- Hb', Ho. apply Hb.
  - done.
Qed.

(** [poll] server, the interrupted wait.  When [poll] returns a negative
    value, [EINTR] of the SIGINT the handler waits for included, the turn ends
    the process with [EXIT_FAILURE] and closes nothing: the cleanup after the
    loop runs only if the signal arrives outside [poll]. *)
Theorem poll_interrupted_skips_cleanup (fuel : nat) (sockfd : Z) (t : table)
    (s : cstate W) (flag ret : sysret) (w1 w2 : W) :
  kcall SExitFlag (world s) = (flag, w1) -> r_val flag = 0 ->
  kcall (SPoll ((fun f => (fd f, events f)) <$> take (S (client_count t)) (fds t))) w1
    = (ret, w2) -> r_val ret < 0 ->
  exists s', server_turn fuel sockfd t s = (Exit EXIT_FAILURE, s') /\
    closed (trace s') = closed (trace s).
Proof.
  intros Hf Hf0 Hp Hneg. unfold server_turn. rewrite (bind_val _ _ _ flag
    (CState (errno s) (trace s ++ [ESys SExitFlag flag]) w1)).
  2: { unfold sys. by rewrite Hf, Hf0. }
  rewrite Hf0. simpl. unfold poll_call, sys, error_exit. cstep. rewrite Hp.
  rewrite (proj2 (Z.ltb_lt _ _) Hneg). eexists. split; [reflexivity|]. simpl.
  rewrite !closed_app. simpl. by rewrite !app_nil_r.
Qed.
End Properties.

(** ** Concrete runs *)

(** A client connects and sends "hi", then SIGINT arrives. *)
Definition one_client : playback :=
  Playback [sys_ok 0; sys_ok 0; sys_ok 3; sys_ok 0; sys_ok 0;
            sys_ok 1; sys_ok 1;
            sys_ok 0; sys_data 1 [byte_of 1]; sys_ok 5;
            sys_ok 0; sys_data 1 [byte_of 0; byte_of 1];
            sys_data 1 [byte_of 2]; sys_data 2 ["h"; "i"]%char;
            sys_ok 1; sys_ok 0; sys_ok 0; sys_ok 0].


(** A full table of four clients on the sockets 5 to 8. *)
Definition four : table :=
  Table [5; 6; 7; 8]
    (PollFd 3 POLLIN POLLIN :: ((fun c => PollFd c POLLIN POLLIN) <$> [5; 6; 7; 8])) 4 4.
Definition four_state (rs : list sysret) : cstate playback :=
  CState 0 ((fun c => ESys (SAccept 3) (sys_ok c)) <$> [5; 6; 7; 8]) (Playback rs).

Lemma four_represents : represents 3 four [5; 6; 7; 8].
Proof.
  split; simpl; [done|lia|]. exists 0%nat. split_and!; [done..|].
  exists POLLIN, ((fun c => PollFd c POLLIN POLLIN) <$> [5; 6; 7; 8]).
  split; [|reflexivity]. repeat constructor.
Qed.

(** The trace of [four_state] with the [socket] call in front. *)
Definition four_ready (rs : list sysret) : cstate playback :=
  CState 0 (ESys (SSocket AF_UNIX SOCK_STREAM 0) (sys_ok 3) :: trace (four_state rs))
    (Playback rs).

Lemma four_balanced rs : balanced 3 [5; 6; 7; 8] (four_ready rs).
Proof. split; [done|]. repeat constructor. Qed.

Lemma poll_disconnection_witness :
  wlp (handle_client_disconnection four 1)
    (fun t' s' => represents 3 t' (swap_remove [5; 6; 7; 8] 1) /\
       [5; 6; 7; 8] ≡ₚ 6 :: swap_remove [5; 6; 7; 8] 1 /\
       closed (trace s') = closed (trace (four_ready [sys_ok 0])) ++ [6])
    (fun _ _ => False) (four_ready [sys_ok 0]).
Proof.
  apply (poll_disconnection 3 four [5; 6; 7; 8] 1 6);
    [apply four_represents|apply four_balanced|reflexivity].
Defined.

Lemma poll_new_connection_witness :
  wlp (handle_new_connection 3 four)
    (fun t' s' => exists new, (length new <= 1)%nat /\
       represents 3 t' ([5; 6; 7; 8] ++ new) /\
       obtained (trace s') = obtained (trace (four_ready [sys_ok 9])) ++ new)
    (fun code _ => code = EXIT_FAILURE) (four_ready [sys_ok 9]).
Proof.
  apply (poll_new_connection 3 four [5; 6; 7; 8]);
    [apply playback_accept|apply four_represents|apply four_balanced].
Defined.

Lemma poll_pass_ends_witness :
  wp (handle_client_data 256 four)
    (fun t' s' => exists clients', represents 3 t' clients' /\
       obtained (trace s') = obtained (trace (four_ready [])) /\
       closed (trace s') ++ clients' ≡ₚ closed (trace (four_ready [])) ++ [5; 6; 7; 8])
    (fun _ _ => False) (four_ready []).
Proof.
  apply (poll_pass_ends 3 256 four [5; 6; 7; 8] (four_ready []));
    [apply playback_prompt|lia|apply four_represents|apply four_balanced].
Defined.

(** SIGINT while the server waits: [poll] fails with [EINTR]. *)
Lemma poll_interrupted_skips_cleanup_witness :
  let s := four_ready [sys_ok 0; sys_fail EINTR] in
  exists s', server_turn 9 3 four s = (Exit EXIT_FAILURE, s') /\
    closed (trace s') = closed (trace s).
Proof.
  apply (poll_interrupted_skips_cleanup 9 3 four
    (four_ready [sys_ok 0; sys_fail EINTR]) (sys_ok 0) (sys_fail EINTR)
    (Playback [sys_fail EINTR]) (Playback [])); reflexivity.
Defined.

(** Where [select] looks at a slot again, [poll] goes on: in a pass in which the
    first of four ready clients leaves, the last is moved into its slot and not
    read from. *)
Lemma poll_skips_the_moved_client :
  let s := four_ready [sys_ok 0; sys_ok 0; sys_data 1 [byte_of 0]; sys_data 1 [byte_of 0]] in
  readers (trace (snd (handle_client_data 256 four s))) = [5; 6; 7] /\
  match fst (handle_client_data 256 four s) with
  | Val t => client_sockets t = [8; 6; 7; -1]
  | _ => False
  end.
Proof. by vm_compute. Qed.
