(* ===== verification/SelectServer.v ===== *)
(** * The server that waits with [select]

    [src/io-multiplexing/select/main.c]: one growing array of client sockets,
    from which a set is built before every call of [select].  Where the [poll]
    server skips the client it moves, this one looks at the slot again. *)

From S2P Require Import Prelude CMonad CString Words Servers.

Definition FD_SETSIZE : Z := 1024.
Definition PROTOCOL_MAX_PAYLOAD_LEN : Z := 255.

(** [client_sockets], [client_count] and [client_capacity] of [main]; a cell
    [realloc] made and nobody has stored to is [None]. *)
Record clients_table := Clients {
  client_sockets : list (option Z);
  client_count : nat;
  client_capacity : nat;
}.

Section SelectServer.
Context {W} `{Kernel W}.

(** [client_sockets[i]]: reading an indeterminate cell is undefined. *)
Definition client_at (t : clients_table) (i : nat) : C W Z :=
  c ← array_get (client_sockets t) (Z.of_nat i);
  match c with Some c => mret c | None => undef "indeterminate value" end.

Definition socket_close (sockfd : Z) : C W unit :=
  r ← sys (SClose sockfd);
  if r_val r =? -1 then error_exit "Error closing socket" else mret tt.

Definition socket_create : C W Z :=
  r ← sys (SSocket AF_UNIX (Z.lor SOCK_STREAM SOCK_CLOEXEC) 0);
  (if r_val r =? -1 then perror "Socket creation failed" else mret tt);;
  mret (r_val r).

Definition socket_bind (sockfd : Z) (path : string) : C W Z :=
  r ← sys (SBind sockfd (chars path));
  (if negb (r_val r =? -1) then out (ln ("Bound to domain socket: " +:+ path)) else mret tt);;
  mret (r_val r).

Definition grow_clients (t : clients_table) : C W clients_table :=
  let new_cap := if (client_capacity t =? 0)%nat then 4%nat else (client_capacity t * 2)%nat in
  alloc (Z.of_nat new_cap * sizeof_int) "realloc";;
  mret (Clients (client_sockets t ++ replicate (new_cap - client_capacity t) None)
          (client_count t) new_cap).

Definition remove_client (t : clients_table) (idx : nat) : C W clients_table :=
  let last := (client_count t - 1)%nat in
  cs ← (if negb (idx =? last)%nat then
          c ← client_at t last;
          array_set (client_sockets t) (Z.of_nat idx) (Some c)
        else mret (client_sockets t));
  mret (Clients cs (client_count t - 1) (client_capacity t)).

Definition fd_in_select_range (fd : Z) : bool := (0 <=? fd) && (fd <? FD_SETSIZE).

(** A set of descriptors, in the order they were added. *)
Definition fd_set_safe (fd : Z) (set : list Z) : list Z :=
  if fd_in_select_range fd then set ++ [fd] else set.

Definition fd_isset_safe (fd : Z) (set : list Z) : bool :=
  if fd_in_select_range fd then bool_decide (fd ∈ set) else false.

(** The loop that builds [readfds] and [max_fd].  [i--] and the [i++] of the
    loop cancel out: the client moved into slot [i] is looked at next. *)
Fixpoint watch_loop (n : nat) (t : clients_table) (i : nat) (readfds : list Z) (max_fd : Z) :
    C W (clients_table * list Z * Z) :=
  match n with
  | O => no_fuel
  | S n =>
      if (i <? client_count t)%nat then
        sd ← client_at t i;
        if sd <? 0 then watch_loop n t (S i) readfds max_fd
        else if FD_SETSIZE <=? sd then
          eout (ln ("Client fd " +:+ fmt_d sd +:+ " is out of range for select(); disconnecting"));;
          sys (SClose sd);;
          t ← remove_client t i;
          watch_loop n t i readfds max_fd
        else watch_loop n t (S i) (fd_set_safe sd readfds) (if max_fd <? sd then sd else max_fd)
      else mret (t, readfds, max_fd)
  end.

(** [select(max_fd + 1, &readfds, ...)] leaves in the set the descriptors that
    are ready: those whose flag in [r_data] is not 0. *)
Definition select_call (max_fd : Z) (readfds : list Z) : C W (Z * list Z) :=
  r ← sys (SSelect (max_fd + 1) readfds);
  mret (r_val r,
        (zip readfds (r_data r)) ≫= (fun '(fd, b) => if byte_val b =? 0 then [] else [fd])).

Definition handle_new_connection (sockfd : Z) (readfds : list Z) (t : clients_table) :
    C W clients_table :=
  if fd_isset_safe sockfd readfds then
    r ← sys (SAccept sockfd);
    if r_val r =? -1 then error_exit "Accept error"
    else if FD_SETSIZE <=? r_val r then
      eout (ln ("Accepted client fd " +:+ fmt_d (r_val r) +:+ " out of range for select(); closing"));;
      sys (SClose (r_val r));;
      mret t
    else
      t ← (if (client_count t =? client_capacity t)%nat then grow_clients t else mret t);
      cs ← array_set (client_sockets t) (Z.of_nat (client_count t)) (Some (r_val r));
      out (ln ("New connection established (fd=" +:+ fmt_d (r_val r) +:+ ")"));;
      mret (Clients cs (S (client_count t)) (client_capacity t))
  else mret t.

(** A ready client: [true] when it has been removed from slot [i]. *)
Definition client_io (fuel : nat) (t : clients_table) (i : nat) (sd : Z) :
    C W (bool * clients_table) :=
  let disconnected (line : string) :=
    out (ln line);; sys (SClose sd);; t ← remove_client t i; mret (true, t) in
  '(rc, b) ← read_full fuel sd 1;
  if rc <=? 0 then disconnected ("Client " +:+ fmt_d sd +:+ " disconnected")
  else
    let word_length := match b with x :: _ => byte_val x | [] => 0 end in
    if min_size (MAX_WORD_LEN - 1) PROTOCOL_MAX_PAYLOAD_LEN <? word_length then
      disconnected ("Client " +:+ fmt_d sd +:+ " sent oversize word length ("
                    +:+ fmt_u word_length +:+ ")")
    else
      '(rc, word) ← read_full fuel sd (Z.to_nat word_length);
      if rc <=? 0 then disconnected ("Client " +:+ fmt_d sd +:+ " disconnected")
      else
        out (ln ("Received word from client " +:+ fmt_d sd +:+ ": "
                 +:+ of_chars (cstring (word ++ [NUL]))));;
        mret (false, t).

Fixpoint io_loop (n : nat) (fuel : nat) (readfds : list Z) (t : clients_table) (i : nat) :
    C W clients_table :=
  match n with
  | O => no_fuel
  | S n =>
      if (i <? client_count t)%nat then
        sd ← client_at t i;
        if negb (fd_in_select_range sd) then io_loop n fuel readfds t (S i)
        else if fd_isset_safe sd readfds then
          '(removed, t) ← client_io fuel t i sd;
          io_loop n fuel readfds t (if removed : bool then i else S i)
        else io_loop n fuel readfds t (S i)
      else mret t
  end.

(** One turn of [while(!exit_flag)]. *)
Definition server_turn (fuel : nat) (sockfd : Z) (t : clients_table) :
    C W (clients_table + clients_table) :=
  flag ← sys SExitFlag;
  if negb (r_val flag =? 0) then mret (inr t)
  else
    '(t, readfds, max_fd) ← watch_loop (S (client_count t)) t 0 (fd_set_safe sockfd []) sockfd;
    '(activity, readfds) ← select_call max_fd readfds;
    if activity <? 0 then
      e ← get_errno;
      if e =? EINTR then mret (inl t) else error_exit "Select error"
    else
      t ← handle_new_connection sockfd readfds t;
      t ← io_loop (S (client_count t)) fuel readfds t 0;
      mret (inl t).

(** [for(i = 0; i < client_count; i++) if(client_sockets[i] >= 0) close]. *)
Fixpoint close_clients (n : nat) (t : clients_table) (i : nat) : C W unit :=
  match n with
  | O => mret tt
  | S n =>
      c ← client_at t i;
      (if 0 <=? c then socket_close c else mret tt);;
      close_clients n t (S i)
  end.

(** [perror(msg); socket_close(sockfd); unlink(SOCKET_PATH); exit]. *)
Definition abandon (sockfd : Z) (msg : string) : C W unit :=
  perror msg;; socket_close sockfd;; sys (SUnlink SOCKET_PATH);; exit_ EXIT_FAILURE.

Definition main (turns fuel : nat) : C W Z :=
  sys (SSigaction SIGINT);;
  sys (SUnlink SOCKET_PATH);;
  sockfd ← socket_create;
  (if sockfd =? -1 then error_exit "socket" else mret tt);;
  b ← socket_bind sockfd SOCKET_PATH;
  (if b =? -1 then abandon sockfd "bind error" else mret tt);;
  l ← sys (SListen sockfd SOMAXCONN);
  (if r_val l =? -1 then abandon sockfd "Listen error" else mret tt);;
  (if (sockfd <? 0) || (FD_SETSIZE <=? sockfd) then
     eout (ln ("Server socket fd " +:+ fmt_d sockfd
               +:+ " is out of range for select() (FD_SETSIZE=" +:+ fmt_d FD_SETSIZE +:+ ")"));;
     (if 0 <=? sockfd then socket_close sockfd else mret tt);;
     sys (SUnlink SOCKET_PATH);;
     exit_ EXIT_FAILURE
   else mret tt);;
  out (ln "Server listening for incoming connections...");;
  t ← loop turns (server_turn fuel sockfd) (Clients [] 0 0);
  close_clients (client_count t) t 0;;
  socket_close sockfd;;
  sys (SUnlink SOCKET_PATH);;
  out (ln "Server exited successfully.");;
  mret EXIT_SUCCESS.
End SelectServer.

(** ** The table *)

(** The table holds [clients], in this order. *)
Record represents (t : clients_table) (clients : list Z) : Prop := {
  rep_count : client_count t = length clients;
  rep_cells : exists rest, client_sockets t = (Some <$> clients) ++ rest;
  rep_capacity : client_capacity t = length (client_sockets t);
}.

Section Handlers.
Context {W} `{Kernel W} (sockfd : Z).
Local Abbreviation balanced := (balanced sockfd).

Lemma client_at_ok t clients i c Q E (s : cstate W) :
  represents t clients -> clients !! i = Some c -> Q c s -> wlp (client_at t i) Q E s.
Proof.
  intros [_ [rest Hc] _] Hi HQ. apply wlp_bind, (wlp_array_get _ _ (Some c)); [|done].
  rewrite Hc. apply lookup_app_l_Some. by rewrite list_lookup_fmap, Hi.
Qed.

Lemma remove_keeps t clients i Q E (s : cstate W) :
  represents t clients -> (i < length clients)%nat ->
  (forall t', represents t' (swap_remove clients i) -> Q t' s) ->
  wlp (remove_client t i) Q E s.
Proof.
  intros Hr Hi HQ. destruct clients as [|l xs _] using rev_ind; [simpl in Hi; lia|].
  pose proof Hr as [Hc [rest Hcs] Hcap]. rewrite length_app in Hc, Hi. simpl in Hc, Hi.
  unfold remove_client. rewrite Hc. replace (length xs + 1 - 1)%nat with (length xs) by lia.
  rewrite fmap_app in Hcs. simpl in Hcs.
  apply wlp_bind. apply (wlp_mono _ (fun cs s' => s' = s /\ length cs = length (client_sockets t) /\
    exists rest, cs = (Some <$> swap_remove (xs ++ [l]) i) ++ rest) _ E E).
  - rewrite swap_remove_snoc. destruct (Nat.eqb_spec i (length xs)) as [->|Hne]; cbn [negb].
    + apply wlp_ret. split_and!; [done..|]. exists (Some l :: rest).
      rewrite list_insert_id by apply lookup_snoc. rewrite take_app_length.
      by rewrite Hcs, <- app_assoc.
    + apply wlp_bind. eapply client_at_ok; [done|apply lookup_snoc|].
      apply wlp_array_set; [rewrite Hcs, !length_app, length_fmap; simpl; lia|].
      rewrite length_insert. split_and!; [done..|]. exists (Some l :: rest).
      rewrite insert_app_l by lia. rewrite take_app_length' by (by rewrite length_insert).
      rewrite Hcs, list_fmap_insert, <- app_assoc. by rewrite insert_app_l by (rewrite length_fmap; lia).
  - intros cs s' (-> & Hlen & Hrest). apply wlp_ret, HQ. split; simpl.
    + rewrite length_swap_remove, length_app; [simpl; lia|by destruct xs].
    + done.
    + by rewrite Hcap.
  - done.
Qed.

(** ** The clients that are ready *)

(** What visiting a ready client does: it is read from, and stays or leaves. *)
Definition visited (clients : list Z) (i : nat) (sd : Z) (s : cstate W)
    (r : bool * clients_table) (s' : cstate W) : Prop :=
  let clients' := if fst r then swap_remove clients i else clients in
  represents (snd r) clients' /\ balanced clients' s' /\
  obtained (trace s') = obtained (trace s) /\
  reads_from sd s s' /\ sd ∈ readers (trace s').

Lemma select_disconnect_visits t clients i sd msg (s0 s : cstate W) E :
  represents t clients -> balanced clients s0 -> clients !! i = Some sd ->
  quiet s0 s -> reads_from sd s0 s -> sd ∈ readers (trace s) ->
  wlp (out msg;; sys (SClose sd);; t ← remove_client t i; mret (true, t))
    (visited clients i sd s0) E s.
Proof.
  intros Hr Hb Hi Hq Hrd Hin.
  apply wlp_bind. unfold wlp at 1, out, emit. apply wlp_bind, wlp_sys. intros r w e _.
  match goal with |- wlp _ _ _ ?s2 => set (s2' := s2) end.
  assert (balanced (swap_remove clients i) s2' /\ obtained (trace s2') = obtained (trace s0) /\
          readers (trace s2') = readers (trace s)) as (Hb2 & Ho2 & Hr2).
  { subst s2'. split_and!.
    - apply (balanced_close _ _ _ sd (CState _ _ _)); [done|].
      apply neutral_balanced; [done|]. by eapply quiet_balanced.
    - simpl. rewrite !obtained_app. simpl. rewrite !app_nil_r. apply Hq.
    - simpl. rewrite !readers_app. simpl. by rewrite !app_nil_r. }
  clearbody s2'. apply wlp_bind.
  eapply remove_keeps; [done|by eapply lookup_lt_Some|]. intros t' Ht'. apply wlp_ret.
  unfold visited. simpl. split_and!; try done.
  - destruct Hrd as [H1 H2]. split; intros c; rewrite Hr2; auto.
  - by rewrite Hr2.
Qed.

Lemma client_io_visits fuel t clients i sd (s : cstate W) E :
  represents t clients -> balanced clients s -> clients !! i = Some sd ->
  wlp (client_io fuel t i sd) (visited clients i sd s) E s.
Proof.
  intros Hr Hb Hi. unfold client_io.
  apply wlp_bind. eapply wlp_mono; [apply wlp_and|..].
  { apply read_full_quiet, quiet_refl. }
  { apply read_full_reads, reads_from_refl. }
  2: done.
  intros [rc b] s1 (Hq1 & Hrd1 & Hin1). specialize (Hin1 (or_introl (Nat.lt_0_1))).
  case_match; [by apply select_disconnect_visits|].
  generalize (match b with x :: _ => byte_val x | [] => 0 end). intros l.
  case_match; [by apply select_disconnect_visits|].
  apply wlp_bind. eapply wlp_mono; [apply wlp_and|..].
  { apply read_full_quiet. exact Hq1. }
  { apply read_full_reads. exact Hrd1. }
  2: done.
  intros [rc' word] s2 (Hq2 & Hrd2 & Hin2). specialize (Hin2 (or_intror Hin1)).
  case_match; [by apply select_disconnect_visits|].
  apply wlp_bind. unfold wlp at 1, out, emit. apply wlp_ret. unfold visited. simpl.
  rewrite !obtained_app, !readers_app. simpl. rewrite !app_nil_r. split_and!; try done.
  - apply neutral_balanced; [done|]. by eapply quiet_balanced.
  - apply Hq2.
  - destruct Hrd2 as [Hto Hfrom]. split; intros c; simpl; rewrite readers_app; simpl;
      rewrite app_nil_r; auto.
Qed.

(** After the loop from slot [i] on: the ready clients from there on have been
    read from, nobody else. *)
Definition served (readfds clients : list Z) (i : nat) (s : cstate W)
    (t' : clients_table) (s' : cstate W) : Prop :=
  (exists clients', represents t' clients' /\ balanced clients' s') /\
  obtained (trace s') = obtained (trace s) /\
  forall c, c ∈ readers (trace s') <->
    c ∈ readers (trace s) \/ (c ∈ drop i clients /\ fd_isset_safe c readfds = true).

Lemma served_done readfds t clients i (s : cstate W) :
  represents t clients -> balanced clients s -> (length clients <= i)%nat ->
  served readfds clients i s t s.
Proof.
  intros Hr Hb Hi. split_and!; [by exists clients|done|]. intros c.
  rewrite drop_ge by done. rewrite elem_of_nil. tauto.
Qed.

Lemma served_skip readfds clients i sd (s : cstate W) t' s' :
  clients !! i = Some sd -> fd_isset_safe sd readfds = false ->
  served readfds clients (S i) s t' s' -> served readfds clients i s t' s'.
Proof.
  intros Hi Hn (H1 & H2 & H3). split_and!; [done..|]. intros c. rewrite H3, (drop_S _ _ _ Hi).
  rewrite elem_of_cons. split; [tauto|].
  intros [?|[[->|?] ?]]; [tauto|congruence|tauto].
Qed.

Lemma served_visit readfds clients i sd (s : cstate W) r s1 t' s' :
  clients !! i = Some sd -> fd_isset_safe sd readfds = true ->
  visited clients i sd s r s1 ->
  served readfds (if fst r then swap_remove clients i else clients)
    (if fst r then i else S i) s1 t' s' ->
  served readfds clients i s t' s'.
Proof.
  intros Hi Hset (_ & _ & Ho & [Hrd1 Hrd2] & Hin) (H1 & H2 & H3).
  split_and!; [done|by rewrite H2|]. intros c. rewrite H3, (drop_S _ _ _ Hi).
  assert (c ∈ drop (if fst r then i else S i) (if fst r then swap_remove clients i else clients)
          <-> c ∈ drop (S i) clients) as Hdrop.
  { destruct (fst r); [|done]. by rewrite drop_swap_remove by (by eapply lookup_lt_Some). }
  rewrite Hdrop, elem_of_cons. split.
  - intros [Hc|[Hc ?]]; [|tauto]. apply Hrd1 in Hc as [?| ->]; tauto.
  - intros [Hc|[[->|Hc] ?]]; [left; auto|left; auto|tauto].
Qed.

Lemma io_loop_serves n fuel readfds t clients i (s : cstate W) E :
  represents t clients -> balanced clients s ->
  wlp (io_loop n fuel readfds t i) (served readfds clients i s) E s.
Proof.
  revert t clients i s. induction n as [|n IH]; intros t clients i s Hr Hb; [done|]. cbn [io_loop].
  rewrite (rep_count _ _ Hr).
  destruct (Nat.ltb_spec i (length clients)) as [Hi|Hi]; [|apply wlp_ret; by apply served_done].
  destruct (lookup_lt_is_Some_2 _ _ Hi) as [sd Hsd].
  apply wlp_bind. eapply client_at_ok; [done..|].
  destruct (fd_in_select_range sd) eqn:Hrange; cbn [negb].
  2: { eapply wlp_mono; [by apply IH|intros t' s'; apply served_skip with sd|]; [done| |done].
       unfold fd_isset_safe. by rewrite Hrange. }
  destruct (fd_isset_safe sd readfds) eqn:Hset.
  2: { eapply wlp_mono; [by apply IH|intros t' s'; by apply served_skip with sd|done]. }
  apply wlp_bind. eapply wlp_mono; [by apply client_io_visits| |done].
  intros [removed t1] s1 Hv. eapply wlp_mono; [apply IH; apply Hv|intros t' s' Hs|done].
  eapply served_visit; [done..|]. done.
Qed.

(** *** Termination *)

Lemma fueled_client_at t i : fueled (client_at t i : C W Z).
Proof. unfold client_at. fuel_solve. Qed.

Lemma fueled_remove t i : fueled (remove_client t i : C W _).
Proof. unfold remove_client. fuel_solve. Qed.

Lemma wp_client_at t clients i c Q E (s : cstate W) :
  represents t clients -> clients !! i = Some c -> Q c s -> wp (client_at t i) Q E s.
Proof. intros. apply wp_fueled; [by eapply client_at_ok|apply fueled_client_at]. Qed.

Lemma wp_remove t clients i Q E (s : cstate W) :
  represents t clients -> (i < length clients)%nat ->
  (forall t', represents t' (swap_remove clients i) -> Q t' s) ->
  wp (remove_client t i) Q E s.
Proof. intros. apply wp_fueled; [by eapply remove_keeps|apply fueled_remove]. Qed.

Lemma client_io_fueled fuel t i sd :
  prompt_reads -> (255 < fuel)%nat -> fueled (client_io fuel t i sd : C W _).
Proof.
  intros Hp Hf. unfold client_io.
  assert (forall msg, fueled (out msg;; sys (SClose sd);; t ← remove_client t i; mret (true, t) : C W _))
    as Hd by (intros msg; fuel_solve).
  apply fueled_bind; [apply read_full_fueled; [done|lia]|intros [rc b]].
  case_match; [apply Hd|].
  assert (0 <= match b with x :: _ => byte_val x | [] => 0 end < 256) as Hl.
  { destruct b as [|x b]; [lia|apply byte_val_range]. }
  revert Hl. generalize (match b with x :: _ => byte_val x | [] => 0 end). intros l Hl.
  case_match; [apply Hd|].
  apply fueled_bind; [apply read_full_fueled; [done|lia]|intros [rc' word]].
  case_match; [apply Hd|]. fuel_solve.
Qed.

Lemma io_loop_total n fuel readfds t clients i (s : cstate W) E :
  prompt_reads -> (255 < fuel)%nat -> (length clients - i < n)%nat ->
  represents t clients -> balanced clients s ->
  wp (io_loop n fuel readfds t i) (served readfds clients i s) E s.
Proof.
  intros Hp Hf. revert t clients i s.
  induction n as [|n IH]; intros t clients i s Hn Hr Hb; [lia|]. cbn [io_loop].
  rewrite (rep_count _ _ Hr).
  destruct (Nat.ltb_spec i (length clients)) as [Hi|Hi]; [|apply wp_ret; by apply served_done].
  destruct (lookup_lt_is_Some_2 _ _ Hi) as [sd Hsd].
  apply wp_bind. eapply wp_client_at; [done..|].
  destruct (fd_in_select_range sd) eqn:Hrange; cbn [negb].
  2: { eapply wp_mono; [apply IH; [|done..]; lia| |done].
       intros t' s'. apply served_skip with sd; [done|]. unfold fd_isset_safe. by rewrite Hrange. }
  destruct (fd_isset_safe sd readfds) eqn:Hset.
  2: { eapply wp_mono; [apply IH; [|done..]; lia| |done]. intros t' s'. by apply served_skip with sd. }
  apply wp_bind. eapply wp_mono.
  { apply wp_fueled; [by apply client_io_visits|by apply client_io_fueled]. }
  2: done.
  intros [removed t1] s1 Hv. eapply wp_mono; [apply IH; [|apply Hv..]|intros t' s' Hs|done].
  - destruct removed; simpl; [|lia].
    rewrite length_swap_remove; [lia|]. destruct clients; [simpl in Hi; lia|done].
  - by eapply served_visit.
Qed.

(** ** The set that is watched *)

Definition watched (clients : list Z) (i : nat) (rf : list Z) (s : cstate W)
    (r : clients_table * list Z * Z) (s' : cstate W) : Prop :=
  let '(t', rf', max_fd) := r in
  exists clients', represents t' clients' /\ balanced clients' s' /\
    obtained (trace s') = obtained (trace s) /\ readers (trace s') = readers (trace s) /\
    Forall (fun c => fd_in_select_range c = true /\ c <= max_fd) rf' /\
    (forall c, c ∈ rf -> c ∈ rf') /\
    (forall c, c ∈ take i clients -> c ∈ clients') /\
    (forall c, c ∈ clients' -> c ∈ take i clients \/ c ∈ rf') /\
    (forall c, c ∈ rf' -> c ∈ rf \/ c ∈ clients').

Lemma watched_done t clients i rf max_fd (s : cstate W) :
  represents t clients -> balanced clients s -> (length clients <= i)%nat ->
  Forall (fun c => fd_in_select_range c = true /\ c <= max_fd) rf ->
  watched clients i rf s (t, rf, max_fd) s.
Proof.
  intros Hr Hb Hi Hrf. unfold watched. exists clients. rewrite take_ge by done.
  split_and!; try done; auto.
Qed.

Lemma watched_remove clients i sd rf (s s1 : cstate W) r s' :
  clients !! i = Some sd -> obtained (trace s1) = obtained (trace s) ->
  readers (trace s1) = readers (trace s) ->
  watched (swap_remove clients i) i rf s1 r s' -> watched clients i rf s r s'.
Proof.
  intros Hi Ho Hrd. destruct r as [[t' rf'] mx].
  intros (clients' & Hr & Hb & Ho' & Hrd' & Hrange & Hsub & Hkeep & Hin & Hfrom).
  rewrite take_swap_remove in Hkeep, Hin by (by eapply lookup_lt_Some). exists clients'.
  split_and!; try done; congruence.
Qed.

Lemma watched_keep clients i sd rf (s : cstate W) r s' :
  clients !! i = Some sd -> watched clients (S i) (rf ++ [sd]) s r s' ->
  watched clients i rf s r s'.
Proof.
  intros Hi Hw. destruct r as [[t' rf'] mx].
  destruct Hw as (clients' & Hr & Hb & Ho & Hrd & Hrange & Hsub & Hkeep & Hin & Hfrom).
  assert (take (S i) clients = take i clients ++ [sd]) as Ht by (by apply take_S_r).
  exists clients'. split_and!; try done.
  - intros c Hc. apply Hsub, elem_of_app. by left.
  - intros c Hc. apply Hkeep. rewrite Ht. apply elem_of_app. by left.
  - intros c Hc. destruct (Hin c Hc) as [Hc'|?]; [|by right].
    rewrite Ht in Hc'. apply elem_of_app in Hc' as [?|Hc']; [by left|right].
    apply list_elem_of_singleton in Hc' as ->. apply Hsub, elem_of_app. right. by left.
  - intros c Hc. destruct (Hfrom c Hc) as [Hc'|?]; [|by right].
    apply elem_of_app in Hc' as [?|Hc']; [by left|right].
    apply list_elem_of_singleton in Hc' as ->. apply Hkeep. rewrite Ht.
    apply elem_of_app. right. by left.
Qed.

Lemma watch_loop_watches n t clients i rf max_fd (s : cstate W) E :
  (length clients - i < n)%nat -> represents t clients -> balanced clients s ->
  Forall (fun c => fd_in_select_range c = true /\ c <= max_fd) rf ->
  wp (watch_loop n t i rf max_fd) (watched clients i rf s) E s.
Proof.
  revert t clients i rf max_fd s.
  induction n as [|n IH]; intros t clients i rf mx s Hn Hr Hb Hrf; [lia|]. cbn [watch_loop].
  rewrite (rep_count _ _ Hr).
  destruct (Nat.ltb_spec i (length clients)) as [Hi|Hi]; [|apply wp_ret; by apply watched_done].
  destruct (lookup_lt_is_Some_2 _ _ Hi) as [sd Hsd].
  apply wp_bind. eapply wp_client_at; [done..|].
  assert (0 < sd) as Hpos by (eapply (proj1 (Forall_lookup _ _)); [apply Hb|done]).
  rewrite (proj2 (Z.ltb_ge _ _)) by lia.
  destruct (FD_SETSIZE <=? sd) eqn:Hbig; bools.
  - apply wp_bind, wp_emit, wp_bind, wp_sys. intros r w e _. simpl.
    match goal with |- wp _ _ _ ?s2 =>
      assert (balanced (swap_remove clients i) s2 /\ obtained (trace s2) = obtained (trace s) /\
              readers (trace s2) = readers (trace s)) as (Hb2 & Ho2 & Hr2) end.
    { split_and!.
      - refine (balanced_close _ _ _ sd
          (CState (errno s) (trace s ++ [EErr _]) (world s)) _ _ _ Hsd _).
        by apply neutral_balanced.
      - simpl. rewrite !obtained_app. simpl. by rewrite !app_nil_r.
      - simpl. rewrite !readers_app. simpl. by rewrite !app_nil_r. }
    apply wp_bind. eapply wp_remove; [done..|]. intros t' Ht'.
    eapply wp_mono; [apply IH; [|done..]| |done].
    + rewrite length_swap_remove; [lia|]. destruct clients; [simpl in Hi; lia|done].
    + intros r' s'. by apply watched_remove with sd.
  - assert (fd_in_select_range sd = true) as Hrange.
    { unfold fd_in_select_range. apply andb_true_iff. split; [apply Z.leb_le|apply Z.ltb_lt]; lia. }
    unfold fd_set_safe. rewrite Hrange.
    eapply wp_mono; [apply (IH t clients (S i)); [lia|done|done|]| |done].
    + apply Forall_app. split; [|apply Forall_singleton; split; [done|]; case_match; bools; lia].
      eapply Forall_impl; [|exact Hrf]. intros c [? ?]. split; [done|]. case_match; bools; lia.
    + intros r' s'. by apply watched_keep.
Qed.

(** ** A turn of the server *)

Definition serving (t : clients_table) (s : cstate W) : Prop :=
  exists clients, represents t clients /\ balanced clients s.

Lemma represents_free t clients :
  represents t clients -> client_count t <> client_capacity t ->
  (client_count t < length (client_sockets t))%nat.
Proof.
  intros [Hc [rest Hcs] Hcap] Hne. rewrite Hcap, Hc, Hcs, length_app, length_fmap in *. lia.
Qed.

Lemma select_represents_append t clients c :
  represents t clients -> (client_count t < length (client_sockets t))%nat ->
  represents (Clients (<[client_count t := Some c]> (client_sockets t)) (S (client_count t))
                (client_capacity t)) (clients ++ [c]).
Proof.
  intros [Hc [rest Hcs] Hcap] Hfree. rewrite Hcs, Hc, length_app, length_fmap in *.
  destruct rest as [|x rest]; [simpl in *; lia|]. split; simpl.
  - rewrite length_app. simpl. lia.
  - exists rest. rewrite fmap_app, <- app_assoc. simpl.
    rewrite insert_app_r_alt by (rewrite length_fmap; lia).
    rewrite length_fmap, Nat.sub_diag. done.
  - rewrite length_insert, length_app, length_fmap in *. simpl in *. lia.
Qed.

Lemma select_grow_if_full t clients s0 (s : cstate W) :
  represents t clients -> quiet s0 s -> (readers (trace s) = readers (trace s0)) ->
  wlp (if (client_count t =? client_capacity t)%nat then grow_clients t else mret t)
    (fun t' s' => represents t' clients /\ (client_count t' < length (client_sockets t'))%nat /\
       quiet s0 s') failed s.
Proof.
  intros Hr Hq Hrd. destruct (Nat.eqb_spec (client_count t) (client_capacity t)) as [Ef|Ef].
  - unfold grow_clients. apply wlp_bind. eapply wlp_mono; [by apply alloc_quiet| |done].
    intros [] s1 Hq1. apply wlp_ret.
    destruct Hr as [Hc [rest Hcs] Hcap].
    assert (client_capacity t < if (client_capacity t =? 0)%nat then 4 else client_capacity t * 2)%nat
      as Hlt by (case_match; bools; lia).
    split_and!; [|simpl; rewrite length_app, length_replicate; lia|done].
    split; simpl; [done| |rewrite length_app, length_replicate; lia].
    rewrite Hcs. eexists. by rewrite <- app_assoc.
  - apply wlp_ret. split_and!; [done|by eapply represents_free|done].
Qed.

Lemma select_new_connection_keeps readfds t clients (s : cstate W) :
  accept_positive (W := W) -> represents t clients -> balanced clients s ->
  wlp (handle_new_connection sockfd readfds t)
    (fun t' s' => exists clients', represents t' clients' /\ balanced clients' s') failed s.
Proof.
  intros Hpos Hr [Hb Hp]. unfold handle_new_connection.
  case_match; [|apply wlp_ret; by exists clients].
  apply wlp_bind, wlp_sys. intros r w e Hacc. apply Hpos in Hacc.
  destruct (r_val r =? -1) eqn:Hm; [done|]. bools. destruct Hacc as [?|Hacc]; [done|].
  set (s1 := CState _ _ _).
  assert (obtained (trace s1) ≡ₚ sockfd :: closed (trace s1) ++ clients ++ [r_val r]) as Hb1.
  { subst s1. simpl. rewrite obtained_app, closed_app. simpl.
    rewrite (proj2 (Z.eqb_neq _ _)) by done. rewrite Hb, app_nil_r. simpl. by rewrite <- app_assoc. }
  clearbody s1. destruct (FD_SETSIZE <=? r_val r).
  - apply wlp_bind. unfold wlp at 1, eout, emit. apply wlp_bind, wlp_sys. intros r' w' e' _.
    apply wlp_ret. exists clients. split; [done|]. split; [|done]. simpl.
    rewrite !obtained_app, !closed_app. simpl. rewrite !app_nil_r, Hb1.
    rewrite <- app_assoc. by rewrite (Permutation_app_comm clients).
  - apply wlp_bind. eapply wlp_mono; [by apply (select_grow_if_full _ clients s1)| |done].
    intros t1 s2 (Hr1 & Hfree & [Hqo Hqc]).
    apply wlp_bind, wlp_array_set; [done|]. apply wlp_bind. unfold wlp at 1, out, emit.
    apply wlp_ret. exists (clients ++ [r_val r]). split; [by apply select_represents_append|].
    split; [|apply Forall_app; eauto]. simpl. rewrite obtained_app, closed_app. simpl.
    by rewrite !app_nil_r, Hqo, Hqc.
Qed.

Lemma server_turn_keeps fuel t (s : cstate W) :
  accept_positive (W := W) -> fd_in_select_range sockfd = true -> serving t s ->
  wlp (server_turn fuel sockfd t)
    (fun r s' => match r with inl t' => serving t' s' | inr t' => serving t' s' end) failed s.
Proof.
  intros Hpos Hrange (clients & Hr & Hb). unfold server_turn.
  eapply balanced_sys; [done|exact Hb|]. intros flag s1 Hb1.
  case_match; [apply wlp_ret; by exists clients|].
  apply wlp_bind, wp_wlp. eapply wp_mono.
  { apply (watch_loop_watches _ _ clients); [rewrite (rep_count _ _ Hr); lia|done|done|].
    unfold fd_set_safe. rewrite Hrange. repeat constructor; [done|lia]. }
  2: done.
  intros [[t1 rf] mx] s2 (clients1 & Hr1 & Hb2 & _). unfold select_call.
  apply wlp_bind. eapply balanced_sys; [done|exact Hb2|]. intros r s3 Hb3. apply wlp_ret.
  case_match.
  { apply wlp_bind. unfold wlp at 1, get_errno. case_match; [|done].
    apply wlp_ret. by exists clients1. }
  apply wlp_bind. eapply wlp_mono; [by eapply select_new_connection_keeps| |done].
  intros t2 s4 (clients2 & Hr2 & Hb4).
  apply wlp_bind. eapply wlp_mono; [by eapply io_loop_serves| |done].
  intros t3 s5 ((clients3 & Hr3 & Hb5) & _). apply wlp_ret. by exists clients3.
Qed.

Lemma select_socket_close_closes fd (s : cstate W) :
  wlp (socket_close fd) (fun _ s' => closed (trace s') = closed (trace s) ++ [fd] /\
    obtained (trace s') = obtained (trace s)) failed s.
Proof.
  apply wlp_bind, wlp_sys. intros r w e _. case_match; [done|]. apply wlp_ret. simpl.
  rewrite closed_app, obtained_app. simpl. by rewrite app_nil_r.
Qed.

Lemma select_close_clients_closes n t i clients (s : cstate W) :
  represents t clients -> (i + n = length clients)%nat -> Forall (fun c => 0 < c) clients ->
  wlp (close_clients n t i) (fun _ s' =>
    closed (trace s') = closed (trace s) ++ drop i clients /\
    obtained (trace s') = obtained (trace s)) failed s.
Proof.
  intros Hr Hn Hp. revert i s Hn. induction n as [|n IH]; intros i s Hn; simpl.
  { apply wlp_ret. rewrite drop_ge by lia. by rewrite app_nil_r. }
  destruct (lookup_lt_is_Some_2 clients i) as [c Hc]; [lia|].
  apply wlp_bind. eapply client_at_ok; [done..|].
  rewrite Forall_lookup in Hp. pose proof (Hp _ _ Hc) as Hcp.
  rewrite (proj2 (Z.leb_le _ _)) by lia.
  apply wlp_bind. eapply wlp_mono; [by apply select_socket_close_closes| |done].
  intros _ s1 [Hc1 Ha1]. eapply wlp_mono; [apply IH; lia| |done].
  intros _ s2 [-> ->]. rewrite Hc1. split; [|done].
  rewrite (drop_S _ _ _ Hc). by rewrite <- app_assoc.
Qed.

(** From the listening socket on. *)
Lemma select_serve_closes turns fuel (s : cstate W) :
  accept_positive (W := W) -> fd_in_select_range sockfd = true -> balanced [] s ->
  wlp (t ← loop turns (server_turn fuel sockfd) (Clients [] 0 0);
       close_clients (client_count t) t 0;;
       socket_close sockfd;;
       sys (SUnlink SOCKET_PATH);;
       out (ln "Server exited successfully.");;
       mret EXIT_SUCCESS)
    (fun v s' => v = EXIT_SUCCESS /\ closed (trace s') ≡ₚ obtained (trace s')) failed s.
Proof.
  intros Hpos Hrange Hb. apply wlp_bind. eapply wlp_mono.
  { apply (wlp_loop _ serving serving).
    - intros t s' Hs. by apply server_turn_keeps.
    - exists []. split; [|done]. split; [done|by exists []|done]. }
  2: done.
  intros t s1 (clients & Hr & [Hb1 Hp]). apply wlp_bind.
  eapply wlp_mono; [eapply (select_close_clients_closes _ _ 0 clients)|..|done]; try done.
  { by rewrite (rep_count _ _ Hr). }
  intros _ s2 [Hc2 Ha2]. apply wlp_bind.
  eapply wlp_mono; [apply select_socket_close_closes| |done]. intros _ s3 [Hc3 Ha3].
  apply wlp_bind, wlp_sys. intros r w e _. apply wlp_bind.
  unfold wlp at 1, out, emit. apply wlp_ret. split; [done|]. simpl.
  rewrite !closed_app, !obtained_app. simpl. rewrite !app_nil_r.
  rewrite Hc3, Ha3, Hc2, Ha2, Hb1. simpl. by rewrite drop_0, Permutation_app_comm.
Qed.
End Handlers.

(** ** The properties of the server *)

Section Properties.
Context {W} `{Kernel W}.

(** A set-up step that may fail: the process ends with [EXIT_FAILURE]. *)
Lemma wlp_abandon {A} (b : bool) sockfd msg (m : C W A) Q (s : cstate W) :
  (b = false -> wlp m Q failed s) ->
  wlp ((if b then abandon sockfd msg else mret tt);; m) Q failed s.
Proof.
  intros Hm. apply wlp_bind. destruct b; [|apply wlp_ret; auto].
  unfold abandon. apply wlp_bind. unfold wlp at 1, perror, mbind, C_bind, get_errno, emit.
  apply wlp_bind. eapply wlp_mono; [apply select_socket_close_closes| |done]. intros _ s' _.
  apply wlp_bind, wlp_sys. by intros.
Qed.

Lemma wlp_out_of_range {A} sockfd (m : C W A) Q (s : cstate W) :
  (fd_in_select_range sockfd = true -> wlp m Q failed s) ->
  wlp ((if (sockfd <? 0) || (FD_SETSIZE <=? sockfd) then
     eout (ln ("Server socket fd " +:+ fmt_d sockfd
               +:+ " is out of range for select() (FD_SETSIZE=" +:+ fmt_d FD_SETSIZE +:+ ")"));;
     (if 0 <=? sockfd then socket_close sockfd else mret tt);;
     sys (SUnlink SOCKET_PATH);;
     exit_ EXIT_FAILURE
   else mret tt);; m) Q failed s.
Proof.
  intros Hm. apply wlp_bind. unfold fd_in_select_range in Hm.
  destruct (_ || _) eqn:Eb.
  - apply wlp_bind. unfold wlp at 1, eout, emit. apply wlp_bind.
    eapply (wlp_mono _ (fun _ _ => True)); [|intros _ s' _|done].
    + case_match; [|by apply wlp_ret]. eapply wlp_mono; [apply select_socket_close_closes|done..].
    + apply wlp_bind, wlp_sys. by intros.
  - apply orb_false_iff in Eb as [E1 E2]. bools. apply wlp_ret, Hm.
    apply andb_true_iff. split; [apply Z.leb_le|apply Z.ltb_lt]; lia.
Qed.


(** C20: [select] server, one pass over the clients.  When reads are not
    interrupted for ever, the loop over the clients comes to an end (although
    [i--] makes it look at a slot again), and it has read from every client that
    is ready and from no other, the ones that were moved into the slot of a
    client that left included. *)
Theorem select_pass_serves_all (sockfd : Z) (fuel : nat) (readfds : list Z)
    (t : clients_table) (clients : list Z) (s : cstate W) :
  prompt_reads (W := W) -> (255 < fuel)%nat ->
  represents t clients -> balanced sockfd clients s ->
  wp (io_loop (S (client_count t)) fuel readfds t 0)
    (fun t' s' => (exists clients', represents t' clients' /\
         closed (trace s') ++ clients' ≡ₚ closed (trace s) ++ clients) /\
       forall c, c ∈ readers (trace s') <->
         c ∈ readers (trace s) \/ (c ∈ clients /\ fd_isset_safe c readfds = true))
    (fun _ _ => False) s.
Proof.
  intros Hp Hf Hr Hb. eapply (wp_mono _ _ _ (fun _ _ => False)).
  { apply (io_loop_total sockfd _ _ _ _ clients); [done|done| |done|done].
    rewrite (rep_count _ _ Hr). lia. }
  2: done.
  intros t' s' ((clients' & Hr' & [Hb' _]) & Ho & Hrd). split; [|done].
  exists clients'. split; [done|].
  apply (Permutation_cons_inv (a := sockfd)). rewrite <- Hb', Ho. apply Hb.
Qed.

(** [select] server, the watched set.  The loop before [select] ends with a
    set that holds the listening socket and every client left in the table,
    nothing else, all of them valid for [FD_SET] and at most [max_fd]; the
    clients it dropped have been closed. *)
Theorem select_watches_clients (sockfd : Z) (t : clients_table) (clients : list Z)
    (s : cstate W) :
  fd_in_select_range sockfd = true -> represents t clients -> balanced sockfd clients s ->
  wp (watch_loop (S (client_count t)) t 0 (fd_set_safe sockfd []) sockfd)
    (fun '(t', readfds, max_fd) s' => exists clients',
       represents t' clients' /\
       closed (trace s') ++ clients' ≡ₚ closed (trace s) ++ clients /\
       Forall (fun c => 0 <= c < FD_SETSIZE /\ c <= max_fd) readfds /\
       (forall c, c ∈ readfds <-> c = sockfd \/ c ∈ clients'))
    (fun _ _ => False) s.
Proof.
  intros Hrange Hr Hb. eapply (wp_mono _ _ _ (fun _ _ => False)).
  { apply (watch_loop_watches sockfd _ _ clients); [rewrite (rep_count _ _ Hr); lia|done|done|].
    unfold fd_set_safe. rewrite Hrange. repeat constructor; [done|lia]. }
  2: done.
  unfold fd_set_safe. rewrite Hrange. simpl. intros [[t' rf] mx] s'.
  intros (clients' & Hr' & [Hb' _] & Ho & _ & Hrf & Hsub & _ & Hin & Hfrom).
  exists clients'. split_and!; [done| | |].
  - apply (Permutation_cons_inv (a := sockfd)). rewrite <- Hb', Ho. apply Hb.
  - eapply Forall_impl; [|exact Hrf]. intros c [Hc ?]. unfold fd_in_select_range in Hc. bools. lia.
  - intros c. split.
    + intros Hc. destruct (Hfrom c Hc) as [Hc'|?]; [left|by right].
      by apply list_elem_of_singleton in Hc'.
    + intros [->|Hc]; [apply Hsub; by left|]. destruct (Hin c Hc) as [Hc'|?]; [|done].
      by apply elem_of_nil in Hc'.
Qed.
End Properties.

(** ** Concrete runs *)

(** A client connects and sends "hi", [select] is interrupted, the client
    leaves, then SIGINT arrives. *)
Definition one_client : playback :=
  Playback [sys_ok 0; sys_ok 0; sys_ok 3; sys_ok 0; sys_ok 0;
            sys_ok 0; sys_data 1 [byte_of 1]; sys_ok 5; sys_ok 1;
            sys_ok 0; sys_data 1 [byte_of 0; byte_of 1];
            sys_data 1 [byte_of 2]; sys_data 2 ["h"; "i"]%char;
            sys_ok 0; sys_fail EINTR;
            sys_ok 0; sys_data 1 [byte_of 0; byte_of 1]; sys_ok 0; sys_ok 0;
            sys_ok 1; sys_ok 0; sys_ok 0].


(** Clients on the sockets 5 and 2000, a full array of two. *)
Definition two : clients_table := Clients [Some 5; Some 2000] 2 2.
Definition two_state (rs : list sysret) : cstate playback :=
  CState 0 [ESys (SSocket AF_UNIX SOCK_STREAM 0) (sys_ok 3);
            ESys (SAccept 3) (sys_ok 5); ESys (SAccept 3) (sys_ok 2000)] (Playback rs).

Lemma two_represents : represents two [5; 2000].
Proof. split; [done|by exists []|done]. Qed.

Lemma two_balanced rs : balanced 3 [5; 2000] (two_state rs).
Proof. split; [done|]. repeat constructor. Qed.

Lemma select_pass_serves_all_witness :
  wp (io_loop 3 256 [5] two 0)
    (fun t' s' => (exists clients', represents t' clients' /\
         closed (trace s') ++ clients' ≡ₚ closed (trace (two_state [sys_ok 0])) ++ [5; 2000]) /\
       forall c, c ∈ readers (trace s') <->
         c ∈ readers (trace (two_state [sys_ok 0])) \/
         (c ∈ [5; 2000] /\ fd_isset_safe c [5] = true))
    (fun _ _ => False) (two_state [sys_ok 0]).
Proof.
  apply (select_pass_serves_all 3 256 [5] two [5; 2000] (two_state [sys_ok 0]));
    [apply playback_prompt|lia|apply two_represents|apply two_balanced].
Defined.

Lemma select_watches_clients_witness :
  wp (watch_loop 3 two 0 (fd_set_safe 3 []) 3)
    (fun '(t', readfds, max_fd) s' => exists clients',
       represents t' clients' /\
       closed (trace s') ++ clients' ≡ₚ closed (trace (two_state [sys_ok 0])) ++ [5; 2000] /\
       Forall (fun c => 0 <= c < FD_SETSIZE /\ c <= max_fd) readfds /\
       (forall c, c ∈ readfds <-> c = 3 \/ c ∈ clients'))
    (fun _ _ => False) (two_state [sys_ok 0]).
Proof.
  apply (select_watches_clients 3 two [5; 2000] (two_state [sys_ok 0]));
    [reflexivity|apply two_represents|apply two_balanced].
Defined.
