(* ===== verification/LineWords.v ===== *)
(** * Reading a file line by line and the lines word by word

    The clients of the sockets, of the shared memory and of the condition
    variable program run [while(fgets(line, sizeof(line), file) != NULL)] and,
    inside, a loop over the tokens that [strtok_r] finds in the line.  What
    [fgets] gives is not a line but a chunk: it stops at [sizeof(line) - 1]
    characters.  This file has the two loops, as the programs write them, and
    says when their tokens are the words of the file. *)

From S2P Require Import Prelude CMonad CString Words.

(** ** The loops *)

(** At most [n] characters of the file, up to a newline. *)
Fixpoint read_line (n : nat) (file : list byte) : list byte * list byte :=
  match n, file with
  | S n, c :: file =>
      if (c =?c "010")%c then ([c], file)
      else let '(line, rest) := read_line n file in (c :: line, rest)
  | _, _ => ([], file)
  end.

(** [fgets(line, size, file)]: the characters stored before the NUL and the
    rest of the file; [None] at its end. *)
Definition fgets (size : nat) (file : list byte) : option (list byte * list byte) :=
  match file with
  | [] => None
  | _ => Some (read_line (size - 1) file)
  end.

(** [nl = memchr(line, '\n', strlen(line)); if(nl != NULL) *nl = '\0']. *)
Fixpoint cut_newline (line : list byte) : list byte :=
  match line with
  | [] => []
  | c :: line => if (c =?c "010")%c then [] else c :: cut_newline line
  end.

(** The delimiters of [strtok_r]: [" \t\n"], and [" \t"]. *)
Definition blanks : string := " " +:+ tab.
Definition blanks_nl : string := " " +:+ tab +:+ nl.

Section Loops.
Context {W : Type}.

(** [word = strtok_r(line, d, &saveptr);]
    [while(word != NULL) { body; word = strtok_r(NULL, d, &saveptr); }] *)
Fixpoint token_loop (fuel : nat) (delims saveptr : string) (body : string -> C W unit) :
    C W unit :=
  match fuel with
  | O => no_fuel
  | S fuel =>
      match strtok_r delims saveptr with
      | None => mret tt
      | Some (word, saveptr) => body word;; token_loop fuel delims saveptr body
      end
  end.

Definition tokens (delims : string) (line : string) (body : string -> C W unit) : C W unit :=
  token_loop (S (String.length line)) delims line body.

(** [while(fgets(line, sizeof(line), file) != NULL) body] *)
Fixpoint line_loop (fuel size : nat) (file : list byte) (body : list byte -> C W unit) :
    C W unit :=
  match fuel with
  | O => no_fuel
  | S fuel =>
      match fgets size file with
      | None => mret tt
      | Some (line, file) => body line;; line_loop fuel size file body
      end
  end.

(** The loop of the socket and shared-memory clients. *)
Definition file_words (size : nat) (file : list byte) (body : string -> C W unit) : C W unit :=
  line_loop (S (length file)) size file
    (fun line => tokens blanks_nl (of_chars (cstring line)) body).

(** The loop of the condition variable program: the newline is cut off first. *)
Definition file_words_cut (size : nat) (file : list byte) (body : string -> C W unit) :
    C W unit :=
  line_loop (S (length file)) size file
    (fun line => tokens blanks (of_chars (cut_newline (cstring line))) body).
End Loops.

(** ** The reference *)

(** The chunks [fgets] cuts a file into. *)
Fixpoint chunks_from (fuel size : nat) (file : list byte) : list (list byte) :=
  match fuel with
  | O => []
  | S fuel =>
      match fgets size file with
      | None => []
      | Some (line, file) => line :: chunks_from fuel size file
      end
  end.

Definition chunks (size : nat) (file : list byte) : list (list byte) :=
  chunks_from (length file) size file.

(** The words the loops hand over. *)
Definition handed_over (size : nat) (file : list byte) : list (list byte) :=
  concat ((fun line => words (cstring line)) <$> chunks size file).

(** Between two chunks there is a separator on one side at least. *)
Definition clean_cut (a b : list byte) : bool :=
  match list.last a, list.head b with
  | Some c, Some d => is_separator c || is_separator d
  | _, _ => true
  end.

Fixpoint cut_free (cs : list (list byte)) : bool :=
  match cs with
  | a :: (b :: _) as cs => clean_cut a b && cut_free cs
  | _ => true
  end.

(** ** Words and concatenation *)

Lemma words_nil : words [] = [].
Proof. done. Qed.

Lemma words_sep c l : is_separator c = true -> words (c :: l) = words l.
Proof. intros Hc. by rewrite <- words_after_nil, words_after_sep. Qed.

Lemma words_after_app_sep cur l1 c l2 : is_separator c = true ->
  words_after cur (l1 ++ c :: l2) = words_after cur l1 ++ words l2.
Proof.
  intros Hc. revert cur. induction l1 as [|d l1 IH]; intros cur; simpl.
  - rewrite words_after_sep by done. unfold words_after. simpl. by rewrite app_nil_r.
  - destruct (is_separator d) eqn:Ed.
    + rewrite !words_after_sep by done. rewrite <- (words_after_nil (l1 ++ _)), <- (words_after_nil l1), IH.
      by rewrite <- app_assoc.
    + by rewrite !words_after_char.
Qed.

Lemma words_app_sep l1 c l2 : is_separator c = true ->
  words (l1 ++ c :: l2) = words l1 ++ words l2.
Proof. intros Hc. by rewrite <- !(words_after_nil (l1 ++ _)), words_after_app_sep, words_after_nil. Qed.

(** How many words follow does not depend on the letters before. *)
Lemma words_after_count cur cur' l : cur <> [] -> cur' <> [] ->
  length (words_after cur l) = length (words_after cur' l).
Proof.
  revert cur cur'. induction l as [|c l IH]; intros cur cur' Hc Hc'.
  - unfold words_after. simpl. rewrite !app_nil_r, !filter_cons_True by done. done.
  - destruct (is_separator c) eqn:E.
    + rewrite !words_after_sep, !filter_cons_True by done. done.
    + rewrite !words_after_char by done. apply IH; by destruct cur, cur'.
Qed.

(** A cut inside a word makes two words of it. *)
Lemma words_after_cut cur l1 c d l2 :
  is_separator c = false -> is_separator d = false ->
  S (length (words_after cur (l1 ++ c :: d :: l2))) =
  (length (words_after cur (l1 ++ [c])) + length (words (d :: l2)))%nat.
Proof.
  intros Hc Hd. revert cur. induction l1 as [|e l1 IH]; intros cur; simpl.
  - rewrite <- words_after_nil, !words_after_char by done. simpl.
    rewrite (words_after_count _ [d]) by (by destruct cur).
    unfold words_after at 2. simpl. rewrite filter_cons_True by (by destruct cur).
    done.
  - destruct (is_separator e) eqn:Ee; [|by rewrite !words_after_char].
    rewrite !words_after_sep, !length_app by done.
    specialize (IH []). rewrite !words_after_nil in IH. lia.
Qed.

Lemma words_app a b :
  if clean_cut a b then words (a ++ b) = words a ++ words b
  else S (length (words (a ++ b))) = (length (words a) + length (words b))%nat.
Proof.
  unfold clean_cut. destruct a as [|c a _] using rev_ind; [done|].
  rewrite last_snoc, <- app_assoc. destruct b as [|d b]; simpl; [by rewrite !app_nil_r|].
  destruct (is_separator c) eqn:Ec; simpl.
  - rewrite !words_app_sep by done. by rewrite app_nil_r.
  - destruct (is_separator d) eqn:Ed.
    + change (a ++ c :: d :: b) with (a ++ [c] ++ d :: b).
      rewrite app_assoc, words_app_sep, (words_sep d) by done. done.
    + rewrite <- !(words_after_nil (a ++ _)). by apply words_after_cut.
Qed.

Lemma words_app_clean a b : words (a ++ b) = words a ++ words b <-> clean_cut a b = true.
Proof.
  pose proof (words_app a b) as Hw. destruct (clean_cut a b); [done|].
  split; [|done]. intros E. rewrite E, length_app in Hw. lia.
Qed.

Lemma words_app_length a b :
  (length (words (a ++ b)) <= length (words a) + length (words b))%nat.
Proof.
  pose proof (words_app a b) as Hw. destruct (clean_cut a b); [|lia].
  rewrite Hw, length_app. lia.
Qed.

Lemma words_concat_length cs :
  (length (words (concat cs)) <= length (concat (words <$> cs)))%nat.
Proof.
  induction cs as [|a cs IH]; [done|]. rewrite fmap_cons. cbn [concat].
  rewrite length_app. pose proof (words_app_length a (concat cs)). lia.
Qed.

(** The words of the pieces are the words of the whole exactly when no piece
    ends inside a word. *)
Lemma words_concat cs : Forall nonempty cs ->
  concat (words <$> cs) = words (concat cs) <-> cut_free cs = true.
Proof.
  induction 1 as [|a cs Ha Hcs IH]; [done|].
  destruct cs as [|b cs]; [simpl; by rewrite !app_nil_r|].
  change (concat (words <$> a :: b :: cs)) with (words a ++ concat (words <$> b :: cs)).
  change (concat (a :: b :: cs)) with (a ++ concat (b :: cs)).
  change (cut_free (a :: b :: cs)) with (clean_cut a b && cut_free (b :: cs)).
  rewrite andb_true_iff, <- IH.
  assert (clean_cut a b = clean_cut a (concat (b :: cs))) as ->.
  { apply Forall_inv in Hcs. destruct b; [done|]. done. }
  rewrite <- words_app_clean.
  pose proof (words_app_length a (concat (b :: cs))).
  pose proof (words_concat_length (b :: cs)).
  split.
  - intros E. assert (clean_cut a (concat (b :: cs)) = true) as Hc.
    { pose proof (words_app a (concat (b :: cs))) as Hw. destruct (clean_cut _ _); [done|].
      apply (f_equal length) in E. rewrite length_app in E. lia. }
    apply words_app_clean in Hc. split; [done|]. rewrite Hc in E. by apply app_inv_head in E.
  - by intros [-> ->].
Qed.

(** ** The chunks *)

(** No character before the last is a newline. *)
Definition one_line (l : list byte) : Prop := "010"%char ∉ removelast l.

Lemma read_line_app n file line rest : read_line n file = (line, rest) ->
  file = line ++ rest /\ (length line <= n)%nat /\ one_line line /\
  (n <> O -> file <> [] -> line <> []).
Proof.
  revert file line rest. induction n as [|n IH]; intros file line rest E; simpl in E.
  { simplify_eq. split_and!; [done..|apply not_elem_of_nil|done]. }
  destruct file as [|c file]; [simplify_eq; split_and!; [done|simpl; lia|apply not_elem_of_nil|done]|].
  destruct (c =?c "010")%c eqn:Ec.
  { simplify_eq. split_and!; [done|simpl; lia|apply not_elem_of_nil|done]. }
  destruct (read_line n file) as [l r] eqn:El. simplify_eq.
  apply IH in El as (-> & Hl & Ho & _). split_and!; [done|simpl; lia| |done].
  unfold one_line in *. destruct l as [|d l]; [apply not_elem_of_nil|].
  change (removelast (c :: d :: l)) with (c :: removelast (d :: l)).
  apply not_elem_of_cons. split; [|done]. intros <-. by rewrite Ascii.eqb_refl in Ec.
Qed.

Lemma fgets_some size file line rest : (1 < size)%nat -> fgets size file = Some (line, rest) ->
  file = line ++ rest /\ line <> [] /\ (length line < size)%nat /\ one_line line.
Proof.
  intros Hz E. unfold fgets in E. destruct file as [|c file]; [done|].
  injection E as E. apply read_line_app in E as (? & ? & ? & Hne).
  split_and!; [done| |lia|done]. apply Hne; [lia|done].
Qed.

(** The chunks make up the file; each has a character at least, fewer than
    [size], and a newline only at its end. *)
Lemma chunks_from_file n size file : (1 < size)%nat -> (length file <= n)%nat ->
  concat (chunks_from n size file) = file /\
  Forall (fun l => l <> [] /\ (length l < size)%nat /\ one_line l) (chunks_from n size file).
Proof.
  intros Hz. revert file. induction n as [|n IH]; intros file Hn.
  { destruct file; [done|simpl in Hn; lia]. }
  simpl. destruct (fgets size file) as [[line rest]|] eqn:E.
  - apply fgets_some in E as (-> & Hl & Hs & Ho); [|done].
    rewrite length_app in Hn. destruct (IH rest) as [Hc Hf].
    { destruct line; [done|simpl in Hn; lia]. }
    split; [simpl; by rewrite Hc|by constructor].
  - destruct file; [done|]. unfold fgets in E. done.
Qed.

(** ** [strtok_r] finds the words *)

(** The delimiters act as separators on a text. *)
Definition separates (delims s : string) : Prop :=
  forall c, c ∈ chars s -> is_delim delims c = is_separator c.

Lemma separates_tail delims c s : separates delims (String c s) -> separates delims s.
Proof. intros Hs d Hd. apply Hs. by right. Qed.

Lemma skip_delims_words delims s : separates delims s ->
  words (chars (skip_delims delims s)) = words (chars s) /\
  separates delims (skip_delims delims s).
Proof.
  induction s as [|c s IH]; intros Hs; simpl; [done|].
  rewrite (Hs c) by left. destruct (is_separator c) eqn:Ec; [|done].
  rewrite words_sep by done. apply IH. by eapply separates_tail.
Qed.

Lemma until_delim_words delims s w r cur : separates delims s ->
  until_delim delims s = (w, r) ->
  words_after cur (chars s) = filter nonempty [cur ++ chars w] ++ words (chars r) /\
  separates delims r.
Proof.
  revert w r cur. induction s as [|c s IH]; intros w r cur Hs E; simpl in E; simplify_eq.
  { split; [|done]. unfold words_after. simpl. by rewrite !app_nil_r. }
  rewrite (Hs c) in E by left. apply separates_tail in Hs.
  destruct (is_separator c) eqn:Ec; simplify_eq.
  { simpl. rewrite words_after_sep by done. by rewrite app_nil_r. }
  destruct (until_delim delims s) as [w' r'] eqn:Eu; simplify_eq. simpl.
  rewrite words_after_char by done. destruct (IH w' r (cur ++ [c]) Hs eq_refl) as [-> ?].
  by rewrite <- app_assoc.
Qed.

Lemma strtok_r_words delims s : separates delims s ->
  match strtok_r delims s with
  | None => words (chars s) = []
  | Some (w, r) => words (chars s) = chars w :: words (chars r) /\ separates delims r
  end.
Proof.
  intros Hs. destruct (skip_delims_words delims s Hs) as [Hw Hs'].
  unfold strtok_r. pose proof (skip_delims_head delims s) as Hh.
  destruct (skip_delims delims s) as [|c s']; [by rewrite <- Hw|].
  destruct (until_delim delims (String c s')) as [w r] eqn:E.
  destruct (until_delim_words _ _ _ _ [] Hs' E) as [Ew ?]. split; [|done].
  rewrite <- Hw, <- words_after_nil, Ew. simpl in E. rewrite (Hh c s') in E by done.
  destruct (until_delim delims s'); simplify_eq. by rewrite filter_cons_True.
Qed.

Section LoopFacts.
Context {W : Type}.
Implicit Types s : cstate W.

(** Two computations that agree on every state. *)
Definition same {A} (m m' : C W A) : Prop := forall s, m s = m' s.

Lemma same_bind {A B} (m m' : C W A) (f f' : A -> C W B) :
  same m m' -> (forall a, same (f a) (f' a)) -> same (m ≫= f) (m' ≫= f').
Proof.
  intros Hm Hf s. unfold mbind, C_bind. rewrite (Hm s).
  destruct (m' s) as [[a|?|?|] s']; [apply Hf|done..].
Qed.

Lemma for_each_app {A} (l1 l2 : list A) (body : A -> C W unit) :
  same (for_each (l1 ++ l2) body) (for_each l1 body;; for_each l2 body).
Proof.
  induction l1 as [|x l1 IH]; intros s; [done|]. simpl. rewrite bind_assoc.
  apply same_bind; [done|]. intros _. apply IH.
Qed.

Lemma token_loop_words fuel delims line (body : string -> C W unit) :
  separates delims line -> (String.length line < fuel)%nat ->
  same (token_loop fuel delims line body)
       (for_each (words (chars line)) (fun w => body (of_chars w))).
Proof.
  revert line. induction fuel as [|fuel IH]; intros line Hs Hf; [lia|]. simpl.
  pose proof (strtok_r_words delims line Hs) as Hw.
  destruct (strtok_r delims line) as [[w r]|] eqn:E; [|by rewrite Hw].
  destruct Hw as [-> Hr]. simpl. rewrite of_chars_chars. apply same_bind; [done|].
  intros _. apply IH; [done|]. apply strtok_r_decreases in E. lia.
Qed.

(** A line loop goes through the chunks. *)
Lemma line_loop_chunks fuel n size file (body : list byte -> C W unit) :
  (1 < size)%nat -> (length file < fuel)%nat -> (length file <= n)%nat ->
  same (line_loop fuel size file body) (for_each (chunks_from n size file) body).
Proof.
  intros Hz. revert n file. induction fuel as [|fuel IH]; intros n file Hf Hn; [lia|]. simpl.
  destruct (fgets size file) as [[line rest]|] eqn:E.
  - pose proof E as E'. apply fgets_some in E' as (-> & Hl & _); [|done].
    rewrite length_app in *. assert (length line <> O) by (by destruct line).
    destruct n as [|n]; [lia|]. cbn [chunks_from]. rewrite E.
    apply same_bind; [done|]. intros _. apply IH; lia.
  - destruct n as [|n]; [done|]. simpl. by rewrite E.
Qed.

Lemma for_each_concat {A B} (g : A -> list B) (l : list A) (body : A -> C W unit)
    (body' : B -> C W unit) :
  Forall (fun x => same (body x) (for_each (g x) body')) l ->
  same (for_each l body) (for_each (concat (g <$> l)) body').
Proof.
  induction 1 as [|x l Hx Hl IH]; [done|]. rewrite fmap_cons. cbn [concat]. simpl.
  intros s. rewrite for_each_app. apply same_bind; [done|by intros _].
Qed.

Lemma cstring_no_nul (l : list byte) : NUL ∉ cstring l.
Proof.
  induction l as [|c l IH]; simpl; [apply not_elem_of_nil|].
  destruct (c =?c NUL)%c eqn:Ec; [apply not_elem_of_nil|].
  apply not_elem_of_cons. split; [|done]. intros <-. by rewrite Ascii.eqb_refl in Ec.
Qed.

Lemma cstring_length (l : list byte) : (length (cstring l) <= length l)%nat.
Proof. induction l as [|c l IH]; simpl; [done|]. destruct (c =?c NUL)%c; simpl; lia. Qed.

Lemma blanks_nl_separate (l : list byte) : separates blanks_nl (of_chars (cstring l)).
Proof.
  intros c Hc. rewrite chars_of_chars in Hc.
  assert (c <> NUL) as Hn by (intros ->; by apply cstring_no_nul in Hc).
  clear Hc. revert Hn. by destruct c as [[] [] [] [] [] [] [] []].
Qed.

Lemma cut_newline_elem (l : list byte) c :
  c ∈ cut_newline l -> c ∈ l /\ c <> "010"%char.
Proof.
  induction l as [|d l IH]; simpl; [by intros ?%elem_of_nil|].
  destruct (d =?c "010")%c eqn:Ed; [by intros ?%elem_of_nil|].
  intros [->|?]%elem_of_cons; [|split; [right|]; by apply IH].
  split; [left|]. intros ->. done.
Qed.

Lemma blanks_separate (l : list byte) : separates blanks (of_chars (cut_newline (cstring l))).
Proof.
  intros c Hc. rewrite chars_of_chars in Hc. apply cut_newline_elem in Hc as [Hc Hl].
  assert (c <> NUL) as Hn by (intros ->; by apply cstring_no_nul in Hc).
  clear Hc. revert Hn Hl. by destruct c as [[] [] [] [] [] [] [] []].
Qed.

Lemma one_line_cons c l : one_line (c :: l) -> one_line l /\ (l <> [] -> c <> "010"%char).
Proof.
  unfold one_line. destruct l as [|d l]; [done|].
  change (removelast (c :: d :: l)) with (c :: removelast (d :: l)).
  intros [? ?]%not_elem_of_cons. done.
Qed.

(** On a line the newline that is cut off separates nothing. *)
Lemma cut_newline_words (l : list byte) : one_line l ->
  forall cur, words_after cur (cut_newline (cstring l)) = words_after cur (cstring l).
Proof.
  induction l as [|c l IH]; intros Ho cur; [done|].
  apply one_line_cons in Ho as [Ho Hc]. simpl.
  destruct (c =?c NUL)%c; [done|]. simpl.
  destruct (c =?c "010")%c eqn:Ec.
  - apply Ascii.eqb_eq in Ec as ->. destruct l as [|d l]; [|by destruct Hc].
    simpl. rewrite words_after_sep by done. unfold words_after. simpl. by rewrite !app_nil_r.
  - destruct (is_separator c) eqn:Es.
    + rewrite !words_after_sep by done. by rewrite <- !words_after_nil, IH.
    + rewrite !words_after_char by done. auto.
Qed.

(** The loop of the clients hands over the words of the chunks. *)
Lemma file_words_handed size file (body : string -> C W unit) :
  (1 < size)%nat ->
  same (file_words size file body)
       (for_each (handed_over size file) (fun w => body (of_chars w))).
Proof.
  intros Hz s. unfold file_words, handed_over, chunks.
  rewrite (line_loop_chunks _ (length file)) by lia.
  apply for_each_concat, list.Forall_true. intros line s1.
  unfold tokens. rewrite token_loop_words by (apply blanks_nl_separate || lia).
  by rewrite chars_of_chars.
Qed.

Lemma file_words_cut_handed size file (body : string -> C W unit) :
  (1 < size)%nat ->
  same (file_words_cut size file body)
       (for_each (handed_over size file) (fun w => body (of_chars w))).
Proof.
  intros Hz s. unfold file_words_cut, handed_over, chunks.
  rewrite (line_loop_chunks _ (length file)) by lia.
  apply for_each_concat. eapply Forall_impl; [|by apply chunks_from_file].
  intros line (_ & _ & Ho) s1. unfold tokens.
  rewrite token_loop_words by (apply blanks_separate || lia).
  by rewrite chars_of_chars, <- !words_after_nil, cut_newline_words.
Qed.
End LoopFacts.

Lemma cstring_id (l : list byte) : NUL ∉ l -> cstring l = l.
Proof.
  induction l as [|c l IH]; intros Hn; simpl; [done|].
  apply not_elem_of_cons in Hn as [Hc Hl]. destruct (c =?c NUL)%c eqn:Ec.
  - by apply Ascii.eqb_eq in Ec as ->.
  - by rewrite IH.
Qed.

(** Which words are handed over: those of the file, if [fgets] never stops
    inside one. *)
Lemma handed_over_words size file :
  (1 < size)%nat -> NUL ∉ file ->
  handed_over size file = words file <-> cut_free (chunks size file) = true.
Proof.
  intros Hz Hn. destruct (chunks_from_file (length file) size file Hz) as [Hc Hf]; [done|].
  fold (chunks size file) in Hc, Hf.
  assert (handed_over size file = concat (words <$> chunks size file)) as ->.
  { unfold handed_over. f_equal. apply list_fmap_ext. intros i l Hl. simpl.
    rewrite cstring_id; [done|]. intros Hin. apply Hn. rewrite <- Hc.
    apply list_elem_of_lookup_2 in Hl. apply list_elem_of_In, in_concat.
    exists l. by rewrite <- !list_elem_of_In. }
  rewrite <- words_concat, Hc; [done|].
  eapply Forall_impl; [|exact Hf]. by intros l [? _].
Qed.

(** Whatever the file, what is handed over are strings that fit the buffer. *)
Lemma handed_over_strings size file : (1 < size)%nat ->
  Forall (fun w => (w <> []) /\ (NUL ∉ w) /\ (length w < size)%nat) (handed_over size file).
Proof.
  intros Hz. apply Forall_concat, Forall_fmap.
  destruct (chunks_from_file (length file) size file Hz) as [_ Hf]; [done|].
  eapply Forall_impl; [|exact Hf]. intros line (_ & Hl & _). apply list.Forall_forall.
  intros w Hw. pose proof Hw as [Hne Hs]%list_elem_of_filter. split_and!; [done|..].
  - intros Hn. by apply (cstring_no_nul line), (words_letters _ w).
  - apply split_length in Hs. pose proof (cstring_length line). lia.
Qed.

(** No line has more than [size - 1] characters before its newline. *)
Definition short_lines (size : nat) (file : list byte) : Prop :=
  forall a m b, file = a ++ m ++ b -> length m = size -> "010"%char ∈ m.

Lemma short_lines_app size l file : short_lines size (l ++ file) -> short_lines size file.
Proof. intros Hs a m b ->. apply (Hs (l ++ a) m b). by rewrite <- app_assoc. Qed.

Lemma read_line_full n file line rest : read_line n file = (line, rest) ->
  rest = [] \/ length line = n \/ list.last line = Some "010"%char.
Proof.
  revert file line rest. induction n as [|n IH]; intros file line rest E; simpl in E.
  { simplify_eq. auto. }
  destruct file as [|c file]; [simplify_eq; auto|].
  destruct (c =?c "010")%c eqn:Ec.
  { apply Ascii.eqb_eq in Ec as ->. simplify_eq. auto. }
  destruct (read_line n file) as [l r] eqn:El. simplify_eq.
  destruct (IH _ _ _ El) as [?|[?|Hl]]; [by left|right; left; simpl; lia|].
  right; right. by destruct l.
Qed.

(** Such lines are never cut inside a word. *)
Lemma short_lines_cut_free size file :
  (1 < size)%nat -> short_lines size file -> cut_free (chunks size file) = true.
Proof.
  intros Hz. unfold chunks. generalize (le_n (length file)).
  generalize (length file) at 2 3 as n. intros n. revert file.
  induction n as [|n IH]; intros file Hn Hs; [done|]. cbn [chunks_from].
  destruct (fgets size file) as [[line rest]|] eqn:E; [|done].
  pose proof E as E'. apply fgets_some in E' as (-> & Hl & _ & Ho); [|done].
  rewrite length_app in Hn. assert (length line <> O) by (by destruct line).
  specialize (IH rest ltac:(lia) (short_lines_app _ _ _ Hs)).
  destruct n as [|n]; [done|]. cbn [chunks_from] in *.
  destruct (fgets size rest) as [[line' rest']|] eqn:E'; [|done].
  cbn [cut_free]. fold cut_free. apply andb_true_iff. split; [|done].
  apply fgets_some in E' as (-> & Hl' & _ & _); [|done].
  unfold fgets in E. destruct line as [|x line]; [done|]. simpl in E. injection E as E.
  apply read_line_full in E as [E|[E|E]]; [by destruct line'| |by unfold clean_cut; rewrite E; case_match].
  unfold clean_cut. destruct line' as [|d line']; [done|].
  destruct (list.last (x :: line)) as [c|] eqn:Ec; [|done]. simpl list.head. cbv iota.
  specialize (Hs [] ((x :: line) ++ [d]) (line' ++ rest')).
  rewrite length_app in Hs. simpl length in *. apply elem_of_app in Hs as [Hs|Hs]; [| |by rewrite <- app_assoc|lia].
  - apply last_Some in Ec as [l' El]. unfold one_line in Ho. rewrite El in Ho, Hs.
    rewrite removelast_last in Ho. apply elem_of_app in Hs as [?|Hs]; [done|].
    apply list_elem_of_singleton in Hs as <-. done.
  - apply list_elem_of_singleton in Hs as <-. by rewrite orb_true_r.
Qed.

(** ** The property *)

(** C23: [fgets] and [strtok_r] against the words of the file.  Both forms of
    the loop call their body on [handed_over], one word at a time and in order;
    for a text without NUL these are the words of the file if and only if no
    chunk that [fgets] returns ends inside a word, for which it is enough that no
    line has more than [size - 1] characters. *)
Theorem lines_give_words {W} (size : nat) (file : list byte) :
  (1 < size)%nat -> NUL ∉ file ->
  (forall (body : string -> C W unit) (s : cstate W),
     file_words size file body s =
       for_each (handed_over size file) (fun w => body (of_chars w)) s /\
     file_words_cut size file body s =
       for_each (handed_over size file) (fun w => body (of_chars w)) s) /\
  (handed_over size file = words file <-> cut_free (chunks size file) = true) /\
  (short_lines size file -> handed_over size file = words file).
Proof.
  intros Hz Hn. split_and!.
  - intros body s. split; [by apply file_words_handed|by apply file_words_cut_handed].
  - by apply handed_over_words.
  - intros Hs. apply handed_over_words; [done..|]. by apply short_lines_cut_free.
Qed.

(** A buffer of six: "one tw" is cut after "one t" and gives the words "one",
    "t", "w"; "one two" with a second blank is not. *)
Lemma lines_give_words_witness :
  handed_over 6 (chars "one  two") = words (chars "one  two") /\
  handed_over 6 (chars "one two") <> words (chars "one two") /\
  handed_over 6 (chars "one two") = [chars "one"; chars "t"; chars "wo"].
Proof.
  split_and!; [|by vm_compute..].
  refine (proj2 (proj1 (proj2 (lines_give_words (W := unit) 6 (chars "one  two") _ _))) _);
    [lia| |by vm_compute].
  intros Hn%list_elem_of_In. simpl in Hn. repeat destruct Hn as [Hn|Hn]; done.
Defined.
