(* ===== verification/Sockets.v ===== *)
(** * Sockets and their addresses

    The programs under [src/networking-functions], [src/tcp], [src/udp],
    [src/sockets] and [src/domain-socket] carry identical copies of the
    functions that convert an address, create, bind and connect a socket, listen,
    accept and close.  They are defined here once; the files of the programs name
    them again in their Modules.  The address structures are written out as the
    bytes that [bind], [connect] and [sendto] receive, with the port in network
    order. *)

From S2P Require Import Prelude CMonad CString Words PipeIO Servers.

(** ** Calls *)

Section Calls.
Context {W} `{Kernel W}.

(** POSIX: on a socket, [write] is [send] and [read] is [recv] when no flags are
    given. *)
Definition write (fd : Z) (data : list byte) : C W sysret := sys (SWrite fd data).
Definition send (fd : Z) (data : list byte) : C W sysret := sys (SWrite fd data).
Definition read (fd : Z) (count : nat) : C W sysret := sys (SRead fd count).
Definition recv (fd : Z) (count : nat) : C W sysret := sys (SRead fd count).
End Calls.

Definition SHUT_RD : Z := 0.
Definition SHUT_WR : Z := 1.
Definition SHUT_RDWR : Z := 2.
Definition SOL_SOCKET : Z := 1.
Definition IPPROTO_TCP : Z := 6.
Definition SO_REUSEADDR : Z := 2.

(** ** Integers in memory *)

(** An integer in [n] bytes, least significant first. *)
Fixpoint le_bytes (n : nat) (v : Z) : list byte :=
  match n with
  | O => []
  | S n => byte_of v :: le_bytes n (v / 256)
  end.

Fixpoint le_value (l : list byte) : Z :=
  match l with
  | [] => 0
  | b :: l => byte_val b + 256 * le_value l
  end.

(** [htons]: on a little-endian machine the two bytes change places. *)
Definition htons (v : Z) : Z := (v mod 256) * 256 + v / 256.

(** ** Addresses *)

(** [struct sockaddr_storage] as [struct sockaddr_in] or [sockaddr_in6]: the
    fields the programs set; all others are zero. *)
Record sockaddr := SockAddr { ss_family : Z; ss_port : Z; ss_addr : list byte }.

(** The bytes of the structure: [sin_family], [sin_port], [sin_addr],
    [sin_zero]; or [sin6_family], [sin6_port], [sin6_flowinfo], [sin6_addr],
    [sin6_scope_id]. *)
Definition sockaddr_bytes (a : sockaddr) : list byte :=
  le_bytes 2 (ss_family a) ++ le_bytes 2 (ss_port a) ++
  if ss_family a =? AF_INET then ss_addr a ++ replicate 8 NUL
  else replicate 4 NUL ++ ss_addr a ++ replicate 4 NUL.

Definition sizeof_sockaddr_in : nat := 16.
Definition sizeof_sockaddr_in6 : nat := 28.

(** [struct sockaddr_un]: [strncpy(addr->sun_path, path, sizeof - 1)] and a NUL
    in the last byte of [char sun_path[108]]. *)
Definition setup_socket_address (path : string) : list byte :=
  le_bytes 2 AF_UNIX ++ <[107%nat := NUL]> (strncpy (replicate 108 NUL) path 107).

(** What the bytes mean to the network: the family, the port, most significant
    byte first, and the address. *)
Definition endpoint (b : list byte) : option (Z * Z * list byte) :=
  match b with
  | f0 :: f1 :: p1 :: p0 :: rest =>
      let family := byte_val f0 + 256 * byte_val f1 in
      let port := 256 * byte_val p1 + byte_val p0 in
      if family =? AF_INET then Some (family, port, take 4 rest)
      else if family =? AF_INET6 then Some (family, port, take 16 (drop 4 rest))
      else None
  | _ => None
  end.

(** ** The functions *)

Section Functions.
Context {W} `{Kernel W}.

Definition convert_address (address : string) : C W sockaddr :=
  r ← sys (SInetPton AF_INET address);
  if r_val r =? 1 then mret (SockAddr AF_INET 0 (r_data r))
  else
    r ← sys (SInetPton AF_INET6 address);
    if r_val r =? 1 then mret (SockAddr AF_INET6 0 (r_data r))
    else
      eout (ln (address +:+ " is not an IPv4 or an IPv6 address"));;
      exit_ EXIT_FAILURE.

Definition socket_create (domain type protocol : Z) : C W Z :=
  r ← sys (SSocket domain type protocol);
  if r_val r =? -1 then error_exit "Socket creation failed" else mret (r_val r).

(** "address:port" *)
Definition at_port (addr_str : list byte) (port : Z) : string :=
  of_chars addr_str +:+ ":" +:+ fmt_u port.

(** The family decides the length and where the port goes; [None] for any
    other family. *)
Definition with_port (addr : sockaddr) (port : Z) : option (sockaddr * nat) :=
  if ss_family addr =? AF_INET then
    Some (SockAddr AF_INET (htons port) (ss_addr addr), sizeof_sockaddr_in)
  else if ss_family addr =? AF_INET6 then
    Some (SockAddr AF_INET6 (htons port) (ss_addr addr), sizeof_sockaddr_in6)
  else None.

Definition socket_bind (sockfd : Z) (addr : sockaddr) (port : Z) : C W unit :=
  match with_port addr port with
  | None =>
      eout (ln ("Internal error: addr->ss_family must be AF_INET or AF_INET6, was: "
                +:+ fmt_d (ss_family addr)));;
      exit_ EXIT_FAILURE
  | Some (addr, addr_len) =>
      t ← sys (SInetNtop (ss_family addr) (ss_addr addr));
      (if r_val t =? -1 then error_exit "inet_ntop" else mret tt);;
      out (ln ("Binding to: " +:+ at_port (r_data t) port));;
      r ← sys (SBind sockfd (take addr_len (sockaddr_bytes addr)));
      (if r_val r =? -1 then
         perror "Binding failed";;
         e ← get_errno;
         eout (ln ("Error code: " +:+ fmt_d e));;
         exit_ EXIT_FAILURE
       else mret tt);;
      out (ln ("Bound to socket: " +:+ at_port (r_data t) port))
  end.

(** [fprintf(stderr, "Error: connect (%d): %s\n", errno, strerror(errno))] has the
    form of [perror]. *)
Definition socket_connect (sockfd : Z) (addr : sockaddr) (port : Z) : C W unit :=
  t ← sys (SInetNtop (ss_family addr) (ss_addr addr));
  (if r_val t =? -1 then error_exit "inet_ntop" else mret tt);;
  out (ln ("Connecting to: " +:+ at_port (r_data t) port));;
  match with_port addr port with
  | None =>
      eout (ln ("Invalid address family: " +:+ fmt_d (ss_family addr)));;
      exit_ EXIT_FAILURE
  | Some (addr, addr_len) =>
      r ← sys (SConnect sockfd (take addr_len (sockaddr_bytes addr)));
      (if r_val r =? -1 then
         e ← get_errno;
         emit (EPerror ("Error: connect (" +:+ fmt_d e +:+ ")") e);;
         exit_ EXIT_FAILURE
       else mret tt);;
      out (ln ("Connected to: " +:+ at_port (r_data t) port))
  end.

Definition start_listening (server_fd backlog : Z) : C W unit :=
  r ← sys (SListen server_fd backlog);
  (if r_val r =? -1 then
     perror "listen failed";; sys (SClose server_fd);; exit_ EXIT_FAILURE
   else mret tt);;
  out (ln "Listening for incoming connections...").

(** The two texts [getnameinfo] stores, each with its NUL. *)
Definition host_text (d : list byte) : string := of_chars (cstring d).
Definition service_text (d : list byte) : string :=
  of_chars (cstring (drop (S (length (cstring d))) d)).

Definition socket_accept_connection (server_fd : Z) : C W Z :=
  set_errno 0;;
  r ← sys (SAccept server_fd);
  if r_val r =? -1 then
    e ← get_errno;
    (if negb (e =? EINTR) then perror "accept failed" else mret tt);;
    mret (-1)
  else
    n ← sys (SGetnameinfo (r_val r));
    (if r_val n =? 0 then
       out (ln ("Accepted a new connection from " +:+ host_text (r_data n) +:+ ":"
                +:+ service_text (r_data n)))
     else out (ln "Unable to get client information"));;
    mret (r_val r).

Definition setup_signal_handler : C W unit :=
  r ← sys (SSigaction SIGINT);
  if r_val r =? -1 then error_exit "sigaction" else mret tt.

Definition shutdown_socket (sockfd how : Z) : C W unit :=
  r ← sys (SShutdown sockfd how);
  if r_val r =? -1 then error_exit "Error closing socket" else mret tt.

Definition socket_close (sockfd : Z) : C W unit :=
  r ← sys (SClose sockfd);
  if r_val r =? -1 then error_exit "Error closing socket" else mret tt.

(** [while(!exit_flag) { accept; if(-1) { if(exit_flag) break; continue; } ... }]:
    one turn of the servers' main loop. *)
Definition accept_turn (accept : C W Z) (serve : Z -> C W unit) (_ : unit) :
    C W (unit + unit) :=
  flag ← sys SExitFlag;
  if negb (r_val flag =? 0) then mret (inr tt)
  else
    client_sockfd ← accept;
    if client_sockfd =? -1 then
      flag ← sys SExitFlag;
      if negb (r_val flag =? 0) then mret (inr tt) else mret (inl tt)
    else
      serve client_sockfd;;
      mret (inl tt).
End Functions.

(** ** Lemmas: addresses *)

Lemma byte_val_byte_of v : byte_val (byte_of v) = v mod 256.
Proof. by rewrite byte_val_of. Qed.

Lemma htons_low p : 0 <= p <= UINT16_MAX -> htons p mod 256 = p / 256.
Proof.
  intros Hp. unfold htons, UINT16_MAX in *.
  rewrite Z.add_comm, Z_mod_plus_full. apply Z.mod_small.
  split; [apply Z.div_pos; lia|apply Z.div_lt_upper_bound; lia].
Qed.

Lemma htons_high p : 0 <= p <= UINT16_MAX -> htons p / 256 mod 256 = p mod 256.
Proof.
  intros Hp. unfold htons, UINT16_MAX in *.
  rewrite Z.add_comm, Z_div_plus_full by lia.
  rewrite (Z.div_small (p / 256) 256).
  - apply Z.mod_mod. lia.
  - split; [apply Z.div_pos; lia|apply Z.div_lt_upper_bound; lia].
Qed.

(** The length of an address of a family. *)
Definition address_length (family : Z) : option nat :=
  if family =? AF_INET then Some 4%nat
  else if family =? AF_INET6 then Some 16%nat else None.

Lemma address_length_cases f n : address_length f = Some n ->
  f = AF_INET /\ n = 4%nat \/ f = AF_INET6 /\ n = 16%nat.
Proof.
  unfold address_length. destruct (Z.eqb_spec f AF_INET); [intros [= <-]; auto|].
  destruct (Z.eqb_spec f AF_INET6); [intros [= <-]; auto|done].
Qed.

(** The network reads from the structure what was put into it. *)
Lemma endpoint_with_port (a a' : sockaddr) (p : Z) (n : nat) :
  0 <= p <= UINT16_MAX ->
  address_length (ss_family a) = Some (length (ss_addr a)) ->
  with_port a p = Some (a', n) ->
  endpoint (take n (sockaddr_bytes a')) = Some (ss_family a, p, ss_addr a).
Proof.
  intros Hp Hl E. pose proof (Z.div_mod p 256 ltac:(lia)) as Hdm.
  destruct a as [f q addr]. simpl in *. unfold with_port in E. simpl in E.
  apply address_length_cases in Hl as [[-> Hl]|[-> Hl]]; simpl in E; simplify_eq;
    unfold sockaddr_bytes; simpl.
  - do 4 (destruct addr as [|? addr]; [done|]). destruct addr; [|done]. simpl.
    rewrite !byte_val_byte_of, htons_low, htons_high by done.
    cbn -[Z.mul Z.add Z.div Z.modulo]. repeat f_equal. lia.
  - do 16 (destruct addr as [|? addr]; [done|]). destruct addr; [|done]. simpl.
    rewrite !byte_val_byte_of, htons_low, htons_high by done.
    cbn -[Z.mul Z.add Z.div Z.modulo]. repeat f_equal. lia.
Qed.

(** ** Accounting

    What a program keeps while it talks to the system: the addresses it passes
    on satisfy [A], the descriptors it holds are [open], [accept] is called with
    the listening socket as the only descriptor open, and, once [R] holds, a call
    with an address has succeeded. *)

(** The address a call passes. *)
Definition addr_of (c : syscall) : option (list byte) :=
  match c with SBind _ a | SConnect _ a | SSendto _ _ a => Some a | _ => None end.

Definition addressed (A : list event -> list byte -> Prop) (t : list event) : Prop :=
  forall c r b, (c, r) ∈ calls t -> addr_of c = Some b -> A t b.

Definition reached (t : list event) : Prop :=
  exists c r, (c, r) ∈ calls t /\ addr_of c <> None /\ r_val r <> -1.

Definition one_at_a_time (t : list event) : Prop :=
  forall t1 fd r t2, t = t1 ++ ESys (SAccept fd) r :: t2 -> obtained t1 ≡ₚ closed t1 ++ [fd].

Lemma reached_app t1 t2 : reached t1 -> reached (t1 ++ t2).
Proof.
  intros (c & r & Hc & ?). exists c, r. rewrite calls_app, elem_of_app. auto.
Qed.

Lemma one_at_a_time_snoc t e :
  one_at_a_time t ->
  (forall fd r, e = ESys (SAccept fd) r -> obtained t ≡ₚ closed t ++ [fd]) ->
  one_at_a_time (t ++ [e]).
Proof.
  intros Ht He t1 fd r t2 E. destruct t2 as [|e2 t2 _] using rev_ind.
  - apply app_inj_tail in E as [-> ->]. by eapply He.
  - rewrite app_comm_cons, app_assoc in E. apply app_inj_tail in E as [-> _]. by eapply Ht.
Qed.

Section Accounts.
Context {W} `{Kernel W}.
Context (A : list event -> list byte -> Prop).
Context (A_mono : forall t t' b, A t b -> A (t ++ t') b).
Implicit Types s : cstate W.

Record inv (open : list Z) (K : list event -> Prop) (s : cstate W) : Prop := {
  inv_addressed : addressed A (trace s);
  inv_open : obtained (trace s) ≡ₚ closed (trace s) ++ open;
  inv_single : one_at_a_time (trace s);
  inv_known : exists t0 t1, trace s = t0 ++ t1 /\ K t0;
}.

(** The process ends. *)
Definition ended (code : Z) (s : cstate W) : Prop :=
  (code = EXIT_SUCCESS \/ code = EXIT_FAILURE) /\
  addressed A (trace s) /\ one_at_a_time (trace s).

Lemma known_snoc (K : list event -> Prop) t e :
  (exists t0 t1, t = t0 ++ t1 /\ K t0) -> exists t0 t1, t ++ [e] = t0 ++ t1 /\ K t0.
Proof. intros (t0 & t1 & -> & Hk). exists t0, (t1 ++ [e]). by rewrite app_assoc. Qed.

Lemma inv_learn open K (K' : list event -> Prop) s :
  inv open K s -> K' (trace s) -> inv open K' s.
Proof. intros [? ? ? ?] Hk. split; [done..|]. exists (trace s), []. by rewrite app_nil_r. Qed.

Lemma addressed_snoc t e :
  addressed A t ->
  (forall c r b, e = ESys c r -> addr_of c = Some b -> A (t ++ [e]) b) ->
  addressed A (t ++ [e]).
Proof using A_mono.
  intros Ht He c r b Hc Hb. rewrite calls_app, elem_of_app in Hc. destruct Hc as [Hc|Hc].
  - apply A_mono. by eapply Ht.
  - destruct e; simpl in Hc; try by apply elem_of_nil in Hc.
    apply list_elem_of_singleton in Hc. simplify_eq. by eapply He.
Qed.

(** A call that is none of the special ones, or a line of output. *)
Definition plain (e : event) : Prop :=
  neutral e /\ match e with ESys c _ => addr_of c = None | _ => True end.

Lemma inv_plain open K s e er (w : W) :
  plain e -> inv open K s -> inv open K (CState er (trace s ++ [e]) w).
Proof using A_mono.
  intros [Hn Hp] [Ha Ho Hs Hr]. split; simpl.
  - apply addressed_snoc; [done|]. intros c r b -> Hb. by rewrite Hp in Hb.
  - rewrite obtained_app, closed_app.
    destruct e as [| | |[] r]; simpl in *; rewrite ?app_nil_r; done.
  - apply one_at_a_time_snoc; [done|]. intros fd r ->. done.
  - by apply known_snoc.
Qed.

Lemma inv_errno open K s e : inv open K s -> inv open K (CState e (trace s) (world s)).
Proof. by intros [? ? ? ?]. Qed.

Lemma inv_ended open K s code :
  inv open K s -> code = EXIT_SUCCESS \/ code = EXIT_FAILURE -> ended code s.
Proof. by intros [? ? ? ?] ?. Qed.

(** What the system answered: the call is in the trace, and the kernel gave
    that result. *)
Definition answered (c : syscall) (r : sysret) (s : cstate W) : Prop :=
  (c, r) ∈ calls (trace s) /\ exists w w', kcall c w = (r, w').

(** *** Steps *)

Lemma step_sys {B} open K c (f : sysret -> C W B) Q s :
  (forall r, plain (ESys c r)) -> inv open K s ->
  (forall r s', inv open K s' -> answered c r s' -> wlp (f r) Q ended s') ->
  wlp (sys c ≫= f) Q ended s.
Proof using A_mono.
  intros Hc Hi HQ. apply wlp_bind, wlp_sys. intros r w e Ek. apply HQ.
  - by apply inv_plain.
  - split; [|eauto]. simpl. rewrite calls_app. apply elem_of_app. right. by left.
Qed.

Lemma step_emit {B} open K e (f : unit -> C W B) Q s :
  plain e -> inv open K s -> (forall s', inv open K s' -> wlp (f tt) Q ended s') ->
  wlp (emit e ≫= f) Q ended s.
Proof using A_mono. intros Hc Hi HQ. apply wlp_bind, HQ. by apply inv_plain. Qed.

Lemma step_out {B} open K msg (f : unit -> C W B) Q s :
  inv open K s -> (forall s', inv open K s' -> wlp (f tt) Q ended s') ->
  wlp (out msg ≫= f) Q ended s.
Proof using A_mono. by apply step_emit. Qed.

Lemma step_eout {B} open K msg (f : unit -> C W B) Q s :
  inv open K s -> (forall s', inv open K s' -> wlp (f tt) Q ended s') ->
  wlp (eout msg ≫= f) Q ended s.
Proof using A_mono. by apply step_emit. Qed.

Lemma step_perror {B} open K msg (f : unit -> C W B) Q s :
  inv open K s -> (forall s', inv open K s' -> wlp (f tt) Q ended s') ->
  wlp (perror msg ≫= f) Q ended s.
Proof using A_mono.
  intros Hi HQ. apply wlp_bind, wlp_bind. unfold wlp at 1, get_errno.
  apply HQ. by apply inv_plain.
Qed.

Lemma step_errno {B} (f : Z -> C W B) Q s :
  (forall e, wlp (f e) Q ended s) -> wlp (get_errno ≫= f) Q ended s.
Proof. intros HQ. apply wlp_bind, HQ. Qed.

Lemma step_exit {B} open K code Q s :
  inv open K s -> code = EXIT_SUCCESS \/ code = EXIT_FAILURE ->
  wlp (exit_ code : C W B) Q ended s.
Proof. intros. by eapply inv_ended. Qed.

Lemma step_error {B} open K msg Q s :
  inv open K s -> wlp (error_exit msg : C W B) Q ended s.
Proof using A_mono.
  intros Hi. unfold error_exit. eapply step_perror; [done|]. intros s' Hi'.
  eapply step_exit; [done|by right].
Qed.

(** [if(b) error_exit(msg)] before the rest. *)
Lemma step_check {B} open K (b : bool) msg (m : C W B) Q s :
  inv open K s -> (b = false -> wlp m Q ended s) ->
  wlp ((if b then error_exit msg else mret tt);; m) Q ended s.
Proof using A_mono.
  intros Hi HQ. apply wlp_bind. destruct b; [by eapply step_error|apply wlp_ret; auto].
Qed.

Lemma step_socket {B} open K d ty p (f : sysret -> C W B) Q s :
  inv open K s ->
  (forall r s', inv (if r_val r =? -1 then open else r_val r :: open) K s' ->
     wlp (f r) Q ended s') ->
  wlp (sys (SSocket d ty p) ≫= f) Q ended s.
Proof using A_mono.
  intros [Ha Ho Hs Hr] HQ. apply wlp_bind, wlp_sys. intros r w e _. apply HQ. split; simpl.
  - by apply addressed_snoc; [|intros ??? [= <- <-]].
  - rewrite obtained_app, closed_app, Ho. simpl. rewrite app_nil_r.
    destruct (r_val r =? -1); [by rewrite app_nil_r|].
    by rewrite <- app_assoc, (Permutation_app_comm open).
  - by apply one_at_a_time_snoc.
  - by apply known_snoc.
Qed.

Lemma step_accept {B} fd K (f : sysret -> C W B) Q s :
  inv [fd] K s ->
  (forall r s', inv (if r_val r =? -1 then [fd] else [r_val r; fd]) K s' ->
     wlp (f r) Q ended s') ->
  wlp (sys (SAccept fd) ≫= f) Q ended s.
Proof using A_mono.
  intros [Ha Ho Hs Hr] HQ. apply wlp_bind, wlp_sys. intros r w e _. apply HQ. split; simpl.
  - by apply addressed_snoc; [|intros ??? [= <- <-]].
  - rewrite obtained_app, closed_app, Ho. simpl. rewrite app_nil_r.
    destruct (r_val r =? -1); [by rewrite app_nil_r|]. rewrite <- app_assoc. simpl.
    by rewrite (Permutation_swap fd).
  - apply one_at_a_time_snoc; [done|]. by intros fd' r' [= <- <-].
  - by apply known_snoc.
Qed.

Lemma step_close {B} fd open K (f : sysret -> C W B) Q s :
  inv (fd :: open) K s -> (forall r s', inv open K s' -> wlp (f r) Q ended s') ->
  wlp (sys (SClose fd) ≫= f) Q ended s.
Proof using A_mono.
  intros [Ha Ho Hs Hr] HQ. apply wlp_bind, wlp_sys. intros r w e _. apply HQ. split; simpl.
  - by apply addressed_snoc; [|intros ??? [= <- <-]].
  - rewrite obtained_app, closed_app, Ho. simpl. by rewrite app_nil_r, <- app_assoc.
  - by apply one_at_a_time_snoc.
  - by apply known_snoc.
Qed.

(** A call with an address: it has to be a good one. *)
Lemma step_addressed {B} open K c b (f : sysret -> C W B) Q s :
  addr_of c = Some b -> (forall t, K t -> A t b) -> inv open K s ->
  (forall r s', inv open K s' -> (r_val r <> -1 -> reached (trace s')) ->
     wlp (f r) Q ended s') ->
  wlp (sys c ≫= f) Q ended s.
Proof using A_mono.
  intros Hc Hb [Ha Ho Hs Hk] HQ. apply wlp_bind, wlp_sys. intros r w e _.
  apply HQ; [split|]; simpl.
  - apply addressed_snoc; [done|]. intros c' r' b' [= <- <-] Hc'. rewrite Hc in Hc'.
    injection Hc' as <-. destruct Hk as (t0 & t1 & -> & Hk). rewrite <- app_assoc. auto.
  - rewrite obtained_app, closed_app. destruct c; simpl in *; try done; by rewrite !app_nil_r.
  - apply one_at_a_time_snoc; [done|]. by intros fd' r' [= -> ->].
  - by apply known_snoc.
  - intros Hr. exists c, r.
    rewrite calls_app, elem_of_app. split_and!; [right; by left|by rewrite Hc|done].
Qed.
End Accounts.

(** *** The functions, step by step *)

Section Steps.
Context {W} `{Kernel W}.
Context (A : list event -> list byte -> Prop).
Context (A_mono : forall t t' b, A t b -> A (t ++ t') b).
Implicit Types s : cstate W.

Lemma wlp_ret_r {B} (m : C W B) Q E s : wlp (m ≫= mret) Q E s -> wlp m Q E s.
Proof. unfold wlp, mbind, C_bind. by destruct (m s) as [[a|?|?|] s']. Qed.

Lemma step_convert {B} open K address (f : sockaddr -> C W B) Q s :
  inv A open K s ->
  (forall a r s', inv A open K s' -> answered (SInetPton (ss_family a) address) r s' ->
     r_val r = 1 -> ss_addr a = r_data r ->
     ss_family a = AF_INET \/ ss_family a = AF_INET6 -> wlp (f a) Q (ended A) s') ->
  wlp (convert_address address ≫= f) Q (ended A) s.
Proof using A_mono.
  intros Hi HQ. unfold convert_address. apply wlp_bind.
  eapply step_sys; [done|by intros|exact Hi|]. intros r1 s1 Hi1 Hc1.
  destruct (Z.eqb_spec (r_val r1) 1) as [H1|H1].
  { apply wlp_ret. apply (HQ _ r1); auto. }
  eapply step_sys; [done|by intros|exact Hi1|]. intros r2 s2 Hi2 Hc2.
  destruct (Z.eqb_spec (r_val r2) 1) as [H2|H2].
  { apply wlp_ret. apply (HQ _ r2); auto. }
  eapply step_eout; [done|exact Hi2|]. intros s3 Hi3.
  eapply step_exit; [done|by right].
Qed.

Lemma step_socket_create {B} open K d ty p (f : Z -> C W B) Q s :
  inv A open K s ->
  (forall fd s', inv A (fd :: open) K s' -> wlp (f fd) Q (ended A) s') ->
  wlp (socket_create d ty p ≫= f) Q (ended A) s.
Proof using A_mono.
  intros Hi HQ. unfold socket_create. apply wlp_bind.
  eapply step_socket; [done|exact Hi|]. intros r s1 Hi1.
  destruct (r_val r =? -1); [by eapply step_error|]. apply wlp_ret. by apply HQ.
Qed.

Lemma step_set_errno {B} open K e (f : unit -> C W B) Q s :
  inv A open K s -> (forall s', inv A open K s' -> wlp (f tt) Q (ended A) s') ->
  wlp (set_errno e ≫= f) Q (ended A) s.
Proof. intros Hi HQ. apply wlp_bind, HQ. by apply inv_errno. Qed.

Lemma step_socket_close {B} fd open K (f : unit -> C W B) Q s :
  inv A (fd :: open) K s -> (forall s', inv A open K s' -> wlp (f tt) Q (ended A) s') ->
  wlp (socket_close fd ≫= f) Q (ended A) s.
Proof using A_mono.
  intros Hi HQ. unfold socket_close. apply wlp_bind.
  eapply step_close; [done|exact Hi|]. intros r s1 Hi1.
  destruct (_ =? _); [by eapply step_error|]. apply wlp_ret. by apply HQ.
Qed.

Lemma step_shutdown {B} fd how open K (f : unit -> C W B) Q s :
  inv A open K s -> (forall s', inv A open K s' -> wlp (f tt) Q (ended A) s') ->
  wlp (shutdown_socket fd how ≫= f) Q (ended A) s.
Proof using A_mono.
  intros Hi HQ. unfold shutdown_socket. apply wlp_bind.
  eapply step_sys; [done|by intros|exact Hi|]. intros r s1 Hi1 _.
  destruct (_ =? _); [by eapply step_error|]. apply wlp_ret. by apply HQ.
Qed.

Lemma step_signal_handler {B} open K (f : unit -> C W B) Q s :
  inv A open K s -> (forall s', inv A open K s' -> wlp (f tt) Q (ended A) s') ->
  wlp (setup_signal_handler ≫= f) Q (ended A) s.
Proof using A_mono.
  intros Hi HQ. unfold setup_signal_handler. apply wlp_bind.
  eapply step_sys; [done|by intros|exact Hi|]. intros r s1 Hi1 _.
  destruct (_ =? _); [by eapply step_error|]. apply wlp_ret. by apply HQ.
Qed.

(** [b] is true: a failure that ends in [exit]. *)
Lemma step_bail {B} open K (b : bool) (bad : C W unit) (m : C W B) Q s :
  inv A open K s -> (b = true -> wlp bad (fun _ _ => False) (ended A) s) ->
  (b = false -> wlp m Q (ended A) s) ->
  wlp ((if b then bad else mret tt);; m) Q (ended A) s.
Proof.
  intros Hi Hb HQ. apply wlp_bind. destruct b; [|apply wlp_ret; auto].
  eapply wlp_mono; [by apply Hb|done..].
Qed.

Lemma step_listen {B} fd open K backlog (f : unit -> C W B) Q s :
  inv A (fd :: open) K s ->
  (forall s', inv A (fd :: open) K s' -> wlp (f tt) Q (ended A) s') ->
  wlp (start_listening fd backlog ≫= f) Q (ended A) s.
Proof using A_mono.
  intros Hi HQ. unfold start_listening. apply wlp_bind.
  eapply step_sys; [done|by intros|exact Hi|]. intros r s1 Hi1 _.
  eapply step_bail; [exact Hi1|..]; intros _.
  - eapply step_perror; [done|exact Hi1|]. intros s2 Hi2.
    eapply step_close; [done|exact Hi2|]. intros r' s3 Hi3.
    eapply step_exit; [done|by right].
  - apply HQ. by apply inv_plain.
Qed.

(** [bind] and [connect] get the structure [with_port] makes. *)
Definition passes (K : list event -> Prop) (addr : sockaddr) (port : Z) : Prop :=
  forall t a n, K t -> with_port addr port = Some (a, n) -> A t (take n (sockaddr_bytes a)).

Lemma step_socket_bind {B} fd addr port open K (f : unit -> C W B) Q s :
  passes K addr port -> inv A open K s ->
  (forall s', inv A open reached s' -> wlp (f tt) Q (ended A) s') ->
  wlp (socket_bind fd addr port ≫= f) Q (ended A) s.
Proof using A_mono.
  intros Hp Hi HQ. unfold socket_bind. apply wlp_bind.
  destruct (with_port addr port) as [[a n]|] eqn:Ea.
  2: { eapply step_eout; [done|exact Hi|]. intros s1 Hi1. eapply step_exit; [done|by right]. }
  eapply step_sys; [done|by intros|exact Hi|]. intros t s1 Hi1 _.
  eapply step_check; [done|exact Hi1|]. intros _.
  eapply step_out; [done|exact Hi1|]. intros s2 Hi2.
  eapply step_addressed; [done|done|intros t0 Hk; by eapply Hp|exact Hi2|].
  intros r s3 Hi3 Hr. eapply step_bail; [exact Hi3|..]; intros Hv.
  - eapply step_perror; [done|exact Hi3|]. intros s4 Hi4. eapply step_errno. intros e.
    eapply step_eout; [done|exact Hi4|]. intros s5 Hi5. eapply step_exit; [done|by right].
  - apply HQ, inv_plain; [done|done|]. eapply inv_learn; [exact Hi3|]. apply Hr. by apply Z.eqb_neq.
Qed.

Lemma step_socket_connect {B} fd addr port open K (f : unit -> C W B) Q s :
  passes K addr port -> inv A open K s ->
  (forall s', inv A open reached s' -> wlp (f tt) Q (ended A) s') ->
  wlp (socket_connect fd addr port ≫= f) Q (ended A) s.
Proof using A_mono.
  intros Hp Hi HQ. unfold socket_connect. apply wlp_bind.
  eapply step_sys; [done|by intros|exact Hi|]. intros t s1 Hi1 _.
  eapply step_check; [done|exact Hi1|]. intros _.
  eapply step_out; [done|exact Hi1|]. intros s2 Hi2.
  destruct (with_port addr port) as [[a n]|] eqn:Ea.
  2: { eapply step_eout; [done|exact Hi2|]. intros s3 Hi3. eapply step_exit; [done|by right]. }
  eapply step_addressed; [done|done|intros t0 Hk; by eapply Hp|exact Hi2|].
  intros r s3 Hi3 Hr. eapply step_bail; [exact Hi3|..]; intros Hv.
  - eapply step_errno. intros e. eapply step_emit; [done|done|exact Hi3|]. intros s5 Hi5.
    eapply step_exit; [done|by right].
  - apply HQ, inv_plain; [done|done|]. eapply inv_learn; [exact Hi3|]. apply Hr. by apply Z.eqb_neq.
Qed.

Lemma step_accept_connection {B} fd K (f : Z -> C W B) Q s :
  inv A [fd] K s ->
  (forall c s', inv A (if c =? -1 then [fd] else [c; fd]) K s' -> wlp (f c) Q (ended A) s') ->
  wlp (socket_accept_connection fd ≫= f) Q (ended A) s.
Proof using A_mono.
  intros Hi HQ. unfold socket_accept_connection. apply wlp_bind.
  eapply step_set_errno; [exact Hi|]. intros s1 Hi1.
  eapply step_accept; [done|exact Hi1|]. intros r s2 Hi2.
  destruct (r_val r =? -1) eqn:Hr.
  - eapply step_errno. intros e.
    apply wlp_bind, (wlp_mono _ (fun _ s' => inv A [fd] K s') _ (ended A)); [|intros _ s3 Hi3|done].
    { destruct (negb _); [|by apply wlp_ret]. unfold perror.
      eapply step_errno. intros e'. by apply inv_plain. }
    apply wlp_ret. by apply HQ.
  - eapply step_sys; [done|by intros|exact Hi2|]. intros n s3 Hi3 _.
    apply wlp_bind, (wlp_mono _ (fun _ s' => inv A [r_val r; fd] K s') _ (ended A));
      [|intros _ s4 Hi4|done].
    { case_match; by apply inv_plain. }
    apply wlp_ret. apply HQ. by rewrite Hr.
Qed.

(** The main loop of a server: [accept] gives -1 and leaves the listening socket,
    or a client, which [serve] closes. *)
Lemma step_accept_loop {B} turns fd K (accept : C W Z) (serve : Z -> C W unit) (f : unit -> C W B) Q s :
  (forall s, inv A [fd] K s -> wlp accept
     (fun c s' => inv A (if c =? -1 then [fd] else [c; fd]) K s') (ended A) s) ->
  (forall c s, inv A [c; fd] K s -> wlp (serve c) (fun _ s' => inv A [fd] K s') (ended A) s) ->
  inv A [fd] K s ->
  (forall s', inv A [fd] K s' -> wlp (f tt) Q (ended A) s') ->
  wlp (loop turns (accept_turn accept serve) tt ≫= f) Q (ended A) s.
Proof using A_mono.
  intros Ha Hs Hi HQ. apply wlp_bind.
  apply (wlp_loop _ (fun _ s' => inv A [fd] K s')); [|done]. intros [] s1 Hi1.
  unfold accept_turn. eapply step_sys; [done|by intros|exact Hi1|]. intros r s2 Hi2 _.
  destruct (negb _); [apply wlp_ret; by apply HQ|].
  apply wlp_bind. eapply wlp_mono; [by apply Ha| |done]. simpl. intros c s3 Hi3.
  destruct (c =? -1).
  - eapply step_sys; [done|by intros|exact Hi3|]. intros r' s4 Hi4 _.
    destruct (negb _); apply wlp_ret; [by apply HQ|done].
  - apply wlp_bind. eapply wlp_mono; [by apply Hs| |done]. simpl. intros _ s4 Hi4.
    by apply wlp_ret.
Qed.
End Steps.
