(* ===== verification/NetMains.v ===== *)
(** * The networking programs from [main] to exit

    [bind], [connect], [socket], [listen-accept], the TCP and UDP pairs and the
    two programs about socket options: every [main], on top of the command lines
    of [NetworkPrograms] and the functions of [Sockets].  Each program carries its
    own copies of those functions, which its Module names.  The theorems say that
    the address a program binds or connects to is the one of its command line,
    and that it gives back every descriptor, one client at a time in the
    servers. *)

From S2P Require Import Prelude CMonad CString Getopt ArgParse NetworkPrograms.
From S2P Require Import Words PipeIO Servers Sockets.

(** ** One connection or none *)

(** [src/networking-functions/bind/main.c] *)
Module BindMain.
Section Main.
Context {W} `{Kernel W}.

Definition convert_address : string -> C W sockaddr := convert_address.
Definition socket_create : Z -> Z -> Z -> C W Z := socket_create.
Definition socket_bind : Z -> sockaddr -> Z -> C W unit := socket_bind.
Definition socket_close : Z -> C W unit := socket_close.

Definition main (argv : list string) : C W Z :=
  '(address, port) ← networking_functions_bind.start_up argv;
  addr ← convert_address address;
  sockfd ← socket_create (ss_family addr) SOCK_STREAM 0;
  socket_bind sockfd addr port;;
  socket_close sockfd;;
  mret EXIT_SUCCESS.
End Main.
End BindMain.

(** [src/networking-functions/connect/main.c] *)
Module ConnectMain.
Section Main.
Context {W} `{Kernel W}.

Definition convert_address : string -> C W sockaddr := convert_address.
Definition socket_create : Z -> Z -> Z -> C W Z := socket_create.
Definition socket_connect : Z -> sockaddr -> Z -> C W unit := socket_connect.
Definition socket_close : Z -> C W unit := socket_close.

(** One turn of [while((nread = read(sockfd, &ch, 1)) != 0)]; [Some] status is
    the [return] inside it. *)
Definition read_turn (sockfd : Z) (ch : byte) : C W (byte + option Z) :=
  r ← read sockfd 1;
  if r_val r =? 0 then mret (inr None)
  else if r_val r =? -1 then perror "read";; mret (inr (Some EXIT_FAILURE))
  else
    let ch := match r_data r with b :: _ => b | [] => ch end in
    out (ln ("read: " +:+ String ch ""));;
    mret (inl ch).

(** [ch] is not initialised. *)
Definition main (turns : nat) (ch : byte) (argv : list string) : C W Z :=
  '(address, port) ← networking_functions_connect.start_up argv;
  addr ← convert_address address;
  sockfd ← socket_create (ss_family addr) SOCK_STREAM 0;
  socket_connect sockfd addr port;;
  status ← loop turns (read_turn sockfd) ch;
  match status with
  | Some status => mret status
  | None => socket_close sockfd;; mret EXIT_SUCCESS
  end.
End Main.
End ConnectMain.

(** [src/networking-functions/socket/main.c] *)
Module SocketMain.
Section Main.
Context {W} `{Kernel W}.

Definition socket_create : Z -> Z -> Z -> C W Z := socket_create.
Definition socket_close : Z -> C W unit := socket_close.

Definition main (argv : list string) : C W Z :=
  '(address_family, socket_type) ← networking_functions_socket.start_up argv;
  sockfd ← socket_create address_family socket_type 0;
  out (ln "Socket created");;
  socket_close sockfd;;
  out (ln "Socket closed");;
  mret EXIT_SUCCESS.
End Main.
End SocketMain.

(** [src/tcp/shutdown/client.c] *)
Module TcpClient.
Section Main.
Context {W} `{Kernel W}.

Definition convert_address : string -> C W sockaddr := convert_address.
Definition socket_create : Z -> Z -> Z -> C W Z := socket_create.
Definition socket_connect : Z -> sockaddr -> Z -> C W unit := socket_connect.
Definition shutdown_socket : Z -> Z -> C W unit := shutdown_socket.
Definition socket_close : Z -> C W unit := socket_close.

Definition main (argv : list string) : C W Z :=
  '(address, port) ← tcp_shutdown_client.start_up argv;
  addr ← convert_address address;
  sockfd ← socket_create (ss_family addr) SOCK_STREAM 0;
  socket_connect sockfd addr port;;
  shutdown_socket sockfd SHUT_WR;;
  socket_close sockfd;;
  mret EXIT_SUCCESS.
End Main.
End TcpClient.

(** [src/sockets/setsockopt/client.c] *)
Module SetsockoptClient.
Section Main.
Context {W} `{Kernel W}.

Definition convert_address : string -> C W sockaddr := convert_address.
Definition socket_create : Z -> Z -> Z -> C W Z := socket_create.
Definition socket_connect : Z -> sockaddr -> Z -> C W unit := socket_connect.
Definition socket_close : Z -> C W unit := socket_close.

Definition main (argv : list string) : C W Z :=
  '(address, port) ← sockets_setsockopt_client.start_up argv;
  addr ← convert_address address;
  sockfd ← socket_create (ss_family addr) SOCK_STREAM 0;
  socket_connect sockfd addr port;;
  socket_close sockfd;;
  mret EXIT_SUCCESS.
End Main.
End SetsockoptClient.

(** [src/udp/sendto-recvfrom/client.c] *)
Module UdpClient.
Section Main.
Context {W} `{Kernel W}.

Definition socket_create : Z -> Z -> Z -> C W Z := socket_create.
Definition socket_close : Z -> C W unit := socket_close.

(** This copy also gives the length of the structure. *)
Definition convert_address (address : string) : C W (sockaddr * nat) :=
  r ← sys (SInetPton AF_INET address);
  if r_val r =? 1 then mret (SockAddr AF_INET 0 (r_data r), sizeof_sockaddr_in)
  else
    r ← sys (SInetPton AF_INET6 address);
    if r_val r =? 1 then mret (SockAddr AF_INET6 0 (r_data r), sizeof_sockaddr_in6)
    else
      eout (ln (address +:+ " is not an IPv4 or an IPv6 address"));;
      exit_ EXIT_FAILURE.

Definition get_address_to_server (addr : sockaddr) (port : Z) : sockaddr :=
  if ss_family addr =? AF_INET then SockAddr AF_INET (htons port) (ss_addr addr)
  else if ss_family addr =? AF_INET6 then SockAddr AF_INET6 (htons port) (ss_addr addr)
  else addr.

(** The message goes out with its NUL. *)
Definition main (argv : list string) : C W Z :=
  '(address, message, port) ← udp_sendto_recvfrom_client.start_up argv;
  '(addr, addr_len) ← convert_address address;
  sockfd ← socket_create (ss_family addr) SOCK_DGRAM 0;
  let addr := get_address_to_server addr port in
  r ← sys (SSendto sockfd (chars message ++ [NUL]) (take addr_len (sockaddr_bytes addr)));
  (if r_val r =? -1 then error_exit "sendto" else mret tt);;
  out (ln ("Sent " +:+ fmt_u (r_val r) +:+ " bytes: " +:+ dq +:+ message +:+ dq));;
  socket_close sockfd;;
  mret EXIT_SUCCESS.
End Main.
End UdpClient.

(** [src/udp/sendto-recvfrom/server.c] *)
Module UdpServer.
Section Main.
Context {W} `{Kernel W}.

Definition convert_address : string -> C W sockaddr := convert_address.
Definition socket_create : Z -> Z -> Z -> C W Z := socket_create.
Definition socket_bind : Z -> sockaddr -> Z -> C W unit := socket_bind.
Definition socket_close : Z -> C W unit := socket_close.

Definition LINE_LEN : Z := 1024.

Definition handle_packet (client_sockfd : Z) (buffer : list byte) (bytes : Z) : C W unit :=
  out (ln (fmt_d client_sockfd +:+ " read " +:+ fmt_u bytes +:+ " characters: " +:+ dq
           +:+ text_of buffer +:+ dq +:+ " from")).

(** [buffer] has [LINE_LEN + 1] bytes nobody has written to. *)
Definition main (buffer : list byte) (argv : list string) : C W Z :=
  '(address, port) ← udp_sendto_recvfrom_server.start_up argv;
  addr ← convert_address address;
  sockfd ← socket_create (ss_family addr) SOCK_DGRAM 0;
  socket_bind sockfd addr port;;
  r ← sys (SRecvfrom sockfd (Z.to_nat LINE_LEN));
  (if r_val r <? 0 then
     perror "recvfrom";; socket_close sockfd;; exit_ EXIT_FAILURE
   else mret tt);;
  let cap := LINE_LEN + 1 in
  let n := if cap <=? r_val r then cap - 1 else r_val r in
  buffer ← array_set (overwrite (r_data r) buffer) n NUL;
  handle_packet sockfd buffer (r_val r);;
  socket_close sockfd;;
  mret EXIT_SUCCESS.
End Main.
End UdpServer.

(** [src/sockets/getsockopt/main.c] *)
Module Getsockopt.
Section Main.
Context {W} `{Kernel W}.

Definition convert_address : string -> C W sockaddr := convert_address.
Definition socket_create : Z -> Z -> Z -> C W Z := socket_create.
Definition socket_bind : Z -> sockaddr -> Z -> C W unit := socket_bind.
Definition socket_close : Z -> C W unit := socket_close.

Definition ENOPROTOOPT : Z := 92.

(** The two ways a query fails. *)
Definition no_option (option_name_str : string) : C W unit :=
  e ← get_errno;
  if (e =? ENOPROTOOPT) || (e =? EINVAL) then
    eout (ln (option_name_str +:+ ": Option not supported on this socket."))
  else emit (EPerror ("Error getting " +:+ option_name_str) e).

Definition int_at (offset : nat) (d : list byte) : Z :=
  to_signed 32 (le_value (take 4 (drop offset d))).
Definition long_at (offset : nat) (d : list byte) : Z :=
  to_signed 64 (le_value (take 8 (drop offset d))).

Definition enabled (v : Z) : string := if v =? 0 then "Disabled" else "Enabled".

Definition print_socket_opt_bool (sockfd option_level option_name : Z)
    (option_name_str : string) : C W unit :=
  r ← sys (SGetsockopt sockfd option_level option_name);
  if r_val r =? 0 then eout (ln (option_name_str +:+ ": " +:+ enabled (int_at 0 (r_data r))))
  else no_option option_name_str.

Definition print_socket_opt_int (sockfd option_level option_name : Z)
    (option_name_str : string) : C W unit :=
  r ← sys (SGetsockopt sockfd option_level option_name);
  if r_val r =? 0 then eout (ln (option_name_str +:+ ": " +:+ fmt_d (int_at 0 (r_data r))))
  else no_option option_name_str.

Definition print_socket_opt_timeval (sockfd option_level option_name : Z)
    (option_name_str : string) : C W unit :=
  r ← sys (SGetsockopt sockfd option_level option_name);
  if r_val r =? 0 then
    out (ln (option_name_str +:+ ": " +:+ fmt_d (long_at 0 (r_data r)) +:+ " seconds "
             +:+ fmt_d (long_at 8 (r_data r)) +:+ " microseconds"))
  else perror "getsockopt".

Definition print_socket_opt_linger (sockfd option_level option_name : Z)
    (option_name_str : string) : C W unit :=
  r ← sys (SGetsockopt sockfd option_level option_name);
  if r_val r =? 0 then
    out (ln (option_name_str +:+ ": Linger: " +:+ enabled (int_at 0 (r_data r)) +:+ ", Time: "
             +:+ fmt_d (int_at 4 (r_data r))))
  else perror "getsockopt".

(** [struct socket_option]: name, level, option and the function that prints
    it. *)
Definition socket_option : Type := string * Z * Z * (Z -> Z -> Z -> string -> C W unit).

(** The table of [main], with the Linux values of the constants. *)
Definition options : list socket_option :=
  [ ("SO_ACCEPTCONN", IPPROTO_TCP, 30, print_socket_opt_bool);
    ("SO_BROADCAST", SOL_SOCKET, 6, print_socket_opt_bool);
    ("SO_DEBUG", SOL_SOCKET, 1, print_socket_opt_bool);
    ("SO_DONTROUTE", SOL_SOCKET, 5, print_socket_opt_bool);
    ("SO_ERROR", SOL_SOCKET, 4, print_socket_opt_int);
    ("SO_KEEPALIVE", SOL_SOCKET, 9, print_socket_opt_bool);
    ("SO_LINGER", SOL_SOCKET, 13, print_socket_opt_linger);
    ("SO_OOBINLINE", SOL_SOCKET, 10, print_socket_opt_bool);
    ("SO_RCVBUF", SOL_SOCKET, 8, print_socket_opt_int);
    ("SO_RCVLOWAT", SOL_SOCKET, 18, print_socket_opt_int);
    ("SO_RCVTIMEO", SOL_SOCKET, 20, print_socket_opt_timeval);
    ("SO_REUSEADDR", SOL_SOCKET, SO_REUSEADDR, print_socket_opt_bool);
    ("SO_SNDBUF", SOL_SOCKET, 7, print_socket_opt_int);
    ("SO_SNDLOWAT", SOL_SOCKET, 19, print_socket_opt_int);
    ("SO_SNDTIMEO", SOL_SOCKET, 21, print_socket_opt_timeval);
    ("SO_TYPE", SOL_SOCKET, 3, print_socket_opt_int) ].

Definition main (argv : list string) : C W Z :=
  '(address, port) ← sockets_getsockopt.start_up argv;
  addr ← convert_address address;
  sockfd ← socket_create (ss_family addr) SOCK_STREAM 0;
  socket_bind sockfd addr port;;
  for_each options (fun '(name, level, option, print) => print sockfd level option name);;
  socket_close sockfd;;
  mret EXIT_SUCCESS.
End Main.
End Getsockopt.

(** ** Servers *)

(** [src/networking-functions/listen-accept/main.c] *)
Module ListenAccept.
Section Main.
Context {W} `{Kernel W}.

Definition convert_address : string -> C W sockaddr := convert_address.
Definition socket_create : Z -> Z -> Z -> C W Z := socket_create.
Definition socket_bind : Z -> sockaddr -> Z -> C W unit := socket_bind.
Definition start_listening : Z -> Z -> C W unit := start_listening.
Definition socket_accept_connection : Z -> C W Z := socket_accept_connection.
Definition setup_signal_handler : C W unit := setup_signal_handler.
Definition socket_close : Z -> C W unit := socket_close.

(** A byte per second. *)
Definition handle_connection (client_sockfd : Z) (message : string) : C W unit :=
  for_each (chars message) (fun c =>
    r ← write client_sockfd [c];
    (if r_val r =? -1 then error_exit "write" else mret tt);;
    sys (SSleep 1);;
    mret tt).

Definition main (turns : nat) (argv : list string) : C W Z :=
  '(address, message, port, backlog) ← networking_functions_listen_accept.start_up argv;
  addr ← convert_address address;
  sockfd ← socket_create (ss_family addr) SOCK_STREAM 0;
  socket_bind sockfd addr port;;
  start_listening sockfd backlog;;
  setup_signal_handler;;
  loop turns (accept_turn (socket_accept_connection sockfd) (fun client_sockfd =>
    handle_connection client_sockfd message;; socket_close client_sockfd)) tt;;
  socket_close sockfd;;
  mret EXIT_SUCCESS.
End Main.
End ListenAccept.

(** [src/tcp/shutdown/server.c] *)
Module TcpServer.
Section Main.
Context {W} `{Kernel W}.

Definition convert_address : string -> C W sockaddr := convert_address.
Definition socket_create : Z -> Z -> Z -> C W Z := socket_create.
Definition socket_bind : Z -> sockaddr -> Z -> C W unit := socket_bind.
Definition start_listening : Z -> Z -> C W unit := start_listening.
Definition socket_accept_connection : Z -> C W Z := socket_accept_connection.
Definition setup_signal_handler : C W unit := setup_signal_handler.
Definition shutdown_socket : Z -> Z -> C W unit := shutdown_socket.
Definition socket_close : Z -> C W unit := socket_close.

Definition handle_connection (client_sockfd : Z) : C W unit := mret tt.

Definition main (turns : nat) (argv : list string) : C W Z :=
  '(address, port) ← tcp_shutdown_server.start_up argv;
  addr ← convert_address address;
  sockfd ← socket_create (ss_family addr) SOCK_STREAM 0;
  socket_bind sockfd addr port;;
  start_listening sockfd SOMAXCONN;;
  setup_signal_handler;;
  loop turns (accept_turn (socket_accept_connection sockfd) (fun client_sockfd =>
    handle_connection client_sockfd;;
    shutdown_socket client_sockfd SHUT_RD;;
    socket_close client_sockfd)) tt;;
  shutdown_socket sockfd SHUT_RDWR;;
  socket_close sockfd;;
  mret EXIT_SUCCESS.
End Main.
End TcpServer.

(** [src/sockets/setsockopt/server.c] *)
Module SetsockoptServer.
Section Main.
Context {W} `{Kernel W}.

Definition convert_address : string -> C W sockaddr := convert_address.
Definition socket_create : Z -> Z -> Z -> C W Z := socket_create.
Definition socket_bind : Z -> sockaddr -> Z -> C W unit := socket_bind.
Definition start_listening : Z -> Z -> C W unit := start_listening.
Definition setup_signal_handler : C W unit := setup_signal_handler.
Definition socket_close : Z -> C W unit := socket_close.

(** A failure of [accept], [EINTR] included, ends the process. *)
Definition socket_accept_connection (server_fd : Z) : C W Z :=
  r ← sys (SAccept server_fd);
  (if r_val r =? -1 then
     perror "accept failed";; sys (SClose server_fd);; exit_ EXIT_FAILURE
   else mret tt);;
  out (ln "Accepted a new connection");;
  mret (r_val r).

Definition handle_connection (client_sockfd : Z) : C W unit := mret tt.

(** One turn of [while(!exit_flag)]. *)
Definition serve_turn (sockfd : Z) (_ : unit) : C W (unit + unit) :=
  flag ← sys SExitFlag;
  if negb (r_val flag =? 0) then mret (inr tt)
  else
    client_sockfd ← socket_accept_connection sockfd;
    handle_connection client_sockfd;;
    socket_close client_sockfd;;
    mret (inl tt).

Definition main (turns : nat) (argv : list string) : C W Z :=
  '(address, port) ← sockets_setsockopt_server.start_up argv;
  addr ← convert_address address;
  sockfd ← socket_create (ss_family addr) SOCK_STREAM 0;
  r ← sys (SSetsockopt sockfd SOL_SOCKET SO_REUSEADDR 1);
  (if r_val r =? -1 then error_exit "Setsockopt failed" else mret tt);;
  socket_bind sockfd addr port;;
  start_listening sockfd SOMAXCONN;;
  setup_signal_handler;;
  loop turns (serve_turn sockfd) tt;;
  socket_close sockfd;;
  mret EXIT_SUCCESS.
End Main.
End SetsockoptServer.

(** ** What they keep *)

(** The address a call passes on is the one the command line names, as
    [inet_pton] read it, and the port is a number of the command line. *)
Definition given_endpoint (args : list string) (t : list event) (b : list byte) : Prop :=
  exists family port address text r,
    endpoint b = Some (family, port, address) /\
    unsigned_in UINT16_MAX args port /\ given args text /\
    (SInetPton family text, r) ∈ calls t /\ r_val r = 1 /\ r_data r = address.

Lemma given_endpoint_mono args t t' b : given_endpoint args t b -> given_endpoint args (t ++ t') b.
Proof.
  intros (f & p & a & x & r & ? & ? & ? & ? & ?). exists f, p, a, x, r.
  rewrite calls_app, elem_of_app. tauto.
Qed.

(** [inet_pton] stores four bytes for [AF_INET], sixteen for [AF_INET6]. *)
Definition inet_lengths (W : Type) `{Kernel W} : Prop :=
  forall f text w r w', kcall (SInetPton f text) w = (r, w') -> r_val r = 1 ->
    f = AF_INET \/ f = AF_INET6 -> address_length f = Some (length (r_data r)).

Lemma unsigned_in_bounds max args v : unsigned_in max args v -> 0 <= v <= max.
Proof.
  intros (str & _ & Hd & ?). split; [|done].
  destruct Hd as [[_ ->]|(neg & m & _ & _ & ->)]; [done|].
  by apply Z.mod_pos_bound.
Qed.

Section Faith.
Context {W} `{Kernel W} (args : list string).
Implicit Types s : cstate W.

Local Abbreviation inv := (inv (given_endpoint args)).
Local Abbreviation ended := (ended (given_endpoint args)).

Lemma inv_plains open K s t e :
  Forall plain t -> inv open K s -> inv open K (CState e (trace s ++ t) (world s)).
Proof.
  intros Ht Hi. revert e. induction t as [|ev t IH] using rev_ind; intros e.
  - rewrite app_nil_r. by apply inv_errno.
  - apply Forall_app in Ht as [Ht He]. rewrite app_assoc.
    apply (inv_plain _ (given_endpoint_mono args) _ _ (CState e (trace s ++ t) (world s)));
      [by apply Forall_inv in He|by apply IH].
Qed.

(** The command line first: nothing is obtained, and what is printed is on
    [stderr]. *)
Lemma step_start {A B} open K (m : C W A) (G : A -> Prop) (f : A -> C W B) Q s :
  front m G -> inv open K s ->
  (forall a s', inv open K s' -> G a -> wlp (f a) Q ended s') ->
  wlp (m ≫= f) Q ended s.
Proof.
  intros Hm Hi HQ. apply wlp_bind. destruct (Hm s) as (t & Ht & Et & Ew & Hv).
  unfold wlp at 1. destruct (m s) as [o s'] eqn:Em. simpl in *.
  assert (inv open K s') as Hi'.
  { destruct s' as [e' t' w']. simpl in *. subst. apply inv_plains; [|done].
    eapply Forall_impl; [|exact Ht]. by intros [| | |]. }
  destruct o as [a|c|u|]; simpl in Hv; [by apply HQ|destruct Hv; by eapply inv_ended|done|done].
Qed.

(** What is known after [convert_address]. *)
Definition resolved (a : sockaddr) (t : list event) : Prop :=
  exists text r, given args text /\ (SInetPton (ss_family a) text, r) ∈ calls t /\
    r_val r = 1 /\ r_data r = ss_addr a /\
    address_length (ss_family a) = Some (length (ss_addr a)).

Lemma resolved_passes a port :
  unsigned_in UINT16_MAX args port -> passes (given_endpoint args) (resolved a) a port.
Proof.
  intros Hp t a' n (x & r & Hx & Hc & Hv & Hd & Hl) Ea.
  exists (ss_family a), port, (ss_addr a), x, r. split_and!; try done.
  apply endpoint_with_port; [|done|done].
  by apply unsigned_in_bounds in Hp.
Qed.

Lemma step_resolve {B} open K text (f : sockaddr -> C W B) Q s :
  inet_lengths W -> given args text -> inv open K s ->
  (forall a s', inv open (resolved a) s' -> wlp (f a) Q ended s') ->
  wlp (convert_address text ≫= f) Q ended s.
Proof.
  intros Hlen Ht Hi HQ. eapply step_convert; [apply given_endpoint_mono|exact Hi|].
  intros a r s1 Hi1 [Hc (w & w' & Ek)] Hv Ha Hf. apply HQ. eapply inv_learn; [exact Hi1|].
  exists text, r. rewrite Ha. split_and!; [done..|]. by eapply Hlen.
Qed.

Definition finished (dials : bool) (v : Z) (s : cstate W) : Prop :=
  (v = EXIT_SUCCESS \/ v = EXIT_FAILURE) /\
  addressed (given_endpoint args) (trace s) /\ one_at_a_time (trace s) /\
  (v = EXIT_SUCCESS -> obtained (trace s) ≡ₚ closed (trace s) /\
                       (dials = true -> reached (trace s))).

Lemma finish (dials : bool) K s :
  inv [] K s -> (dials = true -> forall t, K t -> reached t) ->
  wlp (mret EXIT_SUCCESS : C W Z) (finished dials) ended s.
Proof.
  intros [Ha Ho Hs (t0 & t1 & Et & Hk)] HK. apply wlp_ret. split_and!; [by left|done..|].
  intros _. split; [by rewrite Ho, app_nil_r|]. intros Hd. rewrite Et.
  by apply reached_app, HK.
Qed.

Lemma inv_start (w : W) : inv [] (fun _ => True) (start w).
Proof.
  split; simpl; [by intros ??? ?%elem_of_nil|done| |by exists [], []].
  intros t1 fd r t2 E. by destruct t1.
Qed.
End Faith.

(** One step of a [main]: the state it starts in is the one of the goal. *)
Ltac net_step :=
  match goal with
  | Hi : inv _ _ _ ?s |- wlp _ _ _ ?s =>
    first
    [ eapply step_socket_create; [apply given_endpoint_mono|exact Hi|intros ? ? ?]
    | eapply step_socket_close; [apply given_endpoint_mono|exact Hi|intros ? ?]
    | eapply step_shutdown; [apply given_endpoint_mono|exact Hi|intros ? ?]
    | eapply step_socket_bind;
        [apply given_endpoint_mono|by apply resolved_passes|exact Hi|intros ? ?]
    | eapply step_socket_connect;
        [apply given_endpoint_mono|by apply resolved_passes|exact Hi|intros ? ?]
    | eapply step_listen; [apply given_endpoint_mono|exact Hi|intros ? ?]
    | eapply step_signal_handler; [apply given_endpoint_mono|exact Hi|intros ? ?]
    | eapply step_out; [apply given_endpoint_mono|exact Hi|intros ? ?]
    | eapply step_check; [apply given_endpoint_mono|exact Hi|intros ?]
    | eapply step_perror; [apply given_endpoint_mono|exact Hi|intros ? ?]
    | eapply step_sys; [apply given_endpoint_mono|by intros|exact Hi|intros ? ? ? ?]
    | eapply finish; [exact Hi|done]
    | eapply step_exit; [exact Hi|by right]
    | eapply step_bail; [exact Hi|intros ?; by repeat net_step|intros ?] ]
  end.

Section Mains.
Context {W} `{Kernel W} (prog : string) (args : list string).
Hypothesis Hlen : inet_lengths W.

Definition faithful (dials : bool) (m : C W Z) : Prop :=
  forall w, wlp m (finished args dials) (ended (given_endpoint args)) (start w).

(** The common beginning: the command line, then the address. *)
Lemma begin_main {A} i P (su : C W A) (G : A -> Prop) (k : A -> C W Z) dials :
  network_programs !! i = Some P ->
  (well_behaved P -> front su G) ->
  (forall a s, inv (given_endpoint args) [] (fun _ => True) s -> G a ->
     wlp (k a) (finished args dials) (ended (given_endpoint args)) s) ->
  faithful dials (su ≫= k).
Proof.
  intros Hp Hsu Hk w. eapply step_start; [apply Hsu; by eapply network_program|apply inv_start|].
  done.
Qed.

(** The command line and the address. *)
Ltac net_begin i :=
  eapply (begin_main i);
    [done
    |let Hp := fresh in intros Hp;
     match goal with H : Kernel ?W, prog : string, args : list string |- _ =>
       apply (well_behaved_front _ W prog args Hp) end
    |].
Ltac net_resolve :=
  match goal with
  | Hi : inv _ _ _ ?s |- wlp _ _ _ ?s =>
      eapply step_resolve; [done|eassumption|exact Hi|intros ? ? ?]
  end.

Lemma bind_faithful : faithful true (BindMain.main (prog :: args)).
Proof using Hlen.
  net_begin 3%nat. intros [address port] s Hi [Ha Hp]. net_resolve. repeat net_step.
Qed.

Lemma tcp_client_faithful : faithful true (TcpClient.main (prog :: args)).
Proof using Hlen.
  net_begin 10%nat. intros [address port] s Hi [Ha Hp]. net_resolve. repeat net_step.
Qed.

Lemma setsockopt_client_faithful : faithful true (SetsockoptClient.main (prog :: args)).
Proof using Hlen.
  net_begin 8%nat. intros [address port] s Hi [Ha Hp]. net_resolve. repeat net_step.
Qed.

Lemma socket_faithful : faithful false (SocketMain.main (prog :: args)).
Proof using Hlen.
  net_begin 6%nat. intros [family type] s Hi _. repeat net_step.
Qed.

Lemma udp_server_faithful buffer : length buffer = 1025%nat ->
  faithful true (UdpServer.main buffer (prog :: args)).
Proof using Hlen.
  intros Hb. net_begin 13%nat. intros [address port] s Hi [Ha Hp]. net_resolve.
  do 4 net_step. cbv zeta.
  set (n := if _ <=? r_val r then _ else _).
  assert (0 <= n <= 1024) as Hn.
  { subst n. unfold UdpServer.LINE_LEN. destruct (Z.leb_spec (1024 + 1) (r_val r)); bools; lia. }
  apply wlp_bind. rewrite <- (Z2Nat.id n) by lia. apply wlp_array_set.
  { unfold overwrite. rewrite length_app, length_drop. lia. }
  repeat net_step.
Qed.

Lemma read_turn_keeps fd ch s : inv (given_endpoint args) [fd] reached s ->
  wlp (ConnectMain.read_turn fd ch) (fun r s' =>
    inv (given_endpoint args) [fd] reached s' /\
    match r with inr (Some v) => v = EXIT_FAILURE | _ => True end)
    (ended (given_endpoint args)) s.
Proof using.
  intros Hi. unfold ConnectMain.read_turn. net_step.
  destruct (r_val r =? 0); [by apply wlp_ret|].
  destruct (r_val r =? -1); [net_step; by apply wlp_ret|].
  net_step. by apply wlp_ret.
Qed.

Lemma connect_faithful turns ch : faithful true (ConnectMain.main turns ch (prog :: args)).
Proof using Hlen.
  net_begin 4%nat. intros [address port] s Hi [Ha Hp]. net_resolve. do 2 net_step.
  match goal with Hi : inv _ [?fd] reached _ |- _ =>
    apply wlp_bind, (wlp_mono _ (fun v s' => inv (given_endpoint args) [fd] reached s' /\
      match v with Some v => v = EXIT_FAILURE | _ => True end) _
      (ended (given_endpoint args))); [|intros [v|] s3 [Hi3 Hv]|done];
    [apply (wlp_loop _ (fun _ s' => inv (given_endpoint args) [fd] reached s')); [|exact Hi]|..]
  end.
  - intros c s1 Hi1. eapply wlp_mono; [by apply read_turn_keeps|..]; [|done].
    intros [c'|v] s2 [? ?]; done.
  - destruct Hi3. apply wlp_ret. subst. split_and!; [by right|done..].
  - repeat net_step.
Qed.

(** A body that keeps the account, run over a list. *)
Lemma for_each_keeps {A} fds (l : list A) (body : A -> C W unit) s :
  Forall (fun x => forall s, inv (given_endpoint args) fds reached s ->
    wlp (body x) (fun _ s' => inv (given_endpoint args) fds reached s')
      (ended (given_endpoint args)) s) l ->
  inv (given_endpoint args) fds reached s ->
  wlp (for_each l body) (fun _ s' => inv (given_endpoint args) fds reached s')
    (ended (given_endpoint args)) s.
Proof using.
  intros Hl. revert s. induction Hl as [|x l Hx Hl IH]; intros s Hi; [by apply wlp_ret|].
  apply wlp_bind. eapply wlp_mono; [by apply Hx| |done].
  intros ? s' Hi'. by apply IH.
Qed.

Ltac net_print :=
  intros; unfold Getsockopt.print_socket_opt_bool, Getsockopt.print_socket_opt_int,
    Getsockopt.print_socket_opt_timeval, Getsockopt.print_socket_opt_linger,
    Getsockopt.no_option;
  net_step; destruct (_ =? 0);
  [|try (apply step_errno; intros ?; destruct (_ || _)); try (apply step_errno; intros ?)];
  by apply inv_plain; [apply given_endpoint_mono|..].

Lemma getsockopt_faithful : faithful true (Getsockopt.main (prog :: args)).
Proof using Hlen.
  net_begin 7%nat. intros [address port] s Hi [Ha Hp]. net_resolve. do 2 net_step.
  match goal with Hi : inv _ [?fd] reached ?s |- _ =>
    apply wlp_bind, (wlp_mono _ (fun _ s' => inv (given_endpoint args) [fd] reached s') _
      (ended (given_endpoint args))); [|intros _ s3 Hi3|done] end.
  - apply for_each_keeps; [|done]. repeat constructor; net_print.
  - repeat net_step.
Qed.

(** The [convert_address] of the UDP client is that of the others, with the
    length. *)
Lemma udp_convert_same text s :
  UdpClient.convert_address text s =
  (a ← convert_address text;
   mret (a, if ss_family a =? AF_INET then sizeof_sockaddr_in else sizeof_sockaddr_in6)) s.
Proof.
  unfold UdpClient.convert_address, convert_address, mbind, C_bind.
  destruct (sys _ s) as [[r1|?|?|] s1]; [|done..]. destruct (r_val r1 =? 1); [done|].
  destruct (sys _ s1) as [[r2|?|?|] s2]; [|done..]. by destruct (r_val r2 =? 1).
Qed.

Lemma wlp_ext {A} (m m' : C W A) Q E s : m s = m' s -> wlp m' Q E s -> wlp m Q E s.
Proof. unfold wlp. by intros ->. Qed.

Lemma udp_client_faithful : faithful true (UdpClient.main (prog :: args)).
Proof using Hlen.
  net_begin 12%nat. intros [[address message] port] s Hi (Ha & _ & Hp).
  apply wlp_bind. eapply wlp_ext; [apply udp_convert_same|].
  net_resolve. apply wlp_ret. net_step. cbv zeta.
  match goal with
  | Hi : inv _ _ (resolved _ ?a) ?s |- _ =>
      eapply (step_addressed _ (given_endpoint_mono args) _ (resolved args a)); [done|intros t Ht|exact Hi|]
  end.
  - eapply resolved_passes; [exact Hp|exact Ht|].
    destruct Ht as (? & ? & _ & _ & _ & _ & Hl).
    unfold UdpClient.get_address_to_server, with_port.
    by apply address_length_cases in Hl as [[-> _]|[-> _]].
  - intros r s1 Hi1 Hr. apply wlp_bind. destruct (Z.eqb_spec (r_val r) (-1)) as [Hv|Hv].
    { apply (wlp_mono _ (fun _ _ => False) _ (ended (given_endpoint args)));
        [by repeat net_step|intros ? ? []|done]. }
    apply wlp_ret. eapply inv_learn in Hi1; [|exact (Hr Hv)]. repeat net_step.
Qed.

(** *** Servers *)

Lemma accept_keeps fd K s :
  inv (given_endpoint args) [fd] K s ->
  wlp (socket_accept_connection fd)
    (fun c s' => inv (given_endpoint args) (if c =? -1 then [fd] else [c; fd]) K s')
    (ended (given_endpoint args)) s.
Proof.
  intros Hi. apply wlp_ret_r. eapply step_accept_connection; [apply given_endpoint_mono|exact Hi|].
  intros c s' Hi'. by apply wlp_ret.
Qed.

Lemma listen_accept_faithful turns : faithful true (ListenAccept.main turns (prog :: args)).
Proof using Hlen.
  net_begin 5%nat. intros [[[address message] port] backlog] s Hi (Ha & _ & Hp & _).
  net_resolve. do 4 net_step.
  eapply step_accept_loop; [apply given_endpoint_mono|by apply accept_keeps| |eassumption|].
  - intros c s1 Hi1. apply wlp_bind.
    eapply wlp_mono; [eapply for_each_keeps; [|exact Hi1]| |done].
    + apply list.Forall_true. intros b s2 Hi2. repeat net_step. by apply wlp_ret.
    + intros [] s2 Hi2. apply wlp_ret_r. net_step. by apply wlp_ret.
  - intros s1 Hi1. repeat net_step.
Qed.

Lemma tcp_server_faithful turns : faithful true (TcpServer.main turns (prog :: args)).
Proof using Hlen.
  net_begin 11%nat. intros [address port] s Hi (Ha & Hp).
  net_resolve. do 4 net_step.
  eapply step_accept_loop; [apply given_endpoint_mono|by apply accept_keeps| |eassumption|].
  - intros c s1 Hi1. apply wlp_bind, wlp_ret. net_step. apply wlp_ret_r. net_step.
    by apply wlp_ret.
  - intros s1 Hi1. repeat net_step.
Qed.

(** The server for which every failure of [accept] is the end. *)
Lemma setsockopt_turn_keeps fd s : inv (given_endpoint args) [fd] reached s ->
  wlp (SetsockoptServer.serve_turn fd tt) (fun _ s' => inv (given_endpoint args) [fd] reached s')
    (ended (given_endpoint args)) s.
Proof.
  intros Hi. unfold SetsockoptServer.serve_turn. net_step.
  destruct (negb _); [by apply wlp_ret|].
  unfold SetsockoptServer.socket_accept_connection. apply wlp_bind.
  eapply step_accept; [apply given_endpoint_mono|eassumption|]. intros c s1 Hi1.
  apply wlp_bind. destruct (r_val c =? -1).
  - net_step. eapply step_close; [apply given_endpoint_mono|eassumption|]. intros ? s2 Hi2.
    eapply step_exit; [exact Hi2|by right].
  - apply wlp_ret. net_step. apply wlp_ret, wlp_bind, wlp_ret. net_step. by apply wlp_ret.
Qed.

Lemma setsockopt_server_faithful turns : faithful true (SetsockoptServer.main turns (prog :: args)).
Proof using Hlen.
  net_begin 9%nat. intros [address port] s Hi (Ha & Hp).
  net_resolve. do 6 net_step.
  match goal with Hi : inv _ [?fd] reached ?s |- wlp _ _ _ ?s =>
    apply wlp_bind, (wlp_mono _ (fun _ s' => inv (given_endpoint args) [fd] reached s') _
      (ended (given_endpoint args))); [|intros _ s3 Hi3; repeat net_step|done];
    apply (wlp_loop _ (fun _ s' => inv (given_endpoint args) [fd] reached s')); [|exact Hi] end.
  intros [] s1 Hi1. eapply wlp_mono; [by apply setsockopt_turn_keeps|by intros [] ?|done].
Qed.
End Mains.

(** ** The programs together *)

(** A program: its source, its [main] for a number of turns of its loop and
    with the uninitialised memory it starts from, whether it uses an address,
    whether it has a loop that waits for the other side. *)
Record net_program := NetProgram {
  np_source : string;
  np_main : forall W, Kernel W -> nat -> list byte -> list string -> C W Z;
  np_dials : bool;
  np_waits : bool;
}.

Definition net_programs : list net_program :=
  [ NetProgram "networking-functions/bind/main.c" (fun _ _ _ _ => BindMain.main) true false;
    NetProgram "networking-functions/connect/main.c"
      (fun _ _ turns junk => ConnectMain.main turns (hd NUL junk)) true true;
    NetProgram "networking-functions/socket/main.c" (fun _ _ _ _ => SocketMain.main) false false;
    NetProgram "networking-functions/listen-accept/main.c"
      (fun _ _ turns _ => ListenAccept.main turns) true true;
    NetProgram "tcp/shutdown/client.c" (fun _ _ _ _ => TcpClient.main) true false;
    NetProgram "tcp/shutdown/server.c" (fun _ _ turns _ => TcpServer.main turns) true true;
    NetProgram "sockets/setsockopt/client.c" (fun _ _ _ _ => SetsockoptClient.main) true false;
    NetProgram "sockets/setsockopt/server.c" (fun _ _ turns _ => SetsockoptServer.main turns) true true;
    NetProgram "sockets/getsockopt/main.c" (fun _ _ _ _ => Getsockopt.main) true false;
    NetProgram "udp/sendto-recvfrom/client.c" (fun _ _ _ _ => UdpClient.main) true false;
    NetProgram "udp/sendto-recvfrom/server.c" (fun _ _ _ junk => UdpServer.main junk) true false ].

Lemma main_fueled {W A} i P (su : C W A) (G : A -> Prop) (k : A -> C W Z) :
  network_programs !! i = Some P -> (well_behaved P -> front su G) ->
  (forall a, fueled (k a)) -> fueled (su ≫= k).
Proof.
  intros Hp Hsu Hk. apply fueled_bind; [|done].
  eapply front_fueled, Hsu. by eapply network_program.
Qed.

Ltac main_fuel i :=
  eapply (main_fueled i);
    [done
    |let Hp := fresh in intros Hp;
     match goal with prog : string, args : list string |- _ => apply (well_behaved_front _ _ prog args Hp) end
    |intros ?; repeat fueled_step].

(** C21: from the command line to the system.  Whatever the system does, each
    networking program exits with one of the two statuses and makes no error in
    memory; every address it passes to [bind], [connect] or [sendto] is, read as
    the network reads it, the address and the port of its command line; [accept]
    is called with no client open; and a program that returns [EXIT_SUCCESS] has
    used its address and closed what it opened.  Those that do not wait for a
    peer in a loop come to an end. *)
Theorem network_mains_use_their_address {W} `{Kernel W} (prog : string) (args : list string)
    (turns : nat) (junk : list byte) (w : W) :
  inet_lengths W -> length junk = 1025%nat ->
  Forall (fun P =>
    let m := np_main P W _ turns junk (prog :: args) in
    wlp m (finished args (np_dials P)) (ended (given_endpoint args)) (start w) /\
    (np_waits P = false -> fueled m)) net_programs.
Proof.
  intros Hlen Hj.
  repeat (constructor; [split; simpl; [|try (intros [=])]|]).
  - by apply bind_faithful.
  - main_fuel 3%nat.
  - by apply connect_faithful.
  - by apply socket_faithful.
  - main_fuel 6%nat.
  - by apply listen_accept_faithful.
  - by apply tcp_client_faithful.
  - main_fuel 10%nat.
  - by apply tcp_server_faithful.
  - by apply setsockopt_client_faithful.
  - main_fuel 8%nat.
  - by apply setsockopt_server_faithful.
  - by apply getsockopt_faithful.
  - main_fuel 7%nat.
  - by apply udp_client_faithful.
  - main_fuel 12%nat.
  - by apply udp_server_faithful.
  - main_fuel 13%nat.
  - constructor.
Qed.

(** A system in which [inet_pton] knows one address per family; other calls
    are answered from a list. *)
Record network := Network { replies : list sysret }.
#[export] Instance network_kernel : Kernel network := fun c w =>
  match c with
  | SInetPton f _ =>
      (sys_data 1 (if f =? AF_INET then (byte_of <$> [127; 0; 0; 1]) else replicate 16 NUL), w)
  | _ =>
      match replies w with
      | [] => (sys_fail EIO, w)
      | r :: rs => (r, Network rs)
      end
  end.

Lemma network_lengths : inet_lengths network.
Proof.
  intros f text w r w' E _ [-> | ->]; unfold kcall, network_kernel in E; simpl in E; by simplify_eq.
Qed.

(** [bind 127.0.0.1 8080]: the bytes of the structure passed to [bind]. *)
Definition bind_world : network :=
  Network [sys_ok 3; sys_data 0 (chars "127.0.0.1"); sys_ok 0; sys_ok 0].
Definition bind_run : outcome Z * cstate network :=
  BindMain.main ["bind"; "127.0.0.1"; "8080"] (start bind_world).

Lemma network_mains_use_their_address_witness :
  finished ["127.0.0.1"; "8080"] true EXIT_SUCCESS (snd bind_run) /\
  fst bind_run = Val EXIT_SUCCESS /\
  (SBind 3 (byte_of <$> [2; 0; 31; 144; 127; 0; 0; 1; 0; 0; 0; 0; 0; 0; 0; 0]), sys_ok 0)
    ∈ calls (trace (snd bind_run)).
Proof.
  pose proof (Forall_inv (network_mains_use_their_address "bind" ["127.0.0.1"; "8080"] 0
    (fresh 1025) bind_world network_lengths (length_replicate _ _))) as [Hb _].
  split_and!; [exact Hb|by vm_compute|].
  vm_compute. right; right; right; left.
Defined.

(** [handle_connection] writes one byte. *)
Lemma writes_byte {W} `{Kernel W} (fd : Z) `{!WriteProgress W fd} (c : byte) :
  writes fd (r ← write fd [c];
    (if r_val r =? -1 then error_exit "write" else mret tt);;
    sys (SSleep 1);; mret tt : C W unit) [c].
Proof.
  intros s. apply wp_bind, wp_sys. intros r w e Ek.
  destruct (write_progress _ [c] _ _ ltac:(done) Ek) as [Hr|Hr].
  - rewrite Hr. unfold wp. split; [done|]. exists []. split; [apply prefix_nil|].
    simpl. rewrite !written_snoc. simpl. rewrite Hr. by rewrite andb_false_r, !app_nil_r.
  - simpl in Hr. assert (r_val r = 1) as Hv by lia. rewrite Hv. simpl Z.eqb. cbv iota.
    apply wp_bind, wp_ret, wp_bind, wp_sys. intros r' w' e' _. apply wp_ret. simpl.
    rewrite !written_snoc. simpl. by rewrite Z.eqb_refl, Hv, app_nil_r.
Qed.

(** The message of [listen-accept].  A client that stays connected receives
    the bytes of the message, all and in order; if a write fails, the process
    ends after a prefix of them. *)
Theorem listen_accept_sends_message {W} `{Kernel W} (client_sockfd : Z)
    `{!WriteProgress W client_sockfd} (message : string) :
  writes client_sockfd (ListenAccept.handle_connection client_sockfd message : C W unit)
    (chars message).
Proof.
  unfold ListenAccept.handle_connection.
  replace (chars message) with (concat ((fun c => [c]) <$> chars message)) at 2.
  - apply writes_for_each, list.Forall_true. intros c. by apply writes_byte.
  - induction (chars message) as [|c l IH]; [done|]. rewrite fmap_cons. simpl. by f_equal.
Qed.

Lemma listen_accept_sends_message_witness :
  writes 4 (ListenAccept.handle_connection 4 "hello" : C pipe_world unit) (chars "hello") /\
  written 4 (trace (snd (ListenAccept.handle_connection 4 "hello" (start (PipeWorld [] 0))))) =
    chars "hello".
Proof. split; [apply listen_accept_sends_message; apply _|by vm_compute]. Defined.
