(* ===== verification/DomainSocket.v ===== *)
(** * Words over a domain socket

    Three clients read a file line by line and send each word as a length byte
    and its characters: [src/io-multiplexing/client.c], for the multiplexing
    servers, and the clients of [src/domain-socket/read-write] and
    [src/domain-socket/send-recv], whose servers take one client at a time and
    print what they read.  The clients are proved to send the frames of the
    words of their file, the servers to print the words of the frames they are
    sent; both hold when calls transfer all they are asked to, which is what
    these programs assume by ignoring the counts. *)

From S2P Require Import Prelude CMonad CString Words ArgParse OneOperand.
From S2P Require Import PipeIO Servers LineWords Sockets.

Definition LINE_LEN : nat := 1024.

(** ** The clients *)

Section Client.
Context {W} `{Kernel W}.

(** The common [main]: [contents] are the files of the machine, [start_up] the
    command line, [connect_to_server] gives a connected socket, [send_word] sends
    one word. *)
Section Main.
Context (start_up : list string -> C W string) (connect_to_server : C W Z).
Context (send_word : Z -> string -> Z -> C W unit).

(** The body of the inner loop. *)
Definition next_word (file sockfd : Z) (word : string) : C W unit :=
  let word_len := Z.of_nat (String.length word) in
  if UINT8_MAX <? word_len then
    eout (ln "Word exceeds maximum length");;
    sys (SFclose file);;
    sys (SClose sockfd);;
    exit_ EXIT_FAILURE
  else send_word sockfd word (to_unsigned 8 word_len).

Definition client_main (contents : string -> list byte) (argv : list string) : C W Z :=
  file_path ← start_up argv;
  f ← sys (SFopen file_path "re");
  (if r_val f =? -1 then error_exit "fopen" else mret tt);;
  sockfd ← connect_to_server;
  file_words LINE_LEN (contents file_path) (next_word (r_val f) sockfd);;
  sys (SFclose (r_val f));;
  socket_close sockfd;;
  mret EXIT_SUCCESS.
End Main.

(** [socket(AF_UNIX, SOCK_STREAM | SOCK_CLOEXEC, 0)] *)
Definition unix_socket : C W Z := socket_create AF_UNIX (Z.lor SOCK_STREAM SOCK_CLOEXEC) 0.

(** [connect], or close the socket and exit. *)
Definition connect_or_close (sockfd : Z) (addr : list byte) : C W unit :=
  r ← sys (SConnect sockfd addr);
  if r_val r =? -1 then
    perror "Connection failed";; sys (SClose sockfd);; exit_ EXIT_FAILURE
  else mret tt.
End Client.

(** [src/io-multiplexing/client.c] *)
Module MultiplexingClient.
Section Client.
Context {W} `{Kernel W}.

Definition MILLISECONDS_IN_NANOSECONDS : Z := 1000000.
Definition MIN_DELAY_MILLISECONDS : Z := 500.
Definition MAX_ADDITIONAL_NANOSECONDS : Z := 1000000000.

Definition send_word (sockfd : Z) (word : string) (length : Z) : C W unit :=
  out (ln ("Client: sending word of length " +:+ fmt_u length +:+ ": " +:+ word));;
  r ← send sockfd [byte_of length];
  die_when (r_val r <? 0) "Error writing word length to socket";;
  (if 0 <? length then
     r ← send sockfd (take (Z.to_nat length) (chars word));
     die_when (r_val r <? 0) "Error writing word to socket"
   else mret tt);;
  a ← sys (SArc4random MAX_ADDITIONAL_NANOSECONDS);
  sys (SNanosleep 0 (MIN_DELAY_MILLISECONDS * MILLISECONDS_IN_NANOSECONDS + r_val a));;
  mret tt.

Definition socket_create : C W Z := unix_socket.

Definition connect_to_server : C W Z :=
  sockfd ← socket_create;
  connect_or_close sockfd (setup_socket_address SOCKET_PATH);;
  out (ln ("Connected to " +:+ SOCKET_PATH));;
  mret sockfd.

Definition socket_close : Z -> C W unit := socket_close.

Definition main : (string -> list byte) -> list string -> C W Z :=
  client_main
    (start_with io_multiplexing_client.parse_arguments io_multiplexing_client.handle_arguments)
    connect_to_server send_word.
End Client.
End MultiplexingClient.

(** [src/domain-socket/read-write/client.c]: the results of [send] and [write]
    are ignored. *)
Module ReadWriteClient.
Section Client.
Context {W} `{Kernel W}.

Definition send_word (sockfd : Z) (word : string) (size : Z) : C W unit :=
  send sockfd [byte_of size];;
  write sockfd (chars word);;
  mret tt.

Definition socket_create : C W Z := unix_socket.

Definition connect_to_server (sockfd : Z) (addr : list byte) : C W Z :=
  connect_or_close sockfd addr;; mret sockfd.

Definition socket_close : Z -> C W unit := socket_close.

Definition main : (string -> list byte) -> list string -> C W Z :=
  client_main
    (start_with domain_socket_read_write_client.parse_arguments
       domain_socket_read_write_client.handle_arguments)
    (sockfd ← socket_create; connect_to_server sockfd (setup_socket_address SOCKET_PATH))
    send_word.
End Client.
End ReadWriteClient.

(** [src/domain-socket/send-recv/client.c] *)
Module SendRecvClient.
Section Client.
Context {W} `{Kernel W}.

Definition send_word (sockfd : Z) (word : string) (size : Z) : C W unit :=
  send sockfd [byte_of size];;
  send sockfd (chars word);;
  mret tt.

Definition socket_create : C W Z := unix_socket.

Definition connect_to_server (sockfd : Z) (addr : list byte) : C W Z :=
  connect_or_close sockfd addr;; mret sockfd.

Definition socket_close : Z -> C W unit := socket_close.

Definition main : (string -> list byte) -> list string -> C W Z :=
  client_main
    (start_with domain_socket_send_recv_client.parse_arguments
       domain_socket_send_recv_client.handle_arguments)
    (sockfd ← socket_create; connect_to_server sockfd (setup_socket_address SOCKET_PATH))
    send_word.
End Client.
End SendRecvClient.

(** ** The servers *)

Section Server.
Context {W} `{Kernel W}.

(** The functions the two servers have in common, [get] being [read] or
    [recv]. *)
Definition un_socket_bind (sockfd : Z) (path : string) : C W unit :=
  r ← sys (SBind sockfd (setup_socket_address path));
  (if r_val r =? -1 then error_exit "bind" else mret tt);;
  out (ln ("Bound to domain socket: " +:+ path)).

(** [getnameinfo] without a service. *)
Definition un_accept_connection (server_fd : Z) : C W Z :=
  set_errno 0;;
  r ← sys (SAccept server_fd);
  if r_val r =? -1 then
    e ← get_errno;
    (if negb (e =? EINTR) then perror "accept failed" else mret tt);;
    mret (-1)
  else
    n ← sys (SGetnameinfo (r_val r));
    (if r_val n =? 0 then
       out (ln ("Accepted a new connection from " +:+ host_text (r_data n)))
     else out (ln "Unable to get client information"));;
    mret (r_val r).

(** One turn of [while(read(client_sockfd, &size, 1) > 0)].  [size] keeps its
    value when nothing is stored; [word] is declared in the body: [junk] is what
    its 256 bytes hold at that turn. *)
Definition connection_turn (get : Z -> nat -> C W sysret) (client_sockfd : Z)
    (junk : nat -> list byte) (st : nat * Z) : C W (nat * Z + unit) :=
  let '(turn, size) := st in
  r ← get client_sockfd 1%nat;
  if r_val r <=? 0 then mret (inr tt)
  else
    let size := match r_data r with b :: _ => byte_val b | [] => size end in
    r ← get client_sockfd (Z.to_nat size);
    word ← array_set (overwrite (r_data r) (junk turn)) size NUL;
    out (ln ("Word Size: " +:+ fmt_u size +:+ ", Word: " +:+ text_of word));;
    mret (inl (S turn, size)).

Definition un_handle_connection (get : Z -> nat -> C W sysret) (fuel : nat)
    (junk : nat -> list byte) (client_sockfd : Z) : C W unit :=
  loop fuel (connection_turn get client_sockfd junk) (O, 0).

Definition un_main (get : Z -> nat -> C W sysret) (turns fuel : nat) (junk : nat -> list byte) :
    C W Z :=
  sys (SUnlink SOCKET_PATH);;
  sockfd ← unix_socket;
  un_socket_bind sockfd SOCKET_PATH;;
  start_listening sockfd SOMAXCONN;;
  setup_signal_handler;;
  loop turns (accept_turn (un_accept_connection sockfd) (fun client_sockfd =>
    un_handle_connection get fuel junk client_sockfd;;
    socket_close client_sockfd)) tt;;
  socket_close sockfd;;
  sys (SUnlink SOCKET_PATH);;
  mret EXIT_SUCCESS.
End Server.

(** [src/domain-socket/read-write/server.c] *)
Module ReadWriteServer.
Section Server.
Context {W} `{Kernel W}.
Definition setup_signal_handler : C W unit := setup_signal_handler.
Definition socket_create : C W Z := unix_socket.
Definition socket_bind : Z -> string -> C W unit := un_socket_bind.
Definition start_listening : Z -> Z -> C W unit := start_listening.
Definition socket_accept_connection : Z -> C W Z := un_accept_connection.
Definition handle_connection : nat -> (nat -> list byte) -> Z -> C W unit :=
  un_handle_connection read.
Definition socket_close : Z -> C W unit := socket_close.
Definition main : nat -> nat -> (nat -> list byte) -> C W Z := un_main read.
End Server.
End ReadWriteServer.

(** [src/domain-socket/send-recv/server.c] *)
Module SendRecvServer.
Section Server.
Context {W} `{Kernel W}.
Definition setup_signal_handler : C W unit := setup_signal_handler.
Definition socket_create : C W Z := unix_socket.
Definition socket_bind : Z -> string -> C W unit := un_socket_bind.
Definition start_listening : Z -> Z -> C W unit := start_listening.
Definition socket_accept_connection : Z -> C W Z := un_accept_connection.
Definition handle_connection : nat -> (nat -> list byte) -> Z -> C W unit :=
  un_handle_connection recv.
Definition socket_close : Z -> C W unit := socket_close.
Definition main : nat -> nat -> (nat -> list byte) -> C W Z := un_main recv.
End Server.
End SendRecvServer.

(** ** What the clients send *)

Definition frames (ws : list (list byte)) : list byte := concat (frame <$> ws).
Definition fits (w : list byte) : Prop := Z.of_nat (length w) <= UINT8_MAX.

(** Every call of [write] and [send] transfers all it is given. *)
Class WriteComplete (W : Type) `{Kernel W} :=
  write_complete : forall fd w d r w', kcall (SWrite fd d) w = (r, w') ->
    r_val r = Z.of_nat (length d).

(** A call failed. *)
Definition call_failed (t : list event) : Prop :=
  exists c r, (c, r) ∈ calls t /\ r_val r = -1.

Section ClientFacts.
Context {W} `{Kernel W} `{!WriteComplete W}.
Implicit Types s : cstate W.

(** The descriptors and what was written, before and after. *)
Definition says (fd : Z) (d : list byte) s s' : Prop :=
  quiet s s' /\ written fd (trace s') = written fd (trace s) ++ d.

Lemma says_trans fd d1 d2 s1 s2 s3 :
  says fd d1 s1 s2 -> says fd d2 s2 s3 -> says fd (d1 ++ d2) s1 s3.
Proof.
  intros [Hq1 H1] [Hq2 H2]. split; [by eapply quiet_trans|]. by rewrite H2, H1, app_assoc.
Qed.

Lemma says_event fd (s : cstate W) ev e (w : W) :
  neutral ev -> says fd (written_by fd ev) s (CState e (trace s ++ [ev]) w).
Proof. split; [by apply quiet_event|]. simpl. by rewrite written_snoc. Qed.

Lemma says_write fd d (s : cstate W) r w e w' :
  kcall (SWrite fd d) w = (r, w') ->
  says fd d s (CState e (trace s ++ [ESys (SWrite fd d) r]) w').
Proof.
  intros Ek. apply write_complete in Ek.
  replace d with (written_by fd (ESys (SWrite fd d) r)) at 1; [by apply says_event|].
  simpl. rewrite Z.eqb_refl, Ek. destruct d as [|b d]; [done|].
  rewrite (proj2 (Z.ltb_lt _ _)) by (simpl; lia). simpl andb. cbv iota.
  by rewrite Nat2Z.id, firstn_all.
Qed.

(** [m] returns a value with [Q] and has written [d]. *)
Definition speaks {A} (fd : Z) (m : C W A) (d : list byte) (Q : A -> Prop) : Prop :=
  forall s, wp m (fun a s' => says fd d s s' /\ Q a) (fun _ _ => False) s.

Lemma speaks_ret {A} fd (a : A) (Q : A -> Prop) : Q a -> speaks fd (mret a) [] Q.
Proof. intros HQ s. apply wp_ret. split; [|done]. split; [done|by rewrite app_nil_r]. Qed.

Lemma speaks_bind {A B} fd (m : C W A) (f : A -> C W B) d1 d2 P (Q : B -> Prop) :
  speaks fd m d1 P -> (forall a, P a -> speaks fd (f a) d2 Q) -> speaks fd (m ≫= f) (d1 ++ d2) Q.
Proof.
  intros Hm Hf s. apply wp_bind. eapply wp_mono; [apply Hm| |done]. simpl. intros a s1 [H1 HP].
  eapply wp_mono; [by apply (Hf a HP)| |done]. simpl. intros b s2 [H2 HQ].
  split; [by eapply says_trans|done].
Qed.

Lemma speaks_quietly {A B} fd (m : C W A) (f : A -> C W B) d P (Q : B -> Prop) :
  speaks fd m [] P -> (forall a, P a -> speaks fd (f a) d Q) -> speaks fd (m ≫= f) d Q.
Proof. apply (speaks_bind fd m f []). Qed.

Lemma speaks_out fd text : speaks fd (out text) [] (fun _ => True).
Proof. intros s. apply wp_emit. split; [by apply (says_event fd s (EOut text))|done]. Qed.

Lemma speaks_sys fd c : (forall r, neutral (ESys c r) /\ written_by fd (ESys c r) = []) ->
  speaks fd (sys c) [] (fun _ => True).
Proof.
  intros Hc s. apply wp_sys. intros r w e _. destruct (Hc r) as [Hn <-].
  split; [by apply says_event|done].
Qed.

Lemma speaks_write fd d :
  speaks fd (sys (SWrite fd d)) d (fun r => r_val r = Z.of_nat (length d)).
Proof using All.
  intros s. apply wp_sys. intros r w e Ek.
  split; [by eapply says_write|by eapply write_complete].
Qed.

Lemma speaks_pad {A} fd (m : C W A) d Q : speaks fd m (d ++ []) Q -> speaks fd m d Q.
Proof. by rewrite app_nil_r. Qed.

(** A sender writes the frame of its word. *)
Definition sends_frames (send_word : Z -> string -> Z -> C W unit) : Prop :=
  forall fd w, fits w ->
    speaks fd (send_word fd (of_chars w) (Z.of_nat (length w))) (frame w) (fun _ => True).

Lemma read_write_sends : sends_frames ReadWriteClient.send_word.
Proof using All.
  intros fd w Hw. unfold ReadWriteClient.send_word. rewrite chars_of_chars.
  apply (speaks_bind fd _ _ [_] w _ _ (speaks_write fd _)). intros _ _.
  eapply speaks_pad, speaks_bind; [apply speaks_write|]. intros _ _. by apply speaks_ret.
Qed.

Lemma send_recv_sends : sends_frames SendRecvClient.send_word.
Proof using All. exact read_write_sends. Qed.

Lemma speaks_check fd (b : bool) msg : b = false ->
  speaks fd (die_when b msg : C W unit) [] (fun _ => True).
Proof. intros ->. by apply speaks_ret. Qed.

Lemma multiplexing_sends : sends_frames MultiplexingClient.send_word.
Proof using All.
  intros fd w Hw. unfold MultiplexingClient.send_word. rewrite chars_of_chars, Nat2Z.id.
  rewrite firstn_all.
  apply (speaks_quietly fd _ _ _ (fun _ => True)); [apply speaks_out|intros _ _].
  eapply (speaks_bind fd _ _ [_] w); [apply speaks_write|]. intros r Hr. cbv beta in Hr.
  eapply speaks_quietly; [apply speaks_check, Z.ltb_ge; lia|intros _ _].
  eapply speaks_pad, (speaks_bind fd _ _ w [] (fun _ => True)).
  - destruct w as [|b w]; [by apply speaks_ret|].
    rewrite (proj2 (Z.ltb_lt _ _)) by (simpl; lia).
    eapply speaks_pad, speaks_bind; [apply speaks_write|]. intros r' Hr'. cbv beta in Hr'.
    apply speaks_check, Z.ltb_ge. lia.
  - intros _ _. do 2 (eapply speaks_quietly; [by apply speaks_sys|intros ? _]).
    by apply speaks_ret.
Qed.

(** *** The loop over the words *)

Lemma length_of_chars (l : list byte) : String.length (of_chars l) = length l.
Proof. induction l; simpl; by f_equal. Qed.

(** The words before the first that is too long have been sent, and the socket
    has been closed. *)
Definition stopped_at (fd : Z) (ws : list (list byte)) s s' : Prop :=
  exists ws1 w ws2, ws = ws1 ++ w :: ws2 /\ Forall fits ws1 /\ ~ fits w /\
    obtained (trace s') = obtained (trace s) /\ closed (trace s') = closed (trace s) ++ [fd] /\
    written fd (trace s') = written fd (trace s) ++ frames ws1.

Section Loop.
Context (send_word : Z -> string -> Z -> C W unit) (Hsend : sends_frames send_word).

Lemma next_word_fits file fd w : fits w ->
  speaks fd (next_word send_word file fd (of_chars w)) (frame w) (fun _ => True).
Proof using Hsend.
  intros Hw. unfold next_word. rewrite length_of_chars.
  unfold fits in Hw. rewrite (proj2 (Z.ltb_ge _ _)) by done.
  rewrite to_unsigned_small by (unfold UINT8_MAX in Hw; lia). by apply Hsend.
Qed.

Lemma next_word_long file fd w (Q : unit -> cstate W -> Prop) s : ~ fits w ->
  wp (next_word send_word file fd (of_chars w)) Q
    (fun c s' => c = EXIT_FAILURE /\ obtained (trace s') = obtained (trace s) /\
       closed (trace s') = closed (trace s) ++ [fd] /\
       written fd (trace s') = written fd (trace s)) s.
Proof.
  intros Hw. unfold next_word. rewrite length_of_chars. unfold fits in Hw.
  rewrite (proj2 (Z.ltb_lt _ _)) by lia.
  apply wp_bind, wp_emit, wp_bind, wp_sys. intros r1 w1 e1 _.
  apply wp_bind, wp_sys. intros r2 w2 e2 _. apply wp_exit. simpl.
  rewrite !obtained_app, !closed_app, !written_snoc. simpl. by rewrite !app_nil_r.
Qed.

Lemma words_loop file fd ws s :
  wp (for_each ws (fun w => next_word send_word file fd (of_chars w)))
    (fun _ s' => Forall fits ws /\ says fd (frames ws) s s')
    (fun c s' => c = EXIT_FAILURE /\ stopped_at fd ws s s') s.
Proof using Hsend.
  revert s. induction ws as [|w ws IH]; intros s; cbn [for_each].
  { apply wp_ret. split; [done|]. split; [done|]. by rewrite app_nil_r. }
  apply wp_bind. destruct (decide (Z.of_nat (length w) <= UINT8_MAX)) as [Hw|Hw].
  - eapply wp_mono; [by apply next_word_fits| |done]. intros [] s1 [H1 _].
    eapply wp_mono; [apply IH|..]; simpl.
    + intros [] s2 [Hf H2]. split; [by constructor|]. by eapply says_trans.
    + intros c s2 (-> & ws1 & w' & ws2 & -> & Hf & Hl & Ho & Hc & Hwr). split; [done|].
      destruct H1 as [[Ho1 Hc1] Hw1].
      exists (w :: ws1), w', ws2. split_and!; [done|by constructor|done|by rewrite Ho, Ho1
        |by rewrite Hc, Hc1|].
      rewrite Hwr, Hw1, <- app_assoc. done.
  - eapply wp_mono; [by apply (next_word_long file fd w (fun _ _ => False))|by intros|]. simpl.
    intros c s1 (-> & Ho & Hc & Hwr). split; [done|]. exists [], w, ws.
    split_and!; try done. by rewrite Hwr, app_nil_r.
Qed.
End Loop.

(** *** Connecting *)

(** A connected socket and nothing said; or a failed call, and nothing open. *)
Definition connects (m : C W Z) : Prop :=
  forall s, wp m
    (fun fd s' => obtained (trace s') = obtained (trace s) ++ [fd] /\
       closed (trace s') = closed (trace s) /\
       forall fd', written fd' (trace s') = written fd' (trace s))
    (fun c s' => c = EXIT_FAILURE /\ call_failed (trace s') /\
       exists fds, obtained (trace s') = obtained (trace s) ++ fds /\
         closed (trace s') = closed (trace s) ++ fds) s.

Lemma call_failed_event t c r : r_val r = -1 -> call_failed (t ++ [ESys c r]).
Proof.
  intros Hr. exists c, r. rewrite calls_app, elem_of_app. split; [right; by left|done].
Qed.

Lemma call_failed_app t1 t2 : call_failed t1 -> call_failed (t1 ++ t2).
Proof. intros (c & r & Hc & Hr). exists c, r. rewrite calls_app, elem_of_app. auto. Qed.

Lemma unix_connects (m : Z -> C W Z) :
  (forall fd s, wp (m fd)
     (fun fd' s' => fd' = fd /\ quiet s s' /\
        forall fd', written fd' (trace s') = written fd' (trace s))
     (fun c s' => c = EXIT_FAILURE /\ call_failed (trace s') /\
        obtained (trace s') = obtained (trace s) /\
        closed (trace s') = closed (trace s) ++ [fd]) s) ->
  connects (fd ← unix_socket; m fd).
Proof.
  intros Hm s. apply wp_bind. unfold unix_socket, socket_create.
  apply wp_bind, wp_sys. intros r w e _. destruct (Z.eqb_spec (r_val r) (-1)) as [Hr|Hr].
  - unfold wp, error_exit. cstep. split; [done|]. split.
    + by apply call_failed_app, call_failed_event.
    + exists []. rewrite !obtained_app, !closed_app. simpl. rewrite Hr. simpl.
      by rewrite !app_nil_r.
  - apply wp_ret. eapply wp_mono; [apply Hm|..]; simpl.
    + intros fd s' (-> & [Ho Hc] & Hw). rewrite Ho, Hc. simpl.
      rewrite obtained_app, closed_app. simpl.
      rewrite (proj2 (Z.eqb_neq _ _)) by done. rewrite app_nil_r. split_and!; [done..|].
      intros fd'. rewrite Hw. simpl. by rewrite written_snoc, app_nil_r.
    + intros c s' (-> & Hf & Ho & Hc). split_and!; [done..|]. exists [r_val r].
      rewrite Ho, Hc. simpl. rewrite obtained_app, closed_app. simpl.
      by rewrite (proj2 (Z.eqb_neq _ _)), app_nil_r by done.
Qed.

Lemma connect_or_close_spec fd addr s :
  wp (connect_or_close fd addr)
    (fun _ s' => quiet s s' /\ forall fd', written fd' (trace s') = written fd' (trace s))
    (fun c s' => c = EXIT_FAILURE /\ call_failed (trace s') /\
       obtained (trace s') = obtained (trace s) /\
       closed (trace s') = closed (trace s) ++ [fd]) s.
Proof.
  unfold connect_or_close. apply wp_bind, wp_sys. intros r w e _.
  destruct (Z.eqb_spec (r_val r) (-1)) as [Hr|Hr].
  - apply wp_bind. unfold wp at 1, perror, mbind, C_bind, get_errno, emit.
    apply wp_bind, wp_sys. intros r' w' e' _. apply wp_exit. simpl. split_and!; [done|..].
    + by do 2 apply call_failed_app; apply call_failed_event.
    + rewrite !obtained_app. simpl. by rewrite !app_nil_r.
    + rewrite !closed_app. simpl. by rewrite !app_nil_r.
  - apply wp_ret. split; [by apply quiet_event|]. intros fd'. simpl.
    by rewrite written_snoc, app_nil_r.
Qed.

Lemma domain_connects :
  connects (fd ← unix_socket; connect_or_close fd (setup_socket_address SOCKET_PATH);; mret fd).
Proof.
  apply unix_connects. intros fd s. apply wp_bind.
  eapply wp_mono; [apply connect_or_close_spec| |done]. simpl. intros [] s' [Hq Hw].
  by apply wp_ret.
Qed.

Lemma multiplexing_connects : connects MultiplexingClient.connect_to_server.
Proof.
  apply unix_connects. intros fd s. apply wp_bind.
  eapply wp_mono; [apply connect_or_close_spec| |done]. simpl. intros [] s' [Hq Hw].
  apply wp_bind, wp_emit, wp_ret. split_and!; [done| |].
  - eapply quiet_trans; [exact Hq|by apply quiet_event].
  - intros fd'. simpl. by rewrite written_snoc, Hw, app_nil_r.
Qed.

(** *** From the command line to the end *)

(** The file has been sent: one socket, closed, and the frames of the words. *)
Definition file_sent (ws : list (list byte)) (v : Z) s : Prop :=
  v = EXIT_SUCCESS /\ Forall fits ws /\
  exists fd, obtained (trace s) = [fd] /\ closed (trace s) = [fd] /\
    written fd (trace s) = frames ws.

(** Or not: everything is closed, and the reason is a call that failed or a
    word that is too long, the words before it having been sent. *)
Definition file_not_sent (ws : list (list byte)) (code : Z) s : Prop :=
  code = EXIT_FAILURE /\ closed (trace s) = obtained (trace s) /\
  (call_failed (trace s) \/
   exists fd ws1 w ws2, ws = ws1 ++ w :: ws2 /\ Forall fits ws1 /\ ~ fits w /\
     obtained (trace s) = [fd] /\ written fd (trace s) = frames ws1).

Lemma client_main_sends (start_up : forall W, list string -> C W string) connect send_word
    contents prog args path (w : W) :
  takes_one_operand start_up -> connects connect -> sends_frames send_word ->
  help_reading args = Operands [path] ->
  let ws := handed_over LINE_LEN (contents path) in
  wp (client_main (start_up W) connect send_word contents (prog :: args))
    (file_sent ws) (file_not_sent ws) (start w).
Proof.
  intros Hstart Hconn Hsend Hargs ws. unfold client_main.
  specialize (Hstart W prog args (start w)). rewrite Hargs in Hstart.
  apply wp_bind. unfold wp at 1. rewrite Hstart.
  apply wp_bind, wp_sys. intros f w1 e1 _. simpl.
  destruct (Z.eqb_spec (r_val f) (-1)) as [Hf|Hf].
  { unfold wp, error_exit. cstep. split_and!; [done..|]. left.
    by apply (call_failed_app [_]), (call_failed_event []). }
  apply wp_bind, wp_ret, wp_bind. eapply wp_mono; [apply Hconn|..]; simpl.
  2: { intros c s1 (-> & Hfail & fds & Ho & Hc). split_and!; [done|by rewrite Ho, Hc|by left]. }
  intros fd s1 (Ho1 & Hc1 & Hw1). apply wp_bind.
  unfold wp at 1. rewrite file_words_handed by (unfold LINE_LEN; lia).
  change (wp (for_each ws (fun w => next_word send_word (r_val f) fd (of_chars w)))
    (fun _ s' => wp (sys (SFclose (r_val f));; socket_close fd;; mret EXIT_SUCCESS)
       (file_sent ws) (file_not_sent ws) s') (file_not_sent ws) s1).
  eapply wp_mono; [by apply words_loop|..]; simpl.
  - intros [] s2 [Hfits [[Ho2 Hc2] Hw2]]. apply wp_bind, wp_sys. intros r3 w3 e3 _.
    apply wp_bind. unfold socket_close. apply wp_bind, wp_sys. intros r4 w4 e4 _.
    destruct (Z.eqb_spec (r_val r4) (-1)) as [Hr|Hr].
    + unfold wp, error_exit. cstep. split_and!; [done| |left].
      * simpl. rewrite !obtained_app, !closed_app, Ho2, Hc2, Ho1, Hc1. done.
      * by apply call_failed_app, call_failed_event.
    + do 2 apply wp_ret. split_and!; [done..|]. exists fd. simpl.
      rewrite !obtained_app, !closed_app, !written_snoc, Ho2, Hc2, Hw2, Ho1, Hc1, Hw1. simpl.
      by rewrite !app_nil_r.
  - intros c s2 (-> & ws1 & w' & ws2 & Ews & Hfits & Hl & Ho2 & Hc2 & Hw2).
    split_and!; [done|by rewrite Ho2, Hc2, Ho1, Hc1|]. right.
    exists fd, ws1, w', ws2. rewrite Ho2, Hw2, Ho1, Hw1. done.
Qed.
End ClientFacts.

(** ** What the servers print *)

Definition printed_line (w : list byte) : string :=
  ln ("Word Size: " +:+ fmt_u (Z.of_nat (length w)) +:+ ", Word: " +:+ text_of (w ++ [NUL])).

Definition printed (ws : list (list byte)) : string :=
  fold_right (fun w t => printed_line w +:+ t) "" ws.

(** A stream from which every call reads all that is asked for and there. *)
Class FullSource (W : Type) `{Kernel W} (fd : Z) := {
  arriving : W -> list byte;
  full_read : forall w n r w', kcall (SRead fd n) w = (r, w') ->
    r_data r = take n (arriving w) /\ r_val r = Z.of_nat (length (r_data r)) /\
    arriving w' = drop n (arriving w);
}.

Section ServerFacts.
Context {W} `{Kernel W} (fd : Z) `{!FullSource W fd}.
Context (junk : nat -> list byte) (Hjunk : forall n, length (junk n) = 256%nat).
Implicit Types s : cstate W.

Lemma connection_turn_word turn size w rest s :
  fits w -> arriving (world s) = frame w ++ rest ->
  wp (connection_turn read fd junk (turn, size))
    (fun r s' => r = inl (S turn, Z.of_nat (length w)) /\ arriving (world s') = rest /\
       stdout_of (trace s') = stdout_of (trace s) +:+ printed_line w) (fun _ _ => False) s.
Proof using Hjunk.
  intros Hw Hs. unfold fits, UINT8_MAX in Hw. unfold connection_turn, read.
  apply wp_bind, wp_sys. intros r1 w1 e1 E1.
  apply full_read in E1 as (Hd1 & Hv1 & Hs1). rewrite Hs in Hd1, Hs1. simpl in Hd1, Hs1.
  rewrite Hv1, Hd1. simpl Z.leb. cbv iota. cbv zeta.
  rewrite byte_val_len, Nat2Z.id by lia.
  apply wp_bind, wp_sys. intros r2 w2 e2 E2. simpl in E2.
  apply full_read in E2 as (Hd2 & Hv2 & Hs2). rewrite Hs1 in Hd2, Hs2.
  rewrite ?drop_0, take_app_length in Hd2. rewrite ?drop_0, drop_app_length in Hs2.
  rewrite Hd2. apply wp_bind. unfold wp at 1.
  rewrite array_set_ok by (unfold overwrite; rewrite length_app, length_drop, Hjunk; lia).
  apply wp_bind, wp_emit, wp_ret. split_and!; [done..|].
  simpl. rewrite !stdout_of_app. simpl. rewrite !string_app_nil_r. f_equal.
  unfold printed_line, text_of. do 5 f_equal.
  rewrite (cstring_take_nul _ (length w)).
  - do 2 f_equal. rewrite take_insert_ge by lia. unfold overwrite. by rewrite take_app_length.
  - apply list_lookup_insert_eq. unfold overwrite. rewrite length_app, length_drop, Hjunk. lia.
Qed.

Lemma connection_turn_end turn size s :
  arriving (world s) = [] ->
  wp (connection_turn read fd junk (turn, size))
    (fun r s' => r = inr tt /\ arriving (world s') = [] /\
       stdout_of (trace s') = stdout_of (trace s)) (fun _ _ => False) s.
Proof using.
  intros Hs. unfold connection_turn, read. apply wp_bind, wp_sys. intros r1 w1 e1 E1.
  apply full_read in E1 as (Hd1 & Hv1 & Hs1). rewrite Hs in Hd1, Hs1. simpl in Hd1, Hs1.
  rewrite Hv1, Hd1. apply wp_ret. split_and!; [done..|]. simpl.
  rewrite stdout_of_app. simpl. by rewrite string_app_nil_r.
Qed.

Lemma connection_prints fuel turn size ws s :
  Forall fits ws -> (length ws < fuel)%nat -> arriving (world s) = frames ws ->
  wp (loop fuel (connection_turn read fd junk) (turn, size))
    (fun _ s' => arriving (world s') = [] /\
       stdout_of (trace s') = stdout_of (trace s) +:+ printed ws) (fun _ _ => False) s.
Proof using Hjunk.
  intros Hws. revert fuel turn size s.
  induction Hws as [|w ws Hw Hws IH]; intros fuel turn size s Hf Hs;
    (destruct fuel as [|fuel]; [simpl in Hf; lia|]); cbn [loop]; apply wp_bind.
  - eapply wp_mono; [by apply connection_turn_end| |done]. simpl. intros r s1 (-> & Ha & Ho).
    apply wp_ret. by rewrite string_app_nil_r.
  - eapply wp_mono; [by apply (connection_turn_word _ _ w (frames ws))| |done]. simpl.
    intros r s1 (-> & Ha & Ho). eapply wp_mono; [apply IH; [simpl in Hf; lia|done]| |done].
    simpl. intros _ s2 [Ha2 Ho2]. split; [done|]. by rewrite Ho2, Ho, <- string_app_assoc.
Qed.
End ServerFacts.

(** *** The main loop *)

Section UnServer.
Context {W} `{Kernel W}.
Context (junk : nat -> list byte) (Hjunk : forall n, length (junk n) = 256%nat).
Implicit Types s : cstate W.

(** No condition on addresses here. *)
Definition any_address (t : list event) (b : list byte) : Prop := True.
Lemma any_address_mono t t' b : any_address t b -> any_address (t ++ t') b.
Proof. done. Qed.

Ltac un_step :=
  match goal with
  | Hi : inv _ _ _ ?s |- wlp _ _ _ ?s =>
    first
    [ eapply step_socket_create; [apply any_address_mono|exact Hi|intros ? ? ?]
    | eapply step_socket_close; [apply any_address_mono|exact Hi|intros ? ?]
    | eapply step_listen; [apply any_address_mono|exact Hi|intros ? ?]
    | eapply step_signal_handler; [apply any_address_mono|exact Hi|intros ? ?]
    | eapply step_out; [apply any_address_mono|exact Hi|intros ? ?]
    | eapply step_check; [apply any_address_mono|exact Hi|intros ?]
    | eapply step_perror; [apply any_address_mono|exact Hi|intros ? ?]
    | eapply step_set_errno; [exact Hi|intros ? ?]
    | eapply step_sys; [apply any_address_mono|by intros|exact Hi|intros ? ? ? ?] ]
  end.

Lemma connection_keeps fd fuel open K s :
  inv any_address open K s ->
  wlp (un_handle_connection read fuel junk fd) (fun _ s' => inv any_address open K s')
    (ended any_address) s.
Proof using Hjunk.
  intros Hi. unfold un_handle_connection.
  apply (wlp_loop _ (fun st s' => 0 <= snd st <= 255 /\ inv any_address open K s')); [|done].
  intros [turn size] s1 [Hsize Hi1]. simpl in Hsize. unfold connection_turn, read. un_step.
  destruct (r_val r <=? 0); [by apply wlp_ret|]. cbv zeta.
  set (size' := match r_data r with [] => size | b :: _ => byte_val b end).
  assert (0 <= size' <= 255) as Hs'.
  { subst size'. destruct (r_data r) as [|b ?]; [done|]. pose proof (byte_val_range b). lia. }
  clearbody size'. destruct (Z_of_nat_complete size') as [k ->]; [lia|].
  un_step. apply wlp_bind, wlp_array_set.
  { unfold overwrite. rewrite length_app, length_drop, Hjunk. lia. }
  un_step. by apply wlp_ret.
Qed.

Lemma un_accept_keeps fd K s :
  inv any_address [fd] K s ->
  wlp (un_accept_connection fd)
    (fun c s' => inv any_address (if c =? -1 then [fd] else [c; fd]) K s')
    (ended any_address) s.
Proof.
  intros Hi. unfold un_accept_connection. un_step.
  eapply step_accept; [apply any_address_mono|eassumption|]. intros r s2 Hi2.
  destruct (r_val r =? -1) eqn:Hr.
  - eapply step_errno. intros e. apply wlp_bind. destruct (negb _).
    + unfold perror. eapply step_errno. intros e'. apply wlp_ret. by apply inv_plain.
    + by do 2 apply wlp_ret.
  - un_step. apply wlp_bind. destruct (r_val r0 =? 0); apply wlp_ret; rewrite Hr; by apply inv_plain.
Qed.

Lemma un_main_closes turns fuel (w : W) :
  wlp (un_main read turns fuel junk)
    (fun v s => v = EXIT_SUCCESS /\ obtained (trace s) ≡ₚ closed (trace s) /\
       one_at_a_time (trace s))
    (ended any_address) (start w).
Proof using Hjunk.
  assert (inv any_address [] (fun _ => True) (start w)) as Hi.
  { split; simpl; [by intros ??? ?%elem_of_nil|done| |by exists [], []].
    intros t1 fd r t2 E. by destruct t1. }
  unfold un_main. un_step. un_step.
  unfold un_socket_bind. apply wlp_bind.
  eapply (step_addressed _ any_address_mono); [done|done|eassumption|]. intros r1 s1 Hi1 _.
  un_step. apply wlp_ret_r. un_step. apply wlp_ret. un_step. un_step.
  eapply step_accept_loop; [apply any_address_mono|by apply un_accept_keeps| |eassumption|].
  - intros c s2 Hi2. apply wlp_bind. eapply wlp_mono; [by apply connection_keeps| |done].
    intros [] s3 Hi3. apply wlp_ret_r. un_step. by apply wlp_ret.
  - intros s2 Hi2. un_step. un_step. apply wlp_ret.
    match goal with Hi : inv _ [] _ _ |- _ => destruct Hi as [_ Ho Hs _] end.
    split_and!; [done|by rewrite Ho, app_nil_r|done].
Qed.
End UnServer.

(** ** Properties *)


(** A wire that takes and gives all that is asked for. *)
Record wire := Wire { on_wire : list byte }.
#[export] Instance wire_kernel : Kernel wire := fun c w =>
  match c with
  | SSocket _ _ _ => (sys_ok 3, w)
  | SWrite _ d => (sys_ok (Z.of_nat (length d)), w)
  | SRead _ n =>
      let d := take n (on_wire w) in
      (sys_data (Z.of_nat (length d)) d, Wire (drop n (on_wire w)))
  | _ => (sys_ok 0, w)
  end.

#[export] Instance wire_complete : WriteComplete wire.
Proof. intros fd w d r w' E. unfold kcall, wire_kernel in E. by simplify_eq. Qed.

#[export] Instance wire_source fd : FullSource wire fd.
Proof.
  refine {| arriving := on_wire |}. intros w n r w' E. unfold kcall, wire_kernel in E.
  by simplify_eq.
Defined.

Definition poem : list byte := chars ("the old pond" +:+ nl +:+ "a frog  jumps in").
Definition one_file : string -> list byte := fun _ => poem.
Definition poem_client : outcome Z * cstate wire :=
  ReadWriteClient.main one_file ["client"; "poem"] (start (Wire [])).

Lemma poem_good : (NUL ∉ poem) /\ cut_free (chunks LINE_LEN poem) = true.
Proof.
  split; [|by vm_compute]. intros Hn%list_elem_of_In.
  assert (existsb (Ascii.eqb NUL) poem = true) as E; [|by vm_compute in E].
  apply existsb_exists. exists NUL. split; [done|]. apply Ascii.eqb_refl.
Qed.



Definition garbage (n : nat) : list byte := fresh 256.
Definition poem_server : outcome unit * cstate wire :=
  ReadWriteServer.handle_connection 10 garbage 4
    (start (Wire (written 3 (trace (snd poem_client))))).


(** The two domain socket servers.  Whatever clients and system do, [main]
    stores nothing outside its array; it accepts only when no client is open, and
    when it returns it has closed every descriptor it obtained. *)
Theorem domain_servers_close_everything {W} `{Kernel W} (turns fuel : nat)
    (junk : nat -> list byte) (w : W) :
  (forall n, length (junk n) = 256%nat) ->
  Forall (fun main : nat -> nat -> (nat -> list byte) -> C W Z =>
    wlp (main turns fuel junk)
      (fun v s => v = EXIT_SUCCESS /\ obtained (trace s) ≡ₚ closed (trace s) /\
         one_at_a_time (trace s))
      (fun code s => (code = EXIT_SUCCESS \/ code = EXIT_FAILURE) /\ one_at_a_time (trace s))
      (start w))
    [ReadWriteServer.main; SendRecvServer.main].
Proof.
  intros Hj.
  assert (forall main : C W Z, main = un_main read turns fuel junk ->
    wlp main (fun v s => v = EXIT_SUCCESS /\ obtained (trace s) ≡ₚ closed (trace s) /\
         one_at_a_time (trace s))
      (fun code s => (code = EXIT_SUCCESS \/ code = EXIT_FAILURE) /\ one_at_a_time (trace s))
      (start w)) as Hm.
  { intros main ->. eapply wlp_mono; [by apply un_main_closes|done|].
    by intros c s (? & _ & ?). }
  repeat constructor; by apply Hm.
Qed.

(** A client sends "hi" and leaves, then SIGINT arrives. *)
Definition one_visitor : playback :=
  Playback [sys_ok 0; sys_ok 3; sys_ok 0; sys_ok 0; sys_ok 0;
            sys_ok 0; sys_ok 5; sys_ok 1;
            sys_data 1 [byte_of 2]; sys_data 2 ["h"; "i"]%char; sys_ok 0; sys_ok 0;
            sys_ok 1; sys_ok 0; sys_ok 0].
Definition visit : outcome Z * cstate playback :=
  ReadWriteServer.main 9 9 garbage (start one_visitor).

Lemma domain_servers_close_everything_witness :
  fst visit = Val EXIT_SUCCESS /\ closed (trace (snd visit)) = [5; 3] /\
  obtained (trace (snd visit)) ≡ₚ closed (trace (snd visit)).
Proof.
  split_and!; [by vm_compute..|].
  pose proof (Forall_inv (domain_servers_close_everything 9 9 garbage one_visitor
    (fun n => length_replicate 256 _))) as Hm.
  refine (proj1 (proj2 (wlp_run _ _ _ _ EXIT_SUCCESS _ Hm _))).
  vm_compute. reflexivity.
Defined.
