(* ===== verification/Multiplex.v ===== *)
(** * What the multiplexing servers show of each client

    [src/io-multiplexing/poll/main.c] and [src/io-multiplexing/select/main.c] read
    from many clients in turn.  This file follows the bytes: the session of a
    descriptor is the part of a trace since it was accepted, [complete] the words
    whose frames have arrived in it, [shown] the lines printed for it.  Both servers
    show exactly the complete words of every session, whatever the other clients do;
    with the client of src/io-multiplexing at the other end these are the words of
    its file. *)

From S2P Require Import Prelude CMonad CString Getopt ArgParse Words PipeIO Servers.
From S2P Require Import PollServer SelectServer OneOperand LineWords Sockets DomainSocket.

(** ** Sessions, bytes and lines *)

(** [e] begins or ends the use of descriptor [c]. *)
Definition switches (c : Z) (e : event) : bool :=
  match e with
  | ESys (SAccept _) r => r_val r =? c
  | ESys (SClose fd) _ => fd =? c
  | _ => false
  end.

(** What happened since then. *)
Definition session (c : Z) (t : list event) : list event :=
  foldl (fun l e => if switches c e then [] else l ++ [e]) [] t.

(** The bytes read from [c]. *)
Fixpoint received (c : Z) (t : list event) : list byte :=
  match t with
  | [] => []
  | ESys (SRead fd _) r :: t =>
      if (fd =? c) && (0 <? r_val r) then r_data r ++ received c t else received c t
  | _ :: t => received c t
  end.

Definition line_head (c : Z) : string := "Received word from client " +:+ fmt_d c +:+ ": ".

(** The line printed for a word in the buffer, and for a word of a text. *)
Definition received_line (c : Z) (w : list byte) : string :=
  ln (line_head c +:+ of_chars (cstring (w ++ [NUL]))).
Definition word_line (c : Z) (w : list byte) : string := ln (line_head c +:+ of_chars w).

Definition is_line_of (c : Z) (s : string) : bool := String.prefix (line_head c) s.

(** The lines printed for [c]. *)
Fixpoint shown (c : Z) (t : list event) : list string :=
  match t with
  | [] => []
  | EOut s :: t => if is_line_of c s then s :: shown c t else shown c t
  | _ :: t => shown c t
  end.

(** The words of a stream of frames, and how many bytes of the last frame are
    missing. *)
Definition decoder : Type := list (list byte) * option (nat * list byte).

Definition feed (d : decoder) (b : byte) : decoder :=
  let '(ws, st) := d in
  match st with
  | None =>
      if byte_val b =? 0 then (ws ++ [[]], None) else (ws, Some (Z.to_nat (byte_val b), []))
  | Some (n, part) =>
      if (n =? 1)%nat then (ws ++ [part ++ [b]], None) else (ws, Some ((n - 1)%nat, part ++ [b]))
  end.

Definition decoded (l : list byte) : decoder := foldl feed ([], None) l.
Definition complete (l : list byte) : list (list byte) := fst (decoded l).

(** The lines of [c] in its last session are its complete words. *)
Definition delivered (c : Z) (t : list event) : Prop :=
  shown c (session c t) = received_line c <$> complete (received c (session c t)).

(** Nothing, or the call that ends the session of [c], comes next. *)
Definition session_end (c : Z) (q : list event) : Prop :=
  q = [] \/ exists r q', q = ESys (SClose c) r :: q'.

(** [read] gives as many bytes as it says, at most what was asked for. *)
Definition honest_reads (W : Type) `{Kernel W} : Prop :=
  forall fd n w r w', kcall (SRead fd n) w = (r, w') -> 0 < r_val r ->
    r_val r = Z.of_nat (length (r_data r)) /\ (length (r_data r) <= n)%nat.

(** *** Traces that grow *)

Lemma session_snoc c t e :
  session c (t ++ [e]) = if switches c e then [] else session c t ++ [e].
Proof. unfold session. by rewrite foldl_app. Qed.

Lemma received_app c t1 t2 : received c (t1 ++ t2) = received c t1 ++ received c t2.
Proof.
  induction t1 as [|[| | |[] r] t1 IH]; simpl; rewrite ?IH; try done.
  case_match; [by rewrite <- app_assoc|done].
Qed.

Lemma shown_app c t1 t2 : shown c (t1 ++ t2) = shown c t1 ++ shown c t2.
Proof. induction t1 as [|[] t1 IH]; simpl; rewrite ?IH; try done. by case_match. Qed.

Lemma received_line_text c w :
  ln ("Received word from client " +:+ fmt_d c +:+ ": " +:+ of_chars (cstring (w ++ [NUL])))
  = received_line c w.
Proof. unfold received_line, line_head. by rewrite <- !string_app_assoc. Qed.

(** *** Lines of different clients differ *)

Definition no_colon (s : string) : Prop := ":"%char ∉ chars s.

Lemma hex_char_no_colon d : 0 <= d < 10 -> hex_char d <> ":"%char.
Proof.
  intros Hd.
  assert (d = 0 \/ d = 1 \/ d = 2 \/ d = 3 \/ d = 4 \/ d = 5 \/ d = 6 \/ d = 7 \/
          d = 8 \/ d = 9) as H by lia.
  repeat destruct H as [->|H]; [done..|subst; done].
Qed.

Lemma put_digits_no_colon fuel n acc :
  0 <= n -> no_colon acc -> no_colon (put_digits 10 fuel n acc).
Proof.
  revert n acc. induction fuel as [|fuel IH]; intros n acc Hn Ha; simpl; [done|].
  assert (no_colon (String (hex_char (n mod 10)) acc)) as Ha'.
  { unfold no_colon. simpl. apply not_elem_of_cons. split; [|done].
    symmetry. apply hex_char_no_colon, Z.mod_pos_bound. lia. }
  case_match; [done|]. apply IH; [|done]. apply Z.div_pos; lia.
Qed.

Lemma fmt_d_no_colon z : no_colon (fmt_d z).
Proof.
  unfold fmt_d, fmt_u. destruct (z <? 0) eqn:E; bools.
  - apply not_elem_of_cons. split; [done|].
    apply put_digits_no_colon; [lia|apply not_elem_of_nil].
  - apply put_digits_no_colon; [lia|apply not_elem_of_nil].
Qed.

Lemma fmt_d_inj a b : fmt_d a = fmt_d b -> a = b.
Proof.
  intros E. apply (f_equal scan_number) in E. rewrite !scan_number_fmt_d in E.
  injection E as E1 E2. destruct (Z.ltb_spec a 0), (Z.ltb_spec b 0); try done; lia.
Qed.

Lemma prefix_cons c d a b :
  String.prefix (String c a) (String d b) = true -> c = d /\ String.prefix a b = true.
Proof. cbn [String.prefix]. by destruct (ascii_dec c d). Qed.

(** What stands before the first colon. *)
Lemma prefix_colon a b x :
  no_colon a -> no_colon b ->
  String.prefix (a +:+ ": ") (b +:+ ": " +:+ x) = true -> a = b.
Proof.
  revert b. induction a as [|c a IH]; intros [|d b] Ha Hb; try done;
    intros [E Hp]%prefix_cons.
  - destruct Hb. rewrite <- E. by left.
  - destruct Ha. rewrite E. by left.
  - rewrite E. f_equal. apply not_elem_of_cons in Ha as [_ Ha].
    apply not_elem_of_cons in Hb as [_ Hb]. by apply IH.
Qed.

Lemma prefix_refl_app a x : String.prefix a (a +:+ x) = true.
Proof. induction a as [|c a IH]; simpl; [by destruct x|]. by destruct (ascii_dec c c). Qed.

Lemma is_line_of_received c c' w : is_line_of c (received_line c' w) = (c' =? c).
Proof.
  unfold is_line_of, received_line, ln, line_head.
  set (x := of_chars _). clearbody x.
  destruct (Z.eqb_spec c' c) as [->|Hne].
  - rewrite <- string_app_assoc. apply prefix_refl_app.
  - rewrite <- !string_app_assoc. apply not_true_iff_false. intros Hp. apply Hne, fmt_d_inj. symmetry.
    apply (prefix_colon _ _ (x +:+ nl)); [apply fmt_d_no_colon..|]. exact Hp.
Qed.

(** ** The account of a run

    [holds c extra st]: every session so far has been shown when it ended; of the
    current ones all is shown and nothing is half read, except that [c] owes the
    words [extra] and is in the middle [st] of a frame. *)
Section Account.
Context {W : Type}.
Implicit Types s : cstate W.

Record holds (c0 : Z) (extra : list (list byte)) (st : option (nat * list byte)) s : Prop := {
  held_closed : forall c p r q, trace s = p ++ ESys (SClose c) r :: q -> delivered c p;
  held_open : forall c, exists ws,
    shown c (session c (trace s)) = received_line c <$> ws /\
    decoded (received c (session c (trace s))) =
      if c =? c0 then (ws ++ extra, st) else (ws, None);
}.

Definition tidy s : Prop := forall c, holds c [] None s.

Lemma tidy_start w : tidy (start w).
Proof.
  intros c. split; simpl; [by intros ? [|]|]. intros c'. exists []. by destruct (c' =? c).
Qed.

Lemma holds_tidy c s : holds c [] None s -> tidy s.
Proof.
  intros [Hc Ho] c'. split; [done|]. intros d. destruct (Ho d) as (ws & Hs & Hd).
  exists ws. split; [done|]. rewrite Hd, app_nil_r. by destruct (d =? c), (d =? c').
Qed.

Lemma holds_delivered c st s : holds c [] st s -> forall d, delivered d (trace s).
Proof.
  intros [_ Ho] d. destruct (Ho d) as (ws & Hs & Hd). unfold delivered, complete.
  rewrite Hs, Hd, app_nil_r. by destruct (d =? c).
Qed.

(** A trace ending in [e] has the closing calls of its beginning, or ends in one. *)
Lemma holds_snoc c extra st c' extra' st' s e er (w : W) :
  holds c extra st s ->
  (forall d r, e = ESys (SClose d) r -> extra = []) ->
  (forall d, exists ws,
    shown d (session d (trace s ++ [e])) = received_line d <$> ws /\
    decoded (received d (session d (trace s ++ [e]))) =
      if d =? c' then (ws ++ extra', st') else (ws, None)) ->
  holds c' extra' st' (CState er (trace s ++ [e]) w).
Proof.
  intros Hh He Ho. split; [|done]. simpl. intros d p r q E.
  destruct q as [|x q _] using rev_ind.
  - apply app_inj_tail in E as [<- ->]. rewrite (He d r eq_refl) in Hh.
    by apply (holds_delivered c st).
  - rewrite app_comm_cons, app_assoc in E. apply app_inj_tail in E as [E _].
    by eapply held_closed.
Qed.

(** *** Events *)

(** An event that matters to no session. *)
Definition aside (e : event) : Prop :=
  match e with
  | EOut t => forall c, is_line_of c t = false
  | ESys (SAccept _ | SClose _) _ => False
  | ESys (SRead _ _) r => r_val r <= 0
  | _ => True
  end.

Lemma aside_silent c e : aside e ->
  switches c e = false /\ received c [e] = [] /\ shown c [e] = [].
Proof.
  destruct e as [t| | |[] r]; simpl; try done.
  - intros Ht. by rewrite Ht.
  - intros Hr. rewrite (proj2 (Z.ltb_ge _ _)) by done. by rewrite andb_false_r.
Qed.

Lemma holds_aside c extra st s e er (w : W) :
  aside e -> holds c extra st s -> holds c extra st (CState er (trace s ++ [e]) w).
Proof.
  intros He Hh. eapply holds_snoc; [done| |].
  { intros d r ->. done. }
  intros d. destruct (held_open _ _ _ _ Hh d) as (ws & Hs & Hd). exists ws.
  destruct (aside_silent d e He) as (H1 & H2 & H3).
  rewrite session_snoc, H1, shown_app, received_app, H2, H3, !app_nil_r. done.
Qed.

(** A descriptor is closed, or a new one accepted when nothing is owed: its session
    starts afresh. *)
Lemma holds_switch c st s e er (w : W) :
  (match e with ESys (SClose fd) _ => fd = c | ESys (SAccept _) _ => st = None | _ => False end) ->
  holds c [] st s -> tidy (CState er (trace s ++ [e]) w).
Proof.
  intros He Hh. apply (holds_tidy c). eapply holds_snoc; [done|by intros ??|].
  intros d. rewrite session_snoc. destruct (switches d e) eqn:Hsw; [exists []; by destruct (d =? c)|].
  destruct (held_open _ _ _ _ Hh d) as (ws & Hs & Hd). exists ws.
  assert (received d [e] = [] /\ shown d [e] = []) as [H2 H3] by (by destruct e as [| | |[] r]).
  rewrite shown_app, received_app, H2, H3, !app_nil_r. split; [done|]. rewrite Hd, app_nil_r.
  destruct (d =? c) eqn:Hdc; [|done]. destruct e as [| | |[] r]; try done; simpl in *; subst.
  - rewrite Z.eqb_sym in Hdc. congruence.
  - done.
Qed.

(** The line of the word that is owed. *)
Lemma holds_line c x s er (w : W) :
  holds c [x] None s -> tidy (CState er (trace s ++ [EOut (received_line c x)]) w).
Proof.
  intros Hh. apply (holds_tidy c). eapply holds_snoc; [done|by intros ??|].
  intros d. destruct (held_open _ _ _ _ Hh d) as (ws & Hs & Hd).
  rewrite session_snoc. cbn [switches]. rewrite shown_app, received_app.
  cbn [shown received]. rewrite is_line_of_received, app_nil_r, Hd, Hs.
  destruct (Z.eqb_spec c d) as [<-|Hne].
  - exists (ws ++ [x]). rewrite fmap_app, !Z.eqb_refl, app_nil_r. done.
  - exists ws. rewrite (proj2 (Z.eqb_neq d c)) by congruence. by rewrite app_nil_r.
Qed.

(** *** Bytes *)

(** [got] has been read and [n] bytes are missing. *)
Definition reading (c : Z) (got : list byte) (n : nat) s : Prop :=
  match n with O => holds c [got] None s | _ => holds c [] (Some (n, got)) s end.

Lemma foldl_feed ws n got d : d <> [] -> (length d <= n)%nat ->
  foldl feed (ws, Some (n, got)) d =
    if (length d =? n)%nat then (ws ++ [got ++ d], None)
    else (ws, Some ((n - length d)%nat, got ++ d)).
Proof.
  revert n got. induction d as [|b d IH]; intros n got Hd Hn; [done|]. simpl in Hn. simpl foldl.
  destruct (Nat.eqb_spec n 1) as [->|Hn1].
  - assert (d = []) as -> by (destruct d; simpl in *; [done|lia]). done.
  - destruct d as [|b' d].
    + simpl. destruct n as [|[|n]]; [lia|lia|]. done.
    + rewrite IH by (done || (simpl in *; lia)). rewrite <- !app_assoc.
      replace (n - 1 - length (b' :: d))%nat with (n - length (b :: b' :: d))%nat by (simpl; lia).
      assert ((length (b' :: d) =? n - 1)%nat = (length (b :: b' :: d) =? n)%nat) as ->; [|done].
      apply Bool.eq_iff_eq_true. rewrite !Nat.eqb_eq. simpl in *. lia.
Qed.

Lemma session_read c fd n r s :
  session c (trace s ++ [ESys (SRead fd n) r]) = session c (trace s) ++ [ESys (SRead fd n) r].
Proof. by rewrite session_snoc. Qed.

Lemma holds_read c n extra st extra' st' s r er (w : W) :
  0 < r_val r -> holds c extra st s ->
  (forall ws, foldl feed (ws ++ extra, st) (r_data r) = (ws ++ extra', st')) ->
  holds c extra' st' (CState er (trace s ++ [ESys (SRead c n) r]) w).
Proof.
  intros Hr Hh Hf. eapply holds_snoc; [done|by intros ??|].
  intros d. destruct (held_open _ _ _ _ Hh d) as (ws & Hs & Hd). exists ws.
  rewrite session_read, shown_app, received_app. cbn [shown received].
  rewrite app_nil_r. split; [done|]. rewrite (proj2 (Z.ltb_lt _ _)) by done. rewrite andb_true_r.
  unfold decoded in *. rewrite foldl_app, Hd. rewrite (Z.eqb_sym c d).
  destruct (d =? c); [|done]. by rewrite app_nil_r, Hf.
Qed.

Lemma reading_read c got n m s r er (w : W) :
  0 < r_val r -> r_val r = Z.of_nat (length (r_data r)) -> (length (r_data r) <= S n)%nat ->
  reading c got (S n) s ->
  reading c (got ++ r_data r) (S n - length (r_data r)) (CState er (trace s ++ [ESys (SRead c m) r]) w).
Proof.
  intros Hr Hl Hn Hh.
  assert (r_data r <> []) as Hne by (intros E; rewrite E in Hl; simpl in Hl; lia).
  unfold reading in *.
  destruct (S n - length (r_data r))%nat as [|k] eqn:Ek; (eapply holds_read; [done..|]); intros ws;
    rewrite app_nil_r, foldl_feed by done.
  - by rewrite (proj2 (Nat.eqb_eq _ _)) by lia.
  - rewrite (proj2 (Nat.eqb_neq _ _)) by lia. do 3 f_equal. lia.
Qed.

(** The length byte. *)
Lemma reading_length c b m s r er (w : W) :
  0 < r_val r -> r_data r = [b] -> tidy s ->
  reading c [] (Z.to_nat (byte_val b)) (CState er (trace s ++ [ESys (SRead c m) r]) w).
Proof.
  intros Hr Hb Hh. pose proof (byte_val_range b) as Hv. unfold reading.
  destruct (Z.to_nat (byte_val b)) as [|k] eqn:Ek; (eapply holds_read; [done|apply (Hh c)|]);
    intros ws; rewrite Hb, app_nil_r; simpl.
  - by rewrite (proj2 (Z.eqb_eq _ _)) by lia.
  - rewrite (proj2 (Z.eqb_neq _ _)) by lia. by rewrite Ek.
Qed.
End Account.

(** ** Programs

    [leaves m Q s]: when [m] returns, [Q] holds; when it exits, the account is tidy.
    (That it does nothing undefined is the subject of [PollServer] and
    [SelectServer].) *)
Section Programs.
Context {W} `{Kernel W}.
Implicit Types s : cstate W.

Definition leaves {A} (m : C W A) (Q : A -> cstate W -> Prop) s : Prop :=
  match m s with
  | (Val a, s') => Q a s'
  | (Exit _, s') => tidy s'
  | _ => True
  end.

Definition keeps_tidy {A} (m : C W A) : Prop := forall s, tidy s -> leaves m (fun _ => tidy) s.

Lemma leaves_bind {A B} (m : C W A) (f : A -> C W B) Q s :
  leaves m (fun a s' => leaves (f a) Q s') s -> leaves (m ≫= f) Q s.
Proof. unfold leaves, mbind, C_bind. by destruct (m s) as [[a|c|u|] s']. Qed.

Lemma leaves_mono {A} (m : C W A) (Q Q' : A -> cstate W -> Prop) s :
  leaves m Q s -> (forall a s', Q a s' -> Q' a s') -> leaves m Q' s.
Proof. unfold leaves. destruct (m s) as [[a|c|u|] s']; auto. Qed.

Lemma leaves_sys c (Q : sysret -> cstate W -> Prop) s :
  (forall r w e, kcall c (world s) = (r, w) -> Q r (CState e (trace s ++ [ESys c r]) w)) ->
  leaves (sys c) Q s.
Proof. intros HQ. unfold leaves, sys. destruct (kcall c (world s)) as [r w] eqn:Ek. by apply HQ. Qed.

Lemma leaves_get {A} (l : list A) i (Q : A -> cstate W -> Prop) s :
  (forall x, l !! Z.to_nat i = Some x -> Q x s) -> leaves (array_get l i) Q s.
Proof.
  intros HQ. unfold leaves, array_get. destruct (i <? 0); [done|].
  destruct (l !! Z.to_nat i) eqn:E; [by apply HQ|done].
Qed.

Lemma tidy_ret {A} (a : A) : keeps_tidy (mret a).
Proof. by intros s. Qed.

Lemma tidy_exit {A} code : keeps_tidy (exit_ code : C W A).
Proof. by intros s. Qed.

Lemma tidy_stuck {A} (m : C W A) : (forall s, fst (m s) = NoFuel \/ exists u, fst (m s) = Undef u) ->
  keeps_tidy m.
Proof.
  intros Hm s _. unfold leaves. destruct (Hm s) as [E|[u E]]; destruct (m s); simpl in *; by subst.
Qed.

Lemma tidy_bind {A B} (m : C W A) (f : A -> C W B) :
  keeps_tidy m -> (forall a, keeps_tidy (f a)) -> keeps_tidy (m ≫= f).
Proof.
  intros Hm Hf s Hs. apply leaves_bind. eapply leaves_mono; [by apply Hm|].
  intros a s' Hs'. by apply Hf.
Qed.

Lemma tidy_sys c : match c with SRead _ _ => False | _ => True end -> keeps_tidy (sys c).
Proof.
  intros Hc s Hs. apply leaves_sys. intros r w e _.
  destruct c; try done; try (intros d; apply holds_aside; [done|apply Hs]).
  all: first [apply (holds_switch 0 None); [reflexivity|apply Hs]
             |eapply (holds_switch _ None); [reflexivity|apply Hs]].
Qed.

Lemma tidy_emit e : aside e -> keeps_tidy (emit e).
Proof. intros He s Hs d. apply holds_aside; [done|apply Hs]. Qed.

Lemma tidy_out t : (forall c, is_line_of c t = false) -> keeps_tidy (out t).
Proof. apply (tidy_emit (EOut t)). Qed.

Lemma tidy_get_errno : keeps_tidy get_errno.
Proof. by intros s. Qed.

Lemma tidy_get {A} (l : list A) i : keeps_tidy (array_get l i).
Proof. intros s Hs. by apply leaves_get. Qed.

Lemma tidy_set {A} (l : list A) i x : keeps_tidy (array_set l i x).
Proof. intros s Hs. unfold leaves, array_set. by destruct (_ || _). Qed.

Lemma tidy_loop {S R} fuel (body : S -> C W (S + R)) x :
  (forall x, keeps_tidy (body x)) -> keeps_tidy (loop fuel body x).
Proof.
  intros Hb. revert x. induction fuel as [|fuel IH]; intros x; [by intros s|].
  cbn [loop]. apply tidy_bind; [done|]. intros [x'|v]; [done|apply tidy_ret].
Qed.
End Programs.

Create HintDb tidy.
#[export] Hint Resolve tidy_ret tidy_exit tidy_get_errno tidy_get tidy_set : tidy.

(** By the shape of the program; functions are unfolded where no lemma fits. *)
Ltac tidy_step :=
  lazymatch goal with
  | |- keeps_tidy (let _ := _ in _) => cbv zeta
  | |- keeps_tidy (mbind _ _) => apply tidy_bind; [|intros ?]
  | |- keeps_tidy (match _ with _ => _ end) => case_match
  | |- keeps_tidy (sys _) => by apply tidy_sys
  | |- keeps_tidy (out _) => by apply tidy_out
  | |- keeps_tidy (eout _) => by apply tidy_emit
  | |- keeps_tidy (emit _) => by apply tidy_emit
  | |- keeps_tidy (undef _) => apply tidy_stuck; intros ?; right; by eexists
  | |- keeps_tidy no_fuel => apply tidy_stuck; intros ?; by left
  | |- keeps_tidy (loop _ _ _) => apply tidy_loop; intros ?
  | |- keeps_tidy ?m =>
      first [solve [auto 1 with tidy nocore]
            | let m' := eval red in m in change (keeps_tidy m'); cbv beta]
  end.
Ltac tidy_solve := repeat tidy_step.

Section Serving.
Context {W} `{Kernel W} (Hhonest : honest_reads W).
Implicit Types s : cstate W.

(** [read_full] with [n] bytes missing: they have all been read, or the frame
    stays unfinished. *)
Lemma read_turn_reads_on fd got n s :
  reading fd got n s ->
  leaves (read_turn fd (got, n)) (fun r s' =>
    match r with
    | inl (got', n') => reading fd got' n' s'
    | inr (rc, word) => rc = 1 /\ holds fd [word] None s' \/ rc <= 0 /\ exists st, holds fd [] st s'
    end) s.
Proof using Hhonest.
  intros Hr. destruct n as [|n]; [left; done|]. unfold read_turn.
  apply leaves_bind, leaves_sys. intros r w e Ek.
  destruct (Z.eqb_spec (r_val r) 0) as [E0|E0].
  { right. split; [done|]. eexists. apply holds_aside; [simpl; lia|exact Hr]. }
  destruct (Z.ltb_spec (r_val r) 0) as [En|En].
  - assert (reading fd got (S n) (CState e (trace s ++ [ESys (SRead fd (S n)) r]) w)) as Hr'
      by (apply holds_aside; [simpl; lia|exact Hr]).
    apply leaves_bind. unfold leaves at 1, get_errno. cbn [errno].
    destruct (e =? EINTR); [exact Hr'|].
    right. split; [lia|]. by eexists.
  - destruct (Hhonest _ _ _ _ _ Ek) as [Hl Hle]; [lia|].
    unfold leaves, mret, C_ret. rewrite Hl, Nat2Z.id. apply reading_read; [lia|done|done|done].
Qed.

Lemma read_full_reads_on fuel fd n s :
  reading fd [] n s ->
  leaves (read_full fuel fd n) (fun '(rc, word) s' =>
    rc = 1 /\ holds fd [word] None s' \/ rc <= 0 /\ exists st, holds fd [] st s') s.
Proof using Hhonest.
  unfold read_full. generalize (@nil byte). revert n s.
  induction fuel as [|fuel IH]; intros n s got Hr; cbn [loop]; [done|].
  apply leaves_bind. eapply leaves_mono; [by apply read_turn_reads_on|].
  intros [[got' n']|[rc word]] s' Hs'; [by apply IH|done].
Qed.

(** The length byte of the next frame. *)
Definition length_read fd (r : Z * list byte) s : Prop :=
  fst r <= 0 /\ tidy s \/
  exists b, r = (1, [b]) /\ reading fd [] (Z.to_nat (byte_val b)) s.

Lemma read_full_length fuel fd s :
  tidy s -> leaves (read_full fuel fd 1) (length_read fd) s.
Proof using Hhonest.
  unfold read_full. revert s. induction fuel as [|fuel IH]; intros s Hs; cbn [loop]; [done|].
  apply leaves_bind. unfold read_turn. apply leaves_bind, leaves_sys. intros r w e Ek.
  destruct (Z.eqb_spec (r_val r) 0) as [E0|E0].
  { left. split; [done|]. intros c. apply holds_aside; [simpl; lia|apply Hs]. }
  destruct (Z.ltb_spec (r_val r) 0) as [En|En].
  - assert (tidy (CState e (trace s ++ [ESys (SRead fd 1) r]) w)) as Hs'
      by (intros c; apply holds_aside; [simpl; lia|apply Hs]).
    apply leaves_bind. unfold leaves at 1, get_errno. cbn [errno].
    destruct (e =? EINTR); [by apply IH|]. left. by split.
  - destruct (Hhonest _ _ _ _ _ Ek) as [Hl Hle]; [lia|].
    destruct (r_data r) as [|b [|b' d]] eqn:Ed; simpl in Hl, Hle; [lia| |lia].
    assert (reading fd [] (Z.to_nat (byte_val b)) (CState e (trace s ++ [ESys (SRead fd 1) r]) w))
      as Hr by (apply reading_length; [lia|done|done]).
    unfold leaves, mret, C_ret. rewrite Hl. change (1 - Z.to_nat (Z.of_nat 1))%nat with 0%nat.
    destruct fuel as [|fuel]; cbn [loop]; [done|]. right. exists b. split; [done|]. exact Hr.
Qed.

Lemma leaves_aside {A} c extra st t (f : unit -> C W A) Q s :
  (forall d, is_line_of d t = false) -> holds c extra st s ->
  (forall s', holds c extra st s' -> leaves (f tt) Q s') -> leaves (out t ≫= f) Q s.
Proof using Type.
  intros Ht Hs Hf. apply leaves_bind. apply Hf. by apply holds_aside.
Qed.

(** Closing the descriptor that is being read. *)
Lemma leaves_close {A} c st (f : sysret -> C W A) s :
  holds c [] st s -> (forall r, keeps_tidy (f r)) -> leaves (sys (SClose c) ≫= f) (fun _ => tidy) s.
Proof using Type.
  intros Hs Hf. apply leaves_bind, leaves_sys. intros r w e _. apply Hf.
  by apply (holds_switch c st).
Qed.

(** *** The poll server *)

Lemma disconnection_tidy t i c st s :
  PollServer.client_sockets t !! i = Some c -> holds c [] st s ->
  leaves (handle_client_disconnection t i) (fun _ => tidy) s.
Proof using Type.
  intros Hi Hs. apply leaves_bind, leaves_get. rewrite Nat2Z.id, Hi. intros ? [= <-].
  eapply leaves_close; [exact Hs|]. intros r. tidy_solve.
Qed.
Lemma out_disconnection_tidy t i c st msg s :
  PollServer.client_sockets t !! i = Some c -> (forall d, is_line_of d msg = false) ->
  holds c [] st s ->
  leaves (out msg;; handle_client_disconnection t i) (fun _ => tidy) s.
Proof using Type.
  intros Hi Hm Hs. eapply leaves_aside; [done|exact Hs|]. intros s' Hs'.
  by eapply disconnection_tidy.
Qed.

Lemma leaves_line {A} c x (f : unit -> C W A) s :
  holds c [x] None s -> keeps_tidy (f tt) ->
  leaves (out (ln ("Received word from client " +:+ fmt_d c +:+ ": "
                   +:+ of_chars (cstring (x ++ [NUL])))) ≫= f) (fun _ => tidy) s.
Proof using Type.
  intros Hs Hf. rewrite received_line_text. apply leaves_bind, Hf. by apply holds_line.
Qed.

Lemma poll_client_turn_tidy fuel t i : keeps_tidy (PollServer.client_turn fuel t i).
Proof using Hhonest.
  intros s Hs. unfold PollServer.client_turn. apply leaves_bind, leaves_get.
  rewrite Nat2Z.id. intros c Hc. apply leaves_bind, leaves_get. intros f _.
  case_match; [done|]. apply leaves_bind. eapply leaves_mono; [by apply read_full_length|].
  intros [rc b] s1 [[Hrc Hs1]|(x & [= -> ->] & Hr)].
  { rewrite (proj2 (Z.leb_le _ _)) by done. by eapply out_disconnection_tidy. }
  simpl Z.leb. cbv iota. pose proof (byte_val_range x).
  rewrite (proj2 (Z.ltb_ge (min_size _ _) _)) by (change (min_size _ _) with 255; lia).
  apply leaves_bind. eapply leaves_mono; [by apply read_full_reads_on|].
  intros [rc word] s2 [[-> Hs2]|[Hrc [st Hs2]]].
  - apply leaves_line; [done|]. tidy_solve.
  - rewrite (proj2 (Z.leb_le _ _)) by done. by eapply out_disconnection_tidy.
Qed.

Lemma poll_main_tidy turns fuel : keeps_tidy (PollServer.main turns fuel).
Proof using Hhonest.
  pose proof poll_client_turn_tidy as Hturn.
  assert (forall n t i, keeps_tidy (data_loop n fuel t i)) as Hd
    by (induction n as [|n IH]; intros t i; cbn [data_loop]; tidy_solve).
  assert (forall n cs i, keeps_tidy (PollServer.close_clients n cs i)) as Hc
    by (induction n as [|n IH]; intros cs i; cbn [PollServer.close_clients]; tidy_solve).
  assert (forall t, keeps_tidy (handle_client_data fuel t)) as Ht by (intros t; apply Hd).
  unfold PollServer.main. tidy_solve.
Qed.

(** *** The select server *)

Lemma select_client_io_tidy fuel t i sd : keeps_tidy (client_io fuel t i sd).
Proof using Hhonest.
  intros s Hs. unfold client_io.
  assert (forall st line s', holds sd [] st s' -> (forall d, is_line_of d (ln line) = false) ->
    leaves (out (ln line);; sys (SClose sd);; t ← remove_client t i; mret (true, t))
      (fun _ => tidy) s') as Hclose.
  { intros st line s' Hs' Hl. eapply leaves_aside; [done|exact Hs'|]. intros s'' Hs''.
    eapply leaves_close; [exact Hs''|]. intros r. tidy_solve. }
  apply leaves_bind. eapply leaves_mono; [by apply read_full_length|].
  intros [rc b] s1 [[Hrc Hs1]|(x & [= -> ->] & Hr)].
  { simpl in Hrc. rewrite (proj2 (Z.leb_le _ _)) by done. by apply (Hclose None). }
  simpl Z.leb. cbv iota. pose proof (byte_val_range x).
  rewrite (proj2 (Z.ltb_ge (min_size _ _) _)) by (change (min_size _ _) with 255; lia).
  apply leaves_bind. eapply leaves_mono; [by apply read_full_reads_on|].
  intros [rc word] s2 [[-> Hs2]|[Hrc [st Hs2]]].
  - apply leaves_line; [done|]. tidy_solve.
  - rewrite (proj2 (Z.leb_le _ _)) by done. by apply (Hclose st).
Qed.

Lemma select_main_tidy turns fuel : keeps_tidy (SelectServer.main turns fuel).
Proof using Hhonest.
  pose proof select_client_io_tidy as Hio.
  assert (forall n t i rf mx, keeps_tidy (watch_loop n t i rf mx)) as Hw
    by (induction n as [|n IH]; intros t i rf mx; cbn [watch_loop]; tidy_solve).
  assert (forall n rf t i, keeps_tidy (io_loop n fuel rf t i)) as Hd
    by (induction n as [|n IH]; intros rf t i; cbn [io_loop]; tidy_solve).
  assert (forall n t i, keeps_tidy (SelectServer.close_clients n t i)) as Hc
    by (induction n as [|n IH]; intros t i; cbn [SelectServer.close_clients]; tidy_solve).
  unfold SelectServer.main. tidy_solve.
Qed.
End Serving.

(** ** Frames and words *)

Lemma feed_extends d b : fst d `prefix_of` fst (feed d b).
Proof.
  destruct d as [ws [[n part]|]]; unfold feed; case_match; simpl;
    first [by apply prefix_app_r | done].
Qed.

Lemma decoded_extends l d : fst d `prefix_of` fst (foldl feed d l).
Proof.
  revert d. induction l as [|b l IH]; intros d; simpl; [done|].
  etrans; [apply feed_extends|apply IH].
Qed.

(** More bytes only add words. *)
Lemma complete_mono l l' : l `prefix_of` l' -> complete l `prefix_of` complete l'.
Proof. intros [k ->]. unfold complete, decoded. rewrite foldl_app. apply decoded_extends. Qed.

Lemma feed_frame ws w : fits w -> foldl feed (ws, None) (frame w) = (ws ++ [w], None).
Proof.
  intros Hw. unfold fits, UINT8_MAX in Hw. unfold frame. cbn [foldl feed].
  rewrite byte_val_len by lia. destruct w as [|b w]; [done|].
  rewrite (proj2 (Z.eqb_neq _ _)) by (simpl; lia). rewrite Nat2Z.id.
  by rewrite foldl_feed, Nat.eqb_refl by done.
Qed.

(** The words whose frames a stream is made of. *)
Lemma complete_frames ws : Forall fits ws -> complete (DomainSocket.frames ws) = ws.
Proof.
  intros Hws. unfold complete, decoded, DomainSocket.frames.
  rewrite <- (app_nil_l ws) at 2. generalize (@nil (list byte)) as done_.
  induction Hws as [|w ws Hw Hws IH]; intros done_; [by rewrite app_nil_r|].
  change (concat (frame <$> w :: ws)) with (frame w ++ concat (frame <$> ws)).
  rewrite foldl_app, feed_frame by done. rewrite IH. by rewrite <- app_assoc.
Qed.

(** The words of a text without NUL are printed as they are. *)
Lemma word_lines c l : NUL ∉ l -> received_line c <$> words l = word_line c <$> words l.
Proof.
  intros Hn. apply list_fmap_ext. intros i w Hw%list_elem_of_lookup_2.
  unfold received_line, word_line. rewrite cstring_app_nul; [done|].
  intros Hb. by apply Hn, (words_letters l w).
Qed.

(** ** Properties *)

(** A run of [main] from [w] that returned or exited with [code]. *)
Definition ended_in {W} (m : C W Z) (w : W) (code : Z) (s : cstate W) : Prop :=
  m (start w) = (Val code, s) \/ m (start w) = (Exit code, s).

Lemma tidy_delivered {W} (m : C W Z) w code s :
  keeps_tidy m -> ended_in m w code s ->
  forall c p q, trace s = p ++ q -> session_end c q -> delivered c p.
Proof.
  intros Hm He c p q E Hq. specialize (Hm (start w) (tidy_start w)). unfold leaves in Hm.
  assert (tidy s) as Hs by (destruct He as [He|He]; by rewrite He in Hm).
  destruct Hq as [->|(r & q' & ->)].
  - rewrite app_nil_r in E. subst p. apply (holds_delivered _ _ _ (Hs c)).
  - by eapply (held_closed _ _ _ _ (Hs c)).
Qed.

(** The servers that wait for several clients. *)
Definition servers {W} `{Kernel W} : list (nat -> nat -> C W Z) :=
  [PollServer.main; SelectServer.main].

Lemma servers_tidy {W} `{Kernel W} turns fuel :
  honest_reads W -> Forall (fun server => keeps_tidy (server turns fuel)) servers.
Proof.
  intros Hh. repeat constructor; [by apply poll_main_tidy|by apply select_main_tidy].
Qed.

(** C3: both servers show each client's words and nothing else.  In every run that
    ends, whatever the clients send and however their sessions are interleaved, when
    a session of a descriptor ends, and at the end of the run, the lines printed for
    it are those of the words whose frames have arrived completely in this session,
    in order. *)
Theorem multiplexing_servers_deliver {W} `{Kernel W} (turns fuel : nat) (w : W) :
  honest_reads W ->
  Forall (fun server => forall code s c p q, ended_in (server turns fuel) w code s ->
    trace s = p ++ q -> session_end c q ->
    shown c (session c p) = received_line c <$> complete (received c (session c p))) servers.
Proof.
  intros Hh. eapply Forall_impl; [|exact (servers_tidy turns fuel Hh)].
  intros server Hs code s c p q He E Hq. exact (tidy_delivered _ _ _ _ Hs He c p q E Hq).
Qed.


(** ** Concrete runs *)

(** Results played back in order; a [read] that claims more than it gives, or gives
    more than it was asked for, fails. *)
Record honest := Honest { replies : list sysret }.
#[export] Instance honest_kernel : Kernel honest := fun c w =>
  match replies w with
  | [] => (sys_fail EIO, w)
  | r :: rs =>
      (match c with
       | SRead _ n =>
           if (r_val r <=? 0) ||
              (r_val r =? Z.of_nat (length (r_data r))) && (length (r_data r) <=? n)%nat
           then r else sys_fail EIO
       | _ => r
       end, Honest rs)
  end.

Lemma honest_is_honest : honest_reads honest.
Proof.
  intros fd n [[|r rs]] r' w' E Hr; unfold kcall, honest_kernel in E; simpl in E.
  - injection E as <- _. done.
  - destruct (_ || _) eqn:Eb; injection E as <- _; [|done].
    apply orb_true_iff in Eb as [Eb|Eb]; [bools; lia|].
    apply andb_true_iff in Eb as [E1 E2]. bools. by split.
Qed.

(** Two clients connect to the [poll] server, on 5 and 6.  The first sends "old", in
    three pieces, while the second sends "a" and then leaves in the middle of "frog";
    then SIGINT arrives. *)
Definition two_clients : honest :=
  Honest [sys_ok 0; sys_ok 0; sys_ok 3; sys_ok 0; sys_ok 0; sys_ok 1; sys_ok 1;
          sys_ok 0; sys_data 1 [byte_of 1]; sys_ok 5;
          sys_ok 0; sys_data 1 [byte_of 1]; sys_ok 6;
          sys_ok 0; sys_data 2 [byte_of 0; byte_of 1; byte_of 1];
          sys_data 1 [byte_of 3]; sys_data 1 ["o"]%char; sys_fail EINTR; sys_data 2 ["l"; "d"]%char;
          sys_data 1 [byte_of 1]; sys_data 1 ["a"]%char;
          sys_ok 0; sys_data 1 [byte_of 0; byte_of 0; byte_of 1];
          sys_data 1 [byte_of 4]; sys_data 2 ["f"; "r"]%char; sys_ok 0; sys_ok 0;
          sys_ok 1; sys_ok 0; sys_ok 0].
Definition two_run : outcome Z * cstate honest := PollServer.main 9 9 (start two_clients).


(** The events before 6 is closed. *)
Definition until_6_left : list event := take 32 (trace (snd two_run)).

Lemma multiplexing_servers_deliver_witness :
  fst two_run = Val EXIT_SUCCESS /\
  shown 6 (session 6 until_6_left) = received_line 6 <$> complete (received 6 (session 6 until_6_left)) /\
  received 6 (session 6 until_6_left) =
    [byte_of 1; "a"; byte_of 4; "f"; "r"]%char /\
  shown 5 (session 5 until_6_left) = [ln "Received word from client 5: old"].
Proof.
  split_and!; [by vm_compute| |by vm_compute..].
  apply (Forall_inv (multiplexing_servers_deliver 9 9 two_clients honest_is_honest)
    EXIT_SUCCESS (snd two_run) 6 until_6_left (drop 32 (trace (snd two_run)))).
  - left. vm_compute. reflexivity.
  - symmetry. apply take_drop.
  - right. vm_compute. eauto.
Defined.

(** Two clients with the poem, on 5 and 6, at the [select] server; the second has sent
    three words and half of a length and a word when it is interrupted. *)
Definition poem_sender : outcome Z * cstate wire :=
  MultiplexingClient.main one_file ["client"; "poem"] (start (Wire [])).

Definition frame_reads (w : list byte) : list sysret :=
  [sys_data 1 [byte_of (Z.of_nat (length w))]; sys_data (Z.of_nat (length w)) w].

Definition poem_turn (both : bool) (w : list byte) : list sysret :=
  [sys_ok 0; sys_data 2 [byte_of 0; byte_of 1; byte_of (if both then 1 else 0)]]
  ++ frame_reads w ++ (if both then frame_reads w else []).

Definition two_poems : honest :=
  Honest ([sys_ok 0; sys_ok 0; sys_ok 3; sys_ok 0; sys_ok 0;
           sys_ok 0; sys_data 1 [byte_of 1]; sys_ok 5; sys_ok 1;
           sys_ok 0; sys_data 1 [byte_of 1]; sys_ok 6]
          ++ (take 3 (words poem) ≫= poem_turn true)
          ++ (drop 3 (words poem) ≫= poem_turn false)
          ++ [sys_ok 1; sys_ok 0; sys_ok 0; sys_ok 0; sys_ok 0]).
Definition poem_reader : outcome Z * cstate honest := SelectServer.main 20 9 (start two_poems).

Definition reader_trace : list event := trace (snd poem_reader).

