(* ===== verification/Snprintf.v ===== *)
(** * Formatting values: src/string-processing/snprintf

    One [convert*] function per C type prints a name and a value into a buffer
    and puts ["E"] there when the text does not fit.  [formatted] is the body
    the functions share.  The theorems: a conversion never writes outside its
    buffer, what it leaves there, that [strtoimax] or [strtoumax] reads every
    integer back, and what [main] prints. *)

From stdpp Require Import sets.
From Stdlib Require Import SpecFloat.
From S2P Require Import Prelude CMonad CString.

(** ** Conversions of [printf] not used elsewhere

    [%.<p>f] prints the exact value of a binary floating-point number, rounded
    to [p > 0] decimals, ties to even. *)

Definition round_half_even (n d : Z) : Z :=
  let q := n / d in
  let r := n mod d in
  if 2 * r <? d then q
  else if d <? 2 * r then q + 1
  else if Z.even q then q else q + 1.

(** [m * 2 ^ e * 10 ^ p], rounded. *)
Definition scaled (p m e : Z) : Z :=
  if 0 <=? e then m * 2 ^ e * 10 ^ p else round_half_even (m * 10 ^ p) (2 ^ (- e)).

Definition pad_zero (w : nat) (s : string) : string :=
  repeat_char "0" (w - String.length s) +:+ s.

Definition fmt_fixed (p : nat) (n : Z) : string :=
  let u := 10 ^ Z.of_nat p in
  fmt_u (n / u) +:+ "." +:+ pad_zero p (fmt_u (n mod u)).

Definition sign_text (neg : bool) : string := if neg then "-" else "".

Definition fmt_f (p : nat) (x : spec_float) : string :=
  match x with
  | S754_zero neg => sign_text neg +:+ fmt_fixed p 0
  | S754_infinity neg => sign_text neg +:+ "inf"
  | S754_nan => "nan"
  | S754_finite neg m e =>
      sign_text neg +:+ fmt_fixed p (scaled (Z.of_nat p) (Zpos m) e)
  end.

(** A literal [n / d >= 1] of a type with [prec] bits of precision. *)
Definition literal (prec n d : Z) : spec_float :=
  let e := Z.log2 (n / d) - (prec - 1) in
  match round_half_even (n * 2 ^ (Z.max 0 (- e))) (d * 2 ^ (Z.max 0 e)) with
  | Zpos m => S754_finite false m e
  | _ => S754_zero false
  end.

(** Precisions of [float], [double] and the x87 [long double]; [<float.h>]. *)
Definition FLT_MAX : spec_float := S754_finite false (Z.to_pos (2 ^ 24 - 1)) 104.
Definition DBL_MAX : spec_float := S754_finite false (Z.to_pos (2 ^ 53 - 1)) 971.

(** [%p]: an address in hexadecimal, as the GNU library prints it. *)
Definition lower_hex_char (d : Z) : ascii :=
  if d <? 10 then byte_of (48 + d) else byte_of (87 + d).
Fixpoint hex_digits (fuel : nat) (n : Z) (acc : list byte) : list byte :=
  match fuel with
  | O => acc
  | Datatypes.S fuel =>
      let acc := lower_hex_char (n mod 16) :: acc in
      if n <? 16 then acc else hex_digits fuel (n / 16) acc
  end.
Definition fmt_p (address : Z) : list byte :=
  if address =? 0 then chars "(nil)" else chars "0x" ++ hex_digits 16 address [].

(** ** The functions *)

Section Convert.
Context {W : Type}.

(** [snprintf(buffer, size, ...)] on an array: what it writes has to be inside;
    a length an [int] cannot hold is an error ([EOVERFLOW]). *)
Definition snprintf_array (buffer : list byte) (size : nat) (text : list byte) :
    C W (Z * list byte) :=
  if (length buffer <? Nat.min size (Datatypes.S (length text)))%nat
  then undef "snprintf past the array"
  else let '(result, buffer) := snprintf buffer size text in
       mret (if INT_MAX <? result then -1 else result, buffer).

(** The body every [convert*] function has. *)
Definition formatted (text : list byte) (buffer : list byte) (bufferSize : nat) :
    C W (list byte) :=
  '(result, buffer) ← snprintf_array buffer bufferSize text;
  if (0 <=? result) && (to_unsigned 64 result <? Z.of_nat bufferSize)
  then array_set buffer result NUL
  else '(_, buffer) ← snprintf_array buffer bufferSize (chars "E"); mret buffer.

Definition convertChar (value : byte) :=
  formatted (chars "char: " ++ [value]).
Definition convertInt8 (value : Z) :=
  formatted (chars ("int8_t: " +:+ fmt_d value)).
Definition convertUInt8 (value : Z) :=
  formatted (chars ("uint8_t: " +:+ fmt_u value)).
Definition convertInt16 (value : Z) :=
  formatted (chars ("int16_t: " +:+ fmt_d value)).
Definition convertUInt16 (value : Z) :=
  formatted (chars ("uint16_t: " +:+ fmt_u value)).
Definition convertInt32 (value : Z) :=
  formatted (chars ("int32_t: " +:+ fmt_d value)).
Definition convertUInt32 (value : Z) :=
  formatted (chars ("uint32_t: " +:+ fmt_u value)).
Definition convertInt (value : Z) :=
  formatted (chars ("int: " +:+ fmt_d value)).
Definition convertUInt (value : Z) :=
  formatted (chars ("uint: " +:+ fmt_u value)).
Definition convertLong (value : Z) :=
  formatted (chars ("long: " +:+ fmt_d value)).
Definition convertULong (value : Z) :=
  formatted (chars ("ulong: " +:+ fmt_u value)).
Definition convertLongLong (value : Z) :=
  formatted (chars ("long long: " +:+ fmt_d value)).
Definition convertULongLong (value : Z) :=
  formatted (chars ("ulonglong: " +:+ fmt_u value)).
Definition convertFloat (value : spec_float) :=
  formatted (chars ("float: " +:+ fmt_f 5 value)).
Definition convertDouble (value : spec_float) :=
  formatted (chars ("double: " +:+ fmt_f 10 value)).
Definition convertLongDouble (value : spec_float) :=
  formatted (chars ("long double: " +:+ fmt_f 15 value)).
Definition convertBool (value : bool) :=
  let text := if value then "true" else "false" in
  formatted (chars ("bool: " +:+ text)).
Definition convertPointer (value : Z) :=
  formatted (chars "pointer: " ++ fmt_p value).
Definition convertSize (value : Z) :=
  formatted (chars ("size_t: " +:+ fmt_u value)).
Definition convertSSize (value : Z) :=
  formatted (chars ("ssize_t: " +:+ fmt_d value)).
Definition convertOff (value : Z) :=
  formatted (chars ("off_t: " +:+ fmt_d (to_signed 64 value))).
Definition convertPid (value : Z) :=
  formatted (chars ("pid_t: " +:+ fmt_d (to_signed 64 value))).
Definition convertUid (value : Z) :=
  formatted (chars ("uid_t: " +:+ fmt_d (to_signed 64 value))).
Definition convertGid (value : Z) :=
  formatted (chars ("gid_t: " +:+ fmt_d (to_signed 64 value))).

(** ** [main]

    [bufs] holds [good_buffer] and [bad_buffer]. *)

(** [printf("%s", buffer)] reads up to a NUL, which has to be there. *)
Definition printed (label : string) (buffer : list byte) : C W unit :=
  if bool_decide (NUL ∈ buffer)
  then out (ln (tab +:+ label +:+ of_chars (cstring buffer)))
  else undef "no terminator in the array".

(** [memset(buffer, 0, sizeof(buffer))] *)
Definition cleared (buffer : list byte) : list byte := replicate (length buffer) NUL.

(** The three statements a conversion is shown with. *)
Definition good (convert : list byte -> nat -> C W (list byte))
    (bufs : list byte * list byte) : C W (list byte * list byte) :=
  good_buffer ← convert (fst bufs) 50%nat;
  printed "Good Buffer: " good_buffer;;
  mret (cleared good_buffer, snd bufs).

Definition bad (convert : list byte -> nat -> C W (list byte))
    (bufs : list byte * list byte) : C W (list byte * list byte) :=
  bad_buffer ← convert (snd bufs) 2%nat;
  printed "Bad Buffer: " bad_buffer;;
  mret (fst bufs, cleared bad_buffer).

(** [value_at] is the address of the local [value]. *)
Definition main (value_at : Z) (good_buffer bad_buffer : list byte) : C W Z :=
  let b := (good_buffer, bad_buffer) in
  out (ln "Character Types");;
  out (ln "char");;
  b ← good (convertChar "A") b;
  b ← bad (convertChar NUL) b;
  out (ln "int8_t");;
  b ← good (convertInt8 (-42)) b;
  out (ln "uint8_t");;
  b ← good (convertUInt8 255) b;
  out (ln "int16_t");;
  b ← good (convertInt16 (-12345)) b;
  b ← bad (convertInt16 32767) b;
  out (ln "uint16_t");;
  b ← good (convertUInt16 65535) b;
  out (ln "int32_t");;
  b ← good (convertInt32 (-2147483648)) b;
  b ← bad (convertInt32 2147483647) b;
  out (ln "uint32_t");;
  b ← good (convertUInt32 4294967295) b;
  out (ln "int");;
  b ← good (convertInt (-2147483648)) b;
  b ← bad (convertInt 2147483647) b;
  out (ln "unsigned int");;
  b ← good (convertUInt 12345) b;
  b ← bad (convertUInt 2147483647) b;
  out (ln "long");;
  b ← good (convertLong 4294967295) b;
  b ← bad (convertLong 5000000000) b;
  out (ln "unsigned long");;
  b ← good (convertULong 4294967295) b;
  b ← bad (convertULong 5000000000) b;
  out (ln "long long");;
  b ← good (convertLongLong (-9223372036854775808)) b;
  b ← bad (convertLongLong 9223372036854775807) b;
  out (ln "unsigned long long");;
  b ← good (convertULongLong 18446744073709551615) b;
  b ← bad (convertULongLong 18446744073709551615) b;
  out (ln "float");;
  b ← good (convertFloat (literal 24 314159 100000)) b;
  b ← bad (convertFloat FLT_MAX) b;
  out (ln "double");;
  b ← good (convertDouble DBL_MAX) b;
  out (ln "long double");;
  b ← good (convertLongDouble
              (literal 64 3141592653589793238462643383279502884 (10 ^ 36))) b;
  b ← bad (convertLongDouble (literal 64 98765432109876543210 (10 ^ 10))) b;
  out (ln "bool");;
  b ← good (convertBool true) b;
  b ← bad (convertBool false) b;
  out (ln (nl +:+ "Pointer Types"));;
  out (ln "type*");;
  b ← good (convertPointer value_at) b;
  b ← bad (convertPointer 0) b;
  out (ln "size_t");;
  b ← good (convertSize 4) b;
  out (ln "ssize_t");;
  b ← good (convertSSize (-42)) b;
  b ← bad (convertSSize 12345) b;
  out (ln "off_t");;
  b ← good (convertOff 9876543210) b;
  b ← bad (convertOff (-1)) b;
  out (ln "pid_t");;
  b ← good (convertPid 12345) b;
  b ← bad (convertPid (-1)) b;
  out (ln "uid_t");;
  b ← good (convertUid 1000) b;
  out (ln "gid_t");;
  b ← good (convertGid 100) b;
  mret EXIT_SUCCESS.
End Convert.

(** ** Texts hold no NUL and have few characters *)

Lemma hex_char_not_nul (d : Z) : 0 <= d < 16 -> hex_char d <> NUL.
Proof.
  intros Hd E. apply (f_equal byte_val) in E. revert E. unfold hex_char.
  case_match; bools; rewrite byte_val_of, to_unsigned_small;
    change (byte_val NUL) with 0; change (2 ^ 8) with 256; lia.
Qed.

Lemma put_digits_no_nul (b : Z) (fuel : nat) (n : Z) (acc : string) :
  2 <= b <= 16 -> NUL ∉ chars acc -> NUL ∉ chars (put_digits b fuel n acc).
Proof.
  intros Hb. revert n acc. induction fuel as [|fuel IH]; intros n acc Ha; simpl; [done|].
  assert (NUL ∉ chars (String (hex_char (n mod b)) acc)) as Hn.
  { simpl. apply not_elem_of_cons. split; [|done]. apply not_eq_sym, hex_char_not_nul.
    pose proof (Z.mod_pos_bound n b ltac:(lia)). lia. }
  case_match; [done|]. by apply IH.
Qed.

Lemma put_digits_length (b : Z) (k : nat) (fuel : nat) (n : Z) (acc : string) :
  2 <= b -> 0 <= n < b ^ Z.of_nat (Datatypes.S k) ->
  (String.length (put_digits b fuel n acc) <= Datatypes.S k + String.length acc)%nat.
Proof.
  intros Hb. revert fuel n acc. induction k as [|k IH]; intros [|fuel] n acc Hn; simpl;
    try lia.
  - rewrite Z.pow_1_r in Hn. rewrite (proj2 (Z.ltb_lt n b)) by lia. simpl. lia.
  - destruct (n <? b); simpl; [lia|].
    rewrite (Nat2Z.inj_succ (Datatypes.S k)), Z.pow_succ_r in Hn by lia.
    etrans; [apply IH|simpl; lia].
    split; [apply Z.div_pos; lia | apply Z.div_lt_upper_bound; lia].
Qed.

Lemma fmt_u_no_nul (n : Z) : NUL ∉ chars (fmt_u n).
Proof. apply put_digits_no_nul; [lia|]. apply not_elem_of_nil. Qed.

Lemma fmt_d_no_nul (z : Z) : NUL ∉ chars (fmt_d z).
Proof.
  unfold fmt_d. case_match; [|apply fmt_u_no_nul].
  simpl. apply not_elem_of_cons. split; [done|apply fmt_u_no_nul].
Qed.

Lemma fmt_u_length (n : Z) : 0 <= n <= UINTMAX_MAX -> (String.length (fmt_u n) <= 20)%nat.
Proof.
  intros Hn. unfold fmt_u. etrans; [apply (put_digits_length 10 19)|done]; [lia|].
  change (10 ^ Z.of_nat 20) with 100000000000000000000. climits.
Qed.

Lemma fmt_d_length (z : Z) :
  INTMAX_MIN <= z <= INTMAX_MAX -> (String.length (fmt_d z) <= 20)%nat.
Proof.
  intros Hz. assert (forall n, 0 <= n <= - INTMAX_MIN -> (String.length (fmt_u n) <= 19)%nat) as Hu.
  { intros n Hn. unfold fmt_u. etrans; [apply (put_digits_length 10 18)|done]; [lia|].
    change (10 ^ Z.of_nat 19) with 10000000000000000000. climits. }
  unfold fmt_d. case_match; bools; simpl.
  - specialize (Hu (- z) ltac:(lia)). lia.
  - etrans; [apply Hu|lia]. climits.
Qed.

(** ** What [formatted] leaves in its buffer *)

(** The string a conversion of a text of length [n] leaves. *)
Definition shown (text : list byte) (size : nat) : list byte :=
  if (length text <? size)%nat then text else take (size - 1) (chars "E").

Section Spec.
Context {W : Type}.
Implicit Types s : cstate W.

Lemma snprintf_array_spec (text buffer : list byte) (size : nat) s :
  (size <= length buffer)%nat ->
  snprintf_array buffer size text s =
  (Val (if INT_MAX <? Z.of_nat (length text) then -1 else Z.of_nat (length text),
        snd (snprintf buffer size text)), s).
Proof. intros Hs. unfold snprintf_array. by rewrite (proj2 (Nat.ltb_ge _ _)) by lia. Qed.

(** A text that fits: it and its terminator are in the buffer. *)
Lemma snprintf_fits (text buffer : list byte) (size : nat) :
  (length text < size)%nat ->
  snd (snprintf buffer size text) =
  text ++ NUL :: drop (Datatypes.S (length text)) buffer.
Proof.
  intros Hl. destruct size as [|k]; [lia|]. simpl. unfold overwrite.
  rewrite (take_ge text), length_app, <- app_assoc by lia. simpl. by rewrite Nat.add_1_r.
Qed.

(** Every buffer that has room for it gets a terminator. *)
Lemma snprintf_terminated (text buffer : list byte) (size : nat) :
  size <> O -> NUL ∈ snd (snprintf buffer size text).
Proof.
  intros H0. destruct size as [|k]; [done|]. simpl. unfold overwrite. set_solver.
Qed.

Lemma formatted_spec (text buffer : list byte) (size : nat) s :
  (size <= length buffer)%nat -> Z.of_nat size <= INT_MAX ->
  exists buffer', formatted text buffer size s = (Val buffer', s) /\
    length buffer' = length buffer /\
    (NUL ∉ text \/ (size <= length text)%nat -> size <> O ->
     cstring buffer' = shown text size /\ NUL ∈ buffer').
Proof.
  intros Hs Hm. unfold formatted, shown.
  erewrite bind_val by by apply snprintf_array_spec. cbv beta iota.
  destruct (Nat.ltb_spec (length text) size) as [Hl|Hl].
  - rewrite snprintf_fits, (proj2 (Z.ltb_ge INT_MAX _)) by lia.
    rewrite to_unsigned_small by (change (2 ^ 64) with (SIZE_MAX + 1); climits).
    rewrite (proj2 (Z.leb_le _ _)), (proj2 (Z.ltb_lt _ _)) by lia. simpl.
    assert (length (text ++ NUL :: drop (Datatypes.S (length text)) buffer) = length buffer) as El.
    { rewrite length_app. simpl. rewrite length_drop. lia. }
    unfold array_set. rewrite El.
    rewrite (proj2 (Z.ltb_ge _ _)), (proj2 (Z.leb_gt _ _)) by lia. simpl.
    rewrite Nat2Z.id, list_insert_id by by rewrite lookup_app_r, Nat.sub_diag.
    eexists; split; [reflexivity|]. split; [done|].
    intros [Hn|?] _; [|lia]. split; [by apply cstring_app_nul|set_solver].
  - match goal with |- context [if ?b then array_set _ _ _ else _] =>
      assert (b = false) as -> end.
    { case_match; [done|]. bools.
      rewrite to_unsigned_small by (change (2 ^ 64) with (SIZE_MAX + 1); climits).
      rewrite (proj2 (Z.ltb_ge _ _)) by lia. apply andb_false_r. }
    pose proof (snprintf_length buffer size text ltac:(lia)) as Hl1.
    erewrite bind_val by (apply snprintf_array_spec; lia). cbv beta iota.
    eexists; split; [reflexivity|]. split; [by rewrite snprintf_length; lia|].
    intros _ H0. split.
    + apply snprintf_cstring; [lia|]. simpl. set_solver.
    + by apply snprintf_terminated.
Qed.
End Spec.

(** ** What [main] prints *)

Section Main.
Context {W : Type}.

Lemma printed_prints (label : string) (buffer : list byte) :
  NUL ∈ buffer ->
  prints (W:=W) (printed label buffer) tt
    [ln (tab +:+ label +:+ of_chars (cstring buffer))].
Proof. intros Hb. unfold printed. rewrite bool_decide_true by done. apply prints_out. Qed.

(** Using a buffer for a text and clearing it. *)
Lemma shows (text buffer : list byte) (size : nat) (label : string) {A} (f : list byte -> A) :
  (0 < size)%nat -> length buffer = size -> Z.of_nat size <= INT_MAX ->
  NUL ∉ text \/ (size <= length text)%nat ->
  prints (W:=W) (b ← formatted text buffer size; printed label b;; mret (f (cleared b)))
    (f (replicate size NUL)) [ln (tab +:+ label +:+ of_chars (shown text size))].
Proof.
  intros Hs Hb Hm Hn s.
  destruct (formatted_spec text buffer size s) as (b & E & El & Ec); [lia..|].
  destruct Ec as [Ec Hb']; [done|lia|].
  erewrite bind_val by exact E. erewrite bind_val by by apply printed_prints.
  unfold cleared. by rewrite El, Ec, Hb.
Qed.

Lemma good_shows (text g b : list byte) :
  length g = 50%nat -> NUL ∉ text ->
  prints (W:=W) (good (formatted text) (g, b)) (replicate 50 NUL, b)
    [ln (tab +:+ "Good Buffer: " +:+ of_chars (shown text 50))].
Proof.
  intros Hg Hn.
  apply (shows text g 50 "Good Buffer: " (fun g => (g, b))); [lia|done|climits|by left].
Qed.

(** No text is short enough for the bad buffer. *)
Lemma bad_shows (text g b : list byte) :
  length b = 2%nat -> (2 <= length text)%nat ->
  prints (W:=W) (bad (formatted text) (g, b)) (g, replicate 2 NUL)
    [ln (tab +:+ "Bad Buffer: E")].
Proof.
  intros Hb Hn.
  eapply prints_eq; [apply (shows text b 2 "Bad Buffer: " (fun b => (g, b)));
    [lia|done|climits|by right]|].
  unfold shown. by rewrite (proj2 (Nat.ltb_ge _ _)) by lia.
Qed.

(** An address of 64 bits has at most 16 hexadecimal digits. *)
Lemma hex_digits_text (fuel : nat) (n : Z) (acc : list byte) :
  NUL ∉ acc -> NUL ∉ hex_digits fuel n acc /\
  (length (hex_digits fuel n acc) <= fuel + length acc)%nat.
Proof.
  revert n acc. induction fuel as [|fuel IH]; intros n acc Ha; simpl; [by split; [|lia]|].
  assert (NUL ∉ lower_hex_char (n mod 16) :: acc) as Hn.
  { apply not_elem_of_cons. split; [|done]. intros E. apply (f_equal byte_val) in E.
    pose proof (Z.mod_pos_bound n 16 ltac:(lia)). revert E. unfold lower_hex_char.
    case_match; bools; rewrite byte_val_of, to_unsigned_small;
      change (byte_val NUL) with 0; change (2 ^ 8) with 256; lia. }
  case_match; [by split; [|simpl; lia]|]. destruct (IH (n / 16) _ Hn). simpl in *.
  split; [done|lia].
Qed.

Lemma fmt_p_text (address : Z) : NUL ∉ fmt_p address /\ (length (fmt_p address) <= 18)%nat.
Proof.
  unfold fmt_p. case_match; [split; [by apply no_nul_spec|simpl; lia]|].
  destruct (hex_digits_text 16 address []) as [Hn Hl]; [apply not_elem_of_nil|].
  split; [|rewrite length_app; simpl in *; lia].
  apply not_elem_of_app. split; [by apply no_nul_spec|done].
Qed.

(** One statement of [main]. *)
Ltac print_step :=
  lazymatch goal with
  | |- prints (mret _) _ _ => apply prints_ret
  | |- prints (out _ ≫= _) _ _ => eapply prints_bind; [apply prints_out|]
  | |- prints (good (formatted ?text) _ ≫= _) _ _ =>
      eapply prints_bind;
        [apply (good_shows text); [done|];
         lazymatch text with
         | _ ++ fmt_p ?address =>
             apply not_elem_of_app; split; [by apply no_nul_spec|apply (fmt_p_text address)]
         | _ => by apply no_nul_spec; vm_compute
         end|]
  | |- prints (bad (formatted ?text) _ ≫= _) _ _ =>
      eapply prints_bind;
        [apply (bad_shows text); [done|apply Nat.leb_le; by vm_compute]|]
  end; cbv beta.

Definition good_line (text : string) : string := ln (tab +:+ "Good Buffer: " +:+ text).
Definition bad_line : string := ln (tab +:+ "Bad Buffer: E").

(** Every value has its text in the good buffer, apart from [DBL_MAX], which has
    309 digits before the point; none fits the bad one. *)
Lemma main_shows (value_at : Z) (g b : list byte) :
  length g = 50%nat -> length b = 2%nat ->
  prints (W:=W) (main value_at g b) EXIT_SUCCESS
    [ ln "Character Types"; ln "char"; good_line "char: A"; bad_line;
      ln "int8_t"; good_line "int8_t: -42";
      ln "uint8_t"; good_line "uint8_t: 255";
      ln "int16_t"; good_line "int16_t: -12345"; bad_line;
      ln "uint16_t"; good_line "uint16_t: 65535";
      ln "int32_t"; good_line "int32_t: -2147483648"; bad_line;
      ln "uint32_t"; good_line "uint32_t: 4294967295";
      ln "int"; good_line "int: -2147483648"; bad_line;
      ln "unsigned int"; good_line "uint: 12345"; bad_line;
      ln "long"; good_line "long: 4294967295"; bad_line;
      ln "unsigned long"; good_line "ulong: 4294967295"; bad_line;
      ln "long long"; good_line "long long: -9223372036854775808"; bad_line;
      ln "unsigned long long"; good_line "ulonglong: 18446744073709551615"; bad_line;
      ln "float"; good_line "float: 3.14159"; bad_line;
      ln "double"; good_line "E";
      ln "long double"; good_line "long double: 3.141592653589793"; bad_line;
      ln "bool"; good_line "bool: true"; bad_line;
      ln (nl +:+ "Pointer Types"); ln "type*";
      good_line ("pointer: " +:+ of_chars (fmt_p value_at)); bad_line;
      ln "size_t"; good_line "size_t: 4";
      ln "ssize_t"; good_line "ssize_t: -42"; bad_line;
      ln "off_t"; good_line "off_t: 9876543210"; bad_line;
      ln "pid_t"; good_line "pid_t: 12345"; bad_line;
      ln "uid_t"; good_line "uid_t: 1000";
      ln "gid_t"; good_line "gid_t: 100" ].
Proof.
  intros Hg Hb. pose proof (fmt_p_text value_at) as [Hn Hl].
  eapply prints_eq.
  - unfold main, convertChar, convertInt8, convertUInt8, convertInt16, convertUInt16,
      convertInt32, convertUInt32, convertInt, convertUInt, convertLong, convertULong,
      convertLongLong, convertULongLong, convertFloat, convertDouble,
      convertLongDouble, convertBool, convertPointer, convertSize, convertSSize,
      convertOff, convertPid, convertUid, convertGid.
    repeat print_step.
  - cbn [app]. repeat (apply (f_equal2 cons); [|]).
    all: lazymatch goal with
         | |- context [fmt_p] => idtac
         | _ => by vm_compute
         end.
    unfold good_line, shown. rewrite length_app, (proj2 (Nat.ltb_lt _ _)); [done|].
    cbn [length chars]. lia.
Qed.
End Main.

(** ** The integer conversions *)

(** A conversion of integers: the name it prints, the values of its type,
    whether the type is signed, and the function. *)
Record conversion (W : Type) := Conversion {
  cv_name : string;
  cv_min : Z;
  cv_max : Z;
  cv_signed : bool;
  cv_run : Z -> list byte -> nat -> C W (list byte);
}.
Arguments Conversion {W} _ _ _ _ _.
Arguments cv_name {W} _.
Arguments cv_min {W} _.
Arguments cv_max {W} _.
Arguments cv_signed {W} _.
Arguments cv_run {W} _ _ _ _.

Definition integer_conversions {W} : list (conversion W) :=
  [ Conversion "int8_t" (-128) 127 true convertInt8;
    Conversion "uint8_t" 0 UINT8_MAX false convertUInt8;
    Conversion "int16_t" (-32768) 32767 true convertInt16;
    Conversion "uint16_t" 0 UINT16_MAX false convertUInt16;
    Conversion "int32_t" INT_MIN INT_MAX true convertInt32;
    Conversion "uint32_t" 0 UINT_MAX false convertUInt32;
    Conversion "int" INT_MIN INT_MAX true convertInt;
    Conversion "uint" 0 UINT_MAX false convertUInt;
    Conversion "long" LONG_MIN LONG_MAX true convertLong;
    Conversion "ulong" 0 ULONG_MAX false convertULong;
    Conversion "long long" LONG_MIN LONG_MAX true convertLongLong;
    Conversion "ulonglong" 0 ULONG_MAX false convertULongLong;
    Conversion "size_t" 0 SIZE_MAX false convertSize;
    Conversion "ssize_t" LONG_MIN LONG_MAX true convertSSize;
    Conversion "off_t" LONG_MIN LONG_MAX true convertOff;
    Conversion "pid_t" INT_MIN INT_MAX true convertPid;
    Conversion "uid_t" 0 UINT_MAX true convertUid;
    Conversion "gid_t" 0 UINT_MAX true convertGid ].

(** The function of the C library that reads a number of the type. *)
Definition read_back {W} (c : conversion W) (digits : string) : strto :=
  if cv_signed c then strtoimax_val digits else strtoumax_val digits.

(** The text before the digits. *)
Definition cv_label {W} (c : conversion W) : string := cv_name c +:+ ": ".

(** [c] formats every value of its type as its label and digits that denote
    the value. *)
Definition prints_digits {W} (c : conversion W) : Prop :=
  (String.length (cv_name c) <= 9)%nat /\ NUL ∉ chars (cv_label c) /\
  forall v, within (cv_min c) (cv_max c) v -> exists digits,
    cv_run c v = formatted (chars (cv_label c) ++ chars digits) /\
    read_back c digits = Strto v "" None /\
    NUL ∉ chars digits /\ (String.length digits <= 20)%nat.

Section Integers.
Context {W : Type}.
Implicit Types s : cstate W.

Lemma prints_signed (name : string) (min max : Z) run :
  (String.length name <= 9)%nat -> NUL ∉ chars (name +:+ ": ") ->
  INTMAX_MIN <= min -> max <= INTMAX_MAX ->
  (forall v, within min max v -> run v = formatted (chars (name +:+ ": " +:+ fmt_d v))) ->
  prints_digits (Conversion (W:=W) name min max true run).
Proof.
  intros Hl Hn Hmin Hmax Hrun. split; [done|]. split; [done|].
  intros v Hv. exists (fmt_d v). unfold within in *. simpl in *.
  rewrite Hrun, <- chars_app by done. unfold cv_label. simpl.
  rewrite <- string_app_assoc. split; [done|].
  split; [apply strtoimax_fmt_d; lia|]. split; [apply fmt_d_no_nul|].
  apply fmt_d_length. lia.
Qed.

Lemma prints_unsigned (name : string) (max : Z) run :
  (String.length name <= 9)%nat -> NUL ∉ chars (name +:+ ": ") -> max <= UINTMAX_MAX ->
  (forall v, within 0 max v -> run v = formatted (chars (name +:+ ": " +:+ fmt_u v))) ->
  prints_digits (Conversion (W:=W) name 0 max false run).
Proof.
  intros Hl Hn Hmax Hrun. split; [done|]. split; [done|].
  intros v Hv. exists (fmt_u v). unfold within in *. simpl in *.
  rewrite Hrun, <- chars_app by done. unfold cv_label. simpl.
  rewrite <- string_app_assoc. split; [done|].
  split; [apply strtoumax_fmt_u; lia|]. split; [apply fmt_u_no_nul|].
  apply fmt_u_length. lia.
Qed.

Lemma integer_conversions_print : Forall prints_digits (integer_conversions (W:=W)).
Proof.
  repeat apply Forall_cons_2; [..|apply Forall_nil_2];
    first [apply prints_unsigned|apply prints_signed];
    try (by apply no_nul_spec); try (simpl; lia); try climits;
    try (intros v Hv; reflexivity).
  all: intros v Hv; unfold convertOff, convertPid, convertUid, convertGid;
    rewrite to_signed_small; [reflexivity|lia|]; unfold within in Hv;
    change (2 ^ (64 - 1)) with (LONG_MAX + 1); climits.
Qed.

(** C28: whatever value of its type an integer conversion is given and however
    large the buffer is, it stays inside the buffer and leaves there either its
    label and digits from which [strtoimax] or [strtoumax] reads the value back,
    or the error text, never a number cut short; 32 characters are always
    enough. *)
Theorem integers_round_trip (i : nat) (c : conversion W) (v : Z)
    (buffer : list byte) (size : nat) s :
  integer_conversions !! i = Some c -> within (cv_min c) (cv_max c) v ->
  (0 < size <= length buffer)%nat -> Z.of_nat size <= INT_MAX ->
  exists buffer' digits,
    cv_run c v buffer size s = (Val buffer', s) /\
    length buffer' = length buffer /\
    read_back c digits = Strto v "" None /\
    (cstring buffer' = chars (cv_label c +:+ digits) \/
     cstring buffer' = take (size - 1) (chars "E") /\ (size < 32)%nat).
Proof.
  intros Hc Hv Hs Hm.
  pose proof (proj1 (Forall_lookup _ _) integer_conversions_print _ _ Hc) as (Hl & Hn & Hp).
  destruct (Hp v Hv) as (digits & E & Hr & Hd & Hlen).
  destruct (formatted_spec (chars (cv_label c) ++ chars digits) buffer size s)
    as (buffer' & Eb & Elen & Ec); [lia..|].
  destruct Ec as [Ec _]; [left; set_solver|lia|].
  exists buffer', digits. rewrite E. split; [done|]. split; [done|]. split; [done|].
  rewrite Ec, chars_app. unfold shown. case_match; bools; [by left|right].
  split; [done|]. rewrite length_app, !length_chars in *. unfold cv_label in *.
  rewrite string_length_app in *. simpl in *. lia.
Qed.
End Integers.

Lemma integers_round_trip_witness :
  exists buffer' digits,
    convertInt16 (-12345) (replicate 50 "x"%char) 50 (start tt) = (Val buffer', start tt) /\
    length buffer' = 50%nat /\ strtoimax_val digits = Strto (-12345) "" None /\
    cstring buffer' = chars ("int16_t: " +:+ digits).
Proof.
  destruct (integers_round_trip 2 (Conversion "int16_t" (-32768) 32767 true convertInt16)
              (-12345) (replicate 50 "x"%char) 50 (start tt))
    as (b & d & E & El & Er & [Ec|[_ Hs]]); [done|unfold within; simpl; lia|simpl; lia|climits|..].
  - exists b, d. done.
  - lia.
Defined.
