(* ===== verification/Reports.v ===== *)
(** * Programs that report the failure of a call

    Most programs of the repository read their command line, make a few library
    calls and print what those return.  This file has what they share: the
    structures the calls fill in, the judgement [reports], by which a program
    succeeds exactly when none of the calls it checks failed and otherwise says
    so, once, and fails, and the rules by which the files of the programs prove
    it. *)

From S2P Require Import Prelude CMonad CString Getopt ArgParse.

(** ** Structures filled in by calls

    A call hands over bytes ([r_data]); their layout belongs to the system, so
    the members are functions of the bytes. *)
Class Structs := {
  st_mode : list byte -> Z;
  st_size : list byte -> Z;
  st_ino : list byte -> Z;
  st_dev : list byte -> Z;
  st_nlink : list byte -> Z;
  st_uid : list byte -> Z;
  st_gid : list byte -> Z;
  st_atime : list byte -> Z;
  st_mtime : list byte -> Z;
  st_ctime : list byte -> Z;
  (* struct passwd, struct group *)
  pw_name : list byte -> string;
  pw_uid : list byte -> Z;
  pw_gid : list byte -> Z;
  pw_dir : list byte -> string;
  pw_shell : list byte -> string;
  gr_name : list byte -> string;
  gr_gid : list byte -> Z;
  gr_mem : list byte -> option (list string);
  (* struct dirent *)
  d_name : list byte -> string;
  d_ino : list byte -> Z;
  (* struct rlimit, struct timespec, struct timeval *)
  rlim_cur : list byte -> Z;
  rlim_max : list byte -> Z;
  tv_sec : list byte -> Z;
  tv_sub : list byte -> Z;
  (* wordexp_t, glob_t, and the directories glob could not read *)
  we_wordv : list byte -> list string;
  gl_pathv : list byte -> list string;
  gl_errors : list byte -> list (string * Z);
  (* struct tm, struct utsname *)
  tm_field : string -> list byte -> Z;
  uts_field : string -> list byte -> string;
}.

(** The text of an error number. *)
Class ErrorTexts := strerror : Z -> string.

(** ** Shorthand *)

Section Calls.
Context {W} `{Kernel W}.

(** A call by its name, and its result. *)
Definition call (name : string) (texts : list string) (numbers : list Z) : C W sysret :=
  sys (SCall name texts numbers).

(** A result of -1, or NULL. *)
Definition fails (r : sysret) : bool := r_val r =? -1.

(** [perror(msg); return EXIT_FAILURE;] *)
Definition perror_fail (msg : string) : C W Z := perror msg;; mret EXIT_FAILURE.

(** [perror(msg); exit(EXIT_FAILURE);] *)
Definition perror_exit {A} (msg : string) : C W A := perror msg;; exit_ EXIT_FAILURE.
End Calls.

(** ** The judgement *)

Section Reports.
(** Which results of which calls are failures the program has to report. *)
Context (checked : syscall -> sysret -> bool).

(** Nothing to report. *)
Definition fine (e : event) : Prop :=
  match e with ESys c r => checked c r = false | _ => True end.

(** The report of a failed call: [perror] with the error the call left, or a
    message of the program's own. *)
Definition is_report (r : sysret) (e : event) : Prop :=
  match e with
  | EPerror _ err => r_val r = -1 -> err = r_err r
  | EErr _ => True
  | _ => False
  end.

Definition is_call (e : event) : Prop :=
  match e with ESys _ _ => True | _ => False end.

(** How a run may end: without any failure and with success; or with a failure,
    its report, no further output, and the status of failure. *)
Inductive verdict : list event -> Z -> Prop :=
| verdict_success t : Forall fine t -> verdict t EXIT_SUCCESS
| verdict_failure t c r e release :
    Forall fine t -> checked c r = true -> is_report r e -> Forall is_call release ->
    verdict (t ++ ESys c r :: e :: release) EXIT_FAILURE.

Context {W : Type} `{Kernel W}.
Implicit Types s : cstate W.

(** A part of a program: it goes on with nothing to report, or exits. *)
Definition part {A} (m : C W A) (Q : A -> Prop) : Prop := forall s,
  wlp m (fun a s' => exists t, trace s' = trace s ++ t /\ Forall fine t /\ Q a)
    (fun c s' => exists t, trace s' = trace s ++ t /\ verdict t c) s.

(** A whole program (after its command line has been accepted). *)
Definition reports (m : C W Z) : Prop := forall s,
  wlp m (fun c s' => exists t, trace s' = trace s ++ t /\ verdict t c)
    (fun c s' => exists t, trace s' = trace s ++ t /\ verdict t c) s.

(** What is left to do after a report: calls that release what is held, and the
    end, by [exit] or with a value in [Q]. *)
Definition releases {A} (m : C W A) (Q : A -> Prop) : Prop := forall s,
  wlp m (fun a s' => Q a /\ exists l, trace s' = trace s ++ l /\ Forall is_call l)
    (fun c s' => c = EXIT_FAILURE /\ exists l,
       trace s' = trace s ++ l /\ Forall is_call l) s.

(** The end of a program after a call that returned [r] and left its error. *)
Definition ends {A} (r : sysret) (m : C W A) (Q : A -> Prop) : Prop := forall s,
  (r_val r = -1 -> errno s = r_err r) ->
  wlp m (fun a s' => Q a /\ exists e l,
           trace s' = trace s ++ e :: l /\ is_report r e /\ Forall is_call l)
    (fun c s' => c = EXIT_FAILURE /\ exists e l,
           trace s' = trace s ++ e :: l /\ is_report r e /\ Forall is_call l) s.

(** *** Rules *)

Lemma verdict_app t1 t2 c : Forall fine t1 -> verdict t2 c -> verdict (t1 ++ t2) c.
Proof.
  intros Hf Hv. inversion Hv; subst.
  - constructor. by apply Forall_app.
  - rewrite app_assoc. constructor; [by apply Forall_app|done..].
Qed.

Lemma part_ret {A} (a : A) (Q : A -> Prop) : Q a -> part (mret a) Q.
Proof. intros Hq s. apply wlp_ret. exists []. by rewrite app_nil_r. Qed.

Lemma part_bind {A B} (m : C W A) (f : A -> C W B) P Q :
  part m P -> (forall a, P a -> part (f a) Q) -> part (m ≫= f) Q.
Proof.
  intros Hm Hf s. apply wlp_bind. eapply wlp_mono; [apply Hm| |done].
  intros a s1 (t1 & E1 & Hf1 & Ha). simpl.
  eapply wlp_mono; [by apply Hf|..]; rewrite E1; simpl.
  - intros b s2 (t2 & E2 & Hf2 & Hb). exists (t1 ++ t2).
    rewrite E2, app_assoc. split_and!; [done|by apply Forall_app|done].
  - intros c s2 (t2 & E2 & Hv). exists (t1 ++ t2). rewrite E2, app_assoc.
    split; [done|by apply verdict_app].
Qed.

Lemma reports_bind {A} (m : C W A) (f : A -> C W Z) P :
  part m P -> (forall a, P a -> reports (f a)) -> reports (m ≫= f).
Proof.
  intros Hm Hf s. apply wlp_bind. eapply wlp_mono; [apply Hm| |done].
  intros a s1 (t1 & E1 & Hf1 & Ha). simpl.
  eapply wlp_mono; [by apply Hf|..]; rewrite E1; simpl;
    intros c s2 (t2 & E2 & Hv); exists (t1 ++ t2); rewrite E2, app_assoc;
    (split; [done|by apply verdict_app]).
Qed.

Lemma part_event {A} (m : C W A) (Q : A -> Prop) :
  (forall s, exists a e er, m s = (Val a, CState er (trace s ++ option_list e) (world s)) /\
     match e with Some e => fine e | None => True end /\ Q a) ->
  part m Q.
Proof.
  intros Hm s. destruct (Hm s) as (a & e & er & E & He & Hq). unfold wlp. rewrite E.
  exists (option_list e). split_and!; [done| |done]. destruct e; by repeat constructor.
Qed.

Lemma part_out t : part (out t) (fun _ => True).
Proof. apply part_event. intros s. by exists tt, (Some (EOut t)), (errno s). Qed.

Lemma part_eout t : part (eout t) (fun _ => True).
Proof. apply part_event. intros s. by exists tt, (Some (EErr t)), (errno s). Qed.

Lemma part_perror t : part (perror t) (fun _ => True).
Proof. apply part_event. intros s. by exists tt, (Some (EPerror t (errno s))), (errno s). Qed.

Lemma part_set_errno e : part (set_errno e) (fun _ => True).
Proof.
  apply part_event. intros s. exists tt, None, e. simpl. by rewrite app_nil_r.
Qed.

Lemma part_get_errno : part get_errno (fun _ => True).
Proof.
  apply part_event. intros s. exists (errno s), None, (errno s). simpl.
  rewrite app_nil_r. by destruct s.
Qed.

(** A call: what follows has nothing to report of it, or ends with its report. *)
Lemma part_sys_bind {A} c (f : sysret -> C W A) (Q : A -> Prop) :
  (forall r, checked c r = false -> part (f r) Q) ->
  (forall r, checked c r = true -> ends r (f r) (fun _ => False)) ->
  part (r ← sys c; f r) Q.
Proof.
  intros Hok Hbad s. apply wlp_bind. unfold wlp at 1, sys.
  destruct (kcall c (world s)) as [r w]. destruct (checked c r) eqn:Ec.
  - pose proof (Hbad r Ec) as Hb. eapply wlp_mono; [apply Hb; simpl; by intros ->|..];
      simpl; [by intros ? ? []|].
    intros z s' (-> & e & l & E & He & Hl). eexists. rewrite E, <- app_assoc.
    split; [done|]. by apply (verdict_failure []).
  - eapply wlp_mono; [by apply Hok|..]; simpl.
    + intros a s' (t & E & Hf & Hq). rewrite E, <- app_assoc. eexists. split; [done|].
      split; [by constructor|done].
    + intros z s' (t & E & Hv). rewrite E, <- app_assoc. eexists. split; [done|].
      apply (verdict_app [_]); [by repeat constructor|done].
Qed.

(** A program that goes on with the error number of a failed call. *)
Definition after (r : sysret) (m : C W Z) : Prop := forall s,
  errno s = r_err r ->
  wlp m (fun c s' => exists t, trace s' = trace s ++ t /\ verdict t c)
    (fun c s' => exists t, trace s' = trace s ++ t /\ verdict t c) s.

Lemma after_reports r m : reports m -> after r m.
Proof. intros Hm s _. apply Hm. Qed.

Lemma after_get_errno r (k : Z -> C W Z) : after r (k (r_err r)) -> after r (get_errno ≫= k).
Proof. intros Hk s Es. apply wlp_bind. unfold wlp at 1. simpl. rewrite Es. by apply Hk. Qed.

Lemma after_assoc {A B} r (m : C W A) (f : A -> C W B) (g : B -> C W Z) :
  after r (m ≫= (fun a => f a ≫= g)) -> after r ((m ≫= f) ≫= g).
Proof. intros Hm s Es. unfold wlp. rewrite bind_assoc. by apply Hm. Qed.

(** A call some of whose failures are no reason to stop. *)
Lemma reports_sys_errno c (f : sysret -> C W Z) :
  (forall r, checked c r = false -> r_val r <> -1 -> reports (f r)) ->
  (forall r, checked c r = false -> r_val r = -1 -> after r (f r)) ->
  (forall r, checked c r = true -> ends r (f r) (eq EXIT_FAILURE)) ->
  reports (r ← sys c; f r).
Proof.
  intros Hok He Hbad s. apply wlp_bind. unfold wlp at 1, sys.
  destruct (kcall c (world s)) as [r w]. destruct (checked c r) eqn:Ec.
  - pose proof (Hbad r Ec) as Hb. eapply wlp_mono; [apply Hb; simpl; by intros ->|..];
      simpl; intros z s' (Hz & e & l & E & Hr & Hl); assert (z = EXIT_FAILURE) as -> by done;
      eexists; rewrite E, <- app_assoc; (split; [done|by apply (verdict_failure [])]).
  - destruct (Z.eqb_spec (r_val r) (-1)) as [Er|Er];
      (eapply wlp_mono; [first [by apply He|by apply Hok]|..]);
      simpl; intros z s' (t & E & Hv);
      rewrite E, <- app_assoc; eexists; (split; [done|]);
      (apply (verdict_app [_]); [by repeat constructor|done]).
Qed.

Lemma reports_sys_bind c (f : sysret -> C W Z) :
  (forall r, checked c r = false -> reports (f r)) ->
  (forall r, checked c r = true -> ends r (f r) (eq EXIT_FAILURE)) ->
  reports (r ← sys c; f r).
Proof. intros Hok Hbad. apply reports_sys_errno; auto using after_reports. Qed.

Lemma part_sys c (Q : sysret -> Prop) :
  (forall r, checked c r = false) -> (forall r, Q r) -> part (sys c) Q.
Proof.
  intros Hc Hq s. apply wlp_sys. intros r w e _. exists [ESys c r].
  split_and!; [done| |done]. constructor; [apply Hc|constructor].
Qed.

Lemma reports_success : reports (mret EXIT_SUCCESS).
Proof. intros s. apply wlp_ret. exists []. rewrite app_nil_r. by repeat constructor. Qed.

Lemma part_exit_success {A} (Q : A -> Prop) : part (exit_ EXIT_SUCCESS) Q.
Proof. intros s. exists []. rewrite app_nil_r. by repeat constructor. Qed.

Lemma part_reports (m : C W Z) : part m (eq EXIT_SUCCESS) -> reports m.
Proof.
  intros Hm s. eapply wlp_mono; [apply Hm| |done].
  intros z s' (t & E & Hf & <-). exists t. split; [done|by constructor].
Qed.

Lemma ends_perror {A} r msg (k : unit -> C W A) Q :
  releases (k tt) Q -> ends r (perror msg ≫= k) Q.
Proof.
  intros Hk s Es. apply wlp_bind. unfold wlp at 1, perror. simpl.
  eapply wlp_mono; [apply Hk|..]; simpl; intros a s' (Ha & l & E & Hl);
    (split; [done|]); exists (EPerror msg (errno s)), l; by rewrite E, <- app_assoc.
Qed.

Lemma ends_eout {A} r msg (k : unit -> C W A) Q :
  releases (k tt) Q -> ends r (eout msg ≫= k) Q.
Proof.
  intros Hk s Es. apply wlp_bind. unfold wlp at 1. simpl.
  eapply wlp_mono; [apply Hk|..]; simpl; intros a s' (Ha & l & E & Hl);
    (split; [done|]); exists (EErr msg), l; by rewrite E, <- app_assoc.
Qed.

Lemma ends_get_errno {A} r (k : Z -> C W A) Q :
  r_val r = -1 -> ends r (k (r_err r)) Q -> ends r (get_errno ≫= k) Q.
Proof.
  intros Hr Hk s Es. apply wlp_bind. unfold wlp at 1. simpl. rewrite Es by done.
  by apply Hk.
Qed.

(** A text that depends on [errno] only. *)
Lemma ends_get_errno_text {A} r (k : Z -> C W A) Q :
  (forall e, ends r (k e) Q) -> ends r (get_errno ≫= k) Q.
Proof. intros Hk s Es. apply wlp_bind. unfold wlp at 1. simpl. by apply Hk. Qed.

Lemma releases_ret {A} (a : A) (Q : A -> Prop) : Q a -> releases (mret a) Q.
Proof. intros Hq s. apply wlp_ret. split; [done|]. exists []. by rewrite app_nil_r. Qed.

Lemma releases_exit {A} (Q : A -> Prop) : releases (exit_ EXIT_FAILURE) Q.
Proof. intros s. split; [done|]. exists []. by rewrite app_nil_r. Qed.

Lemma releases_sys {A} c (k : sysret -> C W A) Q :
  (forall r, releases (k r) Q) -> releases (sys c ≫= k) Q.
Proof.
  intros Hk s. apply wlp_bind, wlp_sys. intros r w e _.
  eapply wlp_mono; [apply Hk|..]; simpl; intros a s' (Ha & l & E & Hl);
    (split; [done|]); exists (ESys c r :: l); rewrite E, <- app_assoc;
    (split; [done|by constructor]).
Qed.

Lemma part_assoc {A B D} (m : C W A) (f : A -> C W B) (g : B -> C W D) Q :
  part (m ≫= (fun a => f a ≫= g)) Q -> part ((m ≫= f) ≫= g) Q.
Proof. intros Hm s. unfold wlp. rewrite bind_assoc. apply Hm. Qed.

Lemma reports_assoc {A B} (m : C W A) (f : A -> C W B) (g : B -> C W Z) :
  reports (m ≫= (fun a => f a ≫= g)) -> reports ((m ≫= f) ≫= g).
Proof. intros Hm s. unfold wlp. rewrite bind_assoc. apply Hm. Qed.

Lemma ends_assoc {A B D} r (m : C W A) (f : A -> C W B) (g : B -> C W D) Q :
  ends r (m ≫= (fun a => f a ≫= g)) Q -> ends r ((m ≫= f) ≫= g) Q.
Proof. intros Hm s Es. unfold wlp. rewrite bind_assoc. by apply Hm. Qed.

Lemma releases_assoc {A B D} (m : C W A) (f : A -> C W B) (g : B -> C W D) Q :
  releases (m ≫= (fun a => f a ≫= g)) Q -> releases ((m ≫= f) ≫= g) Q.
Proof. intros Hm s. unfold wlp. rewrite bind_assoc. apply Hm. Qed.

Lemma releases_exit_bind {A B} (f : A -> C W B) (Q : B -> Prop) :
  releases (exit_ EXIT_FAILURE ≫= f) Q.
Proof. intros s. split; [done|]. exists []. by rewrite app_nil_r. Qed.

Lemma part_for_each {A} (l : list A) (body : A -> C W unit) :
  Forall (fun x => part (body x) (fun _ => True)) l ->
  part (for_each l body) (fun _ => True).
Proof.
  induction 1 as [|x l Hx Hl IH]; simpl; [by apply part_ret|].
  eapply part_bind; [done|]. by intros ? _.
Qed.

Lemma part_loop {S R} (fuel : nat) (body : S -> C W (S + R)) x (Q : R -> Prop) :
  (forall x, part (body x) (fun r => match r with inl _ => True | inr v => Q v end)) ->
  part (loop fuel body x) Q.
Proof.
  intros Hb. revert x. induction fuel as [|fuel IH]; intros x; simpl; [done|].
  eapply part_bind; [apply Hb|]. intros [x'|v] Hv; simpl in *; [apply IH|by apply part_ret].
Qed.
End Reports.

(** The usual failures: a result of [-1] (or NULL), a negative one, one that is
    not 0, each for the calls of a list of names. *)
Definition named (names : list string) (c : syscall) : bool :=
  existsb (String.eqb (call_name c)) names.

Definition failing (minus_one negative nonzero : list string) (c : syscall) (r : sysret) :
    bool :=
  if named minus_one c then r_val r =? -1
  else if named negative c then r_val r <? 0
  else if named nonzero c then negb (r_val r =? 0)
  else false.

(** The same when one error of one call is no failure. *)
Definition failing_but (name : string) (err : Z) (names : list string) (c : syscall)
    (r : sysret) : bool :=
  if named [name] c then (r_val r =? -1) && negb (r_err r =? err)
  else failing names [] [] c r.

(** Lemmas on the functions that programs share. *)
Create HintDb reports.

(** One step of a proof of [reports]: the statement at the head of the program
    decides the rule. *)
Ltac checked_call H :=
  cbv [failing_but failing named call_name existsb String.eqb Ascii.eqb Bool.eqb orb] in H; simpl in H; unfold fails;
  try discriminate H; rewrite ?H; cbv beta iota.

Ltac reports_step :=
  lazymatch goal with
  | |- reports _ (let _ := _ in _) => cbv zeta
  | |- reports _ (mbind _ (mbind _ _)) => apply reports_assoc
  | |- part _ (mbind _ (mbind _ _)) _ => apply part_assoc
  | |- reports ?ck (mbind ?f (mret ?a)) => change (reports ck (f a)); cbv beta iota
  | |- part ?ck (mbind ?f (mret ?a)) ?Q => change (part ck (f a) Q); cbv beta iota
  | |- reports _ (mbind _ (call _ _ _)) => unfold call at 1
  | |- part _ (mbind _ (call _ _ _)) _ => unfold call at 1
  | |- reports _ (mbind _ (sys _)) =>
      apply reports_sys_bind; let r := fresh "r" in let Hr := fresh "Hr" in
      intros r Hr; checked_call Hr
  | |- part _ (mbind _ (sys _)) _ =>
      apply part_sys_bind; let r := fresh "r" in let Hr := fresh "Hr" in
      intros r Hr; checked_call Hr
  | |- reports _ (mbind _ (out _)) => eapply reports_bind; [apply part_out|intros _ _]
  | |- reports _ (mbind _ (eout _)) => eapply reports_bind; [apply part_eout|intros _ _]
  | |- reports _ (mbind _ (perror _)) => eapply reports_bind; [apply part_perror|intros _ _]
  | |- reports _ (mbind _ (set_errno _)) =>
      eapply reports_bind; [apply part_set_errno|intros _ _]
  | |- reports _ (mbind _ get_errno) =>
      eapply reports_bind; [apply part_get_errno|intros ? _]; cbv beta
  | |- part _ (mbind _ (out _)) _ => eapply part_bind; [apply part_out|intros _ _]
  | |- part _ (mbind _ (eout _)) _ => eapply part_bind; [apply part_eout|intros _ _]
  | |- part _ (mbind _ (perror _)) _ => eapply part_bind; [apply part_perror|intros _ _]
  | |- part _ (mbind _ (set_errno _)) _ =>
      eapply part_bind; [apply part_set_errno|intros _ _]
  | |- part _ (mbind _ get_errno) _ =>
      eapply part_bind; [apply part_get_errno|intros ? _]; cbv beta
  | |- reports _ (mbind _ (loop _ _ _)) =>
      apply reports_bind with (P := fun _ => True); [apply part_loop; intros ?|intros ? _]
  | |- part _ (mbind _ (loop _ _ _)) _ =>
      apply part_bind with (P := fun _ => True); [apply part_loop; intros ?|intros ? _]
  | |- reports _ (mbind _ (for_each _ _)) =>
      eapply reports_bind; [apply part_for_each; repeat constructor|intros _ _]
  | |- part _ (mbind _ (for_each _ _)) _ =>
      eapply part_bind; [apply part_for_each; repeat constructor|intros _ _]
  | |- reports _ (mbind _ (match ?x with _ => _ end)) => destruct x eqn:?; try discriminate
  | |- part _ (mbind _ (match ?x with _ => _ end)) _ => destruct x eqn:?; try discriminate
  | |- reports ?ck (mbind ?f ?m) =>
      first
        [ eapply reports_bind; [solve [eauto 2 with reports nocore]|intros ? _]
        | let m' := eval red in m in change (reports ck (mbind f m')); cbv beta ]
  | |- part ?ck (mbind ?f ?m) ?Q =>
      first
        [ eapply part_bind; [solve [eauto 2 with reports nocore]|intros ? _]
        | let m' := eval red in m in change (part ck (mbind f m') Q); cbv beta ]
  | |- reports _ (mret _) => apply reports_success
  | |- part _ (mret _) _ => apply part_ret
  | |- part _ (out _) _ => apply part_out
  | |- part _ (perror _) _ => apply part_perror
  | |- part _ (eout _) _ => apply part_eout
  | |- part _ (for_each _ _) _ => apply part_for_each; repeat constructor
  | |- reports _ (match ?x with _ => _ end) => destruct x eqn:?; try discriminate
  | |- part _ (match ?x with _ => _ end) _ => destruct x eqn:?; try discriminate
  | |- ends _ (mbind _ (mbind _ _)) _ => apply ends_assoc
  | |- ends ?r (mbind ?f (mret ?a)) ?Q => change (ends r (f a) Q); cbv beta iota
  | |- ends _ (mbind _ (perror _)) _ => apply ends_perror
  | |- ends _ (mbind _ (eout _)) _ => apply ends_eout
  | |- ends _ (mbind _ get_errno) _ => apply ends_get_errno; [by bools|]
  | |- ends _ (mbind _ (match ?x with _ => _ end)) _ => destruct x eqn:?; try discriminate
  | |- ends ?r (mbind ?f ?m) ?Q =>
      let m' := eval red in m in change (ends r (mbind f m') Q); cbv beta
  | |- ends ?r (match ?x with _ => _ end) _ => destruct x eqn:?; try discriminate
  | |- ends ?r ?m ?Q => let m' := eval red in m in change (ends r m' Q)
  | |- releases (mret _) _ => apply releases_ret
  | |- releases (exit_ _) _ => apply releases_exit
  | |- releases (mbind _ (mbind _ _)) _ => apply releases_assoc
  | |- releases (mbind ?f (mret ?a)) ?Q => change (releases (f a) Q); cbv beta iota
  | |- releases (mbind _ (exit_ _)) _ => apply releases_exit_bind
  | |- releases (mbind _ (sys _)) _ => apply releases_sys; intros ?
  | |- releases (mbind ?f ?m) ?Q =>
      let m' := eval red in m in change (releases (mbind f m') Q); cbv beta
  | |- releases ?m ?Q => let m' := eval red in m in change (releases m' Q)
  | |- reports ?ck ?m => let m' := eval red in m in change (reports ck m')
  | |- part ?ck ?m ?Q => let m' := eval red in m in change (part ck m' Q)
  | |- True => exact I
  | |- match _ with inl _ => _ | inr _ => _ end => cbn
  | |- _ = _ => reflexivity
  end.

(** ** Programs that give back what they get *)

(** A descriptor, or what a call by that name made: a handle, a mapping, a list. *)
Inductive resource := Descriptor (fd : Z) | Made (maker : string) (id : Z).

(** What a call by name makes when it succeeds: a thing named by the value; a thing
    of which there is one at most (the call returns 0); a descriptor; the two
    descriptors it stores, as an array of two [int]s. *)
Inductive made := Handle | Single | OneDescriptor | TwoDescriptors.

Definition makers : list (string * made) :=
  [("dlopen", Handle); ("mmap", Handle); ("sem_open", Handle); ("getifaddrs", Handle);
   ("getaddrinfo", Single); ("shm_open", OneDescriptor);
   ("pipe", TwoDescriptors); ("socketpair", TwoDescriptors)].

(** [fds[i]], on a little-endian machine. *)
Definition int_at (i : nat) (data : list byte) : Z :=
  to_signed 32 (foldr (fun b v => byte_val b + 256 * v) 0 (take 4 (drop (4 * i) data))).

(** The call that takes a thing back, and its maker. *)
Definition takers : list (string * string) :=
  [("dlclose", "dlopen"); ("munmap", "mmap"); ("sem_close", "sem_open");
   ("freeaddrinfo", "getaddrinfo"); ("freeifaddrs", "getifaddrs")].

Fixpoint find_name {B} (name : string) (l : list (string * B)) : option B :=
  match l with
  | [] => None
  | (n, b) :: l => if String.eqb n name then Some b else find_name name l
  end.

(** What a call gives, and what it takes back. *)
Definition opens (c : syscall) (r : sysret) : list resource :=
  match c with
  | SOpen _ _ | SMkstemp _ | SDup _ | SSocket _ _ _ | SAccept _ =>
      if r_val r =? -1 then [] else [Descriptor (r_val r)]
  | SFopen _ _ => if r_val r =? -1 then [] else [Made "fopen" (r_val r)]
  | SCall name _ _ =>
      match find_name name makers with
      | Some Single => if r_val r =? 0 then [Made name 0] else []
      | Some Handle => if r_val r =? -1 then [] else [Made name (r_val r)]
      | Some OneDescriptor => if r_val r =? -1 then [] else [Descriptor (r_val r)]
      | Some TwoDescriptors =>
          if r_val r =? -1 then []
          else [Descriptor (int_at 0 (r_data r)); Descriptor (int_at 1 (r_data r))]
      | None => []
      end
  | _ => []
  end.

Definition shuts (c : syscall) : list resource :=
  match c with
  | SClose fd => [Descriptor fd]
  | SFclose file => [Made "fopen" file]
  | SCall name _ numbers =>
      match find_name name takers with
      | Some maker => [Made maker (hd 0 numbers)]
      | None => []
      end
  | _ => []
  end.

Fixpoint opened (t : list event) : list resource :=
  match t with
  | [] => []
  | ESys c r :: t => opens c r ++ opened t
  | _ :: t => opened t
  end.

Fixpoint shut (t : list event) : list resource :=
  match t with
  | [] => []
  | ESys c _ :: t => shuts c ++ shut t
  | _ :: t => shut t
  end.

Lemma opened_app t1 t2 : opened (t1 ++ t2) = opened t1 ++ opened t2.
Proof. induction t1 as [|[] t1 IH]; simpl; rewrite ?IH, ?app_assoc; done. Qed.

Lemma shut_app t1 t2 : shut (t1 ++ t2) = shut t1 ++ shut t2.
Proof. induction t1 as [|[] t1 IH]; simpl; rewrite ?IH, ?app_assoc; done. Qed.

Lemma diagnostics_balanced (t : list event) :
  Forall is_diagnostic t -> opened t = [] /\ shut t = [].
Proof. induction 1 as [|[] t He Ht IH]; simpl in *; try done; by destruct He. Qed.

(** A relation between what was open and what was given back. *)
Class Ledger (R : list resource -> list resource -> Prop) := {
  ledger_proper :: Proper ((≡ₚ) ==> (≡ₚ) ==> iff) R;
  ledger_nil : R [] [];
  ledger_cons x l k : R l k -> R (x :: l) (x :: k) }.

(** [wlp], or, when [strict] fails, of the runs without undefined behaviour only. *)
Section Strict.
Context {W : Type} (strict : Prop).
Implicit Types s : cstate W.

Definition wlp_if {A} (m : C W A) (Q : A -> cstate W -> Prop) (E : Z -> cstate W -> Prop) s : Prop :=
  match m s with
  | (Val a, s') => Q a s'
  | (Exit c, s') => E c s'
  | (Undef _, _) => ~ strict
  | (NoFuel, _) => True
  end.

Lemma wlp_if_bind {A B} (m : C W A) (f : A -> C W B) Q E s :
  wlp_if m (fun a s' => wlp_if (f a) Q E s') E s -> wlp_if (m ≫= f) Q E s.
Proof. unfold wlp_if, mbind, C_bind. by destruct (m s) as [[a|c|u|] s']. Qed.

Lemma wlp_if_mono {A} (m : C W A) (Q Q' : A -> cstate W -> Prop) (E E' : Z -> cstate W -> Prop) s :
  wlp_if m Q E s -> (forall a s', Q a s' -> Q' a s') -> (forall c s', E c s' -> E' c s') ->
  wlp_if m Q' E' s.
Proof. unfold wlp_if. destruct (m s) as [[a|c|u|] s']; auto. Qed.

Lemma wlp_if_sys `{Kernel W} c (Q : sysret -> cstate W -> Prop) E s :
  (forall r w e, kcall c (world s) = (r, w) -> Q r (CState e (trace s ++ [ESys c r]) w)) ->
  wlp_if (sys c) Q E s.
Proof. intros H0. unfold wlp_if, sys. destruct (kcall c (world s)) as [r w] eqn:Ek. by apply H0. Qed.
End Strict.

Section Closes.
Context {W : Type} `{Kernel W}.
Implicit Types s : cstate W.

(** How what was open and what was given back must be related in the end, and whether
    a program that calls [exit] owes it too and undefined behaviour is excluded. *)
Context {R : list resource -> list resource -> Prop} `{!Ledger R} {strict : Prop}.

(** Run while the resources [held] are open, [m] ends in balance. *)
Definition settled (held : list resource) s s' : Prop :=
  exists t, trace s' = trace s ++ t /\ R (held ++ opened t) (shut t).

Definition balances {A} (held : list resource) (m : C W A) : Prop := forall s,
  wlp_if strict m (fun _ => settled held s) (fun _ s' => strict -> settled held s s') s.

(** [m] neither opens nor closes nor ends a program that would owe something. *)
Definition keeps_if {A} (m : C W A) : Prop := forall s,
  wlp_if strict m (fun _ s' => exists t, trace s' = trace s ++ t /\ opened t = [] /\ shut t = [])
    (fun _ _ => ~ strict) s.

Lemma closes_ret {A} (a : A) : balances [] (mret a).
Proof. intros s. exists []. rewrite app_nil_r. split; [done|apply ledger_nil]. Qed.

Lemma closes_exit {A} z : balances [] (exit_ z : C W A).
Proof. intros s _. exists []. rewrite app_nil_r. split; [done|apply ledger_nil]. Qed.

Lemma closes_exit_bind {A B} z (f : A -> C W B) : balances [] (exit_ z ≫= f).
Proof. intros s _. exists []. rewrite app_nil_r. split; [done|apply ledger_nil]. Qed.

(** Where [exit] owes nothing. *)
Lemma exit_owes_nothing {A} held z : ~ strict -> balances held (exit_ z : C W A).
Proof. by intros Hex s ?. Qed.

Lemma keeps_undef {A} u : ~ strict -> keeps_if (undef u : C W A).
Proof. by intros Hex s. Qed.

Lemma keeps_exit {A} z : ~ strict -> keeps_if (exit_ z : C W A).
Proof. by intros Hex s. Qed.

(** What follows events [t] that turn what was [held] into [held']. *)
Lemma balances_after {A} held held' (m : C W A) t s s1 :
  trace s1 = trace s ++ t ->
  (forall l, R (held' ++ opened l) (shut l) -> R (held ++ opened (t ++ l)) (shut (t ++ l))) ->
  balances held' m -> wlp_if strict m (fun _ => settled held s) (fun _ s' => strict -> settled held s s') s1.
Proof.
  intros E Ht Hm. eapply wlp_if_mono; [apply Hm|..]; simpl.
  - intros a s' (l & El & Hl). exists (t ++ l). rewrite El, E, app_assoc. auto.
  - intros z s' Hex He. destruct (Hex He) as (l & El & Hl). exists (t ++ l).
    rewrite El, E, app_assoc. auto.
Qed.

Lemma closes_keeps {A B} held (m : C W A) (f : A -> C W B) :
  keeps_if m -> (forall a, balances held (f a)) -> balances held (m ≫= f).
Proof.
  intros Hm Hf s. apply wlp_if_bind. eapply wlp_if_mono; [apply Hm| |by intros ? ? Hn He; destruct (Hn He)].
  intros a s1 (t & E & Ho & Hs). eapply (balances_after held held); [exact E| |by apply Hf].
  intros l. by rewrite opened_app, shut_app, Ho, Hs.
Qed.

Lemma closes_sys {A} held c (f : sysret -> C W A) :
  shuts c = [] -> (forall r, balances (opens c r ++ held) (f r)) ->
  balances held (r ← sys c; f r).
Proof.
  intros Hc Hf s. apply wlp_if_bind, wlp_if_sys. intros r w e _.
  eapply balances_after with (t := [ESys c r]); [done| |by apply Hf]. simpl. rewrite Hc. intros l.
  by rewrite <- app_assoc, (Permutation_app_swap_app (opens c r)).
Qed.

Lemma closes_shut {A} held c x (f : sysret -> C W A) :
  shuts c = [x] -> (forall r, opens c r = []) -> (forall r, balances held (f r)) ->
  balances (x :: held) (r ← sys c; f r).
Proof.
  intros Hc Ho Hf s. apply wlp_if_bind, wlp_if_sys. intros r w e _.
  eapply balances_after with (t := [ESys c r]); [done| |by apply Hf]. simpl. rewrite Hc, Ho.
  intros l. apply ledger_cons.
Qed.

Lemma closes_Permutation {A} held held' (m : C W A) :
  held ≡ₚ held' -> balances held' m -> balances held m.
Proof.
  intros Hp Hm s. apply (balances_after held held') with (t := []); [by rewrite app_nil_r| |done].
  intros l. by rewrite Hp.
Qed.

Lemma closes_assoc {A B D} held (m : C W A) (f : A -> C W B) (g : B -> C W D) :
  balances held (m ≫= (fun a => f a ≫= g)) -> balances held ((m ≫= f) ≫= g).
Proof. intros Hm s. unfold wlp_if. rewrite bind_assoc. apply Hm. Qed.

(** The same, with a value in [Q]. *)
Definition yields_if {A} (m : C W A) (Q : A -> Prop) : Prop := forall s,
  wlp_if strict m (fun a s' => exists t, trace s' = trace s ++ t /\ opened t = [] /\ shut t = [] /\ Q a)
    (fun _ _ => ~ strict) s.

Lemma closes_yields {A B} held (m : C W A) Q (f : A -> C W B) :
  yields_if m Q -> (forall a, Q a -> balances held (f a)) -> balances held (m ≫= f).
Proof.
  intros Hm Hf s. apply wlp_if_bind. eapply wlp_if_mono; [apply Hm| |by intros ? ? Hn He; destruct (Hn He)].
  intros a s1 (t & E & Ho & Hs & Ha). eapply (balances_after held held); [exact E| |by apply Hf].
  intros l. by rewrite opened_app, shut_app, Ho, Hs.
Qed.

Lemma yields_ret {A} (a : A) (Q : A -> Prop) : Q a -> yields_if (mret a) Q.
Proof. intros Ha s. exists []. by rewrite app_nil_r. Qed.

Lemma yields_keeps {A} (m : C W A) : keeps_if m -> yields_if m (fun _ => True).
Proof.
  intros Hm s. eapply wlp_if_mono; [apply Hm| |done]. simpl. intros a s' (t & E & Ho & Hs). eauto 6.
Qed.

Lemma keeps_yields {A} (m : C W A) Q : yields_if m Q -> keeps_if m.
Proof.
  intros Hm s. eapply wlp_if_mono; [apply Hm| |done].
  simpl. intros a s' (t & E & Ho & Hs & _). eauto.
Qed.

Lemma yields_bind {A B} (m : C W A) P (f : A -> C W B) Q :
  yields_if m P -> (forall a, P a -> yields_if (f a) Q) -> yields_if (m ≫= f) Q.
Proof.
  intros Hm Hf s. apply wlp_if_bind. eapply wlp_if_mono; [apply Hm| |done].
  intros a s1 (t & E & Ho & Hs & Ha). eapply wlp_if_mono; [by apply Hf| |done]; simpl.
  intros b s2 (t' & E' & Ho' & Hs' & Hb). exists (t ++ t').
  by rewrite E', E, app_assoc, opened_app, shut_app, Ho, Hs, Ho', Hs'.
Qed.

(** A call with a law. *)
Lemma yields_sys c (P : sysret -> Prop) :
  (forall (w : W) r w', kcall c w = (r, w') -> P r) ->
  (forall r, opens c r = []) -> shuts c = [] -> yields_if (sys c) P.
Proof.
  intros Hp Ho Hs s. apply wlp_if_sys. intros r w e Er. exists [ESys c r]. simpl.
  rewrite Ho, Hs. split_and!; [done..|by eapply Hp].
Qed.

Lemma keeps_ret {A} (a : A) : keeps_if (mret a).
Proof. intros s. exists []. by rewrite app_nil_r. Qed.

Lemma keeps_event e : opened [e] = [] -> shut [e] = [] -> keeps_if (emit e).
Proof. intros Ho Hs s. by exists [e]. Qed.

Lemma keeps_out t : keeps_if (out t).
Proof. by apply keeps_event. Qed.

Lemma keeps_eout t : keeps_if (eout t).
Proof. by apply keeps_event. Qed.

Lemma keeps_perror t : keeps_if (perror t).
Proof. intros s. by exists [EPerror t (errno s)]. Qed.

Lemma keeps_get_errno : keeps_if get_errno.
Proof. intros s. exists []. by rewrite app_nil_r. Qed.

Lemma keeps_bind {A B} (m : C W A) (f : A -> C W B) :
  keeps_if m -> (forall a, keeps_if (f a)) -> keeps_if (m ≫= f).
Proof.
  intros Hm Hf s. apply wlp_if_bind. eapply wlp_if_mono; [apply Hm| |done].
  intros a s1 (t & E & Ho & Hs). eapply wlp_if_mono; [apply Hf| |done]; simpl.
  intros b s2 (t' & E' & Ho' & Hs'). exists (t ++ t').
  by rewrite E', E, app_assoc, opened_app, shut_app, Ho, Hs, Ho', Hs'.
Qed.

Lemma keeps_sys c : (forall r, opens c r = []) -> shuts c = [] -> keeps_if (sys c).
Proof.
  intros Ho Hs s. apply wlp_if_sys. intros r w e _. exists [ESys c r]. simpl.
  by rewrite Ho, Hs.
Qed.

Lemma keeps_loop {S T} fuel (body : S -> C W (S + T)) x :
  (forall x, keeps_if (body x)) -> keeps_if (loop fuel body x).
Proof.
  intros Hb. revert x. induction fuel as [|fuel IH]; intros x; simpl; [done|].
  apply keeps_bind; [apply Hb|]. intros [x'|v]; [apply IH|apply keeps_ret].
Qed.

(** A command line comes before any call. *)
Lemma front_balances {A} (su : C W A) (G : A -> Prop) (body : A -> C W Z) :
  front su G -> (forall a, balances [] (body a)) -> balances [] (su ≫= body).
Proof.
  intros Hsu Hb s. destruct (Hsu s) as (t & Ht & E & _ & Hr). apply wlp_if_bind. unfold wlp_if at 1.
  destruct (diagnostics_balanced t Ht) as [Ho Hs].
  destruct (su s) as [[a|c|u|] s1]; simpl in *; [| |done..].
  - eapply (balances_after [] []); [exact E| |apply Hb]. intros l. by rewrite opened_app, shut_app, Ho, Hs.
  - intros _. exists t. rewrite Ho, Hs. split; [done|apply ledger_nil].
Qed.
End Closes.
Arguments balances {W} R strict {A} held m.
Arguments keeps_if {W} strict {A} m.
Arguments yields_if {W} strict {A} m Q.

(** However it ends, the program has given back exactly once each resource it held
    and each it got. *)
#[export] Instance permutation_ledger : Ledger (≡ₚ).
Proof. split; [apply _|done|by intros x l k ->]. Qed.

Definition closes {W} {A} (held : list resource) (m : C W A) : Prop :=
  balances (≡ₚ) True held m.

Definition keeps {W} {A} (m : C W A) : Prop := keeps_if True m.
Definition yields {W} {A} (m : C W A) (Q : A -> Prop) : Prop := yields_if True m Q.

Lemma front_closes {W A} (su : C W A) (G : A -> Prop) (body : A -> C W Z) :
  front su G -> (forall a, closes [] (body a)) -> closes [] (su ≫= body).
Proof. apply front_balances. Qed.


(** The call at the head decides: one that touches no descriptor, one that opens
    one, or the closing of one that is held. *)
Ltac keeps_step :=
  lazymatch goal with
  | |- keeps ?m => change (keeps_if True m); keeps_step
  | |- keeps_if _ (mbind _ _) => apply keeps_bind; [|intros ?; cbv beta]
  | |- keeps_if _ (mret _) => apply keeps_ret
  | |- keeps_if _ (out _) => apply keeps_out
  | |- keeps_if _ (eout _) => apply keeps_eout
  | |- keeps_if _ (perror _) => apply keeps_perror
  | |- keeps_if _ get_errno => apply keeps_get_errno
  | |- keeps_if _ (sys _) => apply keeps_sys; [intros ?; reflexivity|reflexivity]
  | |- keeps_if _ (loop _ _ _) => apply keeps_loop; intros ?
  | |- keeps_if _ (match ?x with _ => _ end) => destruct x eqn:?; try discriminate
  | |- keeps_if False (undef _) => apply keeps_undef; tauto
  | |- keeps_if _ (exit_ _) => apply keeps_exit; tauto
  | |- keeps_if ?ex ?m => let m' := eval red in m in change (keeps_if ex m'); cbv beta
  end.

(** The resources [l] but for [x]. *)
Ltac without x l :=
  lazymatch l with
  | x :: ?l' => l'
  | ?y :: ?l' => let r := without x l' in constr:(y :: r)
  end.

Ltac closes_step :=
  lazymatch goal with
  | |- closes ?l ?m => change (balances (≡ₚ) True l m); closes_step
  | |- balances _ _ _ (let _ := _ in _) => cbv zeta
  | |- balances _ _ _ (mbind _ (mbind _ _)) => apply closes_assoc
  | |- balances ?R ?ex ?l (mbind ?f (mret ?a)) => change (balances R ex l (f a)); cbv beta iota
  | |- balances _ _ _ (mbind _ (call _ _ _)) => unfold call at 1
  | |- balances _ _ _ (mbind _ (sys ?c)) =>
      let given := eval cbv [shuts find_name takers String.eqb Ascii.eqb Bool.eqb hd] in (shuts c) in
      lazymatch given with
      | [] =>
          apply closes_sys; [reflexivity|]; let r := fresh "r" in intros r;
          let got := eval cbv [opens find_name makers String.eqb Ascii.eqb Bool.eqb] in (opens c r) in
          change (opens c r) with got; unfold fails;
          lazymatch got with
          | [] => cbn [app]
          | if _ then [] else _ => destruct (r_val r =? -1) eqn:?; cbn [app]
          | _ => destruct (r_val r =? 0) eqn:?; cbn [app]
          end
      | _ =>
          first [apply closes_shut; [reflexivity|reflexivity|intros ?]
                |lazymatch goal with |- balances _ _ ?held _ =>
                   lazymatch given with [?x] =>
                     let held := eval cbn [fmap list_fmap] in held in
                     let rest := without x held in
                     apply closes_Permutation with (held' := x :: rest); [solve_Permutation|];
                     apply closes_shut; [reflexivity|reflexivity|intros ?]
                   end end]
      end
  | |- balances _ False _ (mbind _ (exit_ _)) => intros ? []
  | |- balances _ _ _ (mbind _ (exit_ _)) => apply closes_exit_bind
  | |- balances _ _ _ (mbind _ (match ?x with _ => _ end)) => destruct x eqn:?; try discriminate
  | |- balances _ _ _ (mret _) => apply closes_ret
  | |- balances _ False _ (exit_ _) => apply exit_owes_nothing; tauto
  | |- balances _ _ _ (exit_ _) => apply closes_exit
  | |- balances _ _ _ (match ?x with _ => _ end) => destruct x eqn:?; try discriminate
  | |- balances ?R ?ex ?l (mbind ?f ?m) =>
      first [apply closes_keeps; [solve [repeat keeps_step]|intros ?; cbv beta]
            |let m' := eval red in m in change (balances R ex l (mbind f m')); cbv beta]
  | |- balances ?R ?ex ?l ?m => let m' := eval red in m in change (balances R ex l m')
  end.
