(* ===== verification/Resolver.v ===== *)
(** * Names and addresses

    src/network-address and src/network-interface: the programs that resolve a
    name, show the address of one end of a connection, or list the interfaces.  An
    address structure is its bytes; the lists [getaddrinfo] and [getifaddrs] make
    are read out of the bytes the call hands over ([AddressLists]).  The theorems
    say what is released, on every path, and what is shown: getsockname clears the
    address it asked for before it prints it. *)

From S2P Require Import Prelude CMonad CString Getopt ArgParse NetworkPrograms OneOperand.
From S2P Require Import Words Servers Sockets Snprintf Reports.

(** [struct addrinfo]: [ai_addrlen] is the length of [ai_addr]. *)
Record addrinfo := AddrInfo { ai_family : Z; ai_addr : list byte }.
Definition ai_addrlen (a : addrinfo) : Z := Z.of_nat (length (ai_addr a)).

Class AddressLists := {
  ai_list : list byte -> list addrinfo;
  (* [ifa_name] and [ifa_addr], which may be NULL *)
  ifa_list : list byte -> list (string * option (list byte));
  gai_strerror : Z -> string;
}.

(** Members of [struct sockaddr_storage], [sockaddr_in] and [sockaddr_in6]. *)
Definition sa_family (b : list byte) : Z := le_value (take 2 b).
Definition sin_port (b : list byte) : Z := le_value (take 2 (drop 2 b)).
Definition sin_addr (b : list byte) : list byte := take 4 (drop 4 b).
Definition sin6_addr (b : list byte) : list byte := take 16 (drop 8 b).
Definition sizeof_sockaddr_storage : Z := 128.

(** [ntohs] is [htons]. *)
Definition ntohs (v : Z) : Z := htons v.

Definition AF_UNSPEC : Z := 0.

Section Shared.
Context {W} `{Kernel W} `{AddressLists}.

(** [getaddrinfo] with hints for streams of either family. *)
Definition getaddrinfo (host : string) (service : list string) : C W sysret :=
  call "getaddrinfo" (host :: service) [AF_UNSPEC; SOCK_STREAM].
Definition freeaddrinfo : C W unit := call "freeaddrinfo" [] [0];; mret tt.

Definition gai_error (status : Z) : C W unit :=
  eout (ln ("getaddrinfo: " +:+ gai_strerror status)).

(** [inet_ntop] into a buffer that holds [text]; NULL leaves it alone. *)
Definition inet_ntop (family : Z) (address : list byte) (text : option (list byte)) :
    C W (option (list byte)) :=
  r ← sys (SInetNtop family address);
  mret (if fails r then text else Some (r_data r)).

(** Reading the buffer as a string: it must have been written. *)
Definition the_text (text : option (list byte)) : C W string :=
  match text with Some t => mret (of_chars t) | None => undef "uninitialised text" end.

(** [memcpy(&dst, src, n)]: the source must have [n] bytes. *)
Definition copy_bytes (n : nat) (src : list byte) : C W (list byte) :=
  if (length src <? n)%nat then undef "memcpy past an address" else mret (take n src).

(** [for(rp = result; rp != NULL; rp = rp->ai_next)]: the first address [connect]
    accepts. *)
Fixpoint connect_first (sockfd : Z) (rps : list addrinfo) : C W (option addrinfo) :=
  match rps with
  | [] => mret None
  | rp :: rps =>
      r ← sys (SConnect sockfd (ai_addr rp));
      if r_val r =? 0 then mret (Some rp) else connect_first sockfd rps
  end.

(** The shape of getsockname and getpeername: a connected socket, a call that
    stores an address, and what is shown of it. *)
Definition with_connection (host service get : string)
    (show : addrinfo -> list byte -> C W unit) : C W Z :=
  sockfd ← sys (SSocket AF_INET (Z.lor SOCK_STREAM SOCK_CLOEXEC) 0);
  if fails sockfd then perror_fail "socket" else
  let fd := r_val sockfd in
  result ← getaddrinfo host [service];
  if negb (r_val result =? 0) then
    gai_error (r_val result);; sys (SClose fd);; mret EXIT_FAILURE
  else
  rp ← connect_first fd (ai_list (r_data result));
  match rp with
  | None => perror "connect";; sys (SClose fd);; freeaddrinfo;; mret EXIT_FAILURE
  | Some rp =>
      addr ← call get [] [fd];
      if fails addr then perror get;; sys (SClose fd);; freeaddrinfo;; mret EXIT_FAILURE else
      show rp (r_data addr);;
      sys (SClose fd);;
      freeaddrinfo;;
      mret EXIT_SUCCESS
  end.
End Shared.

(** ** The programs *)

(** [src/network-address/getsockname/main.c]: [local_addr] is cleared after the
    call; as a [sockaddr_in6] it is read past its end. *)
Module Getsockname.
Section Program.
Context {W} `{Kernel W} `{AddressLists}.

Definition show (rp : addrinfo) (_ : list byte) : C W unit :=
  let local_addr := replicate sizeof_sockaddr_in NUL in
  let ipstr := Some [] in
  if ai_family rp =? AF_INET then
    ipstr ← inet_ntop AF_INET (sin_addr local_addr) ipstr;
    text ← the_text ipstr;
    out (ln ("Local Address (IPv4): " +:+ text +:+ ":" +:+ fmt_d (ntohs (sin_port local_addr))))
  else if ai_family rp =? AF_INET6 then undef "reading past local_addr"
  else mret tt.

Definition body (args : string * string) : C W Z :=
  with_connection (fst args) (snd args) "getsockname" show.
Definition main (argv : list string) : C W Z :=
  network_address_getsockname.start_up argv ≫= body.
End Program.
End Getsockname.

(** [src/network-address/getpeername/main.c] *)
Module Getpeername.
Section Program.
Context {W} `{Kernel W} `{AddressLists}.

Definition with_connection (host service get : string)
    (show : addrinfo -> list byte -> C W unit) : C W Z := with_connection host service get show.

Definition show (service : string) (_ : addrinfo) (peer_addr : list byte) : C W unit :=
  ipstr ← inet_ntop AF_INET (sin_addr peer_addr) None;
  text ← the_text ipstr;
  out (ln ("Connected to: " +:+ text +:+ ":" +:+ service)).

Definition body (args : string * string) : C W Z :=
  with_connection (fst args) (snd args) "getpeername" (show (snd args)).
Definition main (argv : list string) : C W Z :=
  network_address_getpeername.start_up argv ≫= body.
End Program.
End Getpeername.

(** [src/network-address/getnameinfo/main.c]: the port is checked, and the text of
    the command line is passed on. *)
Module Getnameinfo.
Section Program.
Context {W} `{Kernel W} `{AddressLists}.

Definition NI_NUMERICSERV : Z := 2.

Definition display_address (addr : list byte) : C W unit :=
  let ss_family := sa_family addr in
  if (ss_family =? AF_INET) || (ss_family =? AF_INET6) then
    result ← call "getnameinfo" [of_chars addr] [NI_NUMERICSERV];
    if r_val result =? 0 then
      out (ln ("Address: " +:+ host_text (r_data result) +:+ ":" +:+ service_text (r_data result)))
    else
      eout (ln ("getnameinfo error: " +:+ gai_strerror (r_val result)));; exit_ EXIT_FAILURE
  else
    eout (ln ("Unsupported address family: " +:+ fmt_d ss_family));; exit_ EXIT_FAILURE.

Definition body (server_address port_str : string) : C W Z :=
  result ← getaddrinfo server_address [port_str];
  if negb (r_val result =? 0) then gai_error (r_val result);; mret EXIT_FAILURE else
  match ai_list (r_data result) with
  | [] => eout (ln "getaddrinfo returned no address information");; mret EXIT_FAILURE
  | first :: _ =>
      if sizeof_sockaddr_storage <? ai_addrlen first then
        eout (ln "Address size exceeds sockaddr_storage capacity");;
        freeaddrinfo;;
        mret EXIT_FAILURE
      else
        display_address (ai_addr first);;
        freeaddrinfo;;
        mret EXIT_SUCCESS
  end.

Definition main (argv : list string) : C W Z :=
  '(server_address, port_str) ← network_address_getnameinfo.parse_arguments argv;
  '(server_address, _) ← network_address_getnameinfo.handle_arguments (argv0 argv)
                           server_address port_str;
  body server_address (default "" port_str).
End Program.
End Getnameinfo.

(** [src/network-address/getaddrinfo-freeaddrinfo-gai_strerror/main.c] *)
Module Getaddrinfo.
Section Program.
Context {W} `{Kernel W} `{AddressLists}.

(** The version of a family, the size of its structure and its address. *)
Definition version (family : Z) : option (string * nat * (list byte -> list byte)) :=
  if family =? AF_INET then Some ("IPv4", sizeof_sockaddr_in, sin_addr)
  else if family =? AF_INET6 then Some ("IPv6", sizeof_sockaddr_in6, sin6_addr)
  else None.

(** One turn of the loop; [ipstr] is shared by all. *)
Definition show_address (hostname : string) (res : addrinfo) (ipstr : option (list byte)) :
    C W (option (list byte)) :=
  match version (ai_family res) with
  | Some (ipver, size, address_of) =>
      temp ← copy_bytes size (ai_addr res);
      ipstr ← inet_ntop (ai_family res) (address_of temp) ipstr;
      text ← the_text ipstr;
      out (ln ("Hostname: " +:+ hostname +:+ ", IP Address (" +:+ ipver +:+ "): " +:+ text));;
      mret ipstr
  | None =>
      eout (ln ("Unsupported address family: " +:+ fmt_d (ai_family res)));; mret ipstr
  end.

Fixpoint show_addresses (hostname : string) (l : list addrinfo) (ipstr : option (list byte)) :
    C W unit :=
  match l with
  | [] => mret tt
  | res :: l => ipstr ← show_address hostname res ipstr; show_addresses hostname l ipstr
  end.

Definition resolve_hostname_to_ip (hostname : string) : C W Z :=
  result ← getaddrinfo hostname [];
  if negb (r_val result =? 0) then gai_error (r_val result);; mret EXIT_FAILURE else
  show_addresses hostname (ai_list (r_data result)) None;;
  freeaddrinfo;;
  mret EXIT_SUCCESS.

Definition main (argv : list string) : C W Z :=
  start_with network_address_getaddrinfo.parse_arguments
    network_address_getaddrinfo.handle_arguments argv ≫= resolve_hostname_to_ip.
End Program.
End Getaddrinfo.

(** [src/network-address/inet_pton/main.c] *)
Module InetPton.
Section Program.
Context {W} `{Kernel W}.

Definition ipv4_address_str : string := "192.168.0.1".
Definition ipv6_address_str : string := "2001:0db8:85a3:0000:0000:8a2e:0370:7334".

(** [(unsigned char)(s_addr >> bits)], [s_addr] in memory order. *)
Definition octet (s_addr bits : Z) : Z := to_unsigned 8 (Z.shiftr s_addr bits).

(** [%02x] *)
Definition fmt_02x (v : Z) : string :=
  let digits := of_chars (hex_digits 2 v []) in
  repeat_char "0" (2 - String.length digits) +:+ digits.

Fixpoint print_bytes (bytes : list byte) : C W unit :=
  match bytes with
  | [] => mret tt
  | [b] => out (fmt_02x (byte_val b))
  | b :: bytes => out (fmt_02x (byte_val b));; out ":";; print_bytes bytes
  end.

Definition show_ipv4 : C W unit :=
  r ← sys (SInetPton AF_INET ipv4_address_str);
  if r_val r =? 1 then
    let s_addr := le_value (take 4 (r_data r)) in
    out (ln ("IPv4 Address: " +:+ fmt_u (octet s_addr 0) +:+ "." +:+ fmt_u (octet s_addr 8) +:+
             "." +:+ fmt_u (octet s_addr 16) +:+ "." +:+ fmt_u (octet s_addr 24)))
  else out (ln ("Invalid IPv4 Address: " +:+ ipv4_address_str)).

Definition show_ipv6 : C W unit :=
  r ← sys (SInetPton AF_INET6 ipv6_address_str);
  if r_val r =? 1 then
    out "IPv6 Address: ";; print_bytes (take 16 (r_data r));; out nl
  else out (ln ("Invalid IPv6 Address: " +:+ ipv6_address_str)).

Definition main : C W Z := show_ipv4;; show_ipv6;; mret EXIT_SUCCESS.
End Program.
End InetPton.

(** [src/network-address/inet_ntop/main.c] *)
Module InetNtop.
Section Program.
Context {W} `{Kernel W}.

Definition ipv4_bytes : list byte := byte_of <$> [192; 168; 0; 1].
Definition ipv6_bytes : list byte :=
  byte_of <$> [32; 1; 13; 184; 133; 163; 0; 0; 0; 0; 138; 46; 3; 112; 115; 52].

Definition show (label : string) (family : Z) (bytes : list byte) : C W unit :=
  str ← inet_ntop family bytes None;
  text ← the_text str;
  out (ln (label +:+ " Address: " +:+ text)).

Definition main : C W Z :=
  show "IPv4" AF_INET ipv4_bytes;; show "IPv6" AF_INET6 ipv6_bytes;; mret EXIT_SUCCESS.
End Program.
End InetNtop.

(** [src/network-interface/getifaddrs-freeifaddrs/main.c] *)
Module Getifaddrs.
Section Program.
Context {W} `{Kernel W} `{AddressLists}.

(** [%-12s] *)
Definition fmt_12s (s : string) : string := pad_right 12 s.

Definition show_interface (ifaddr : string * option (list byte)) (host : option (list byte)) :
    C W (option (list byte)) :=
  match snd ifaddr with
  | None => mret host
  | Some ifa_addr =>
      match Getaddrinfo.version (sa_family ifa_addr) with
      | None => mret host
      | Some (_, size, address_of) =>
          copy ← copy_bytes size ifa_addr;
          host ← inet_ntop (sa_family ifa_addr) (address_of copy) host;
          text ← the_text host;
          out (ln (fmt_12s (fst ifaddr) +:+ " : " +:+ text));;
          mret host
      end
  end.

Fixpoint show_interfaces (l : list (string * option (list byte))) (host : option (list byte)) :
    C W unit :=
  match l with
  | [] => mret tt
  | ifaddr :: l => host ← show_interface ifaddr host; show_interfaces l host
  end.

Definition main : C W Z :=
  interfaces ← call "getifaddrs" [] [];
  if fails interfaces then perror "getifaddrs";; mret 1 else
  out (ln "List of Network Interfaces:");;
  show_interfaces (ifa_list (r_data interfaces)) None;;
  call "freeifaddrs" [] [r_val interfaces];;
  mret EXIT_SUCCESS.
End Program.
End Getifaddrs.

(** ** What is released *)

(** A structure of a family holds an address of that family. *)
Definition whole (family : Z) (addr : list byte) : Prop :=
  (family = AF_INET -> (sizeof_sockaddr_in <= length addr)%nat) /\
  (family = AF_INET6 -> (sizeof_sockaddr_in6 <= length addr)%nat).

(** POSIX: [inet_ntop] does not fail on an address of a family it knows when the
    buffer has room for it; the lists hold whole structures; a socket of [AF_INET],
    the only kind these programs connect, connects to addresses of that family. *)
Class AddressLaws W `{Kernel W} `{AddressLists} := {
  ntop_works : forall family address (w : W) r w',
    (family = AF_INET /\ length address = 4%nat) \/
    (family = AF_INET6 /\ length address = 16%nat) ->
    kcall (SInetNtop family address) w = (r, w') -> r_val r <> -1;
  connects_ipv4 : forall fd addr (w : W) r w',
    kcall (SConnect fd addr) w = (r, w') -> r_val r = 0 -> sa_family addr = AF_INET;
  peer_whole : forall fd (w : W) r w', kcall (SCall "getpeername" [] [fd]) w = (r, w') ->
    r_val r <> -1 -> (sizeof_sockaddr_in <= length (r_data r))%nat;
  ai_whole : forall d, Forall (fun a =>
    sa_family (ai_addr a) = ai_family a /\ whole (ai_family a) (ai_addr a)) (ai_list d);
  ifa_whole : forall d, Forall (fun i : string * option (list byte) => forall a,
    snd i = Some a -> whole (sa_family a) a) (ifa_list d);
}.

Section Release.
Context {W} `{Kernel W} `{AddressLists} `{!AddressLaws W}.

Definition written (text : option (list byte)) : Prop := exists t, text = Some t.

Lemma inet_ntop_yields family address text :
  (family = AF_INET /\ length address = 4%nat) \/ (family = AF_INET6 /\ length address = 16%nat) ->
  yields (inet_ntop family address text) written.
Proof.
  intros Ha. unfold inet_ntop.
  eapply yields_bind; [apply (yields_sys _ (fun r => r_val r <> -1)); try done|].
  - intros w r w'. by apply ntop_works.
  - intros r Hr. apply yields_ret. unfold fails. rewrite (proj2 (Z.eqb_neq _ _)) by done. by eexists.
Qed.

(** Showing the text of an address. *)
Lemma show_text_yields text (f : string -> C W unit) :
  written text -> (forall t, keeps (f t)) -> yields (t ← the_text text; f t) (fun _ => True).
Proof. intros [t ->] Hf. apply yields_keeps, Hf. Qed.

Lemma connect_first_yields fd (l : list addrinfo) :
  Forall (fun a => sa_family (ai_addr a) = ai_family a) l ->
  yields (connect_first fd l)
    (fun rp => match rp with Some rp => ai_family rp = AF_INET | None => True end).
Proof.
  induction 1 as [|rp l Hrp Hl IH]; simpl; [by apply yields_ret|].
  eapply yields_bind; [apply (yields_sys _ (fun r => r_val r = 0 -> ai_family rp = AF_INET)); try done|].
  - intros w r w' Er E0. rewrite <- Hrp. by eapply connects_ipv4.
  - intros r Hr. destruct (Z.eqb_spec (r_val r) 0); [apply yields_ret; auto|done].
Qed.

Lemma ai_families d : Forall (fun a => sa_family (ai_addr a) = ai_family a) (ai_list d).
Proof. apply (list.Forall_impl _ _ _ (ai_whole d)). by intros a [? _]. Qed.

Lemma getaddrinfo_closes {A} held host service (f : sysret -> C W A) :
  (forall r, r_val r = 0 -> closes (Made "getaddrinfo" 0 :: held) (f r)) ->
  (forall r, r_val r <> 0 -> closes held (f r)) ->
  closes held (getaddrinfo host service ≫= f).
Proof.
  intros Hok Hbad. unfold getaddrinfo, call. apply closes_sys; [done|]. intros r.
  change (opens (SCall "getaddrinfo" (host :: service) [AF_UNSPEC; SOCK_STREAM]) r)
    with (if r_val r =? 0 then [Made "getaddrinfo" 0] else []).
  destruct (Z.eqb_spec (r_val r) 0); [by apply Hok|by apply Hbad].
Qed.

Lemma with_connection_closes host service get show (G : sysret -> Prop) :
  (forall fd, yields (call get [] [fd]) G) ->
  (forall rp r, ai_family rp = AF_INET -> G r -> r_val r <> -1 -> keeps (show rp (r_data r))) ->
  closes [] (with_connection host service get show).
Proof.
  intros Hg Hs. unfold with_connection. closes_step; [repeat closes_step|].
  apply getaddrinfo_closes; intros result E0;
    [rewrite (proj2 (Z.eqb_eq _ _) E0)|rewrite (proj2 (Z.eqb_neq _ _) E0)]; cbn [negb];
    [|unfold gai_error; repeat closes_step].
  eapply closes_yields; [apply connect_first_yields, ai_families|].
  intros [rp|] Hrp; [|unfold freeaddrinfo; repeat closes_step].
  eapply closes_yields; [apply Hg|]. intros addr Ha. unfold fails.
  destruct (Z.eqb_spec (r_val addr) (-1)); [unfold freeaddrinfo; repeat closes_step|].
  apply closes_keeps; [by apply Hs|]. intros _. unfold freeaddrinfo. repeat closes_step.
Qed.

Lemma getsockname_closes args : closes [] (Getsockname.body args).
Proof.
  apply (with_connection_closes _ _ _ _ (fun _ => True)).
  - intros fd. by apply yields_sys.
  - intros rp r Hrp _ _. unfold Getsockname.show. rewrite Hrp. cbv zeta.
    eapply keeps_yields, yields_bind; [apply inet_ntop_yields; by left|].
    intros text Ht. apply show_text_yields; [done|]. intros t. repeat keeps_step.
Qed.

Lemma getpeername_closes args : closes [] (Getpeername.body args).
Proof.
  apply (with_connection_closes _ _ _ _
           (fun r => r_val r <> -1 -> (sizeof_sockaddr_in <= length (r_data r))%nat)).
  - intros fd. apply yields_sys; [|done..]. intros w r w'. apply peer_whole.
  - intros rp r _ Hr Hn. specialize (Hr Hn). unfold Getpeername.show.
    eapply keeps_yields, yields_bind; [apply inet_ntop_yields; left|].
    + split; [done|]. unfold sin_addr, sizeof_sockaddr_in in *. rewrite length_take, length_drop. lia.
    + intros text Ht. apply show_text_yields; [done|]. intros t. repeat keeps_step.
Qed.

(** What one address of a list is shown with. *)
Lemma version_yields family addr text (f : option (list byte) -> C W (option (list byte))) v size ao :
  Getaddrinfo.version family = Some (v, size, ao) -> whole family addr ->
  (forall t, written t -> keeps (f t)) ->
  keeps (temp ← copy_bytes size addr; ipstr ← inet_ntop family (ao temp) text; f ipstr).
Proof.
  unfold Getaddrinfo.version. intros Hv [H4 H6] Hf.
  assert ((family = AF_INET /\ size = sizeof_sockaddr_in /\ ao = sin_addr) \/
          (family = AF_INET6 /\ size = sizeof_sockaddr_in6 /\ ao = sin6_addr)) as Hc.
  { case_all; bools; subst; auto. }
  assert (size <= length addr)%nat as Hl by (destruct Hc as [(? & -> & _)|(? & -> & _)]; auto).
  unfold copy_bytes. rewrite (proj2 (Nat.ltb_ge _ _)) by done.
  change (keeps (inet_ntop family (ao (take size addr)) text ≫= f)).
  eapply keeps_yields, yields_bind; [apply inet_ntop_yields|intros t Ht; by apply yields_keeps, Hf].
  destruct Hc as [(-> & -> & ->)|(-> & -> & ->)]; [left|right]; (split; [done|]);
    unfold sin_addr, sin6_addr, sizeof_sockaddr_in, sizeof_sockaddr_in6 in *;
    rewrite length_take, length_drop, length_take; lia.
Qed.

Lemma show_addresses_keeps host l text :
  Forall (fun a => sa_family (ai_addr a) = ai_family a /\ whole (ai_family a) (ai_addr a)) l ->
  keeps (Getaddrinfo.show_addresses host l text).
Proof.
  intros Hl. revert text. induction Hl as [|a l [_ Ha] Hl IH]; intros text; simpl; [apply keeps_ret|].
  apply keeps_bind; [|done]. unfold Getaddrinfo.show_address.
  destruct (Getaddrinfo.version (ai_family a)) as [[[v size] ao]|] eqn:Ev; [|repeat keeps_step].
  eapply version_yields; [done|done|]. intros t [b ->]. repeat keeps_step.
Qed.

Lemma getaddrinfo_main_closes host : closes [] (Getaddrinfo.resolve_hostname_to_ip host).
Proof.
  apply getaddrinfo_closes; intros result E0;
    [rewrite (proj2 (Z.eqb_eq _ _) E0)|rewrite (proj2 (Z.eqb_neq _ _) E0)]; cbn [negb];
    [|unfold gai_error; repeat closes_step].
  apply closes_keeps; [apply show_addresses_keeps, ai_whole|].
  intros _. unfold freeaddrinfo. repeat closes_step.
Qed.

Lemma show_interfaces_keeps l host :
  Forall (fun i : string * option (list byte) => forall a,
    snd i = Some a -> whole (sa_family a) a) l ->
  keeps (Getifaddrs.show_interfaces l host).
Proof.
  intros Hl. revert host. induction Hl as [|[n [a|]] l Ha Hl IH]; intros host; simpl;
    [apply keeps_ret| |apply keeps_bind; [apply keeps_ret|done]].
  apply keeps_bind; [|done]. unfold Getifaddrs.show_interface. simpl.
  destruct (Getaddrinfo.version (sa_family a)) as [[[v size] ao]|] eqn:Ev; [|apply keeps_ret].
  eapply version_yields; [done|by apply Ha|]. intros t [b ->]. repeat keeps_step.
Qed.

Lemma getifaddrs_closes : closes [] Getifaddrs.main.
Proof.
  unfold Getifaddrs.main. do 3 closes_step; [repeat closes_step|]. closes_step. closes_step.
  apply closes_keeps; [apply show_interfaces_keeps, ifa_whole|]. intros _. repeat closes_step.
Qed.
End Release.

(** ** What getnameinfo keeps

    Its [display_address] ends the program, and a list that is empty is not freed. *)

(** The list is not given back, and nothing else is open. *)
Definition list_kept (t : list event) : Prop :=
  opened t = [Made "getaddrinfo" 0] /\ shut t = [].

(** [getaddrinfo] returned the list [l]. *)
Definition listed `{AddressLists} (l : list addrinfo) (t : list event) : Prop :=
  exists texts numbers r, ESys (SCall "getaddrinfo" texts numbers) r ∈ t /\
    r_val r = 0 /\ ai_list (r_data r) = l.

(** An address of no family that is known, or that [getnameinfo] has no name for. *)
Definition unnamed (addr : list byte) (t : list event) : Prop :=
  (sa_family addr <> AF_INET /\ sa_family addr <> AF_INET6) \/
  exists r, ESys (SCall "getnameinfo" [of_chars addr] [Getnameinfo.NI_NUMERICSERV]) r ∈ t /\
    r_val r <> 0.

(** The program returns with everything given back, but for a list without an
    element; it is ended by its command line, with a diagnostic and before any call,
    or by an address it cannot name. *)
Definition keeps_unnamed {W} `{AddressLists} (m : C W Z) : Prop := forall s,
  wlp m
    (fun c s' => exists t, trace s' = trace s ++ t /\
       (opened t ≡ₚ shut t \/ c = EXIT_FAILURE /\ list_kept t /\ listed [] t))
    (fun c s' => exists t, trace s' = trace s ++ t /\
       (t <> [] /\ Forall is_diagnostic t \/
        c = EXIT_FAILURE /\ list_kept t /\
        exists first l, listed (first :: l) t /\ unnamed (ai_addr first) t)) s.

Section GetnameinfoFacts.
Context {W} `{Kernel W} `{AddressLists}.

(** A front end that hands on more than its result. *)
Lemma front_more {A B D} (m : C W A) (f : A -> C W B) (g : A -> B -> D) Q :
  front (m ≫= f) Q -> front (m ≫= fun x => f x ≫= fun y => mret (g x y)) (fun _ => True).
Proof.
  intros Hf s. destruct (Hf s) as (t & Ht & E & Ew & Hr). exists t.
  unfold mbind, C_bind, mret, C_ret in *. destruct (m s) as [[x|c|u|] s1]; try done.
  destruct (f x s1) as [[y|c|u|] s2]; by destruct_and?.
Qed.

(** The diagnostics before. *)
Lemma list_kept_after t1 t2 : Forall is_diagnostic t1 -> list_kept t2 -> list_kept (t1 ++ t2).
Proof using Type.
  intros [Ho Hs]%diagnostics_balanced. unfold list_kept. by rewrite opened_app, shut_app, Ho, Hs.
Qed.
Lemma listed_after l t1 t2 : listed l t2 -> listed l (t1 ++ t2).
Proof.
  intros (texts & numbers & r & Hr & H1). exists texts, numbers, r. rewrite elem_of_app. auto.
Qed.
Lemma unnamed_after addr t1 t2 : unnamed addr t2 -> unnamed addr (t1 ++ t2).
Proof using Type.
  intros [Hf|(r & Hr & Hn)]; [by left|]. right. exists r. rewrite elem_of_app. auto.
Qed.

(** Two calls that are the last: what is open after them. *)
Ltac ledger Er :=
  eexists; rewrite <- !app_assoc; split; [reflexivity|];
  unfold list_kept; simpl; rewrite ?Er; simpl.

Lemma getnameinfo_body (host port : string) : keeps_unnamed (Getnameinfo.body host port).
Proof.
  intros s. unfold Getnameinfo.body, getaddrinfo, call. apply wlp_bind, wlp_sys. intros r w e _.
  destruct (r_val r =? 0) eqn:Er; cbn [negb].
  2: { unfold wlp. simpl. ledger Er. by left. }
  apply Z.eqb_eq in Er as Er0.
  assert (forall l t, ai_list (r_data r) = l ->
    listed l (ESys (SCall "getaddrinfo" [host; port] [AF_UNSPEC; SOCK_STREAM]) r :: t)) as Hl.
  { intros l t E. eexists _, _, r. split; [left|done]. }
  destruct (ai_list (r_data r)) as [|first l] eqn:El.
  { unfold wlp. simpl. ledger Er. right. split_and!; [done..|by apply Hl]. }
  destruct (sizeof_sockaddr_storage <? ai_addrlen first).
  { apply wlp_bind. unfold wlp at 1. simpl. unfold freeaddrinfo, call. apply wlp_bind, wlp_bind, wlp_sys.
    intros q w1 e1 _. unfold wlp. simpl. ledger Er. by left. }
  apply wlp_bind. unfold Getnameinfo.display_address, call.
  destruct ((sa_family (ai_addr first) =? AF_INET) || (sa_family (ai_addr first) =? AF_INET6)) eqn:Ef.
  - apply wlp_bind, wlp_sys. intros g w1 e1 _. destruct (r_val g =? 0) eqn:Eg.
    + unfold wlp at 1. simpl. unfold freeaddrinfo, call. apply wlp_bind, wlp_bind, wlp_sys.
      intros q w2 e2 _. unfold wlp. simpl. ledger Er. by left.
    + unfold wlp. simpl. ledger Er. right. split_and!; [done..|]. exists first, l.
      split; [by apply Hl|]. right. exists g. split; [right; left|by apply Z.eqb_neq].
  - apply orb_false_iff in Ef as [Ef1%Z.eqb_neq Ef2%Z.eqb_neq].
    unfold wlp. simpl. ledger Er. right. split_and!; [done..|]. exists first, l.
    split; [by apply Hl|]. by left.
Qed.

Lemma getnameinfo_keeps (prog : string) (args : list string) :
  keeps_unnamed (Getnameinfo.main (prog :: args)).
Proof.
  intros s.
  pose (f := fun '(server_address, port_str) =>
    network_address_getnameinfo.handle_arguments (W:=W) (argv0 (prog :: args)) server_address port_str).
  pose (g := fun (x : cstr * cstr) (y : string * Z) => (fst y, snd x)).
  pose proof (front_more (network_address_getnameinfo.parse_arguments (prog :: args)) f g _
    (well_behaved_front _ W prog args (network_program 0 _ eq_refl))) as Hf.
  assert (Getnameinfo.main (prog :: args) s =
    ((network_address_getnameinfo.parse_arguments (prog :: args) ≫= fun x =>
        f x ≫= fun y => mret (g x y)) ≫= fun '(a, p) => Getnameinfo.body a (default "" p)) s) as Em.
  { unfold Getnameinfo.main, mbind, C_bind, mret, C_ret.
    destruct (network_address_getnameinfo.parse_arguments _ s) as [[[a p]|c|u|] s1]; try done. simpl.
    by destruct (network_address_getnameinfo.handle_arguments _ a p s1) as [[[a' p']|c|u|] s2]. }
  set (m := network_address_getnameinfo.parse_arguments _ ≫= _) in *.
  set (k := fun '(a, p) => Getnameinfo.body a (default "" p)) in *.
  assert (forall Q E, wlp (m ≫= k) Q E s -> wlp (Getnameinfo.main (prog :: args)) Q E s) as Hw
    by (intros Q E; unfold wlp; by rewrite Em).
  apply Hw, wlp_bind. clear Hw Em. destruct (Hf s) as (t & Ht & E & _ & Hr). unfold wlp at 1.
  destruct (m s) as [[[a p]|c|u|] s1]; simpl in *; [|by naive_solver|done..].
  eapply wlp_mono; [apply getnameinfo_body|..]; simpl; intros c s2 (t2 & E2 & Hk);
    exists (t ++ t2); (split; [by rewrite E2, E, app_assoc|]).
  - destruct Hk as [Hk|(-> & Hl & Hn)]; [left|right; eauto using list_kept_after, listed_after].
    destruct (diagnostics_balanced t Ht) as [Ho Hs]. by rewrite opened_app, shut_app, Ho, Hs.
  - destruct Hk as [[Hk Hd]|(-> & Hl & first & l & Hn & Hu)]; [left|right].
    { split; [by intros [_ ?]%app_nil|by apply Forall_app_2]. }
    split_and!; [done|by apply list_kept_after|].
    exists first, l. split; [by apply listed_after|by apply unnamed_after].
Qed.
End GetnameinfoFacts.

(** ** What is shown *)

(** The address of all zeros. *)
Definition any_address : list byte := replicate 4 NUL.

(** A run of getsockname: nothing was shown and it failed, or it succeeded and
    showed how [inet_ntop] writes the address of all zeros, and port 0. *)
Definition shows_zeros (t : list event) (c : Z) : Prop :=
  (c = EXIT_FAILURE /\ stdout_of t = "") \/
  (c = EXIT_SUCCESS /\ exists r, ESys (SInetNtop AF_INET any_address) r ∈ t /\
     stdout_of t = ln ("Local Address (IPv4): " +:+ of_chars (r_data r) +:+ ":0")).

Section Shown.
Context {W} `{Kernel W} `{AddressLists} `{!AddressLaws W}.
Implicit Types s : cstate W.

(** [m] says nothing on stdout. *)
Definition silent {A} (m : C W A) (Q : A -> Prop) : Prop := forall s,
  wlp m (fun a s' => exists t, trace s' = trace s ++ t /\ stdout_of t = "" /\ Q a)
    (fun _ _ => False) s.

Lemma silent_sys c (P : sysret -> Prop) :
  (forall (w : W) r w', kcall c w = (r, w') -> P r) -> silent (sys c) P.
Proof. intros Hp s. apply wlp_sys. intros r w e Er. exists [ESys c r]. eauto. Qed.

Lemma silent_bind {A B} (m : C W A) P (f : A -> C W B) Q :
  silent m P -> (forall a, P a -> silent (f a) Q) -> silent (m ≫= f) Q.
Proof.
  intros Hm Hf s. apply wlp_bind. eapply wlp_mono; [apply Hm| |done].
  intros a s1 (t & E & Ho & Ha). eapply wlp_mono; [by apply Hf| |done]; simpl.
  intros b s2 (t' & E' & Ho' & Hb). exists (t ++ t').
  by rewrite E', E, app_assoc, stdout_of_app, Ho, Ho'.
Qed.

Lemma silent_ret {A} (a : A) (Q : A -> Prop) : Q a -> silent (mret a) Q.
Proof. intros Ha s. exists []. by rewrite app_nil_r. Qed.

Lemma silent_emit e : stdout_of [e] = "" -> silent (emit e) (fun _ => True).
Proof. intros He s. by exists [e]. Qed.

Lemma silent_perror msg : silent (perror msg) (fun _ => True).
Proof. intros s. by exists [EPerror msg (errno s)]. Qed.

Lemma silent_call c : silent (sys c) (fun _ => True).
Proof. by apply silent_sys. Qed.

Lemma silent_connect fd (l : list addrinfo) :
  Forall (fun a => sa_family (ai_addr a) = ai_family a) l ->
  silent (connect_first fd l)
    (fun rp => match rp with Some rp => ai_family rp = AF_INET | None => True end).
Proof.
  induction 1 as [|rp l Hrp Hl IH]; simpl; [by apply silent_ret|].
  eapply silent_bind; [apply (silent_sys _ (fun r => r_val r = 0 -> ai_family rp = AF_INET))|].
  - intros w r w' Er E0. rewrite <- Hrp. by eapply connects_ipv4.
  - intros r Hr. destruct (Z.eqb_spec (r_val r) 0); [apply silent_ret; auto|done].
Qed.

(** A program all of whose output is described by [P]. *)
Definition tells (m : C W Z) (P : list event -> Z -> Prop) : Prop := forall s,
  wlp m (fun c s' => exists t, trace s' = trace s ++ t /\ P t c) (fun _ _ => False) s.

Lemma tells_bind {A} (m : C W A) Q (f : A -> C W Z) :
  silent m Q -> (forall a, Q a -> tells (f a) shows_zeros) -> tells (m ≫= f) shows_zeros.
Proof.
  intros Hm Hf s. apply wlp_bind. eapply wlp_mono; [apply Hm| |done].
  intros a s1 (t & E & Ho & Ha). eapply wlp_mono; [by apply Hf| |done]; simpl.
  intros c s2 (t' & E' & Hp). exists (t ++ t'). rewrite E', E, app_assoc. split; [done|].
  destruct Hp as [[-> Hp]|(-> & r & Hr & Hp)]; [left|right]; rewrite stdout_of_app, Ho, Hp;
    [done|]. split; [done|]. exists r. split; [|done]. apply elem_of_app. by right.
Qed.

Lemma tells_failure (m : C W Z) : silent m (eq EXIT_FAILURE) -> tells m shows_zeros.
Proof.
  intros Hm s. eapply wlp_mono; [apply Hm| |done]. simpl. intros c s' (t & E & Ho & <-).
  exists t. split; [done|]. by left.
Qed.

(** What follows the line that is shown. *)
Lemma tells_shown r (m : C W Z) (s : cstate W) t0 :
  ESys (SInetNtop AF_INET any_address) r ∈ t0 ->
  stdout_of t0 = ln ("Local Address (IPv4): " +:+ of_chars (r_data r) +:+ ":0") ->
  silent m (eq EXIT_SUCCESS) ->
  wlp m (fun c s' => exists t, trace s' = trace s ++ t /\ shows_zeros (t0 ++ t) c)
    (fun _ _ => False) s.
Proof.
  intros Hin Ht Hm. eapply wlp_mono; [apply Hm| |done]. simpl. intros c s' (t & E & Ho & <-).
  exists t. split; [done|]. right. split; [done|]. exists r. split; [apply elem_of_app; by left|].
  by rewrite stdout_of_app, Ht, Ho, string_app_nil_r.
Qed.
End Shown.

(** The statement at the head decides. *)
Ltac silent_step :=
  lazymatch goal with
  | |- silent (mbind _ _) _ => apply (silent_bind _ (fun _ => True)); [|intros ? ?; cbv beta]
  | |- silent (mret _) _ => by apply silent_ret
  | |- silent (sys _) _ => apply silent_call
  | |- silent (eout _) _ => by apply silent_emit
  | |- silent (perror _) _ => apply silent_perror
  | |- silent ?m ?Q => let m' := eval red in m in change (silent m' Q); cbv beta
  end.

Section Getsockname.
Context {W} `{Kernel W} `{AddressLists} `{!AddressLaws W}.

Lemma getsockname_tells args : tells (Getsockname.body args) shows_zeros.
Proof.
  unfold Getsockname.body, with_connection.
  apply (tells_bind _ (fun _ => True)); [silent_step|intros sockfd _]. destruct (fails sockfd).
  { apply tells_failure. repeat silent_step. }
  cbv zeta. apply (tells_bind _ (fun _ => True)); [repeat silent_step|intros result _].
  destruct (r_val result =? 0); cbn [negb].
  2: { apply tells_failure. repeat silent_step. }
  eapply tells_bind; [apply silent_connect, ai_families|]. intros [rp|] Hrp.
  2: { apply tells_failure. repeat silent_step. }
  apply (tells_bind _ (fun _ => True)); [repeat silent_step|intros addr _]. destruct (fails addr).
  { apply tells_failure. repeat silent_step. }
  intros s. unfold Getsockname.show. rewrite Hrp, Z.eqb_refl. cbv zeta.
  apply wlp_bind, wlp_bind. unfold inet_ntop. apply wlp_bind, wlp_sys. intros r w e Er.
  assert (r_val r <> -1) as Hn by (eapply ntop_works; [|exact Er]; by left).
  apply wlp_ret. unfold fails. rewrite (proj2 (Z.eqb_neq _ _) Hn).
  set (line := ln ("Local Address (IPv4): " +:+ of_chars (r_data r) +:+ ":0")).
  set (t0 := [ESys (SInetNtop AF_INET any_address) r; EOut line]).
  change (wlp (sys (SClose (r_val sockfd)) ≫= fun _ => freeaddrinfo;; mret EXIT_SUCCESS)
    (fun c s' => exists t, trace s' = trace s ++ t /\ shows_zeros t c) (fun _ _ => False)
    (CState e ((trace s ++ [ESys (SInetNtop AF_INET any_address) r]) ++ [EOut line]) w)).
  eapply wlp_mono; [apply (tells_shown r _ _ t0)| |done].
  - by left.
  - simpl. by rewrite string_app_nil_r.
  - repeat silent_step.
  - simpl. intros c s' (t & E & Hz). exists (t0 ++ t). by rewrite E, <- !app_assoc.
Qed.
End Getsockname.

(** ** The properties *)

(** A network where everything works and the only address is an IPv4 one. *)
Module OneAddress.
Definition an_address : list byte := le_bytes 2 AF_INET ++ replicate 14 "001"%char.
Definition text : list byte := ["1"; "."; "1"; "."; "1"; "."; "1"]%char.
Definition kernel : Kernel unit := fun c w =>
  (match c with
   | SConnect _ addr => if sa_family addr =? AF_INET then sys_ok 0 else sys_fail EIO
   | SInetNtop _ _ => sys_data 1 text
   | SSocket _ _ _ => sys_ok 3
   | SCall _ _ _ => sys_data 0 an_address
   | _ => sys_ok 0
   end, w).
Definition lists : AddressLists :=
  {| ai_list _ := [AddrInfo AF_INET an_address];
     ifa_list _ := [("lo", None); ("eth0", Some an_address)];
     gai_strerror _ := "" |}.

Lemma laws : @AddressLaws unit kernel lists.
Proof.
  split.
  - by intros family address w r w' _ [= <- _].
  - intros fd addr w r w' [= <- _] Er. destruct (Z.eqb_spec (sa_family addr) AF_INET); [done|].
    discriminate Er.
  - intros fd w r w' [= <- _] _. by apply Nat.leb_le.
  - intros d. apply Forall_singleton. split; [done|]. split; [intros _; by apply Nat.leb_le|discriminate].
  - intros d. apply Forall_cons_2; [discriminate|]. apply Forall_singleton. intros a [= <-].
    split; [intros _; by apply Nat.leb_le|discriminate].
Qed.
End OneAddress.

(** C34: the programs that resolve names and show addresses.  Whatever the system
    does within its laws, no text is read before it was written and no address
    structure past its end; in getsockname, getpeername, getaddrinfo and getifaddrs
    each socket is closed, and each list freed, exactly once, however the program
    ends.  Getnameinfo frees its list when it returns, but for a list without an
    element; it is ended, with [EXIT_FAILURE] and the list not freed, by an address
    whose family it does not know or that [getnameinfo] cannot name, and by nothing
    else but its command line. *)
Theorem address_programs_release {W} `{Kernel W} `{AddressLists} `{!AddressLaws W}
    (prog : string) (args : list string) :
  Forall (closes (W:=W) (A:=Z) [])
    [ Getsockname.main (prog :: args); Getpeername.main (prog :: args);
      Getaddrinfo.main (prog :: args); Getifaddrs.main ] /\
  keeps_unnamed (W:=W) (Getnameinfo.main (prog :: args)).
Proof.
  split; [|apply getnameinfo_keeps]. repeat first [apply Forall_nil_2 | apply Forall_cons_2].
  - eapply front_closes; [|apply getsockname_closes].
    exact (well_behaved_front _ W prog args (network_program 2 _ eq_refl)).
  - eapply front_closes; [|apply getpeername_closes].
    exact (well_behaved_front _ W prog args (network_program 1 _ eq_refl)).
  - eapply front_closes; [|apply getaddrinfo_main_closes].
    by apply (takes_one_front (fun W => start_with _ _)), start_takes_one_operand.
  - apply getifaddrs_closes.
Qed.

Lemma address_programs_release_witness :
  let _ : Kernel unit := OneAddress.kernel in
  let _ : AddressLists := OneAddress.lists in
  fst (Getpeername.main ["p"; "host"; "80"] (start tt)) = Val EXIT_SUCCESS /\
  fst (Getnameinfo.main ["p"; "host"; "80"] (start tt)) = Val EXIT_SUCCESS /\
  Forall (closes (W:=unit) (A:=Z) [])
    [ Getsockname.main ["p"; "host"; "80"]; Getpeername.main ["p"; "host"; "80"];
      Getaddrinfo.main ["p"; "host"; "80"]; Getifaddrs.main ] /\
  keeps_unnamed (W:=unit) (Getnameinfo.main ["p"; "host"; "80"]).
Proof.
  intros k l. split; [vm_compute; reflexivity|]. split; [vm_compute; reflexivity|].
  exact (@address_programs_release unit k l OneAddress.laws "p" ["host"; "80"]).
Defined.

(** The getsockname program never shows the address of its socket: a run that
    starts and ends with success shows the address of all zeros and port 0,
    whatever [getsockname] returned. *)
Theorem getsockname_shows_zeros {W} `{Kernel W} `{AddressLists} `{!AddressLaws W}
    (prog : string) (args : list string) (s : cstate W) :
  wlp (Getsockname.main (prog :: args))
    (fun c s' => exists t, trace s' = trace s ++ t /\ shows_zeros t c)
    (fun c s' => exists t, trace s' = trace s ++ t /\ Forall is_diagnostic t) s.
Proof.
  assert (front (network_address_getsockname.start_up (W:=W) (prog :: args)) (fun _ => True)) as Hf.
  { eapply front_weaken; [exact (well_behaved_front _ W prog args (network_program 2 _ eq_refl))|done]. }
  destruct (Hf s) as (t & Ht & E & _ & Hr). apply wlp_bind. unfold wlp at 1.
  destruct (network_address_getsockname.start_up (prog :: args) s) as [[a|c|u|] s1];
    simpl in *; [|by eauto|done..].
  eapply wlp_mono; [apply getsockname_tells| |done]. simpl. intros c s2 (t2 & E2 & Hz).
  exists (t ++ t2). rewrite E2, E, app_assoc. split; [done|].
  assert (stdout_of t = "") as Ho.
  { clear -Ht. induction Ht as [|[] t He]; simpl in *; try done; by destruct He. }
  destruct Hz as [[-> Hz]|(-> & r & Hin & Hz)]; [left|right]; rewrite stdout_of_app, Ho, Hz; [done|].
  split; [done|]. exists r. split; [|done]. apply elem_of_app. by right.
Qed.

Lemma getsockname_shows_zeros_witness :
  let _ : Kernel unit := OneAddress.kernel in
  let _ : AddressLists := OneAddress.lists in
  stdout_of (trace (snd (Getsockname.main ["p"; "host"; "80"] (start tt)))) =
    ln "Local Address (IPv4): 1.1.1.1:0" /\
  wlp (Getsockname.main ["p"; "host"; "80"])
    (fun c s' => exists t, trace s' = [] ++ t /\ shows_zeros t c)
    (fun c s' => exists t, trace s' = [] ++ t /\ Forall is_diagnostic t) (start tt).
Proof.
  intros k l. split; [vm_compute; reflexivity|].
  exact (@getsockname_shows_zeros unit k l OneAddress.laws "p" ["host"; "80"] (start tt)).
Defined.
