(* ===== verification/FileSystem.v ===== *)
(** * The file system programs

    The programs of src/file-system: a Module each, with the functions of its
    [main.c] after the command line.  [free] and [fprintf] to a terminal have no
    result the programs look at; [realloc] and [fopen] do. *)

From S2P Require Import Prelude CMonad CString Getopt ArgParse OneOperand OptionPrograms.
From S2P Require Import Reports.

(** Constants of <unistd.h>, <sys/stat.h> and <errno.h> (Linux). *)
Definition F_OK : Z := 0.
Definition X_OK : Z := 1.
Definition W_OK : Z := 2.
Definition R_OK : Z := 4.
Definition S_IRWXU : Z := 448.
Definition S_IRWXG : Z := 56.
Definition S_IRWXO : Z := 7.
Definition EACCES : Z := 13.
Definition EROFS : Z := 30.
Definition PC_PATH_MAX : Z := 4.
Definition PATH_LEN : Z := 4096.

(** [printf("%o", (unsigned int)mode & (S_IRWXU | S_IRWXG | S_IRWXO))] *)
Definition permissions (mode : Z) : string :=
  fmt_o (Z.land mode (Z.lor (Z.lor S_IRWXU S_IRWXG) S_IRWXO)).

(** The line the sample files hold. *)
Definition sample : string := ln "This is a sample file.".

(** [src/file-system/access/main.c] *)
Module Access.
Section Program.
Context {W} `{Kernel W} `{ErrorTexts}.

Definition check_file_access (filename : string) (mode : Z) (access_msg : string) :
    C W unit :=
  r ← call "access" [filename] [mode];
  if r_val r =? 0 then out (ln (filename +:+ " is " +:+ access_msg +:+ "."))
  else
    e ← get_errno;
    if (e =? EACCES) || (e =? EROFS)
    then out (ln (filename +:+ " is not " +:+ access_msg +:+ "."))
    else eout (ln ("Error (" +:+ fmt_d e +:+ ") accessing " +:+ filename +:+ ": " +:+ strerror e)).

Definition body (file_path : string) : C W Z :=
  check_file_access file_path R_OK "readable";;
  check_file_access file_path W_OK "writable";;
  check_file_access file_path X_OK "executable";;
  mret EXIT_SUCCESS.

Definition main (argv : list string) : C W Z :=
  start_with file_system_access.parse_arguments file_system_access.handle_arguments argv
    ≫= body.
End Program.
End Access.

(** The loop of [getcwd] with a buffer that doubles until the path fits; [None]
    is the failure of an allocation or of [getcwd]. *)
Section Getcwd.
Context {W} `{Kernel W}.

Definition getcwd_turn (size : Z) : C W (Z + option string) :=
  r ← sys (SAlloc size);
  if fails r then
    perror "Error allocating/reallocating memory for buffer";; mret (inr None)
  else
    r ← call "getcwd" [] [size];
    if negb (fails r) then mret (inr (Some (of_chars (r_data r))))
    else
      e ← get_errno;
      if e =? ERANGE then mret (inl (to_unsigned 64 (size * 2)))
      else perror "Error getting current working directory";; mret (inr None).

Definition getcwd_loop (fuel : nat) (path_max : Z) : C W (option string) :=
  loop fuel getcwd_turn (to_unsigned 64 path_max).

(** [pathconf], or [PATH_LEN] when it gives none. *)
Definition path_max_of (path : string) : C W Z :=
  r ← call "pathconf" [path] [PC_PATH_MAX];
  mret (if fails r then PATH_LEN else r_val r).
End Getcwd.

(** [src/file-system/chdir/main.c] *)
Module Chdir.
Section Program.
Context {W} `{Kernel W} (fuel : nat).

Definition getCurrentWorkingDirectory (path_max : Z) : C W (option string) :=
  getcwd_loop fuel path_max.

Definition printCurrentWorkingDirectory (path_max : Z) : C W unit :=
  cwd ← getCurrentWorkingDirectory path_max;
  match cwd with
  | None => exit_ EXIT_FAILURE
  | Some cwd => out (ln ("Current working directory: " +:+ cwd))
  end.

Definition body (directory_path : string) : C W Z :=
  path_max ← path_max_of directory_path;
  printCurrentWorkingDirectory path_max;;
  r ← call "chdir" [directory_path] [];
  (if fails r then perror_exit "chdir" else mret tt);;
  printCurrentWorkingDirectory path_max;;
  mret EXIT_SUCCESS.

Definition main (argv : list string) : C W Z :=
  start_with file_system_chdir.parse_arguments file_system_chdir.handle_arguments argv
    ≫= body.
End Program.
End Chdir.

(** [src/file-system/getcwd/main.c] *)
Module Getcwd.
Section Program.
Context {W} `{Kernel W} (fuel : nat).

Definition main : C W Z :=
  path_max ← path_max_of ".";
  buffer ← getcwd_loop fuel path_max;
  match buffer with
  | None => mret EXIT_FAILURE
  | Some buffer => out (ln ("Current working directory: " +:+ buffer));; mret EXIT_SUCCESS
  end.
End Program.
End Getcwd.

(** [src/file-system/chmod/main.c] *)
Module Chmod.
Section Program.
Context {W} `{Kernel W} `{Structs}.

Definition new_permissions : Z := 256 + 128 + 64 + 16 + 32 + 4.

Definition print_permissions (filename : string) : C W unit :=
  r ← call "stat" [filename] [];
  if fails r then perror_exit "Error getting file stats"
  else
    out (ln ("File: " +:+ filename));;
    out (ln ("Permissions: " +:+ permissions (st_mode (r_data r)))).

Definition main : C W Z :=
  let filename := "file.txt" in
  file ← sys (SFopen filename "we");
  if fails file then perror_fail "Error creating file" else
  sys (SFclose (r_val file));;
  out (ln "Before chmod:");;
  print_permissions filename;;
  r ← call "chmod" [filename] [new_permissions];
  if fails r then perror_fail "Error changing file permissions" else
  out (ln (nl +:+ "File permissions changed successfully."));;
  out (ln (nl +:+ "After chmod:"));;
  print_permissions filename;;
  r ← sys (SUnlink filename);
  if fails r then perror_fail "Error removing file" else
  mret EXIT_SUCCESS.
End Program.
End Chmod.

(** [src/file-system/chown/main.c] *)
Module Chown.
Section Program.
Context {W} `{Kernel W}.

Definition body (args : string * Z * Z) : C W Z :=
  let '(path, uid, gid) := args in
  r ← call "chown" [path] [uid; gid];
  (if fails r then perror_exit "chown" else mret tt);;
  out (ln "File ownership changed successfully.");;
  mret EXIT_SUCCESS.

Definition main (argv : list string) : C W Z :=
  file_system_chown.start_up argv ≫= body.
End Program.
End Chown.

(** [check_file_existence] of link, symlink and rename. *)
Definition check_file_existence {W} `{Kernel W} (filename message : string) : C W unit :=
  r ← call "access" [filename] [F_OK];
  if r_val r =? 0
  then out (ln (tab +:+ message +:+ " '" +:+ filename +:+ "' exists."))
  else out (ln (tab +:+ message +:+ " '" +:+ filename +:+ "' does not exist.")).

(** [if(file != NULL) { fprintf(file, ...); fclose(file); }] *)
Definition fill_if_open {W} `{Kernel W} (file : sysret) : C W unit :=
  if negb (fails file) then
    call "fprintf" [sample] [r_val file];; sys (SFclose (r_val file));; mret tt
  else mret tt.

(** [src/file-system/link/main.c] *)
Module Link.
Section Program.
Context {W} `{Kernel W}.

Definition create_sample_file (filename : string) : C W unit :=
  file ← sys (SFopen filename "we"); fill_if_open file.

Definition create_hard_link (source_filename link_filename : string) : C W unit :=
  r ← call "link" [source_filename; link_filename] [];
  if fails r then perror_exit "Error creating hard link" else mret tt.

Definition check_file_existence : string -> string -> C W unit := check_file_existence.

Definition main : C W Z :=
  let source_filename := "example.txt" in
  let link_filename := "hard_link.txt" in
  out (ln ("Creating file " +:+ source_filename));;
  create_sample_file source_filename;;
  check_file_existence source_filename "Source file";;
  check_file_existence link_filename "Link file";;
  out (ln ("Creating hard link " +:+ link_filename));;
  create_hard_link source_filename link_filename;;
  check_file_existence source_filename "Source file";;
  check_file_existence link_filename "Hard link";;
  out (ln ("Deleting file " +:+ source_filename));;
  r ← sys (SUnlink source_filename);
  if fails r then perror_fail "Error deleting source file" else
  check_file_existence source_filename "Source file";;
  check_file_existence link_filename "Hard link";;
  out (ln ("Deleting hard link " +:+ link_filename));;
  r ← sys (SUnlink link_filename);
  if fails r then perror_fail "Error deleting hard link" else
  check_file_existence source_filename "Source file";;
  check_file_existence link_filename "Hard link";;
  mret EXIT_SUCCESS.
End Program.
End Link.

(** [src/file-system/symlink/main.c] *)
Module Symlink.
Section Program.
Context {W} `{Kernel W}.

Definition create_sample_file (filename : string) : C W unit :=
  file ← sys (SFopen filename "we");
  if fails file then perror_exit "Error creating sample file"
  else call "fprintf" [sample] [r_val file];; sys (SFclose (r_val file));; mret tt.

Definition create_symbolic_link (source_filename link_filename : string) : C W unit :=
  r ← call "symlink" [source_filename; link_filename] [];
  if fails r then perror_exit "Error creating symbolic link" else mret tt.

Definition check_file_existence : string -> string -> C W unit := check_file_existence.

Definition main : C W Z :=
  let source_filename := "example.txt" in
  let link_filename := "symbolic_link.txt" in
  out (ln ("Creating file " +:+ source_filename));;
  create_sample_file source_filename;;
  check_file_existence source_filename "Source file";;
  check_file_existence link_filename "Symbolic link";;
  out (ln ("Creating symbolic link " +:+ link_filename));;
  create_symbolic_link source_filename link_filename;;
  check_file_existence source_filename "Source file";;
  check_file_existence link_filename "Symbolic link";;
  out (ln ("Deleting file " +:+ source_filename));;
  r ← sys (SUnlink source_filename);
  if fails r then perror_fail "Error deleting source file" else
  check_file_existence source_filename "Source file";;
  out (ln ("Deleting symbolic link " +:+ link_filename));;
  r ← sys (SUnlink link_filename);
  if fails r then perror_fail "Error deleting symbolic link" else
  check_file_existence link_filename "Symbolic link";;
  mret EXIT_SUCCESS.
End Program.
End Symlink.

(** [src/file-system/rename/main.c] *)
Module Rename.
Section Program.
Context {W} `{Kernel W}.

Definition check_file_existence : string -> string -> C W unit := check_file_existence.

Definition main : C W Z :=
  let old_filename := "old_file.txt" in
  let new_filename := "new_file.txt" in
  file ← sys (SFopen old_filename "we");
  fill_if_open file;;
  out (ln ("Creating file " +:+ old_filename));;
  check_file_existence old_filename "Original file";;
  check_file_existence new_filename "Renamed file";;
  out (ln ("Renaming file " +:+ old_filename +:+ " to " +:+ new_filename));;
  r ← call "rename" [old_filename; new_filename] [];
  if fails r then perror_fail "Error renaming file" else
  check_file_existence old_filename "Original file";;
  check_file_existence new_filename "Renamed file";;
  out (ln ("Removing file " +:+ new_filename));;
  r ← sys (SUnlink new_filename);
  if fails r then perror_fail "Error unlinking file" else
  check_file_existence old_filename "Original file";;
  check_file_existence new_filename "Renamed file";;
  mret EXIT_SUCCESS.
End Program.
End Rename.

(** [src/file-system/lstat/main.c] *)
Module Lstat.
Section Program.
Context {W} `{Kernel W} `{Structs}.

Definition body (file_path : string) : C W Z :=
  let symlink_name := "symlink_example.txt" in
  r ← call "symlink" [file_path; symlink_name] [];
  if fails r then perror_fail "Error creating symbolic link" else
  link_stat ← call "lstat" [symlink_name] [];
  if fails link_stat then perror_fail "Error getting link information" else
  target_stat ← call "stat" [symlink_name] [];
  if fails target_stat then perror_fail "Error getting target file information" else
  out (ln ("Symbolic link information for: " +:+ symlink_name));;
  out (ln ("Link size: " +:+ fmt_d (st_size (r_data link_stat)) +:+ " bytes"));;
  out (ln ("Link permissions: " +:+ permissions (st_mode (r_data link_stat))));;
  out (nl +:+ ln "Target file information (follows the symbolic link):");;
  out (ln ("Target size: " +:+ fmt_d (st_size (r_data target_stat)) +:+ " bytes"));;
  out (ln ("Target permissions: " +:+ permissions (st_mode (r_data target_stat))));;
  r ← sys (SUnlink symlink_name);
  if fails r then perror_fail "Error unlinking symbolic link" else
  mret EXIT_SUCCESS.

Definition main (argv : list string) : C W Z :=
  start_with file_system_lstat.parse_arguments file_system_lstat.handle_arguments argv
    ≫= body.
End Program.
End Lstat.

(** [src/file-system/mkdir-rmdir/main.c] *)
Module MkdirRmdir.
Section Program.
Context {W} `{Kernel W}.

Definition main : C W Z :=
  let tempdir_template := "example_dir" in
  r ← call "mkdir" [tempdir_template] [S_IRWXU];
  if fails r then perror_fail "Error creating temporary directory" else
  out (ln ("Directory created: " +:+ tempdir_template));;
  r ← call "rmdir" [tempdir_template] [];
  if fails r then perror_fail "Error removing temporary directory" else
  out (ln ("Temporary directory removed: " +:+ tempdir_template));;
  mret EXIT_SUCCESS.
End Program.
End MkdirRmdir.

(** [src/file-system/mkdtemp/main.c]: the call replaces the template with the
    name it made. *)
Module Mkdtemp.
Section Program.
Context {W} `{Kernel W}.

Definition main : C W Z :=
  r ← call "mkdtemp" ["exampleXXXXXX"] [];
  if fails r then perror_fail "Error creating temporary directory" else
  let tempdir_template := of_chars (r_data r) in
  out (ln ("Temporary directory created: " +:+ tempdir_template));;
  r ← call "rmdir" [tempdir_template] [];
  if fails r then perror_fail "Error removing temporary directory" else
  out (ln ("Temporary directory removed: " +:+ tempdir_template));;
  mret EXIT_SUCCESS.
End Program.
End Mkdtemp.

(** [src/file-system/opendir-closedir/main.c] *)
Module OpendirClosedir.
Section Program.
Context {W} `{Kernel W}.

Definition body (directory_path : string) : C W Z :=
  dir ← call "opendir" [directory_path] [];
  if fails dir then perror_fail "opendir" else
  out (ln ("Opened directory: " +:+ directory_path));;
  r ← call "closedir" [] [r_val dir];
  if fails r then perror_fail "closedir" else
  out (ln ("Closed directory: " +:+ directory_path));;
  mret EXIT_SUCCESS.

Definition main (argv : list string) : C W Z :=
  start_with file_system_opendir.parse_arguments file_system_opendir.handle_arguments argv
    ≫= body.
End Program.
End OpendirClosedir.

(** [src/file-system/readdir/main.c] *)
Module Readdir.
Section Program.
Context {W} `{Kernel W} `{Structs} (fuel : nat).

(** One turn of the loop; NULL ends it, at the end of the directory or on an
    error. *)
Definition entry_turn (dir : Z) (_ : unit) : C W (unit + unit) :=
  entry ← call "readdir" [] [dir];
  if fails entry then mret (inr tt)
  else
    out (ln ("Name: " +:+ d_name (r_data entry)));;
    out (ln ("Inode number: " +:+ fmt_u (d_ino (r_data entry))));;
    out nl;;
    mret (inl tt).

Definition body (directory_path : string) : C W Z :=
  dir ← call "opendir" [directory_path] [];
  if fails dir then perror_fail "opendir" else
  loop fuel (entry_turn (r_val dir)) tt;;
  r ← call "closedir" [] [r_val dir];
  if fails r then perror_fail "closedir" else
  mret EXIT_SUCCESS.

Definition main (argv : list string) : C W Z :=
  start_with file_system_readdir.parse_arguments file_system_readdir.handle_arguments argv
    ≫= body.
End Program.
End Readdir.

(** [src/file-system/stat/main.c] *)
Module Stat.
Section Program.
Context {W} `{Kernel W} `{Structs}.

Definition body (file_path : string) : C W Z :=
  r ← call "stat" [file_path] [];
  if fails r then perror_fail "Error getting file information" else
  out (ln ("File information for: " +:+ file_path));;
  out (ln ("File size: " +:+ fmt_d (st_size (r_data r)) +:+ " bytes"));;
  out (ln ("File permissions: " +:+ permissions (st_mode (r_data r))));;
  mret EXIT_SUCCESS.

Definition main (argv : list string) : C W Z :=
  start_with file_system_stat.parse_arguments file_system_stat.handle_arguments argv
    ≫= body.
End Program.
End Stat.

(** [src/file-system/truncate/main.c] *)
Module Truncate.
Section Program.
Context {W} `{Kernel W} `{Structs}.

Definition SIZE : Z := 9.

Definition check_file_size (filename message : string) : C W unit :=
  r ← call "stat" [filename] [];
  if r_val r =? 0
  then out (ln (tab +:+ message +:+ " of '" +:+ filename +:+ "' is " +:+
                fmt_d (st_size (r_data r)) +:+ " bytes."))
  else perror "Error getting file size".

Definition main : C W Z :=
  let filename := "example.txt" in
  file ← sys (SFopen filename "we");
  fill_if_open file;;
  check_file_size filename "Truncated file size";;
  let new_size := SIZE in
  out (ln ("Truncating file " +:+ filename +:+ " to " +:+ fmt_d new_size +:+ " bytes"));;
  r ← call "truncate" [filename] [new_size];
  if fails r then perror_fail "Error truncating file" else
  check_file_size filename "Truncated file size";;
  r ← sys (SUnlink filename);
  if fails r then perror_fail "Error unlinking file" else
  mret EXIT_SUCCESS.
End Program.
End Truncate.

(** [src/file-system/umask/main.c] *)
Module Umask.
Section Program.
Context {W} `{Kernel W} `{Structs}.

(** [S_IWUSR | S_IWGRP | S_IWOTH] *)
Definition no_write : Z := 128 + 16 + 2.

Definition create_file (filename content : string) : C W unit :=
  file ← sys (SFopen filename "we");
  if fails file then perror_exit "Error creating file" else
  r ← call "fprintf" [content] [r_val file];
  if r_val r <? 0 then
    perror "Error writing to file";; sys (SFclose (r_val file));; exit_ EXIT_FAILURE
  else sys (SFclose (r_val file));; mret tt.

Definition print_file_permissions (filename : string) : C W unit :=
  r ← call "stat" [filename] [];
  if fails r then perror "Error getting file stats"
  else
    out (ln ("File: " +:+ filename));;
    out (ln ("Permissions: " +:+ permissions (st_mode (r_data r)))).

Definition delete_file (filename : string) : C W unit :=
  r ← sys (SUnlink filename);
  if fails r then perror_exit "Error deleting file" else mret tt.

Definition main : C W Z :=
  let filename1 := "file1.txt" in
  let filename2 := "file2.txt" in
  old_mask ← call "umask" [] [0];
  create_file filename1 sample;;
  out (ln "File created with umask 000:");;
  print_file_permissions filename1;;
  call "umask" [] [no_write];;
  create_file filename2 sample;;
  out (ln (nl +:+ "File created with umask 222:"));;
  print_file_permissions filename2;;
  call "umask" [] [r_val old_mask];;
  delete_file filename1;;
  delete_file filename2;;
  mret EXIT_SUCCESS.
End Program.
End Umask.

(** [src/file-system/unlink/main.c] *)
Module Unlink.
Section Program.
Context {W} `{Kernel W}.

Definition body (file_path : string) : C W Z :=
  r ← call "access" [file_path] [F_OK];
  if r_val r =? 0 then
    eout (ln (file_path +:+ " already exists, please us a file that does not exist"));;
    mret EXIT_FAILURE
  else
  file ← sys (SFopen file_path "we");
  if fails file then perror_fail "Error creating file" else
  out (ln ("Created file " +:+ file_path));;
  call "fprintf" [sample] [r_val file];;
  sys (SFclose (r_val file));;
  r ← call "access" [file_path] [F_OK];
  if fails r then
    out (ln ("File '" +:+ file_path +:+ "' does not exist."));; mret EXIT_FAILURE
  else
  r ← sys (SUnlink file_path);
  if fails r then perror_fail "Error deleting file" else
  r ← call "access" [file_path] [F_OK];
  (if fails r
   then out (ln ("File '" +:+ file_path +:+ "' successfully deleted."))
   else out (ln ("File '" +:+ file_path +:+ "' was not deleted.")));;
  mret EXIT_SUCCESS.

Definition main (argv : list string) : C W Z :=
  start_with file_system_unlink.parse_arguments file_system_unlink.handle_arguments argv
    ≫= body.
End Program.
End Unlink.

(** ** Reports *)

Section Reports.
Context {W} `{Kernel W} `{Structs} `{ErrorTexts}.

Ltac solve_reports := repeat reports_step.

Lemma check_file_existence_part ck filename message :
  (forall r, ck (SCall "access" [filename] [F_OK]) r = false) ->
  part ck (check_file_existence filename message) (fun _ => True).
Proof. intros Hc. apply part_sys_bind; intros r Hr; [solve_reports|congruence]. Qed.

Lemma fill_if_open_part ck file :
  (forall r, ck (SCall "fprintf" [sample] [r_val file]) r = false) ->
  (forall r, ck (SFclose (r_val file)) r = false) ->
  part ck (fill_if_open file) (fun _ => True).
Proof.
  intros Hp Hc. unfold fill_if_open. case_match; [|by apply part_ret].
  apply part_sys_bind; intros r Hr; [|congruence].
  apply part_sys_bind; intros r' Hr'; [by apply part_ret|congruence].
Qed.

#[local] Hint Extern 1 (part _ (check_file_existence _ _) _) =>
  apply check_file_existence_part; intros; reflexivity : reports.
#[local] Hint Extern 1 (part _ (fill_if_open _) _) =>
  apply fill_if_open_part; intros; reflexivity : reports.

Lemma access_reports p : reports (failing [] [] []) (Access.body p).
Proof. solve_reports. Qed.

Lemma chmod_reports : reports (failing ["fopen"; "stat"; "chmod"; "unlink"] [] []) Chmod.main.
Proof. solve_reports. Qed.

Lemma chown_reports a : reports (failing ["chown"] [] []) (Chown.body a).
Proof. solve_reports. Qed.

Lemma link_reports : reports (failing ["link"; "unlink"] [] []) Link.main.
Proof. solve_reports. Qed.

Lemma symlink_reports : reports (failing ["fopen"; "symlink"; "unlink"] [] []) Symlink.main.
Proof. solve_reports. Qed.

Lemma rename_reports : reports (failing ["rename"; "unlink"] [] []) Rename.main.
Proof. solve_reports. Qed.

Lemma lstat_reports p :
  reports (failing ["symlink"; "lstat"; "stat"; "unlink"] [] []) (Lstat.body p).
Proof. solve_reports. Qed.

Lemma mkdir_reports : reports (failing ["mkdir"; "rmdir"] [] []) MkdirRmdir.main.
Proof. solve_reports. Qed.

Lemma mkdtemp_reports : reports (failing ["mkdtemp"; "rmdir"] [] []) Mkdtemp.main.
Proof. solve_reports. Qed.

Lemma opendir_reports p :
  reports (failing ["opendir"; "closedir"] [] []) (OpendirClosedir.body p).
Proof. solve_reports. Qed.

Lemma stat_reports p : reports (failing ["stat"] [] []) (Stat.body p).
Proof. solve_reports. Qed.

Lemma truncate_reports : reports (failing ["truncate"; "unlink"] [] []) Truncate.main.
Proof. solve_reports. Qed.

Lemma readdir_reports fuel p :
  reports (failing ["opendir"; "closedir"] [] []) (Readdir.body fuel p).
Proof. solve_reports. Qed.

Lemma umask_reports : reports (failing ["fopen"; "unlink"] ["fprintf"] []) Umask.main.
Proof. solve_reports. Qed.

(** [getcwd] is tried again with a larger buffer after [ERANGE]. *)
Local Abbreviation getcwd_failing := (failing_but "getcwd" ERANGE).

Lemma getcwd_loop_reports names fuel path_max (k : option string -> C W Z) :
  named names (SAlloc 0) = true ->
  (forall p, reports (getcwd_failing names) (k (Some p))) ->
  releases (k None) (eq EXIT_FAILURE) ->
  reports (getcwd_failing names) (getcwd_loop fuel path_max ≫= k).
Proof.
  intros Ha Hs Hn. unfold getcwd_loop. generalize (to_unsigned 64 path_max).
  induction fuel as [|fuel IH]; intros size; [done|]. simpl. apply reports_assoc.
  unfold getcwd_turn at 1. apply reports_assoc.
  assert (forall n r, getcwd_failing names (SAlloc n) r = (r_val r =? -1)) as Hal.
  { intros n r. unfold failing_but, failing. change (named names (SAlloc n)) with (named names (SAlloc 0)).
    by rewrite Ha. }
  apply reports_sys_bind; intros r Hr; rewrite Hal in Hr; unfold fails; rewrite Hr;
    [|by repeat first [apply ends_assoc|apply ends_perror|done]].
  apply reports_assoc. unfold call. apply reports_sys_errno; intros r' Hr'.
  - intros Hv. rewrite (proj2 (Z.eqb_neq _ _)) by done. apply Hs.
  - intros Hv. unfold failing_but in Hr'. simpl in Hr'. rewrite Hv in *. simpl in *.
    apply negb_false_iff in Hr'. apply after_assoc, after_get_errno. rewrite Hr'.
    apply after_reports. exact (IH _).
  - unfold failing_but in Hr'. simpl in Hr'. apply andb_true_iff in Hr' as [Hv He].
    apply negb_true_iff in He. rewrite Hv. simpl.
    apply ends_assoc, ends_get_errno; [by bools|]. rewrite He. by apply ends_assoc, ends_perror.
Qed.

Lemma getcwd_reports fuel : reports (getcwd_failing ["malloc"]) (Getcwd.main fuel).
Proof.
  unfold Getcwd.main, path_max_of.
  repeat lazymatch goal with
  | |- reports _ (mbind _ (getcwd_loop _ _)) =>
      apply getcwd_loop_reports; [done|intros ?|cbv beta iota; repeat reports_step]
  | |- _ => reports_step
  end.
Qed.

Lemma chdir_reports fuel p : reports (getcwd_failing ["malloc"; "chdir"]) (Chdir.body fuel p).
Proof.
  unfold Chdir.body, path_max_of, Chdir.printCurrentWorkingDirectory,
    Chdir.getCurrentWorkingDirectory.
  repeat lazymatch goal with
  | |- reports _ (mbind _ (getcwd_loop _ _)) =>
      apply getcwd_loop_reports; [done|intros ?|cbv beta iota; repeat reports_step]
  | |- _ => reports_step
  end.
Qed.
End Reports.
