(* ===== verification/Files.v ===== *)
(** * The file descriptor programs

    The programs of src/files: a Module each, with the functions of its [main.c]
    after the command line.  [EOut] is what a program gives to stdout, whatever
    descriptor 1 refers to at that moment; [dprintf] is a call of its own. *)

From S2P Require Import Prelude CMonad CString Getopt ArgParse OneOperand OptionPrograms.
From S2P Require Import Reports FileSystem.

(** Constants of <fcntl.h>, <unistd.h>, <sys/stat.h> and <errno.h> (Linux). *)
Definition O_RDONLY : Z := 0.
Definition O_NONBLOCK : Z := 2048.
Definition O_CLOEXEC : Z := 524288.
Definition F_GETFL : Z := 3.
Definition F_SETFL : Z := 4.
Definition SEEK_SET : Z := 0.
Definition SEEK_CUR : Z := 1.
Definition STDIN_FILENO : Z := 0.
Definition STDOUT_FILENO : Z := 1.
Definition STDERR_FILENO : Z := 2.
Definition EAGAIN : Z := 11.
Definition PATH_MAX : nat := 4096.

(** [src/files/dprintf/main.c] *)
Module Dprintf.
Definition main {W} `{Kernel W} : C W Z :=
  call "dprintf" [ln "Hello, World! This is a dprintf example for stdout."] [STDOUT_FILENO];;
  mret EXIT_SUCCESS.
End Dprintf.

(** [src/files/fileno/main.c] *)
Module Fileno.
Definition main {W} `{Kernel W} : C W Z :=
  fd ← call "fileno" ["stdout"] [];
  call "dprintf" [ln "Hello, World! This is a dprintf example for stdout."] [r_val fd];;
  mret EXIT_SUCCESS.
End Fileno.

(** [src/files/std/main.c] *)
Module FilesStd.
Definition main {W} : C W Z :=
  out (ln ("STDIN_FILENO: " +:+ fmt_d STDIN_FILENO));;
  out (ln ("STDOUT_FILENO: " +:+ fmt_d STDOUT_FILENO));;
  out (ln ("STDERR_FILENO: " +:+ fmt_d STDERR_FILENO));;
  mret EXIT_SUCCESS.
End FilesStd.

(** [src/files/dup/main.c] *)
Module Dup.
Section Program.
Context {W} `{Kernel W}.

Definition main : C W Z :=
  r ← sys (SDup STDOUT_FILENO);
  if fails r then perror_fail "Error duplicating stdout" else
  let stdout_dup_fd := r_val r in
  r ← sys (SClose STDOUT_FILENO);
  if fails r then
    perror "Error closing stdout";; sys (SClose stdout_dup_fd);; mret EXIT_FAILURE
  else
  r ← call "dprintf"
    [ln "This will be written using dprintf to the duplicated file descriptor."]
    [stdout_dup_fd];
  if fails r then
    perror "Error writing to stdout using dprintf";;
    sys (SClose stdout_dup_fd);; mret EXIT_FAILURE
  else
  r ← sys (SClose stdout_dup_fd);
  if fails r then perror_fail "Error closing duplicated file descriptor" else
  out (ln "This will not be printed because stdout is closed.");;
  mret EXIT_SUCCESS.
End Program.
End Dup.

(** [src/files/dup2/main.c]: the variables the clean-up looks at; [goto cleanup]
    is leaving [redirect] with what they hold. *)
Module Dup2.
Section Program.
Context {W} `{Kernel W} `{Structs}.

Record vars := Vars {
  templ : string;
  temp_fd : option Z;           (* have_temp_fd *)
  saved_stdout_fd : option Z;   (* have_saved_stdout_fd *)
  stdout_redirected : bool;
  failed : bool;
}.

Definition size_line (when : string) (r : sysret) : string :=
  ln ("Size " +:+ when +:+ " write: " +:+ fmt_d (st_size (r_data r)) +:+ " bytes").

Definition redirect : C W vars :=
  let text := "/tmp/tempfileXXXXXX" in
  let '(rc, buffer) := snprintf (replicate PATH_MAX NUL) PATH_MAX (chars text) in
  let templ := of_chars (cstring buffer) in
  if rc <? 0 then eout (ln "snprintf failed");; mret (Vars templ None None false true) else
  if Z.of_nat PATH_MAX <=? rc
  then eout (ln "template truncated");; mret (Vars templ None None false true) else
  r ← sys (SMkstemp templ);
  if fails r then perror "mkstemp failed";; mret (Vars templ None None false true) else
  let templ := of_chars (r_data r) in
  let temp_fd := r_val r in
  r ← sys (SFstat temp_fd);
  if fails r
  then perror "fstat before write failed";; mret (Vars templ (Some temp_fd) None false true)
  else
  eout (size_line "before" r);;
  r ← sys (SDup STDOUT_FILENO);
  if fails r then
    perror "dup(STDOUT_FILENO) failed";; mret (Vars templ (Some temp_fd) None false true)
  else
  let saved := Some (r_val r) in
  r ← sys (SDup2 temp_fd STDOUT_FILENO);
  if fails r then
    perror "dup2 to stdout failed";; mret (Vars templ (Some temp_fd) saved false true)
  else
  r ← call "printf" [ln "This will be written to the temporary file using printf."] [];
  if r_val r <? 0 then
    perror "printf failed";; mret (Vars templ (Some temp_fd) saved true true)
  else
  r ← sys (SFflush STDOUT_FILENO);
  if negb (r_val r =? 0) then
    perror "fflush(stdout) failed";; mret (Vars templ (Some temp_fd) saved true true)
  else
  r ← sys (SFstat temp_fd);
  if fails r then
    perror "fstat after write failed";; mret (Vars templ (Some temp_fd) saved true true)
  else
  eout (size_line "after" r);;
  mret (Vars templ (Some temp_fd) saved true false).

(** One step of the clean-up: a call whose failure is remembered. *)
Definition undo (c : syscall) (msg : string) (failed : bool) : C W bool :=
  r ← sys c;
  if fails r then perror msg;; mret true else mret failed.

Definition cleanup (v : vars) : C W Z :=
  failed ← match stdout_redirected v, saved_stdout_fd v with
           | true, Some saved =>
               undo (SDup2 saved STDOUT_FILENO) "final restore of stdout failed" (failed v)
           | _, _ => mret (failed v)
           end;
  failed ← match saved_stdout_fd v with
           | Some saved => undo (SClose saved) "close(saved_stdout_fd) failed" failed
           | None => mret failed
           end;
  failed ← match temp_fd v with
           | Some fd => undo (SClose fd) "close(temp_fd) failed" failed
           | None => mret failed
           end;
  failed ← (if String.eqb (templ v) "" then mret failed
            else
              r ← sys (SUnlink (templ v));
              e ← get_errno;
              if fails r && negb (e =? ENOENT)
              then perror "unlink(temp file) failed";; mret true
              else mret failed);
  mret (if failed : bool then EXIT_FAILURE else EXIT_SUCCESS).

Definition main : C W Z := v ← redirect; cleanup v.
End Program.
End Dup2.

(** [src/files/fcntl/main.c]: [read] stores no more than the 1023 bytes it is
    asked for, so that the NUL after them is inside the buffer. *)
Module Fcntl.
Section Program.
Context {W} `{Kernel W}.

Definition LINE_LEN : nat := 1024.

Definition body (file_path : string) : C W Z :=
  r ← sys (SOpen file_path (Z.lor O_RDONLY O_CLOEXEC));
  if fails r then perror_fail "Error opening the file" else
  let fd := r_val r in
  r ← call "fcntl" [] [fd; F_GETFL];
  let flags := to_unsigned 32 (r_val r) in
  if flags =? UINT_MAX then
    perror "Error getting file descriptor flags";; sys (SClose fd);; mret EXIT_FAILURE
  else
  r ← call "fcntl" [] [fd; F_SETFL; to_signed 32 (Z.lor flags O_NONBLOCK)];
  if fails r then
    perror "Error setting file descriptor to non-blocking mode";;
    sys (SClose fd);; mret EXIT_FAILURE
  else
  bytesRead ← sys (SRead fd (LINE_LEN - 1));
  (if fails bytesRead then
     e ← get_errno;
     if e =? EAGAIN then out (ln "No data available (EAGAIN)");; mret true
     else
       perror "Error reading from the file";; sys (SClose fd);; mret false
   else
     let buffer := take (Z.to_nat (r_val bytesRead)) (r_data bytesRead) in
     out (ln ("Read " +:+ fmt_d (r_val bytesRead) +:+ " bytes:") +:+
          ln (of_chars (cstring (buffer ++ [NUL]))));;
     mret true) ≫= fun go_on : bool =>
  if negb go_on then mret EXIT_FAILURE else
  r ← sys (SClose fd);
  if fails r then perror_fail "Error closing the file" else
  mret EXIT_SUCCESS.

Definition main (argv : list string) : C W Z :=
  start_with files_fcntl.parse_arguments files_fcntl.handle_arguments argv ≫= body.
End Program.
End Fcntl.

(** [src/files/fdopen/main.c] *)
Module Fdopen.
Section Program.
Context {W} `{Kernel W} (fuel : nat).

Definition BUFFER_LEN : Z := 256.

(** One turn of the loop: NULL ends it; a line is printed up to its first
    NUL. *)
Definition line_turn (file : Z) (_ : unit) : C W (unit + unit) :=
  r ← call "fgets" [] [BUFFER_LEN; file];
  if fails r then mret (inr tt)
  else out (of_chars (cstring (r_data r)));; mret (inl tt).

Definition body (file_path : string) : C W Z :=
  r ← sys (SOpen file_path (Z.lor O_RDONLY O_CLOEXEC));
  if fails r then perror_fail "Error opening file" else
  file ← call "fdopen" ["r"] [r_val r];
  if fails file then perror_fail "Error creating FILE* stream" else
  loop fuel (line_turn (r_val file)) tt;;
  r ← sys (SFclose (r_val file));
  if fails r then perror_fail "Error closing FILE* stream" else
  mret EXIT_SUCCESS.

Definition main (argv : list string) : C W Z :=
  start_with files_fdopen.parse_arguments files_fdopen.handle_arguments argv ≫= body.
End Program.
End Fdopen.

(** [src/files/fstat/main.c] *)
Module Fstat.
Section Program.
Context {W} `{Kernel W} `{Structs}.

Definition body (file_path : string) : C W Z :=
  r ← sys (SOpen file_path (Z.lor O_RDONLY O_CLOEXEC));
  if fails r then perror_fail "Error opening file" else
  let fd := r_val r in
  r ← sys (SFstat fd);
  if fails r then
    perror "Error getting file stats";; sys (SClose fd);; mret EXIT_FAILURE
  else
  let fileStat := r_data r in
  out (ln "File Information:");;
  out (ln ("File Size: " +:+ fmt_d (st_size fileStat) +:+ " bytes"));;
  out (ln ("File Permissions: " +:+ permissions (st_mode fileStat)));;
  out (ln ("File inode: " +:+ fmt_d (to_signed 64 (st_ino fileStat))));;
  out (ln ("Device ID: " +:+ fmt_d (to_signed 64 (st_dev fileStat))));;
  out (ln ("Number of hard links: " +:+ fmt_d (to_signed 64 (st_nlink fileStat))));;
  out (ln ("File Owner UID: " +:+ fmt_u (st_uid fileStat)));;
  out (ln ("File Group GID: " +:+ fmt_u (st_gid fileStat)));;
  out (ln ("Last access time: " +:+ fmt_d (st_atime fileStat)));;
  out (ln ("Last modification time: " +:+ fmt_d (st_mtime fileStat)));;
  out (ln ("Last status change time: " +:+ fmt_d (st_ctime fileStat)));;
  r ← sys (SClose fd);
  if fails r then perror_fail "Error closing file descriptor" else
  mret EXIT_SUCCESS.

Definition main (argv : list string) : C W Z :=
  start_with files_fstat.parse_arguments files_fstat.handle_arguments argv ≫= body.
End Program.
End Fstat.

(** [src/files/ftruncate/main.c] *)
Module Ftruncate.
Section Program.
Context {W} `{Kernel W} `{Structs}.

Definition SIZE : Z := 9.

Definition check_file_size (filename message : string) : C W unit :=
  r ← call "stat" [filename] [];
  if r_val r =? 0 then
    out (ln (message +:+ " of '" +:+ filename +:+ "' is " +:+
             fmt_d (st_size (r_data r)) +:+ " bytes."));;
    out (ln message)
  else perror "Error getting file size".

Definition main : C W Z :=
  r ← sys (SMkstemp "example_XXXXXX");
  if fails r then perror_fail "Error creating temporary file" else
  let filename := of_chars (r_data r) in
  let fd := r_val r in
  call "dprintf" [ln sample] [fd];;
  check_file_size filename "Initial file size";;
  let new_size := SIZE in
  out (ln ("Truncating file " +:+ filename +:+ " to " +:+ fmt_d new_size +:+ " bytes"));;
  r ← call "ftruncate" [] [fd; new_size];
  if fails r then
    perror "Error truncating file";; sys (SClose fd);; mret EXIT_FAILURE
  else
  r ← sys (SClose fd);
  if fails r then perror_fail "Error closing file" else
  r ← sys (SUnlink filename);
  if fails r then perror_fail "Error unlinking file" else
  mret EXIT_SUCCESS.
End Program.
End Ftruncate.

(** [src/files/lseek/main.c]: the results of [lseek] and [close] are ignored. *)
Module Lseek.
Section Program.
Context {W} `{Kernel W} (fuel : nat).

(** One turn of [while(read(fd, &ch, 1) > 0) write(STDOUT_FILENO, &ch, 1)]. *)
Definition copy_turn (fd : Z) (_ : unit) : C W (unit + unit) :=
  r ← sys (SRead fd 1);
  if 0 <? r_val r then sys (SWrite STDOUT_FILENO (take 1 (r_data r)));; mret (inl tt)
  else mret (inr tt).

Definition display_file (fd : Z) (message : string) (offset : Z) : C W unit :=
  out (ln (message +:+ " " +:+ fmt_d offset +:+ ":") +:+ nl);;
  loop fuel (copy_turn fd) tt.

Definition body (args : string * Z) : C W Z :=
  let '(file_path, offset) := args in
  r ← sys (SOpen file_path (Z.lor O_RDONLY O_CLOEXEC));
  if fails r then perror_fail "Error opening the file" else
  let fd := r_val r in
  display_file fd "File contents" 0;;
  sys (SLseek fd 0 SEEK_SET);;
  display_file fd (nl +:+ nl +:+ "File contents after SEEK_SET") 0;;
  sys (SLseek fd 0 SEEK_SET);;
  sys (SLseek fd offset SEEK_CUR);;
  display_file fd (nl +:+ nl +:+ "File contents after SEEK_CUR") offset;;
  sys (SClose fd);;
  mret EXIT_SUCCESS.

Definition main (argv : list string) : C W Z := files_lseek.start_up argv ≫= body.
End Program.
End Lseek.

(** [src/files/mkstemp/main.c] *)
Module Mkstemp.
Section Program.
Context {W} `{Kernel W}.

Definition main : C W Z :=
  r ← sys (SMkstemp "/tmp/temp_file_XXXXXX");
  if fails r then perror_fail "Error creating temporary file" else
  let templ := of_chars (r_data r) in
  out (ln ("Created temporary file " +:+ templ));;
  sys (SClose (r_val r));;
  r ← sys (SUnlink templ);
  if fails r then perror_fail "Error deleting temporary file" else
  out (ln "Temporary file deleted successfully.");;
  mret EXIT_SUCCESS.
End Program.
End Mkstemp.

(** [src/files/open-close/main.c] *)
Module OpenClose.
Section Program.
Context {W} `{Kernel W}.

Definition body (file_path : string) : C W Z :=
  out (ln ("Opening " +:+ file_path));;
  r ← sys (SOpen file_path (Z.lor O_RDONLY O_CLOEXEC));
  if fails r then perror_fail "Error opening file" else
  out (ln "Closing the file");;
  r ← sys (SClose (r_val r));
  if fails r then perror_fail "Error closing file" else
  mret EXIT_SUCCESS.

Definition main (argv : list string) : C W Z := files_open_close.start_up argv ≫= body.
End Program.
End OpenClose.

(** [src/files/read-write/main.c] *)
Module ReadWrite.
Section Program.
Context {W} `{Kernel W} (fuel : nat).

Definition BUFFER_SIZE : nat := 4096.

(** One turn of the loop; what is left at its end is the last [bytesRead], or
    the failure of a write. *)
Definition copy_turn (_ : unit) : C W (unit + option Z) :=
  r ← sys (SRead STDIN_FILENO BUFFER_SIZE);
  let bytesRead := r_val r in
  if 0 <? bytesRead then
    w ← sys (SWrite STDOUT_FILENO (take (Z.to_nat bytesRead) (r_data r)));
    if negb (r_val w =? bytesRead) then
      perror "Error writing to stdout";; mret (inr None)
    else mret (inl tt)
  else mret (inr (Some bytesRead)).

Definition main : C W Z :=
  out (ln "Press ctrl-d to exit.");;
  out (ln "Start typing...");;
  sys (SFflush STDOUT_FILENO);;
  bytesRead ← loop fuel copy_turn tt;
  match bytesRead with
  | None => mret EXIT_FAILURE
  | Some n => if n =? -1 then perror_fail "Error reading from stdin" else mret EXIT_SUCCESS
  end.
End Program.
End ReadWrite.

(** [src/files/sync/main.c] *)
Module Sync.
Section Program.
Context {W} `{Kernel W}.

Definition data : string :=
  ln "This is some data that needs to be written to the file.".

Definition main : C W Z :=
  out (ln "Creating a temporary file...");;
  r ← sys (SMkstemp "/tmp/mytempfileXXXXXX");
  if fails r then perror_fail "Error creating temporary file" else
  let templ := of_chars (r_data r) in
  let fd := r_val r in
  r ← call "dprintf" [data] [fd];
  if r_val r <? 0 then
    perror "Error writing to temporary file";; sys (SClose fd);; mret EXIT_FAILURE
  else
  out (ln "Flushing data to disk...");;
  call "sync" [] [];;
  out (ln "Data successfully flushed to disk.");;
  r ← sys (SClose fd);
  if fails r then perror_fail "Error closing file descriptor" else
  out (ln "Deleting the temporary file...");;
  r ← sys (SUnlink templ);
  if fails r then perror_fail "Error deleting temporary file" else
  out (ln "Temporary file deleted successfully.");;
  mret EXIT_SUCCESS.
End Program.
End Sync.

(** [src/files/S_IS/main.c] *)
Module FileTypes.
Section Program.
Context {W} `{Kernel W} `{Structs}.

(** The file type bits of a mode (<sys/stat.h>, Linux). *)
Definition S_IFMT : Z := 61440.
Definition S_IFBLK : Z := 24576.
Definition S_IFCHR : Z := 8192.
Definition S_IFDIR : Z := 16384.
Definition S_IFIFO : Z := 4096.
Definition S_IFREG : Z := 32768.
Definition S_IFLNK : Z := 40960.
Definition S_IFSOCK : Z := 49152.
Definition is_type (type mode : Z) : bool := Z.land mode S_IFMT =? type.

Definition print_special_type (fileStat : list byte) : C W unit :=
  let m := st_mode fileStat in
  if is_type S_IFBLK m then out (ln "Type: Block special file")
  else if is_type S_IFCHR m then out (ln "Type: Character special file")
  else if is_type S_IFDIR m then out (ln "Type: Directory")
  else if is_type S_IFIFO m then out (ln "Type: FIFO/Named Pipe")
  else if is_type S_IFREG m then out (ln "Type: Regular file")
  else if is_type S_IFLNK m then out (ln "Type: Symbolic link")
  else if is_type S_IFSOCK m then out (ln "Type: Socket")
  else out (ln "Type: Unknown file type").

(** [S_TYPEISMQ] and its kin are function-like macros: the tests of the
    preprocessor compare an identifier, which is 0 there, so that the checks are
    left out. *)
Definition print_extended_type (fileStat : list byte) : C W unit := mret tt.

Definition print_permissions (mode : Z) : C W unit :=
  out (ln ("File Permissions: " +:+ permissions mode)).

Definition print_time (label : string) (timeValue : Z) : C W unit :=
  out (ln (label +:+ ": " +:+ fmt_d timeValue)).

Definition print_file_info (fileStat : list byte) : C W unit :=
  print_special_type fileStat;;
  print_extended_type fileStat;;
  out (ln ("File Size: " +:+ fmt_d (st_size fileStat) +:+ " bytes"));;
  print_permissions (st_mode fileStat);;
  out (ln ("File inode: " +:+ fmt_d (to_signed 64 (st_ino fileStat))));;
  out (ln ("Device ID: " +:+ fmt_d (to_signed 64 (st_dev fileStat))));;
  out (ln ("Number of hard links: " +:+ fmt_d (to_signed 64 (st_nlink fileStat))));;
  out (ln ("File Owner UID: " +:+ fmt_u (st_uid fileStat)));;
  out (ln ("File Group GID: " +:+ fmt_u (st_gid fileStat)));;
  print_time "Last access time" (st_atime fileStat);;
  print_time "Last modification time" (st_mtime fileStat);;
  print_time "Last status change time" (st_ctime fileStat).

Definition body (file_path : string) : C W Z :=
  r ← call "stat" [file_path] [];
  if fails r then perror_fail "Error getting file stats" else
  out (ln ("File Information for '" +:+ file_path +:+ "':") +:+ nl);;
  print_file_info (r_data r);;
  mret EXIT_SUCCESS.

Definition main (argv : list string) : C W Z :=
  start_with files_S_IS.parse_arguments files_S_IS.handle_arguments argv ≫= body.
End Program.
End FileTypes.

(** ** Reports *)

Section Reports.
Context {W} `{Kernel W} `{Structs}.

Ltac solve_reports := repeat reports_step.

Lemma dup_reports : reports (failing ["dup"; "close"; "dprintf"] [] []) Dup.main.
Proof. solve_reports. Qed.

Lemma fdopen_reports fuel p :
  reports (failing ["open"; "fdopen"; "fclose"] [] []) (Fdopen.body fuel p).
Proof. solve_reports. Qed.

Lemma fstat_reports p : reports (failing ["open"; "fstat"; "close"] [] []) (Fstat.body p).
Proof. solve_reports. Qed.

Lemma ftruncate_reports :
  reports (failing ["mkstemp"; "ftruncate"; "close"; "unlink"] [] []) Ftruncate.main.
Proof. solve_reports. Qed.

Lemma lseek_reports fuel a : reports (failing ["open"] [] []) (Lseek.body fuel a).
Proof. solve_reports. Qed.

Lemma mkstemp_reports : reports (failing ["mkstemp"; "unlink"] [] []) Mkstemp.main.
Proof. solve_reports. Qed.

Lemma open_close_reports p : reports (failing ["open"; "close"] [] []) (OpenClose.body p).
Proof. solve_reports. Qed.

Lemma sync_reports :
  reports (failing ["mkstemp"; "close"; "unlink"] ["dprintf"] []) Sync.main.
Proof. solve_reports. Qed.

Lemma file_types_reports p : reports (failing ["stat"] [] []) (FileTypes.body p).
Proof. solve_reports. Qed.
End Reports.

(** ** Descriptors *)

Section Closes.
Context {W} `{Kernel W} `{Structs}.

Ltac solve_closes := repeat closes_step.

Lemma fcntl_closes p : closes [] (Fcntl.body p).
Proof. solve_closes. Qed.

Lemma fstat_closes p : closes [] (Fstat.body p).
Proof. solve_closes. Qed.

Lemma ftruncate_closes : closes [] Ftruncate.main.
Proof. solve_closes. Qed.

Lemma lseek_closes fuel a : closes [] (Lseek.body fuel a).
Proof. solve_closes. Qed.

Lemma mkstemp_closes : closes [] Mkstemp.main.
Proof. solve_closes. Qed.

Lemma open_close_closes p : closes [] (OpenClose.body p).
Proof. solve_closes. Qed.

Lemma sync_closes : closes [] Sync.main.
Proof. solve_closes. Qed.

(** What the clean-up of dup2 owes. *)
Lemma cleanup_closes v :
  closes (Descriptor <$> option_list (Dup2.saved_stdout_fd v) ++ option_list (Dup2.temp_fd v))
    (Dup2.cleanup v).
Proof.
  destruct v as [templ [fd|] [saved|] [] failed]; unfold Dup2.cleanup, Dup2.undo;
    cbn [Dup2.templ Dup2.temp_fd Dup2.saved_stdout_fd Dup2.stdout_redirected Dup2.failed
         option_list app]; solve_closes.
Qed.

Lemma dup2_closes : closes [] Dup2.main.
Proof.
  unfold Dup2.main, Dup2.redirect. cbv zeta. cbn [snprintf].
  repeat lazymatch goal with
  | |- balances _ _ _ (Dup2.cleanup (Dup2.Vars _ _ _ _ _)) => apply cleanup_closes
  | |- _ => closes_step
  end.
Qed.
End Closes.
