(* ===== verification/Identity.v ===== *)
(** * User, group and process programs

    The programs of src/users, src/groups, src/process, src/process-groups and
    src/sleep: a Module each, with the functions of its [main.c] after the
    command line.  [fork] is a call like any other: its result says which of the
    two processes the rest describes. *)

From S2P Require Import Prelude CMonad CString Getopt ArgParse OneOperand OptionPrograms.
From S2P Require Import Reports.

Section Shared.
Context {W} `{Kernel W}.

(** A line with the number a call returns, as [%u] and as [%d]. *)
Definition show_u (label name : string) : C W unit :=
  r ← call name [] []; out (ln (label +:+ fmt_u (r_val r))).
Definition show_d (label name : string) : C W unit :=
  r ← call name [] []; out (ln (label +:+ fmt_d (r_val r))).

(** [set*id(id)], then what the process is. *)
Definition set_id (name : string) (ids : list Z) (shown : C W unit) : C W Z :=
  r ← call name [] ids;
  if fails r then perror_fail name else shown;; mret EXIT_SUCCESS.

Definition show_uids : C W unit :=
  show_u "Real UID: " "getuid";; show_u "Effective UID: " "geteuid".
Definition show_gids : C W unit :=
  show_u "Real GID: " "getgid";; show_u "Effective GID: " "getegid".

(** [print_process_info] of fork, wait and waitpid. *)
Definition print_process_info (name : string) : C W unit :=
  pid ← call "getpid" [] [];
  ppid ← call "getppid" [] [];
  out (ln ("Name: " +:+ name +:+ ", Process: PID=" +:+ fmt_d (r_val pid) +:+
           ", Parent PID=" +:+ fmt_d (r_val ppid))).
End Shared.

(** ** [users] *)

Module Setuid.
Definition body {W} `{Kernel W} (uid : Z) : C W Z := set_id "setuid" [uid] show_uids.
Definition main {W} `{Kernel W} (argv : list string) : C W Z :=
  users_setuid.start_up argv ≫= body.
End Setuid.

Module Seteuid.
Definition body {W} `{Kernel W} (uid : Z) : C W Z := set_id "seteuid" [uid] show_uids.
Definition main {W} `{Kernel W} (argv : list string) : C W Z :=
  users_seteuid.start_up argv ≫= body.
End Seteuid.

Module Setreuid.
Definition body {W} `{Kernel W} (ids : Z * Z) : C W Z :=
  let '(uid, euid) := ids in set_id "setreuid" [uid; euid] show_uids.
Definition main {W} `{Kernel W} (argv : list string) : C W Z :=
  users_setreuid.start_up argv ≫= body.
End Setreuid.

Module Getuid.
Definition main {W} `{Kernel W} : C W Z := show_u "Real UID: " "getuid";; mret EXIT_SUCCESS.
End Getuid.

Module Geteuid.
Definition main {W} `{Kernel W} : C W Z :=
  show_u "Effective UID: " "geteuid";; mret EXIT_SUCCESS.
End Geteuid.

Section Passwd.
Context {W} `{Kernel W} `{Structs}.

(** [print_entry] of getpwuid, getpwnam and pwd. *)
Definition print_user (entry : list byte) : C W unit :=
  out (ln ("Username: " +:+ pw_name entry));;
  out (ln ("User ID (UID): " +:+ fmt_u (pw_uid entry)));;
  out (ln ("Group ID (GID): " +:+ fmt_u (pw_gid entry)));;
  out (ln ("Home directory: " +:+ pw_dir entry));;
  out (ln ("Login shell: " +:+ pw_shell entry));;
  out (ln "-------------------------").

(** [print_entry] of getgrgid, getgrnam and grp. *)
Definition print_group (entry : list byte) : C W unit :=
  out (ln ("Group name: " +:+ gr_name entry));;
  out (ln ("Group ID (GID): " +:+ fmt_u (gr_gid entry)));;
  out (ln "Group Members:");;
  match gr_mem entry with
  | Some members =>
      for_each members (fun m => out (ln (" - " +:+ m)));;
      out (ln "-------------------------")
  | None => out (ln "No members found.")
  end.

(** [while((entry = get*ent()) != NULL) print_entry(entry)] *)
Definition entry_turn (name : string) (print_entry : list byte -> C W unit) (_ : unit) :
    C W (unit + unit) :=
  entry ← call name [] [];
  if fails entry then mret (inr tt) else print_entry (r_data entry);; mret (inl tt).

Definition print_entries (fuel : nat) (name : string) (print_entry : list byte -> C W unit) :
    C W unit :=
  loop fuel (entry_turn name print_entry) tt.

(** The whole database, and its first entry again. *)
Definition database (fuel : nat) (title get set_ends ends_ : string)
    (print_entry : list byte -> C W unit) : C W Z :=
  out (ln title);;
  print_entries fuel get print_entry;;
  call set_ends [] [];;
  entry ← call get [] [];
  (if fails entry then mret tt else print_entry (r_data entry));;
  call ends_ [] [];;
  mret EXIT_SUCCESS.
End Passwd.

Module Getpwuid.
Definition body {W} `{Kernel W} `{Structs} (uid : Z) : C W Z :=
  user_info ← call "getpwuid" [] [uid];
  (if negb (fails user_info) then print_user (r_data user_info)
   else out (ln ("User with UID " +:+ fmt_u uid +:+ " not found.")));;
  mret EXIT_SUCCESS.
Definition main {W} `{Kernel W} `{Structs} (argv : list string) : C W Z :=
  users_getpwuid.start_up argv ≫= body.
End Getpwuid.

Module Getpwnam.
Definition body {W} `{Kernel W} `{Structs} (user_name : string) : C W Z :=
  user_info ← call "getpwnam" [user_name] [];
  (if negb (fails user_info) then print_user (r_data user_info)
   else out (ln ("User '" +:+ user_name +:+ "' not found.")));;
  mret EXIT_SUCCESS.
Definition main {W} `{Kernel W} `{Structs} (argv : list string) : C W Z :=
  start_with users_getpwnam.parse_arguments users_getpwnam.handle_arguments argv ≫= body.
End Getpwnam.

Module Pwd.
Definition main {W} `{Kernel W} `{Structs} (fuel : nat) : C W Z :=
  database fuel "All user accounts:" "getpwent" "setpwent" "endpwent" print_user.
End Pwd.

(** ** [groups] *)

Module Setgid.
Definition body {W} `{Kernel W} (gid : Z) : C W Z := set_id "setgid" [gid] show_gids.
Definition main {W} `{Kernel W} (argv : list string) : C W Z :=
  groups_setgid.start_up argv ≫= body.
End Setgid.

Module Setegid.
Definition body {W} `{Kernel W} (gid : Z) : C W Z := set_id "setegid" [gid] show_gids.
Definition main {W} `{Kernel W} (argv : list string) : C W Z :=
  groups_setegid.start_up argv ≫= body.
End Setegid.

Module Setregid.
Definition body {W} `{Kernel W} (ids : Z * Z) : C W Z :=
  let '(gid, egid) := ids in set_id "setregid" [gid; egid] show_gids.
Definition main {W} `{Kernel W} (argv : list string) : C W Z :=
  groups_setregid.start_up argv ≫= body.
End Setregid.

Module Getgid.
Definition main {W} `{Kernel W} : C W Z := show_u "Real GID: " "getgid";; mret EXIT_SUCCESS.
End Getgid.

Module Getegid.
Definition main {W} `{Kernel W} : C W Z :=
  show_u "Effective GID: " "getegid";; mret EXIT_SUCCESS.
End Getegid.

Module Getgrgid.
Definition body {W} `{Kernel W} `{Structs} (gid : Z) : C W Z :=
  group_info ← call "getgrgid" [] [gid];
  (if fails group_info then out (ln ("Group with GID " +:+ fmt_u gid +:+ " not found."))
   else print_group (r_data group_info));;
  mret EXIT_SUCCESS.
Definition main {W} `{Kernel W} `{Structs} (argv : list string) : C W Z :=
  groups_getgrgid.start_up argv ≫= body.
End Getgrgid.

Module Getgrnam.
Definition body {W} `{Kernel W} `{Structs} (group_name : string) : C W Z :=
  group_info ← call "getgrnam" [group_name] [];
  (if negb (fails group_info) then print_group (r_data group_info)
   else out (ln ("Group '" +:+ group_name +:+ "' not found.")));;
  mret EXIT_SUCCESS.
Definition main {W} `{Kernel W} `{Structs} (argv : list string) : C W Z :=
  start_with groups_getgrnam.parse_arguments groups_getgrnam.handle_arguments argv ≫= body.
End Getgrnam.

Module Grp.
Definition main {W} `{Kernel W} `{Structs} (fuel : nat) : C W Z :=
  database fuel "All group accounts:" "getgrent" "setgrent" "endgrent" print_group.
End Grp.

(** ** [process] *)

Module Getpid.
Definition main {W} `{Kernel W} : C W Z :=
  show_d "Process ID (PID): " "getpid";; mret EXIT_SUCCESS.
End Getpid.

Module Getppid.
Definition main {W} `{Kernel W} : C W Z :=
  show_d "Process ID (PID): " "getppid";; mret EXIT_SUCCESS.
End Getppid.

Module Nice.
Definition body {W} `{Kernel W} (increment : Z) : C W Z :=
  pid ← call "getpid" [] [];
  current_priority ← call "nice" [] [0];
  out (ln ("Process ID: " +:+ fmt_d (r_val pid)));;
  out (ln ("Current Priority: " +:+ fmt_d (r_val current_priority)));;
  set_errno 0;;
  new_priority ← call "nice" [] [increment];
  e ← get_errno;
  if fails new_priority && negb (e =? 0) then perror_fail "nice" else
  out (ln ("New Priority: " +:+ fmt_d (r_val new_priority)));;
  mret EXIT_SUCCESS.
Definition main {W} `{Kernel W} (argv : list string) : C W Z :=
  process_nice.start_up argv ≫= body.
End Nice.

Module Fork.
Definition body {W} `{Kernel W} (seconds : Z) : C W Z :=
  pid ← call "fork" [] [];
  if fails pid then perror_fail "Error creating child process" else
  (if r_val pid =? 0 then
     print_process_info "Child";;
     out (ln "Child process finished.")
   else
     print_process_info "Parent";;
     sys (SSleep seconds);;
     out (ln "Parent process finished."));;
  mret EXIT_SUCCESS.
Definition main {W} `{Kernel W} (argv : list string) : C W Z :=
  process_fork.start_up argv ≫= body.
End Fork.

(** [abort] ends the process by a signal (the status a shell shows), without
    running the handlers registered with [atexit]. *)
Module AbortProgram.
Section Program.
Context {W} `{Kernel W}.

Definition RLIMIT_CORE : Z := 4.
Definition SIGABRT : Z := 6.
Definition abort {A} : C W A := exit_ (128 + SIGABRT).

Definition set_core_dump_limit (limit : Z) : C W unit :=
  r ← call "setrlimit" [] [RLIMIT_CORE; limit; limit];
  if fails r then perror_exit "Error setting core dump limit" else
  out (ln ("Core dump limit set to: " +:+ dq +:+ "unlimited" +:+ dq)).

Definition body (limit : Z) : C W Z :=
  set_core_dump_limit limit;;
  r ← call "atexit" ["abort_handler"] [];
  if negb (r_val r =? 0) then perror_fail "Error setting abort handler" else
  out (ln "Main function executing.");;
  abort.

Definition main (argv : list string) : C W Z := process_abort.start_up argv ≫= body.
End Program.
End AbortProgram.

(** Returning from [main] or calling [exit] runs the functions registered with
    [atexit], the last first. *)
Definition exit_with {W} (registered : list (C W unit)) (status : Z) : C W Z :=
  for_each (rev registered) id;; mret status.

Module Atexit.
Section Program.
Context {W : Type}.
Definition exit_handler1 : C W unit := out (ln "exit_handler1 called.").
Definition exit_handler2 : C W unit := out (ln "exit_handler2 called.").
Definition exit_handler3 : C W unit := out (ln "exit_handler3 called.").
Definition main : C W Z :=
  let registered := [exit_handler1; exit_handler2; exit_handler3] in
  out (ln "Main function executing.");;
  exit_with registered EXIT_SUCCESS.
End Program.
End Atexit.

(** [exit]: what follows the call is not reached. *)
Module ExitProgram.
Section Program.
Context {W : Type}.
Definition exit_handler1 : C W unit := out (ln "exit_handler1 called.").
Definition exit_handler2 : C W unit := out (ln "exit_handler2 called.").
Definition exit_handler3 : C W unit := out (ln "exit_handler3 called.").
Definition main : C W Z :=
  let registered := [exit_handler1; exit_handler2; exit_handler3] in
  out (ln "Main function executing.");;
  exit_with registered EXIT_SUCCESS.
End Program.
End ExitProgram.

(** [execl] returns only when it fails. *)
Module Exec.
Definition main {W} `{Kernel W} : C W Z :=
  show_d "Current Process ID: " "getpid";;
  r ← call "execl" ["/bin/ls"; "ls"; "-l"] [];
  (if fails r then perror_exit "execl" else mret tt);;
  out (ln "This line will not be executed if execl is successful.");;
  mret EXIT_SUCCESS.
End Exec.

Module Wait.
Section Program.
Context {W} `{Kernel W}.

Definition MAX_SECONDS : Z := 5.

(** The encoding of a wait status (<sys/wait.h>, Linux). *)
Definition WIFEXITED (status : Z) : bool := Z.land status 127 =? 0.
Definition WEXITSTATUS (status : Z) : Z := Z.land (Z.shiftr status 8) 255.

Definition child_process (name : string) : C W unit :=
  print_process_info name;;
  sleep_time ← sys (SArc4random MAX_SECONDS);
  sys (SSleep (r_val sleep_time));;
  out (ln (name +:+ " process finished after sleeping " +:+ fmt_u (r_val sleep_time) +:+
           " seconds.")).

(** [waitpid] stores the status; [status_of] is its value. *)
Context (status_of : list byte -> Z).

Definition show_status (label : string) (r : sysret) : C W unit :=
  let status := status_of (r_data r) in
  if WIFEXITED status
  then out (ln (label +:+ " exited with status: " +:+ fmt_d (WEXITSTATUS status)))
  else mret tt.

Definition main : C W Z :=
  pid1 ← call "fork" [] [];
  if fails pid1 then perror_fail "Error creating child process 1" else
  if r_val pid1 =? 0 then child_process "Child 1";; mret EXIT_SUCCESS else
  pid2 ← call "fork" [] [];
  if fails pid2 then perror_fail "Error creating child process 2" else
  if r_val pid2 =? 0 then child_process "Child 2";; mret EXIT_SUCCESS else
  print_process_info "Parent";;
  status1 ← call "waitpid" [] [r_val pid1; 0];
  if fails status1 then perror_fail "Error waiting for child process 1" else
  status2 ← call "waitpid" [] [r_val pid2; 0];
  if fails status2 then perror_fail "Error waiting for child process 2" else
  show_status "Child 1" status1;;
  show_status "Child 2" status2;;
  mret EXIT_SUCCESS.
End Program.
End Wait.

Module Waitpid.
Definition main {W} `{Kernel W} : C W Z :=
  pid ← call "fork" [] [];
  if fails pid then perror_fail "Error creating child process" else
  if r_val pid =? 0 then
    print_process_info "Child";;
    out (ln "Child process finished.");;
    mret EXIT_SUCCESS
  else
    print_process_info "Parent";;
    out (ln "Parent is waiting for the child");;
    r ← call "waitpid" [] [r_val pid; 0];
    if fails r then perror_fail "Error waiting for child process" else
    out (ln "Parent process finished.");;
    mret EXIT_SUCCESS.
End Waitpid.

(** ** [process-groups] *)

Module Getpgid.
Definition main {W} `{Kernel W} : C W Z :=
  pid ← call "getpid" [] [];
  pgid ← call "getpgid" [] [r_val pid];
  if fails pgid then perror_fail "Error getting PGID" else
  out (ln ("Process ID (PID): " +:+ fmt_d (r_val pid)));;
  out (ln ("Process Group ID (PGID) of the process with PID " +:+ fmt_d (r_val pid) +:+ ": " +:+
           fmt_d (r_val pgid)));;
  mret EXIT_SUCCESS.
End Getpgid.

Module Getpgrp.
Definition main {W} `{Kernel W} : C W Z :=
  pid ← call "getpid" [] [];
  pgid ← call "getpgrp" [] [];
  out (ln ("Process ID (PID): " +:+ fmt_d (r_val pid)));;
  out (ln ("Process Group ID (PGID) of the calling process: " +:+ fmt_d (r_val pgid)));;
  mret EXIT_SUCCESS.
End Getpgrp.

Module Getsid.
Definition main {W} `{Kernel W} : C W Z :=
  pid ← call "getpid" [] [];
  sid ← call "getsid" [] [r_val pid];
  if fails sid then perror_fail "Error getting SID" else
  out (ln ("Process ID (PID): " +:+ fmt_d (r_val pid)));;
  out (ln ("Session ID (SID) of the process with PID " +:+ fmt_d (r_val pid) +:+ ": " +:+
           fmt_d (r_val sid)));;
  mret EXIT_SUCCESS.
End Getsid.

Section Children.
Context {W} `{Kernel W}.

(** The lines both programs of this kind start with; the result is the child's
    identifier. *)
Definition original_ids : C W unit :=
  pid ← call "getpid" [] [];
  pgid ← call "getpgid" [] [r_val pid];
  out (ln ("Original Process ID (PID): " +:+ fmt_d (r_val pid)));;
  out (ln ("Original Process Group ID (PGID): " +:+ fmt_d (r_val pgid))).

Definition child_ids : C W Z :=
  child_pid ← call "getpid" [] [];
  child_pgid ← call "getpgid" [] [r_val child_pid];
  out (ln ("Child Process ID (PID): " +:+ fmt_d (r_val child_pid)));;
  out (ln ("Child Process Group ID (PGID): " +:+ fmt_d (r_val child_pgid)));;
  mret (r_val child_pid).
End Children.

Module Setpgid.
Section Program.
Context {W} `{Kernel W}.

Definition handle_child : C W unit :=
  child_pid ← child_ids;
  r ← call "setpgid" [] [child_pid; child_pid];
  (if fails r then perror_exit "Error setting PGID for the child process" else mret tt);;
  child_pgid ← call "getpgid" [] [child_pid];
  out (ln ("Child Process Group ID (PGID) after change: " +:+ fmt_d (r_val child_pgid))).

Definition main : C W Z :=
  original_ids;;
  child_pid ← call "fork" [] [];
  if r_val child_pid <? 0 then perror_fail "Error forking a new process" else
  (if r_val child_pid =? 0 then handle_child else call "wait" [] [];; mret tt);;
  mret EXIT_SUCCESS.
End Program.
End Setpgid.

Module Setsid.
Section Program.
Context {W} `{Kernel W}.

Definition handle_child : C W unit :=
  child_pid ← child_ids;
  sid ← call "setsid" [] [];
  (if fails sid then perror_exit "Error creating a new session for the child process"
   else mret tt);;
  out (ln ("Child Process New Session ID (SID): " +:+ fmt_d (r_val sid)));;
  new_pgid ← call "getpgid" [] [child_pid];
  out (ln ("Child Process New Process Group ID (PGID): " +:+ fmt_d (r_val new_pgid))).

Definition main : C W Z :=
  original_ids;;
  child_pid ← call "fork" [] [];
  if r_val child_pid <? 0 then perror_fail "Error forking a new process" else
  (if r_val child_pid =? 0 then handle_child
   else
     call "wait" [] [];;
     show_d "Parent Process ID (PID) after child process execution: " "getpid");;
  mret EXIT_SUCCESS.
End Program.
End Setsid.

Definition O_RDWR : Z := 2.
Definition O_CLOEXEC : Z := 524288.

Module Tcgetpgrp.
Definition main {W} `{Kernel W} : C W Z :=
  r ← sys (SOpen "/dev/tty" (Z.lor O_RDWR O_CLOEXEC));
  if fails r then perror_fail "Error opening terminal" else
  let terminal_fd := r_val r in
  foreground_pgid ← call "tcgetpgrp" [] [terminal_fd];
  if fails foreground_pgid then
    perror "Error getting foreground PGID";; sys (SClose terminal_fd);; mret EXIT_FAILURE
  else
  out (ln ("Foreground Process Group ID (PGID) of the terminal: " +:+
           fmt_d (r_val foreground_pgid)));;
  sys (SClose terminal_fd);;
  mret EXIT_SUCCESS.
End Tcgetpgrp.

Module Tcgetsid.
Definition main {W} `{Kernel W} : C W Z :=
  sid ← call "tcgetsid" [] [0];
  if fails sid then perror_fail "Error getting SID" else
  out (ln ("Session ID (SID) of the foreground process group: " +:+ fmt_d (r_val sid)));;
  mret EXIT_SUCCESS.
End Tcgetsid.

Module Tcsetpgrp.
Section Program.
Context {W} `{Kernel W}.

Definition XXX : Z := 100.

(** [getpid() + XXX] is an addition of [int]s; it cannot overflow ([new_pgid_exact]),
    since Linux numbers its processes from 1 to [PID_MAX_LIMIT]. *)
Definition main : C W Z :=
  r ← sys (SOpen "/dev/tty" (Z.lor O_RDWR O_CLOEXEC));
  if fails r then perror_fail "Error opening terminal" else
  let terminal_fd := r_val r in
  show_d "Original Process ID (PID): " "getpid";;
  child_pid ← call "fork" [] [];
  if r_val child_pid <? 0 then
    perror "Error forking a new process";; sys (SClose terminal_fd);; mret EXIT_FAILURE
  else if r_val child_pid =? 0 then
    pid ← call "getpid" [] [];
    let new_pgid := to_signed 32 (r_val pid + XXX) in
    show_d "Child Process ID (PID): " "getpid";;
    r ← call "setsid" [] [];
    if fails r then
      perror "Error creating a new session for the child process";;
      sys (SClose terminal_fd);; mret EXIT_FAILURE
    else
    show_d "Child Process Group ID (PGID) after creating a new session: " "getpid";;
    pid ← call "getpid" [] [];
    r ← call "setpgid" [] [r_val pid; new_pgid];
    if fails r then
      perror "Error setting PGID for the child process";;
      sys (SClose terminal_fd);; mret EXIT_FAILURE
    else
    out (ln ("Child Process Group ID (PGID) after change: " +:+ fmt_d new_pgid));;
    sys (SClose terminal_fd);;
    mret EXIT_SUCCESS
  else
    call "wait" [] [];;
    show_d "Parent Process ID (PID) after child process execution: " "getpid";;
    sys (SClose terminal_fd);;
    mret EXIT_SUCCESS.

Definition PID_MAX_LIMIT : Z := 4194304.
Lemma new_pgid_exact (pid : Z) :
  0 < pid <= PID_MAX_LIMIT -> to_signed 32 (pid + XXX) = pid + XXX.
Proof. intros Hp. apply to_signed_small; unfold PID_MAX_LIMIT, XXX in *; lia. Qed.
End Program.
End Tcsetpgrp.

(** ** [sleep] *)

Module Sleep.
Definition body {W} `{Kernel W} (seconds : Z) : C W Z :=
  out (ln "Starting program...");;
  out (ln ("Sleeping for " +:+ fmt_u seconds +:+ " seconds..."));;
  sys (SSleep seconds);;
  out (ln "Program woke up!");;
  mret EXIT_SUCCESS.
Definition main {W} `{Kernel W} (argv : list string) : C W Z :=
  sleep_sleep.start_up argv ≫= body.
End Sleep.

Module Nanosleep.
Section Program.
Context {W} `{Kernel W} `{Structs} (fuel : nat).

(** [%09ld]: at least nine characters, zeros after the sign. *)
Definition fmt_09ld (z : Z) : string :=
  if z <? 0
  then "-" +:+ repeat_char "0" (8 - String.length (fmt_u (- z))) +:+ fmt_u (- z)
  else repeat_char "0" (9 - String.length (fmt_u z)) +:+ fmt_u z.

(** One turn of the loop: [tim] is what is left to sleep; the result is whether
    all of it was slept. *)
Definition sleep_turn (tim : Z * Z) : C W ((Z * Z) + bool) :=
  r ← sys (SNanosleep (fst tim) (snd tim));
  if fails r then
    e ← get_errno;
    if e =? EINTR then mret (inl (tv_sec (r_data r), tv_sub (r_data r)))
    else perror "nanosleep";; mret (inr false)
  else mret (inr true).

Definition body (args : Z * Z) : C W Z :=
  let '(seconds, nanoseconds) := args in
  out (ln "Starting program...");;
  out (ln ("Sleeping for " +:+ fmt_d seconds +:+ "." +:+ fmt_09ld nanoseconds +:+
           " seconds..."));;
  slept ← loop fuel sleep_turn (seconds, nanoseconds);
  if slept : bool then out (ln "Program woke up!");; mret EXIT_SUCCESS
  else mret EXIT_FAILURE.

Definition main (argv : list string) : C W Z := sleep_nanosleep.start_up argv ≫= body.
End Program.
End Nanosleep.

(** ** Reports *)

Section Reports.
Context {W} `{Kernel W} `{Structs}.

Ltac solve_reports := repeat reports_step.

Lemma set_id_reports name ids shown :
  named [name] (SCall name [] ids) = true -> part (failing [name] [] []) shown (fun _ => True) ->
  reports (failing [name] [] []) (set_id name ids shown).
Proof.
  intros Hn Hs. unfold set_id, call.
  apply reports_sys_bind; intros r Hr; unfold failing in Hr; rewrite Hn in Hr;
    unfold fails; rewrite Hr; solve_reports.
Qed.

Lemma setuid_reports uid : reports (failing ["setuid"] [] []) (Setuid.body uid).
Proof. apply set_id_reports; [done|]. solve_reports. Qed.

Lemma seteuid_reports uid : reports (failing ["seteuid"] [] []) (Seteuid.body uid).
Proof. apply set_id_reports; [done|]. solve_reports. Qed.

Lemma setreuid_reports ids : reports (failing ["setreuid"] [] []) (Setreuid.body ids).
Proof. destruct ids. apply set_id_reports; [done|]. solve_reports. Qed.

Lemma setgid_reports gid : reports (failing ["setgid"] [] []) (Setgid.body gid).
Proof. apply set_id_reports; [done|]. solve_reports. Qed.

Lemma setegid_reports gid : reports (failing ["setegid"] [] []) (Setegid.body gid).
Proof. apply set_id_reports; [done|]. solve_reports. Qed.

Lemma setregid_reports ids : reports (failing ["setregid"] [] []) (Setregid.body ids).
Proof. destruct ids. apply set_id_reports; [done|]. solve_reports. Qed.

Lemma fork_reports seconds : reports (failing ["fork"] [] []) (Fork.body seconds).
Proof. solve_reports. Qed.

Lemma exec_reports : reports (failing ["execl"] [] []) Exec.main.
Proof. solve_reports. Qed.

Lemma wait_reports f : reports (failing ["fork"; "waitpid"] [] []) (Wait.main f).
Proof. solve_reports. Qed.

Lemma waitpid_reports : reports (failing ["fork"; "waitpid"] [] []) Waitpid.main.
Proof. solve_reports. Qed.

Lemma getpgid_reports : reports (failing ["getpgid"] [] []) Getpgid.main.
Proof. solve_reports. Qed.

Lemma getsid_reports : reports (failing ["getsid"] [] []) Getsid.main.
Proof. solve_reports. Qed.

Lemma setpgid_reports : reports (failing ["setpgid"] ["fork"] []) Setpgid.main.
Proof. solve_reports. Qed.

Lemma setsid_reports : reports (failing ["setsid"] ["fork"] []) Setsid.main.
Proof. solve_reports. Qed.

Lemma tcgetpgrp_reports : reports (failing ["open"; "tcgetpgrp"] [] []) Tcgetpgrp.main.
Proof. solve_reports. Qed.

Lemma tcgetsid_reports : reports (failing ["tcgetsid"] [] []) Tcgetsid.main.
Proof. solve_reports. Qed.

Lemma tcsetpgrp_reports :
  reports (failing ["open"; "setsid"; "setpgid"] ["fork"] []) Tcsetpgrp.main.
Proof. solve_reports. Qed.

Lemma nanosleep_loop_reports fuel tim (k : bool -> C W Z) :
  (forall b, k b = if b then (out (ln "Program woke up!");; mret EXIT_SUCCESS)
                   else mret EXIT_FAILURE) ->
  reports (failing_but "nanosleep" EINTR []) (loop fuel Nanosleep.sleep_turn tim ≫= k).
Proof.
  intros Hk. revert tim. induction fuel as [|fuel IH]; intros tim; [done|]. simpl.
  apply reports_assoc. unfold Nanosleep.sleep_turn at 1. apply reports_assoc.
  apply reports_sys_errno; intros r Hr; unfold failing_but in Hr; simpl in Hr; unfold fails.
  - intros Hv. rewrite (proj2 (Z.eqb_neq _ _)) by done.
    change (reports (failing_but "nanosleep" EINTR []) (k true)). rewrite Hk. solve_reports.
  - intros Hv. rewrite Hv in *. simpl in *. apply negb_false_iff in Hr.
    apply after_assoc, after_get_errno. rewrite Hr. apply after_reports. exact (IH _).
  - apply andb_true_iff in Hr as [Hv He]. apply negb_true_iff in He. rewrite Hv.
    apply ends_assoc, ends_get_errno; [by bools|]. rewrite He. apply ends_assoc, ends_perror.
    change (releases (k false) (eq EXIT_FAILURE)). rewrite Hk. solve_reports.
Qed.

Lemma nanosleep_reports fuel a :
  reports (failing_but "nanosleep" EINTR []) (Nanosleep.body fuel a).
Proof.
  destruct a as [sec ns]. unfold Nanosleep.body. do 2 reports_step.
  apply nanosleep_loop_reports. by intros [].
Qed.
End Reports.

Section Closes.
Context {W} `{Kernel W}.

Lemma tcgetpgrp_closes : closes [] Tcgetpgrp.main.
Proof. repeat closes_step. Qed.

Lemma tcsetpgrp_closes : closes [] Tcsetpgrp.main.
Proof. repeat closes_step. Qed.
End Closes.
