(* ===== verification/SystemInfo.v ===== *)
(** * System information, time, logging and random numbers

    The programs of src/system-information, src/time, src/logging and
    src/random-numbers: a Module each, with the functions of its [main.c] after
    the command line.  [strftime] is a call that returns the text it made. *)

From S2P Require Import Prelude CMonad CString Getopt ArgParse OneOperand OptionPrograms.
From S2P Require Import Reports.

(** ** [system-information] *)

(** [src/system-information/sysconf/main.c]: [sc] is the value of a macro of
    <unistd.h>, [None] when the system does not define it. *)
Module Sysconf.
Section Program.
Context {W} `{Kernel W} `{ErrorTexts} (sc : string -> option Z).

Definition get_sysconf_value (name : Z) (name_str : string) : C W Z :=
  set_errno 0;;
  value ← call "sysconf" [] [name];
  e ← get_errno;
  (if negb (e =? 0) then out (ln (name_str +:+ ": " +:+ strerror e))
   else out (ln (name_str +:+ ": " +:+ fmt_d (r_val value))));;
  mret (r_val value).

Definition names : list string :=
  [ "_SC_AIO_LISTIO_MAX"; "_SC_AIO_MAX"; "_SC_AIO_PRIO_DELTA_MAX"; "_SC_ARG_MAX";
    "_SC_ATEXIT_MAX"; "_SC_BC_BASE_MAX"; "_SC_BC_DIM_MAX"; "_SC_BC_SCALE_MAX";
    "_SC_BC_STRING_MAX"; "_SC_CHILD_MAX"; "_SC_CLK_TCK"; "_SC_COLL_WEIGHTS_MAX";
    "_SC_DELAYTIMER_MAX"; "_SC_EXPR_NEST_MAX"; "_SC_HOST_NAME_MAX"; "_SC_IOV_MAX";
    "_SC_LINE_MAX"; "_SC_LOGIN_NAME_MAX"; "_SC_NGROUPS_MAX"; "_SC_GETGR_R_SIZE_MAX";
    "_SC_GETPW_R_SIZE_MAX"; "_SC_MQ_OPEN_MAX"; "_SC_MQ_PRIO_MAX"; "_SC_OPEN_MAX";
    "_SC_PAGE_SIZE"; "_SC_PAGESIZE"; "_SC_THREAD_DESTRUCTOR_ITERATIONS";
    "_SC_THREAD_KEYS_MAX"; "_SC_THREAD_STACK_MIN"; "_SC_THREAD_THREADS_MAX";
    "_SC_RE_DUP_MAX"; "_SC_RTSIG_MAX"; "_SC_SEM_NSEMS_MAX"; "_SC_SEM_VALUE_MAX";
    "_SC_SIGQUEUE_MAX"; "_SC_STREAM_MAX"; "_SC_SYMLOOP_MAX"; "_SC_TIMER_MAX";
    "_SC_TTY_NAME_MAX"; "_SC_TZNAME_MAX"; "_SC_ADVISORY_INFO"; "_SC_BARRIERS";
    "_SC_ASYNCHRONOUS_IO"; "_SC_CLOCK_SELECTION"; "_SC_CPUTIME"; "_SC_FSYNC"; "_SC_IPV6";
    "_SC_JOB_CONTROL"; "_SC_MAPPED_FILES"; "_SC_MEMLOCK"; "_SC_MEMLOCK_RANGE";
    "_SC_MEMORY_PROTECTION"; "_SC_MESSAGE_PASSING"; "_SC_MONOTONIC_CLOCK";
    "_SC_PRIORITIZED_IO"; "_SC_PRIORITY_SCHEDULING"; "_SC_RAW_SOCKETS";
    "_SC_READER_WRITER_LOCKS"; "_SC_REALTIME_SIGNALS"; "_SC_REGEXP"; "_SC_SAVED_IDS";
    "_SC_SEMAPHORES"; "_SC_SHARED_MEMORY_OBJECTS"; "_SC_SHELL"; "_SC_SPAWN";
    "_SC_SPIN_LOCKS"; "_SC_SPORADIC_SERVER"; "_SC_SS_REPL_MAX"; "_SC_SYNCHRONIZED_IO";
    "_SC_THREAD_ATTR_STACKADDR"; "_SC_THREAD_ATTR_STACKSIZE"; "_SC_THREAD_CPUTIME";
    "_SC_THREAD_PRIO_INHERIT"; "_SC_THREAD_PRIO_PROTECT";
    "_SC_THREAD_PRIORITY_SCHEDULING"; "_SC_THREAD_PROCESS_SHARED";
    "_SC_THREAD_ROBUST_PRIO_INHERIT"; "_SC_THREAD_ROBUST_PRIO_PROTECT";
    "_SC_THREAD_SAFE_FUNCTIONS"; "_SC_THREAD_SPORADIC_SERVER"; "_SC_THREADS";
    "_SC_TIMEOUTS"; "_SC_TIMERS"; "_SC_TRACE"; "_SC_TRACE_EVENT_FILTER";
    "_SC_TRACE_EVENT_NAME_MAX"; "_SC_TRACE_INHERIT"; "_SC_TRACE_LOG"; "_SC_TRACE_NAME_MAX";
    "_SC_TRACE_SYS_MAX"; "_SC_TRACE_USER_EVENT_MAX"; "_SC_TYPED_MEMORY_OBJECTS";
    "_SC_VERSION"; "_SC_V7_ILP32_OFF32"; "_SC_V7_ILP32_OFFBIG"; "_SC_V7_LP64_OFF64";
    "_SC_V7_LPBIG_OFFBIG"; "_SC_2_C_BIND"; "_SC_2_C_DEV"; "_SC_2_CHAR_TERM";
    "_SC_2_FORT_DEV"; "_SC_2_FORT_RUN"; "_SC_2_LOCALEDEF"; "_SC_2_PBS";
    "_SC_2_PBS_ACCOUNTING"; "_SC_2_PBS_CHECKPOINT"; "_SC_2_PBS_LOCATE";
    "_SC_2_PBS_MESSAGE"; "_SC_2_PBS_TRACK"; "_SC_2_SW_DEV"; "_SC_2_UPE"; "_SC_2_VERSION";
    "_SC_XOPEN_CRYPT"; "_SC_XOPEN_ENH_I18N"; "_SC_XOPEN_REALTIME";
    "_SC_XOPEN_REALTIME_THREADS"; "_SC_XOPEN_SHM"; "_SC_XOPEN_STREAMS"; "_SC_XOPEN_UNIX";
    "_SC_XOPEN_UUCP"; "_SC_XOPEN_VERSION" ].

(** The table: a name and its value; those under an [#ifdef] may be missing. *)
Definition pairs : list (Z * string) :=
  omap (fun name => v ← sc name; Some (v, name)) names.

Definition main : C W Z :=
  for_each pairs (fun '(value, name) => get_sysconf_value value name;; mret tt);;
  mret EXIT_SUCCESS.
End Program.
End Sysconf.

(** [src/system-information/getenv/main.c] *)
Module Getenv.
Section Program.
Context {W} `{Kernel W}.

Definition env_variables : list string :=
  [ "ARFLAGS"; "CC"; "COLUMNS"; "CDPATH"; "CFLAGS"; "CHARSET"; "DATEMSK"; "DEAD"; "EDITOR";
    "ENV"; "EXINIT"; "FC"; "FCEDIT"; "FFLAGS"; "GFLAGS"; "GET"; "HISTFILE"; "HISTSIZE";
    "HISTORY"; "HOME"; "IFS"; "LANG"; "LDFLAGS"; "LEX"; "LFLAGS"; "LC_ALL"; "LC_COLLATE";
    "LC_CTYPE"; "LC_MESSAGES"; "LC_MONETARY"; "LC_NUMERIC"; "LC_TIME"; "LINENO"; "LINES";
    "LISTER"; "LOGNAME"; "LPDEST"; "MAIL"; "MAILCHECK"; "MAILER"; "MAILPATH"; "MAILRC";
    "MAKEFLAGS"; "MAKESHELL"; "MANPATH"; "MBOX"; "MORE"; "MSGVERB"; "NPROC"; "NLSPATH";
    "OLDPWD"; "OPTARG"; "OPTERR"; "OPTIND"; "PAGER"; "PATH"; "PPID"; "PRINTER"; "PROCLANG";
    "PROJECTDIR"; "PS1"; "PS2"; "PS3"; "PS4"; "PWD"; "RANDOM"; "SECONDS"; "SHELL"; "TERM";
    "TERMCAP"; "TERMINFO"; "TMPDIR"; "TZ"; "USER"; "VISUAL"; "YACC"; "YFLAGS" ].

Definition print_env_variable (variable : string) : C W unit :=
  value ← call "getenv" [variable] [];
  if negb (fails value)
  then out (ln (variable +:+ ": " +:+ of_chars (r_data value)))
  else out (ln (variable +:+ ": (not set)")).

Definition main : C W Z := for_each env_variables print_env_variable;; mret EXIT_SUCCESS.
End Program.
End Getenv.

(** The shape of gethostname and getlogin_r: a limit from [sysconf], a buffer,
    and a call that fills it and returns 0. *)
Definition limited_name {W} `{Kernel W} (limit : Z) (get label : string) : C W Z :=
  length ← call "sysconf" [] [limit];
  if r_val length <=? 0 then perror_fail "sysconf" else
  let max_length := to_unsigned 64 (r_val length) in
  buffer ← sys (SAlloc (to_unsigned 64 (max_length + 1)));
  if fails buffer then perror_fail "malloc" else
  result ← call get [] [max_length];
  if r_val result =? 0
  then out (ln (label +:+ of_chars (cstring (r_data result ++ [NUL]))));; mret EXIT_SUCCESS
  else perror_fail get.

(** [src/system-information/gethostname/main.c] *)
Module Gethostname.
Definition SC_HOST_NAME_MAX : Z := 180.
Definition main {W} `{Kernel W} : C W Z :=
  limited_name SC_HOST_NAME_MAX "gethostname" "Hostname: ".
End Gethostname.

(** [src/system-information/getlogin_r/main.c] *)
Module Getlogin.
Definition SC_LOGIN_NAME_MAX : Z := 71.
Definition main {W} `{Kernel W} : C W Z :=
  limited_name SC_LOGIN_NAME_MAX "getlogin_r" "Logged-in user: ".
End Getlogin.

(** Resources (<sys/resource.h>, Linux). *)
Definition RLIMIT_CPU : Z := 0.
Definition RLIMIT_FSIZE : Z := 1.
Definition RLIMIT_DATA : Z := 2.
Definition RLIMIT_STACK : Z := 3.
Definition RLIMIT_CORE : Z := 4.
Definition RLIMIT_NOFILE : Z := 7.
Definition RLIMIT_AS : Z := 9.

(** [src/system-information/getrlimit/main.c] *)
Module Getrlimit.
Section Program.
Context {W} `{Kernel W} `{Structs}.

Definition limit_text (limit : Z) : string :=
  if limit =? RLIM_INFINITY then ln "unlimited"
  else ln (fmt_d (to_signed 64 limit) +:+ " bytes").

Definition show_limit (resource : Z) (name : string) : C W unit :=
  rlim ← call "getrlimit" [] [resource];
  if r_val rlim =? 0 then
    out (ln (name +:+ ":"));;
    out (tab +:+ "Current soft limit: ");;
    out (limit_text (rlim_cur (r_data rlim)));;
    out (tab +:+ "Current hard limit: ");;
    out (limit_text (rlim_max (r_data rlim)))
  else perror "Error getting resource limit".

Definition main : C W Z :=
  show_limit RLIMIT_CORE "RLIMIT_CORE";;
  show_limit RLIMIT_CPU "RLIMIT_CPU";;
  show_limit RLIMIT_DATA "RLIMIT_DATA";;
  show_limit RLIMIT_FSIZE "RLIMIT_FSIZE";;
  show_limit RLIMIT_NOFILE "RLIMIT_NOFILE";;
  show_limit RLIMIT_STACK "RLIMIT_STACK";;
  show_limit RLIMIT_AS "RLIMIT_AS";;
  mret EXIT_SUCCESS.
End Program.
End Getrlimit.

(** [src/system-information/setrlimit/main.c] *)
Module Setrlimit.
Section Program.
Context {W} `{Kernel W}.

Definition set_rlimit (resource : Z) (name : string) (soft_limit hard_limit : Z) : C W unit :=
  out (ln ("Resource: " +:+ name));;
  r ← call "setrlimit" [] [resource; soft_limit; hard_limit];
  if fails r then perror "setrlimit"
  else
    out (ln ("  Soft limit set to: " +:+ fmt_d (to_signed 64 soft_limit)));;
    out (ln ("  Hard limit set to: " +:+ fmt_d (to_signed 64 hard_limit))).

Definition main : C W Z :=
  set_rlimit RLIMIT_CORE "RLIMIT_CORE" 8 32;;
  set_rlimit RLIMIT_CPU "RLIMIT_CPU" 5 10;;
  out (ln "Resource: RLIMIT_DATA");;
  out (ln "  Not settable by setrlimit");;
  set_rlimit RLIMIT_FSIZE "RLIMIT_FSIZE" 1048576 1048576;;
  set_rlimit RLIMIT_NOFILE "RLIMIT_NOFILE" 1024 2048;;
  set_rlimit RLIMIT_STACK "RLIMIT_STACK" 8388608 16777216;;
  set_rlimit RLIMIT_AS "RLIMIT_AS" 6710886 6710886;;
  mret EXIT_SUCCESS.
End Program.
End Setrlimit.

(** [src/system-information/gettimeofday/main.c] *)
Module Gettimeofday.
Definition main {W} `{Kernel W} `{Structs} : C W Z :=
  tv ← call "gettimeofday" [] [];
  if fails tv then perror_fail "gettimeofday" else
  out (ln ("Seconds: " +:+ fmt_d (tv_sec (r_data tv))) +:+
       ln ("Microseconds: " +:+ fmt_d (tv_sub (r_data tv))));;
  mret EXIT_SUCCESS.
End Gettimeofday.

(** [src/system-information/uname/main.c]: the last statement is
    [return EXIT_FAILURE]. *)
Module Uname.
Definition main {W} `{Kernel W} `{Structs} : C W Z :=
  system_info ← call "uname" [] [];
  if negb (r_val system_info =? 0) then perror_fail "uname" else
  let field name := uts_field name (r_data system_info) in
  out (ln ("System Name: " +:+ field "sysname"));;
  out (ln ("Node Name: " +:+ field "nodename"));;
  out (ln ("Release: " +:+ field "release"));;
  out (ln ("Version: " +:+ field "version"));;
  out (ln ("Machine: " +:+ field "machine"));;
  mret EXIT_FAILURE.
End Uname.

(** ** [time] *)

Section Times.
Context {W} `{Kernel W}.

(** A conversion of a time and its text by [strftime]. *)
Definition strftime (format : string) (when : list byte) : C W sysret :=
  call "strftime" [format; of_chars when] [80].
End Times.

Module Gmtime.
Definition main {W} `{Kernel W} : C W Z :=
  rawtime ← call "time" [] [];
  if fails rawtime then perror_fail "Error getting current time" else
  timeinfo ← call "gmtime" [] [r_val rawtime];
  if fails timeinfo then perror_fail "Error converting to GMT/UTC time" else
  buffer ← strftime (ln "GMT/UTC Time: %Y-%m-%d %H:%M:%S") (r_data timeinfo);
  if r_val buffer =? 0 then perror_fail "Error formatting time" else
  out (of_chars (r_data buffer));;
  mret EXIT_SUCCESS.
End Gmtime.

Module Localtime.
Definition main {W} `{Kernel W} : C W Z :=
  rawtime ← call "time" [] [];
  if fails rawtime then perror_fail "Error getting current time" else
  timeinfo ← call "localtime_r" [] [r_val rawtime];
  if fails timeinfo then perror_fail "Error converting to local time" else
  buffer ← strftime (ln "Formatted date: %Y-%m-%d %H:%M:%S") (r_data timeinfo);
  if r_val buffer =? 0 then perror_fail "Error formatting time" else
  out (of_chars (r_data buffer));;
  mret EXIT_SUCCESS.
End Localtime.

(** [difftime] of two times less than [2 ^ 53] seconds apart is an integer, so
    that [%.2f] shows two zeros. *)
Module Difftime.
Section Program.
Context {W} `{Kernel W}.

Definition body (seconds : Z) : C W Z :=
  start_time ← call "time" [] [];
  if fails start_time then perror_fail "Error getting start time" else
  sys (SSleep seconds);;
  end_time ← call "time" [] [];
  if fails end_time then perror_fail "Error getting end time" else
  if (r_val end_time =? -1) || (r_val start_time =? -1)
  then perror_fail "Invalid time values" else
  let diff_time := r_val end_time - r_val start_time in
  out (ln ("Time difference: " +:+ fmt_d diff_time +:+ ".00 seconds"));;
  mret EXIT_SUCCESS.

Definition main (argv : list string) : C W Z := time_difftime.start_up argv ≫= body.
End Program.
End Difftime.

(** [src/time/mktime/main.c]: the fields go to [mktime], which stores them again. *)
Module Mktime.
Section Program.
Context {W} `{Kernel W}.

(** [tm_sec] to [tm_year], and [tm_isdst]. *)
Definition timeinfo : list Z := [17; 30; 12; 1; 6; 122; -1].

Definition main : C W Z :=
  result_time ← call "mktime" [] timeinfo;
  if fails result_time then perror_fail "Error converting time" else
  buffer ← strftime (ln "Converted time: %Y-%m-%d %H:%M:%S") (r_data result_time);
  out (of_chars (r_data buffer));;
  mret EXIT_SUCCESS.
End Program.
End Mktime.

(** [src/time/strptime/main.c] *)
Module Strptime.
Section Program.
Context {W} `{Kernel W} `{Structs}.

Definition BASE_YEAR : Z := 1900.
Definition time_str : string := "2023-08-02 14:30:00".
Definition format : string := "%Y-%m-%d %H:%M:%S".

(** [%0<w>d]: at least [w] characters, zeros after the sign. *)
Definition fmt_0d (w : nat) (z : Z) : string :=
  if z <? 0
  then "-" +:+ repeat_char "0" (w - 1 - String.length (fmt_u (- z))) +:+ fmt_u (- z)
  else repeat_char "0" (w - String.length (fmt_u z)) +:+ fmt_u z.

Definition parsed_line (timeinfo : list byte) : string :=
  ln ("Parsed Time: " +:+ fmt_0d 4 (tm_field "tm_year" timeinfo + BASE_YEAR) +:+ "-" +:+
      fmt_0d 2 (tm_field "tm_mon" timeinfo + 1) +:+ "-" +:+
      fmt_0d 2 (tm_field "tm_mday" timeinfo) +:+ " " +:+
      fmt_0d 2 (tm_field "tm_hour" timeinfo) +:+ ":" +:+
      fmt_0d 2 (tm_field "tm_min" timeinfo) +:+ ":" +:+
      fmt_0d 2 (tm_field "tm_sec" timeinfo)).

(** [mktime] changes [timeinfo], with [tm_isdst] set to -1, in place. *)
Definition main : C W Z :=
  timeinfo ← call "strptime" [time_str; format] [];
  if fails timeinfo then eout (ln "Error parsing time");; mret EXIT_FAILURE else
  result_time ← call "mktime" [of_chars (r_data timeinfo)] [-1];
  if fails result_time then eout (ln "Error converting time");; mret EXIT_FAILURE else
  out (parsed_line (r_data result_time));;
  out (ln ("Time in seconds since epoch: " +:+ fmt_d (r_val result_time)));;
  mret EXIT_SUCCESS.
End Program.
End Strptime.

(** ** [logging] *)

Section Logging.
Context {W} `{Kernel W}.

Definition LOG_PID : Z := 1.
Definition LOG_CONS : Z := 2.
Definition LOG_USER : Z := 8.
Definition LOG_EMERG : Z := 0.
Definition LOG_ALERT : Z := 1.
Definition LOG_CRIT : Z := 2.
Definition LOG_ERR : Z := 3.
Definition LOG_WARNING : Z := 4.
Definition LOG_NOTICE : Z := 5.
Definition LOG_INFO : Z := 6.
Definition LOG_DEBUG : Z := 7.
Definition LOG_MASK (priority : Z) : Z := Z.shiftl 1 priority.

Definition openlog (name : string) (option : Z) : C W sysret :=
  call "openlog" [name] [option; LOG_USER].
Definition syslog (priority : Z) (message : string) : C W unit :=
  call "syslog" [message] [priority];; mret tt.

Definition logMessages : C W unit :=
  syslog LOG_EMERG "This is an emergency message.";;
  syslog LOG_ALERT "This is an alert message.";;
  syslog LOG_CRIT "This is a critical message.";;
  syslog LOG_ERR "This is an error message.";;
  syslog LOG_WARNING "This is a warning message.";;
  syslog LOG_NOTICE "This is a notice message.";;
  syslog LOG_INFO "This is an informational message.";;
  syslog LOG_DEBUG "This is a debug message.".

Definition logging_pid : C W unit :=
  pid ← call "getpid" [] []; out (ln ("Logging PID " +:+ fmt_d (r_val pid))).
End Logging.

Module Openlog.
Section Program.
Context {W} `{Kernel W}.
Definition body (log_name : string) : C W Z :=
  openlog log_name (Z.lor LOG_PID LOG_CONS);;
  out (ln ("Opened log for " +:+ log_name));;
  call "closelog" [] [];;
  out (ln ("Closed log for " +:+ log_name));;
  mret EXIT_SUCCESS.
Definition main (argv : list string) : C W Z :=
  start_with logging_openlog.parse_arguments logging_openlog.handle_arguments argv ≫= body.
End Program.
End Openlog.

Module Syslog.
Section Program.
Context {W} `{Kernel W}.
Definition logMessages : C W unit := logMessages.
Definition body (log_name : string) : C W Z :=
  openlog log_name LOG_PID;;
  logging_pid;;
  logMessages;;
  call "closelog" [] [];;
  mret EXIT_SUCCESS.
Definition main (argv : list string) : C W Z :=
  start_with logging_syslog.parse_arguments logging_syslog.handle_arguments argv ≫= body.
End Program.
End Syslog.

Module Setlogmask.
Section Program.
Context {W} `{Kernel W}.
Definition logMessages : C W unit := logMessages.

Definition set_mask_or_stop (mask : Z) (k : C W Z) : C W Z :=
  r ← call "setlogmask" [] [mask];
  if fails r then
    syslog LOG_ERR "Failed to set log mask";; call "closelog" [] [];; mret EXIT_FAILURE
  else k.

Definition every_priority : Z :=
  foldr Z.lor 0 (LOG_MASK <$> [LOG_EMERG; LOG_ALERT; LOG_CRIT; LOG_ERR; LOG_WARNING;
                               LOG_NOTICE; LOG_INFO; LOG_DEBUG]).

Definition body (log_name : string) : C W Z :=
  openlog log_name LOG_PID;;
  set_mask_or_stop every_priority (
    logging_pid;;
    logMessages;;
    set_mask_or_stop (LOG_MASK LOG_EMERG) (
      logMessages;;
      call "closelog" [] [];;
      mret EXIT_SUCCESS)).
Definition main (argv : list string) : C W Z :=
  start_with logging_setlogmask.parse_arguments logging_setlogmask.handle_arguments argv
    ≫= body.
End Program.
End Setlogmask.

(** ** [random-numbers] *)

Module Random.
Section Program.
Context {W} `{Kernel W}.

Definition COUNT : nat := 5.

Definition print_random_numbers (count : nat) : C W unit :=
  for_each (seq 1 count) (fun i =>
    random_value ← call "random" [] [];
    out (ln ("Random number " +:+ fmt_u (Z.of_nat i) +:+ ": " +:+ fmt_d (r_val random_value)))).

Definition main : C W Z :=
  now ← call "time" [] [];
  let seed := to_unsigned 32 (r_val now) in
  call "srandom" [] [seed];;
  out (ln "First sequence");;
  print_random_numbers COUNT;;
  call "srandom" [] [to_unsigned 32 (seed + 1)];;
  out (ln "Second sequence");;
  print_random_numbers COUNT;;
  call "srandom" [] [seed];;
  out (ln "Third sequence");;
  print_random_numbers COUNT;;
  mret EXIT_SUCCESS.
End Program.
End Random.

(** ** Reports *)

Section Reports.
Context {W} `{Kernel W} `{Structs} `{ErrorTexts}.

Ltac solve_reports := repeat reports_step.

Lemma gettimeofday_reports : reports (failing ["gettimeofday"] [] []) Gettimeofday.main.
Proof. solve_reports. Qed.

Lemma getrlimit_reports : reports (failing [] [] []) Getrlimit.main.
Proof.
  assert (forall r n, part (failing [] [] []) (Getrlimit.show_limit r n) (fun _ => True)) as Hs.
  { intros r n. solve_reports. }
  unfold Getrlimit.main. repeat (eapply reports_bind; [apply Hs|intros _ _]). solve_reports.
Qed.

(** [strftime] fails with 0: the text does not fit. *)
Definition time_failing (minus_one : list string) (c : syscall) (r : sysret) : bool :=
  if named ["strftime"] c then r_val r =? 0 else failing minus_one [] [] c r.

Ltac time_reports :=
  repeat first [progress unfold time_failing in * | reports_step].

Lemma gmtime_reports : reports (time_failing ["time"; "gmtime"]) Gmtime.main.
Proof. time_reports. Qed.

Lemma localtime_reports : reports (time_failing ["time"; "localtime_r"]) Localtime.main.
Proof. time_reports. Qed.

Lemma mktime_reports : reports (failing ["mktime"] [] []) Mktime.main.
Proof. solve_reports. Qed.

Lemma strptime_reports : reports (failing ["strptime"; "mktime"] [] []) Strptime.main.
Proof. solve_reports. Qed.

Lemma difftime_reports seconds : reports (failing ["time"] [] []) (Difftime.body seconds).
Proof. solve_reports. Qed.

(** The results of [sysconf] that leave no room for a name. *)
Definition name_failing (get : string) (c : syscall) (r : sysret) : bool :=
  if named ["sysconf"] c then r_val r <=? 0 else failing ["malloc"] [] [get] c r.

Lemma gethostname_reports : reports (name_failing "gethostname") Gethostname.main.
Proof. repeat first [progress unfold name_failing in * | reports_step]. Qed.

Lemma getlogin_reports : reports (name_failing "getlogin_r") Getlogin.main.
Proof. repeat first [progress unfold name_failing in * | reports_step]. Qed.
End Reports.
