(* ===== verification/Strings.v ===== *)
(** * Strings, patterns and paths

    The programs of src/strings, src/string-processing (all but snprintf) and
    src/path-manipulation: a Module each, with the functions of its [main.c] after
    the command line.  The string functions are those of CString.v; an array is
    the list of its bytes, [junk n] the [n] bytes a new one holds.  The theorems
    say that each program prints the right answer. *)

From S2P Require Import Prelude CMonad CString Getopt ArgParse OneOperand OptionPrograms.
From S2P Require Import Reports LineWords.

(** ** Arrays of characters *)

Section Arrays.
Context {W : Type}.

(** The string that starts at [a[i]]: a NUL has to follow inside the array. *)
Definition string_at (a : list byte) (i : nat) : C W string :=
  if no_nul (drop i a) then undef "string without an end"
  else mret (of_chars (cstring (drop i a))).

(** [strncpy(a, src, n)] and [strncat(a, src, n)], inside the array. *)
Definition strncpy_array (a : list byte) (src : string) (n : nat) : C W (list byte) :=
  if (length a <? n)%nat then undef "strncpy past the array" else mret (strncpy a src n).

Definition strncat_array (a : list byte) (src : string) (n : nat) : C W (list byte) :=
  let old := cstring a in
  let text := old ++ take n (chars src) ++ [NUL] in
  if no_nul a || (length a <? length text)%nat then undef "strncat past the array"
  else mret (overwrite text a).

(** [strcpy(a, src)] *)
Definition strcpy_array (a : list byte) (src : string) : C W (list byte) :=
  let text := chars src ++ [NUL] in
  if (length a <? length text)%nat then undef "strcpy past the array"
  else mret (overwrite text a).
End Arrays.

(** A text between double quotes. *)
Definition quoted (s : string) : string := dq +:+ s +:+ dq.

(** ** [strings] *)

Module Strcmp.
Section Program.
Context {W : Type}.
Definition body (args : string * string) : C W Z :=
  let '(string1, string2) := args in
  let result := strcmp string1 string2 in
  (if result =? 0
   then out (ln (quoted string1 +:+ " and " +:+ quoted string2 +:+ " are identical."))
   else out (ln (quoted string1 +:+ " and " +:+ quoted string2 +:+ " are different (" +:+
                 fmt_d result +:+ ").")));;
  mret EXIT_SUCCESS.
Definition main (argv : list string) : C W Z := strings_strcmp.start_up argv ≫= body.
End Program.
End Strcmp.

Module Strncmp.
Section Program.
Context {W : Type}.
Definition body (args : string * string * Z) : C W Z :=
  let '(string1, string2, n) := args in
  let result := strncmp (Z.to_nat n) string1 string2 in
  (if result =? 0
   then out (ln (quoted string1 +:+ " and " +:+ quoted string2 +:+ " are identical to " +:+
                 fmt_u n +:+ "."))
   else out (ln (quoted string1 +:+ " and " +:+ quoted string2 +:+ " are different to " +:+
                 fmt_u n +:+ " (" +:+ fmt_d result +:+ ").")));;
  mret EXIT_SUCCESS.
Definition main (argv : list string) : C W Z := strings_strncmp.start_up argv ≫= body.
End Program.
End Strncmp.

Module Strdup.
Section Program.
Context {W} `{Kernel W}.
Definition body (s : string) : C W Z :=
  duplicate ← sys (SAlloc (Z.of_nat (String.length s) + 1));
  if fails duplicate then perror_fail (ln "Memory allocation failed for duplicate") else
  out (ln ("Duplicated string: " +:+ quoted s));;
  mret EXIT_SUCCESS.
Definition main (argv : list string) : C W Z :=
  start_with strings_strdup.parse_arguments strings_strdup.handle_arguments argv ≫= body.
End Program.
End Strdup.

Module Strlen.
Section Program.
Context {W : Type}.
Definition body (s : string) : C W Z :=
  out (ln ("Length of " +:+ quoted s +:+ " is " +:+ fmt_u (Z.of_nat (String.length s))));;
  mret EXIT_SUCCESS.
Definition main (argv : list string) : C W Z :=
  start_with strings_strlen.parse_arguments strings_strlen.handle_arguments argv ≫= body.
End Program.
End Strlen.

(** The block has [n + 1] bytes, in the arithmetic of [size_t]. *)
Module Strncpy.
Section Program.
Context {W} `{Kernel W} (junk : nat -> list byte).
(** After the allocation of [size] bytes. *)
Definition copy (size : Z) (s : string) (n : Z) : C W Z :=
  destination ← strncpy_array (junk (Z.to_nat size)) s (Z.to_nat n);
  out (ln ("Source string: " +:+ s));;
  copied ← string_at destination 0;
  out (ln ("Copied string: " +:+ copied));;
  mret EXIT_SUCCESS.

Definition body (args : string * Z) : C W Z :=
  let '(s, n) := args in
  let size := to_unsigned 64 (n + 1) in
  r ← sys (SAlloc size);
  if fails r then perror_fail (ln "Memory allocation failed") else
  copy size s n.
Definition main (argv : list string) : C W Z := strings_strncpy.start_up argv ≫= body.
End Program.
End Strncpy.

(** ** [string-processing] *)

(** What [regcomp] and [regexec] make of a pattern is the library's; a regular
    expression that did not compile may not be given to [regexec], and only what
    came from [malloc] may be freed. *)
Section Regex.
Context {W} `{Kernel W}.
Definition BUFFER_LEN : Z := 100.
Definition REG_NOMATCH : Z := 1.

Definition error_text (ret : Z) : C W string :=
  r ← call "regerror" [] [ret; BUFFER_LEN];
  mret (of_chars (cstring (r_data r ++ [NUL]))).
End Regex.

Module Regcomp.
Section Program.
Context {W} `{Kernel W}.
Definition body (pattern : string) : C W Z :=
  ret ← call "regcomp" [pattern] [0];
  if negb (r_val ret =? 0) then
    text ← error_text (r_val ret);
    out (ln ("Error compiling regex: " +:+ text));;
    undef "free of an argument of the command line"
  else
    out (ln "Regular expression compiled successfully");;
    call "regfree" [] [];;
    mret EXIT_SUCCESS.
Definition main (argv : list string) : C W Z :=
  start_with string_processing_regcomp.parse_arguments string_processing_regcomp.handle_arguments
    argv ≫= body.
End Program.
End Regcomp.

Module Regexec.
Section Program.
Context {W} `{Kernel W}.

Definition match_one (compiled : bool) (pattern s : string) : C W unit :=
  if negb compiled then undef "regexec of what regcomp refused" else
  ret ← call "regexec" [pattern; s] [0];
  if r_val ret =? 0
  then out (ln ("The string " +:+ quoted s +:+ " matches the regex: " +:+ quoted pattern))
  else if r_val ret =? REG_NOMATCH
  then out (ln ("The string " +:+ quoted s +:+ " does not match the regex: " +:+ quoted pattern))
  else
    text ← error_text (r_val ret);
    out (ln ("Error executing regex: " +:+ text +:+ " on the string " +:+ quoted s)).

Definition body (pattern : string) (strings : list string) : C W Z :=
  ret ← call "regcomp" [pattern] [0];
  let compiled := r_val ret =? 0 in
  (if negb compiled then
     text ← error_text (r_val ret); out (ln ("Error compiling regex: " +:+ text))
   else mret tt);;
  out (ln "Regular expression compiled successfully");;
  for_each strings (match_one compiled pattern);;
  call "regfree" [] [];;
  mret EXIT_SUCCESS.

Definition main (argv : list string) : C W Z :=
  '(pattern, optind) ← string_processing_regexec.start_up argv;
  body pattern (drop (optind + 1) argv).
End Program.
End Regexec.

Module Strchr.
Section Program.
Context {W : Type}.
Definition search_for (needle : byte) (haystack : string) : C W unit :=
  match strchr haystack needle with
  | Some position =>
      out (ln ("Found character '" +:+ String needle "" +:+ "' at position " +:+
               fmt_d (Z.of_nat position)))
  | None => out (ln ("Character '" +:+ String needle "" +:+ "' not found."))
  end.
Definition body (args : string * byte) : C W Z :=
  let '(haystack, needle) := args in search_for needle haystack;; mret EXIT_SUCCESS.
Definition main (argv : list string) : C W Z := string_processing_strchr.start_up argv ≫= body.
End Program.
End Strchr.

Module Strstr.
Section Program.
Context {W : Type}.
Definition search_for (needle haystack : string) : C W unit :=
  match strstr haystack needle with
  | Some position =>
      out (ln ("Found substring '" +:+ needle +:+ "' at position " +:+ fmt_d (Z.of_nat position)))
  | None => out (ln ("Substring '" +:+ needle +:+ "' not found."))
  end.
Definition body (args : string * string) : C W Z :=
  let '(needle, haystack) := args in search_for needle haystack;; mret EXIT_SUCCESS.
Definition main (argv : list string) : C W Z := string_processing_strstr.start_up argv ≫= body.
End Program.
End Strstr.

Module StrtokR.
Section Program.
Context {W} `{Kernel W}.
Definition delimiter : string := " ".
Definition body (s : string) : C W Z :=
  token_copy ← sys (SAlloc (Z.of_nat (String.length s) + 1));
  if fails token_copy then out (ln "Memory allocation failed");; mret EXIT_FAILURE else
  out (ln "Tokenized words:");;
  tokens delimiter s (fun token => out (ln ("Token: " +:+ token)));;
  mret EXIT_SUCCESS.
Definition main (argv : list string) : C W Z :=
  start_with string_processing_strtok_r.parse_arguments string_processing_strtok_r.handle_arguments
    argv ≫= body.
End Program.
End StrtokR.

Module Strncat.
Section Program.
Context {W : Type} (junk : nat -> list byte).
Definition ARRAY_LEN : nat := 100.
Definition main : C W Z :=
  str ← strcpy_array (junk ARRAY_LEN) "Hello, ";
  str ← strncat_array str "World!" 3;
  text ← string_at str 0;
  out (ln ("Concatenated string: " +:+ quoted text));;
  mret EXIT_SUCCESS.
End Program.
End Strncat.

Module Wordexp.
Section Program.
Context {W} `{Kernel W} `{Structs}.
Definition body (s : string) : C W Z :=
  ret ← call "wordexp" [s] [0];
  if negb (r_val ret =? 0) then
    out (ln ("Error expanding command: " +:+ fmt_d (r_val ret)));; mret EXIT_FAILURE
  else
  out (ln "Expanded words:");;
  for_each (imap pair (we_wordv (r_data ret)))
    (fun '(i, word) => out (ln ("Word " +:+ fmt_u (Z.of_nat i) +:+ ": " +:+ word)));;
  call "wordfree" [] [];;
  mret EXIT_SUCCESS.
Definition main (argv : list string) : C W Z :=
  string_processing_wordexp_wordfree.start_up argv ≫= body.
End Program.
End Wordexp.

(** ** [path-manipulation]

    [basename] and [dirname] by the text of POSIX (two leading slashes count as
    one); both may change their argument, [modified] is what is left of it. *)

Fixpoint drop_slashes (l : list byte) : list byte :=
  match l with
  | c :: l' => if (c =?c "/")%c then drop_slashes l' else l
  | [] => []
  end.

(** The characters before the first slash, and from it on. *)
Fixpoint component (l : list byte) : list byte * list byte :=
  match l with
  | c :: l' => if (c =?c "/")%c then ([], l) else let '(a, b) := component l' in (c :: a, b)
  | [] => ([], [])
  end.

(** The path read backwards, without the slashes at its end. *)
Definition backwards (path : string) : list byte := drop_slashes (rev (chars path)).

Definition basename (path : string) : string :=
  if (String.length path =? 0)%nat then "."
  else match backwards path with
       | [] => "/"
       | l => of_chars (rev (fst (component l)))
       end.

Definition dirname (path : string) : string :=
  if (String.length path =? 0)%nat then "."
  else match backwards path with
       | [] => "/"
       | l => match snd (component l) with
              | [] => "."
              | rest => match drop_slashes rest with
                        | [] => "/"
                        | dir => of_chars (rev dir)
                        end
              end
       end.

Module Basename.
Section Program.
Context {W : Type} (modified : string -> string).
Definition body (path : string) : C W Z :=
  let file_name := basename path in
  out (ln ("Original Path: " +:+ modified path));;
  out (ln ("File Name: " +:+ file_name));;
  mret EXIT_SUCCESS.
Definition main (argv : list string) : C W Z :=
  start_with path_manipulation_basename.parse_arguments path_manipulation_basename.handle_arguments
    argv ≫= body.
End Program.
End Basename.

Module Dirname.
Section Program.
Context {W : Type} (modified : string -> string).
Definition body (path : string) : C W Z :=
  out (ln ("Original Path: " +:+ path));;
  let dir_name := dirname path in
  out (ln ("Original Path after dirname: " +:+ modified path));;
  out (ln ("Directory Name: " +:+ dir_name));;
  mret EXIT_SUCCESS.
Definition main (argv : list string) : C W Z :=
  start_with path_manipulation_dirname.parse_arguments path_manipulation_dirname.handle_arguments
    argv ≫= body.
End Program.
End Dirname.

Module Fnmatch.
Section Program.
Context {W} `{Kernel W}.
Definition match_one (pattern path : string) : C W unit :=
  r ← call "fnmatch" [pattern; path] [0];
  if negb (r_val r =? 0)
  then out (ln ("Filename '" +:+ path +:+ "' doesn't match the pattern."))
  else out (ln ("Filename '" +:+ path +:+ "' matches the pattern.")).
Definition main (argv : list string) : C W Z :=
  '(pattern, optind) ← path_manipulation_fnmatch.start_up argv;
  for_each (drop (optind + 1) argv) (match_one pattern);;
  mret EXIT_SUCCESS.
End Program.
End Fnmatch.

(** [glob] calls the error handler for each directory it cannot read. *)
Module Glob.
Section Program.
Context {W} `{Kernel W} `{Structs}.
Definition GLOB_ERR : Z := 1.
Definition GLOB_NOSPACE : Z := 1.
Definition GLOB_NOMATCH : Z := 3.

Definition custom_error_handler (epath : string) (err : Z) : C W Z :=
  eout (ln ("Custom Error: Failed to process path '" +:+ epath +:+ "' with error code " +:+
            fmt_d err));;
  mret 0.

Definition body (pattern : string) : C W Z :=
  glob_result ← call "glob" [pattern] [GLOB_ERR];
  for_each (gl_errors (r_data glob_result))
    (fun '(epath, err) => custom_error_handler epath err;; mret tt);;
  let glob_status := r_val glob_result in
  if negb (glob_status =? 0) then
    (if glob_status =? GLOB_NOMATCH then eout (ln "No matching files found.")
     else if glob_status =? GLOB_NOSPACE then eout (ln "Memory allocation error.")
     else eout (ln "Error matching files."));;
    mret EXIT_FAILURE
  else
  for_each (gl_pathv (r_data glob_result)) (fun path => out (ln ("Matched file: " +:+ path)));;
  call "globfree" [] [];;
  mret EXIT_SUCCESS.

Definition main (argv : list string) : C W Z :=
  start_with path_manipulation_glob.parse_arguments path_manipulation_glob.handle_arguments argv
    ≫= body.
End Program.
End Glob.

(** ** What the answers should be

    A string as the array holds it, with its NUL. *)

Definition array_of (s : string) : list byte := chars s ++ [NUL].

(** The first place of a character, of a substring. *)
Definition first_char (c : byte) (s : string) (i : nat) : Prop :=
  array_of s !! i = Some c /\ forall j, (j < i)%nat -> array_of s !! j <> Some c.

Definition occurs_at (needle haystack : string) (i : nat) : Prop :=
  exists before after, haystack = before +:+ needle +:+ after /\ String.length before = i.

Definition first_substring (needle haystack : string) (i : nat) : Prop :=
  occurs_at needle haystack i /\ forall j, occurs_at needle haystack j -> (i <= j)%nat.

(** The first [n] characters are the same, or the first two that differ. *)
Definition comparison (n : nat) (s1 s2 : string) (r : Z) : Prop :=
  (r = 0 /\ take n (array_of s1) = take n (array_of s2)) \/
  exists k x y, (k < n)%nat /\ take k (array_of s1) = take k (array_of s2) /\
    array_of s1 !! k = Some x /\ array_of s2 !! k = Some y /\ x <> y /\
    r = byte_val x - byte_val y.

(** The pieces between delimiters; those that are not empty. *)
Fixpoint split_at (delims s : string) : list string :=
  match s with
  | EmptyString => [EmptyString]
  | String c s =>
      if is_delim delims c then EmptyString :: split_at delims s
      else match split_at delims s with
           | w :: ws => String c w :: ws
           | [] => [String c EmptyString]
           end
  end.

Definition pieces (delims s : string) : list string :=
  filter (fun w => w <> EmptyString) (split_at delims s).

(** ** The functions give them *)

Lemma byte_val_inj a b : byte_val a = byte_val b -> a = b.
Proof.
  unfold byte_val. intros E. apply N2Z.inj in E.
  rewrite <- (ascii_N_embedding a), <- (ascii_N_embedding b). by rewrite E.
Qed.

Lemma strchr_spec s c :
  match strchr s c with
  | Some i => first_char c s i
  | None => c ∉ array_of s
  end.
Proof.
  unfold first_char, array_of. induction s as [|d s IH]; simpl.
  - destruct (c =?c NUL)%c eqn:E; [apply Ascii.eqb_eq in E as ->|apply Ascii.eqb_neq in E].
    + split; [done|]. intros j Hj. lia.
    + by rewrite list_elem_of_singleton.
  - destruct (d =?c c)%c eqn:E; [apply Ascii.eqb_eq in E as ->|apply Ascii.eqb_neq in E].
    + split; [done|]. intros j Hj. lia.
    + destruct (strchr s c) as [i|]; simpl.
      * destruct IH as [Hi Hj]. split; [done|]. intros [|j] Hlt; simpl; [congruence|].
        apply Hj. lia.
      * rewrite not_elem_of_cons. by split.
Qed.

Lemma is_prefix_spec p s : is_prefix p s = true <-> exists r, s = p +:+ r.
Proof.
  revert s. induction p as [|a p IH]; intros s; simpl; [by split; [exists s|]|].
  destruct s as [|b s]; [split; [done|by intros [r [=]]]|].
  rewrite andb_true_iff, Ascii.eqb_eq, IH. split.
  - intros [-> [r ->]]. by exists r.
  - intros [r [= -> ->]]. eauto.
Qed.

Lemma occurs_at_0 n h : occurs_at n h 0 <-> is_prefix n h = true.
Proof.
  rewrite is_prefix_spec. split.
  - intros (b & a & -> & E). destruct b; [by exists a|done].
  - intros [r ->]. by exists "", r.
Qed.

Lemma occurs_at_S n c h i : occurs_at n (String c h) (S i) <-> occurs_at n h i.
Proof.
  split.
  - intros (b & a & E & Hl). destruct b as [|d b]; [done|]. injection E as -> E.
    exists b, a. simpl in Hl. split; [done|lia].
  - intros (b & a & -> & Hl). exists (String c b), a. simpl. by rewrite Hl.
Qed.

Lemma strstr_spec h n :
  match strstr h n with
  | Some i => first_substring n h i
  | None => forall i, ~ occurs_at n h i
  end.
Proof.
  induction h as [|c h IH]; simpl; destruct (is_prefix n _) eqn:E;
    try (split; [by apply occurs_at_0|lia]).
  - intros [|i] Ho; [by apply occurs_at_0 in Ho; rewrite E in Ho|].
    destruct Ho as (b & a & Hb & Hl). by destruct b.
  - destruct (strstr h n) as [i|]; simpl.
    + destruct IH as [Hi Hm]. split; [by apply occurs_at_S|]. intros [|j] Hj.
      * apply occurs_at_0 in Hj. congruence.
      * apply occurs_at_S, Hm in Hj. lia.
    + intros [|i] Hi; [apply occurs_at_0 in Hi; congruence|].
      by apply occurs_at_S, IH in Hi.
Qed.

Lemma comparison_cons n c s1 s2 r :
  comparison n s1 s2 r -> comparison (S n) (String c s1) (String c s2) r.
Proof.
  intros [[-> E]|(k & x & y & Hk & E & H1 & H2 & Hn & ->)].
  - left. split; [done|]. unfold array_of in *. simpl. by rewrite E.
  - right. exists (S k), x, y. unfold array_of in *. simpl. rewrite E.
    split_and!; [lia|done..].
Qed.

Lemma comparison_head n s1 s2 x y : (0 < n)%nat ->
  head (array_of s1) = Some x -> head (array_of s2) = Some y -> x <> y ->
  comparison n s1 s2 (byte_val x - byte_val y).
Proof.
  intros Hn H1 H2 Hne. right. exists O, x, y. rewrite <- !head_lookup. by rewrite H1, H2.
Qed.

Lemma strncmp_spec n s1 s2 : NUL ∉ chars s1 -> NUL ∉ chars s2 ->
  comparison n s1 s2 (strncmp n s1 s2).
Proof.
  revert s1 s2. induction n as [|n IH]; intros s1 s2 H1 H2; simpl; [by left|].
  destruct s1 as [|a s1], s2 as [|b s2]; [by left|..]; simpl in *.
  - apply not_elem_of_cons in H2 as [H2 _].
    apply (comparison_head _ _ _ NUL b); [lia|done..].
  - apply not_elem_of_cons in H1 as [H1 _].
    replace (byte_val a) with (byte_val a - byte_val NUL) by (change (byte_val NUL) with 0; lia).
    apply comparison_head; [lia|done..|congruence].
  - apply not_elem_of_cons in H1 as [_ H1]. apply not_elem_of_cons in H2 as [_ H2].
    destruct (a =?c b)%c eqn:E; [apply Ascii.eqb_eq in E as ->|apply Ascii.eqb_neq in E].
    + by apply comparison_cons, IH.
    + apply comparison_head; [lia|done..].
Qed.

Lemma byte_val_0 (c : byte) : byte_val c = 0 -> c = NUL.
Proof. intros E. by apply byte_val_inj. Qed.

Lemma strncmp_eq n s1 s2 : NUL ∉ chars s1 -> NUL ∉ chars s2 -> (String.length s1 < n)%nat ->
  strncmp n s1 s2 = 0 <-> s1 = s2.
Proof.
  revert s1 s2. induction n as [|n IH]; intros s1 s2 H1 H2 Hn; [lia|]. simpl.
  destruct s1 as [|a s1], s2 as [|b s2]; simpl in *; [done|..].
  - apply not_elem_of_cons in H2 as [H2 _]. split; [|done]. intros E.
    destruct H2. symmetry. apply byte_val_0. lia.
  - apply not_elem_of_cons in H1 as [H1 _]. split; [|done]. intros E.
    destruct H1. symmetry. apply byte_val_0. lia.
  - apply not_elem_of_cons in H1 as [_ H1]. apply not_elem_of_cons in H2 as [_ H2].
    destruct (a =?c b)%c eqn:E; [apply Ascii.eqb_eq in E as ->|apply Ascii.eqb_neq in E].
    + rewrite IH by (done || lia). split; [by intros ->|by intros [= ->]].
    + split; [|by intros [= ? _]]. intros Ez. destruct E. apply byte_val_inj. lia.
Qed.

Lemma pieces_delim delims c s : is_delim delims c = true ->
  pieces delims (String c s) = pieces delims s.
Proof. intros Hc. unfold pieces. simpl. rewrite Hc. by rewrite filter_cons_False by auto. Qed.

Lemma pieces_skip delims s : pieces delims (skip_delims delims s) = pieces delims s.
Proof.
  induction s as [|c s IH]; simpl; [done|]. destruct (is_delim delims c) eqn:E; [|done].
  by rewrite IH, pieces_delim.
Qed.

Lemma split_until delims s w r : until_delim delims s = (w, r) ->
  split_at delims s = w :: split_at delims r \/ (split_at delims s = [w] /\ r = "").
Proof.
  revert w r. induction s as [|c s IH]; intros w r E; simpl in *; simplify_eq; [by right|].
  destruct (is_delim delims c); simplify_eq; [by left|].
  destruct (until_delim delims s) as [w' r'] eqn:Eu; simplify_eq.
  destruct (IH w' r eq_refl) as [->|[-> ->]]; auto.
Qed.

Lemma strtok_r_pieces delims s :
  match strtok_r delims s with
  | None => pieces delims s = []
  | Some (w, r) => pieces delims s = w :: pieces delims r
  end.
Proof.
  unfold strtok_r. pose proof (skip_delims_head delims s) as Hh. rewrite <- pieces_skip.
  destruct (skip_delims delims s) as [|c s'] eqn:Es; [done|].
  specialize (Hh c s' eq_refl). destruct (until_delim delims (String c s')) as [w r] eqn:E.
  assert (w <> "") as Hw. { simpl in E. rewrite Hh in E. destruct (until_delim delims s'); by simplify_eq. }
  unfold pieces. destruct (split_until _ _ _ _ E) as [->|[-> ->]];
    by rewrite filter_cons_True.
Qed.

Lemma tokens_pieces {W} delims s (body : string -> C W unit) :
  same (tokens delims s body) (for_each (pieces delims s) body).
Proof.
  unfold tokens. assert (String.length s < S (String.length s))%nat as Hf by lia.
  revert Hf. generalize (S (String.length s)). intros fuel. revert s.
  induction fuel as [|fuel IH]; intros s Hf; [lia|]. simpl.
  pose proof (strtok_r_pieces delims s) as Hp.
  destruct (strtok_r delims s) as [[w r]|] eqn:E; rewrite Hp; simpl; [|done].
  apply same_bind; [done|]. intros _. apply IH. apply strtok_r_decreases in E. lia.
Qed.

(** ** The programs *)

Section Answers.
Context {W} `{Kernel W}.

(** What the two string copies have in common: a block is asked for first. *)
Definition given_block (bytes : Z) (s s1 : cstate W) : Prop :=
  exists r w, kcall (SAlloc bytes) (world s) = (r, w) /\ r_val r <> -1 /\
    s1 = CState (errno s) (trace s ++ [ESys (SAlloc bytes) r]) w.

(** [m] returns success and has written [texts] after its block was given. *)
Definition prints_given (bytes : Z) (m : C W Z) (texts : list string) : Prop :=
  forall s s1, given_block bytes s s1 ->
    m s = (Val EXIT_SUCCESS, CState (errno s1) (trace s1 ++ (EOut <$> texts)) (world s1)).

Lemma sys_given bytes (f : sysret -> C W Z) s s1 :
  given_block bytes s s1 ->
  exists r, r_val r <> -1 /\ (sys (SAlloc bytes) ≫= f) s = f r s1.
Proof.
  intros (r & w & E & Hr & ->). exists r. split; [done|].
  unfold mbind at 1, C_bind, sys. rewrite E. by rewrite (proj2 (Z.eqb_neq _ _)).
Qed.

Lemma prints_given_intro bytes (f : sysret -> C W Z) texts :
  (forall r, r_val r <> -1 -> prints (f r) EXIT_SUCCESS texts) ->
  prints_given bytes (sys (SAlloc bytes) ≫= f) texts.
Proof.
  intros Hf s s1 Hg. destruct (sys_given _ f _ _ Hg) as (r & Hr & ->). by apply Hf.
Qed.

Lemma prints_same {A} (m m' : C W A) a l : same m m' -> prints m' a l -> prints m a l.
Proof. intros Hm Hp s. by rewrite (Hm s). Qed.

Lemma strtok_r_answer s :
  prints_given (Z.of_nat (String.length s) + 1) (StrtokR.body s)
    (ln "Tokenized words:" :: ((fun w => ln ("Token: " +:+ w)) <$> pieces " " s)).
Proof.
  apply prints_given_intro. intros r Hr. unfold fails. rewrite (proj2 (Z.eqb_neq _ _)) by done.
  eapply (prints_bind _ _ tt _ [_]); [apply prints_out|].
  apply prints_done. eapply prints_same; [apply tokens_pieces|]. apply prints_for_each.
Qed.

Lemma strdup_answer s :
  prints_given (Z.of_nat (String.length s) + 1) (Strdup.body s)
    [ln ("Duplicated string: " +:+ quoted s)].
Proof.
  apply prints_given_intro. intros r Hr. unfold fails. rewrite (proj2 (Z.eqb_neq _ _)) by done.
  apply prints_done, prints_out.
Qed.
End Answers.

(** C30: each program prints the right answer.  For strings of a command line
    (without NULs): strcmp and strncmp tell whether the strings, or their first
    [n] characters, are the same, and else the difference of the first two
    characters that differ; strchr and strstr print the first place of the
    character or the substring, or that there is none; strtok_r prints the pieces
    between blanks that are not empty, in order. *)
Theorem string_programs_answer {W} `{Kernel W} (s1 s2 : string) (n : Z) (c : byte) :
  NUL ∉ chars s1 -> NUL ∉ chars s2 ->
  (exists r, comparison (S (String.length s1)) s1 s2 r /\ (r = 0 <-> s1 = s2) /\
     prints (Strcmp.body (s1, s2) : C W Z) EXIT_SUCCESS
       [ln (quoted s1 +:+ " and " +:+ quoted s2 +:+
            (if r =? 0 then " are identical." else " are different (" +:+ fmt_d r +:+ ")."))]) /\
  (exists r, comparison (Z.to_nat n) s1 s2 r /\
     prints (Strncmp.body (s1, s2, n) : C W Z) EXIT_SUCCESS
       [ln (quoted s1 +:+ " and " +:+ quoted s2 +:+
            (if r =? 0 then " are identical to " +:+ fmt_u n +:+ "."
             else " are different to " +:+ fmt_u n +:+ " (" +:+ fmt_d r +:+ ")."))]) /\
  ((exists i, first_char c s1 i /\
      prints (Strchr.body (s1, c) : C W Z) EXIT_SUCCESS
        [ln ("Found character '" +:+ String c "" +:+ "' at position " +:+ fmt_d (Z.of_nat i))]) \/
   (c ∉ array_of s1 /\ prints (Strchr.body (s1, c) : C W Z) EXIT_SUCCESS
        [ln ("Character '" +:+ String c "" +:+ "' not found.")])) /\
  ((exists i, first_substring s1 s2 i /\
      prints (Strstr.body (s1, s2) : C W Z) EXIT_SUCCESS
        [ln ("Found substring '" +:+ s1 +:+ "' at position " +:+ fmt_d (Z.of_nat i))]) \/
   ((forall i, ~ occurs_at s1 s2 i) /\ prints (Strstr.body (s1, s2) : C W Z) EXIT_SUCCESS
        [ln ("Substring '" +:+ s1 +:+ "' not found.")])) /\
  prints_given (Z.of_nat (String.length s1) + 1) (StrtokR.body s1)
    (ln "Tokenized words:" :: ((fun w => ln ("Token: " +:+ w)) <$> pieces " " s1)).
Proof.
  intros H1 H2. split_and!.
  - pose proof (strncmp_spec (S (String.length s1)) s1 s2 H1 H2) as Hc.
    exists (strcmp s1 s2). split_and!; [done|by apply strncmp_eq; [..|lia]|].
    apply prints_done. unfold Strcmp.body. case_match; apply prints_out_eq; by rewrite ?string_app_assoc.
  - exists (strncmp (Z.to_nat n) s1 s2). split; [by apply strncmp_spec|].
    apply prints_done. case_match; apply prints_out_eq; by rewrite ?string_app_assoc.
  - pose proof (strchr_spec s1 c) as Hs. destruct (strchr s1 c) as [i|] eqn:E;
      [left; exists i|right]; (split; [done|]); apply prints_done; unfold Strchr.search_for;
      rewrite E; apply prints_out.
  - pose proof (strstr_spec s2 s1) as Hs. destruct (strstr s2 s1) as [i|] eqn:E;
      [left; exists i|right]; (split; [done|]); apply prints_done; unfold Strstr.search_for;
      rewrite E; apply prints_out.
  - apply strtok_r_answer.
Qed.

Lemma string_programs_answer_witness :
  (NUL ∉ chars "hello") /\ (NUL ∉ chars "say hello") /\
  ((exists i, first_substring "hello" "say hello" i /\
      prints (Strstr.body ("hello", "say hello") : C script Z) EXIT_SUCCESS
        [ln ("Found substring 'hello' at position " +:+ fmt_d (Z.of_nat i))]) \/
   (forall i, ~ occurs_at "hello" "say hello" i)).
Proof.
  assert (NUL ∉ chars "hello") as H1 by (apply no_nul_spec; reflexivity).
  assert (NUL ∉ chars "say hello") as H2 by (apply no_nul_spec; reflexivity).
  split; [exact H1|split; [exact H2|]].
  destruct (string_programs_answer (W:=script) "hello" "say hello" 2 "l" H1 H2)
    as (_ & _ & _ & [Hs|[Hs _]] & _); [left; exact Hs|right; exact Hs].
Defined.

(** ** The copy of strncpy *)

Section Copy.
Context {W} `{Kernel W}.
Implicit Types st : cstate W.

Definition source_lines (s : string) : list string :=
  [ln ("Source string: " +:+ s); ln ("Copied string: " +:+ s)].

(** An array that holds no NUL. *)
Definition xs (n : nat) : list byte := replicate n "x"%char.

Lemma no_nul_false (l : list byte) : NUL ∈ l -> no_nul l = false.
Proof. intros Hl. destruct (no_nul l) eqn:E; [|done]. by apply no_nul_spec in E. Qed.

Lemma no_nul_true (l : list byte) : NUL ∉ l -> no_nul l = true.
Proof.
  intros Hl. unfold no_nul. destruct (existsb _ l) eqn:E; [|done].
  apply existsb_exists in E as (c & Hc & Ec). apply Ascii.eqb_eq in Ec as <-.
  by apply list_elem_of_In in Hc.
Qed.

(** With room for the terminating NUL the copy is the string. *)
Lemma strncpy_whole (a : list byte) s n : NUL ∉ chars s -> (String.length s < n <= length a)%nat ->
  strncpy_array (W:=W) a s n = mret (strncpy a s n) /\
  string_at (W:=W) (strncpy a s n) 0 = mret s.
Proof.
  intros Hs Hn. unfold strncpy_array, string_at. rewrite (proj2 (Nat.ltb_ge _ _)) by lia.
  split; [done|]. rewrite drop_0. unfold strncpy, overwrite.
  rewrite take_ge by (rewrite length_chars; lia).
  destruct (n - String.length s)%nat as [|k] eqn:Ek; [lia|]. simpl replicate.
  rewrite <- app_assoc. cbn [app].
  rewrite no_nul_false by (apply elem_of_app; right; left).
  rewrite cstring_app_nul by done. by rewrite of_chars_chars.
Qed.

(** Without, it may have no end. *)
Lemma strncpy_open s n : NUL ∉ chars s -> (n <= String.length s)%nat ->
  string_at (W:=W) (strncpy (xs (S n)) s n) 0 = undef "string without an end".
Proof.
  intros Hs Hn. unfold string_at, strncpy, overwrite. rewrite drop_0.
  replace (n - String.length s)%nat with O by lia. cbn [replicate]. rewrite app_nil_r.
  rewrite no_nul_true; [done|]. apply not_elem_of_app. split.
  - intros (i & Hi & _)%elem_of_take. apply Hs. by eapply list_elem_of_lookup_2.
  - unfold xs. rewrite drop_replicate. by intros [? _]%elem_of_replicate.
Qed.

Lemma copy_whole (a : list byte) s n size :
  NUL ∉ chars s -> Z.of_nat (String.length s) < n -> (Z.to_nat n <= length a)%nat ->
  prints (Strncpy.copy (W:=W) (fun _ => a) size s n) EXIT_SUCCESS (source_lines s).
Proof.
  intros Hs Hl Ha st. destruct (strncpy_whole a s (Z.to_nat n) Hs) as [E1 E2]; [lia|].
  unfold Strncpy.copy. rewrite E1. unfold mbind, C_bind, mret, C_ret, out, emit. simpl.
  rewrite E2. simpl. by rewrite <- app_assoc.
Qed.

Lemma copy_open s n st : NUL ∉ chars s -> 0 <= n <= Z.of_nat (String.length s) ->
  fst (Strncpy.copy (W:=W) xs (n + 1) s n st) = Undef "string without an end".
Proof.
  intros Hs Hn. unfold Strncpy.copy, strncpy_array.
  replace (Z.to_nat (n + 1)) with (S (Z.to_nat n)) by lia. unfold xs at 1.
  rewrite length_replicate, (proj2 (Nat.ltb_ge _ _)) by lia.
  unfold mbind, C_bind, mret, C_ret, out, emit. simpl. by rewrite strncpy_open by (done || lia).
Qed.

Lemma copy_no_block s n st : 0 < n ->
  fst (Strncpy.copy (W:=W) xs 0 s n st) = Undef "strncpy past the array".
Proof.
  intros Hn. unfold Strncpy.copy, strncpy_array. change (length (xs (Z.to_nat 0))) with O.
  by rewrite (proj2 (Nat.ltb_lt _ _)) by lia.
Qed.

Lemma body_given junk s n st st1 : given_block (to_unsigned 64 (n + 1)) st st1 ->
  Strncpy.body junk (s, n) st = Strncpy.copy junk (to_unsigned 64 (n + 1)) s n st1.
Proof.
  intros Hg. unfold Strncpy.body. cbv zeta.
  destruct (sys_given _ (fun r => if fails r then perror_fail (ln "Memory allocation failed")
    else Strncpy.copy junk (to_unsigned 64 (n + 1)) s n) _ _ Hg) as (r & Hr & ->).
  unfold fails. by rewrite (proj2 (Z.eqb_neq _ _)).
Qed.
End Copy.

(** The strncpy program prints its string and the copy exactly when [n] is
    greater than the length of the string and less than [SIZE_MAX].  For a
    smaller [n] there may be no NUL in the block it prints from; for [SIZE_MAX]
    the size of the block is 0. *)
Theorem strncpy_needs_room {W} `{Kernel W} (s : string) (n : Z) (st st1 : cstate W) :
  NUL ∉ chars s -> 0 <= n <= SIZE_MAX -> given_block (to_unsigned 64 (n + 1)) st st1 ->
  (forall junk, (forall k, length (junk k) = k) ->
     Strncpy.body junk (s, n) st =
       (Val EXIT_SUCCESS, CState (errno st1) (trace st1 ++ (EOut <$> source_lines s)) (world st1)))
  <-> Z.of_nat (String.length s) < n < SIZE_MAX.
Proof.
  intros Hs Hn Hg. split.
  - intros Hall. specialize (Hall xs (fun k => length_replicate k _)).
    rewrite (body_given _ _ _ _ _ Hg) in Hall. clear Hg.
    destruct (decide (n = SIZE_MAX)) as [->|Hm].
    { change (to_unsigned 64 (SIZE_MAX + 1)) with 0 in Hall.
      pose proof (copy_no_block s SIZE_MAX st1 ltac:(done)) as Ho. by rewrite Hall in Ho. }
    rewrite to_unsigned_small in Hall by (unfold SIZE_MAX, ULONG_MAX in *; lia).
    destruct (Z_lt_le_dec (Z.of_nat (String.length s)) n) as [?|Hle]; [lia|].
    pose proof (copy_open s n st1 Hs (conj (proj1 Hn) Hle)) as Ho. by rewrite Hall in Ho.
  - intros Hlt junk Hj. rewrite (body_given _ _ _ _ _ Hg).
    rewrite to_unsigned_small by (unfold SIZE_MAX, ULONG_MAX in *; lia).
    apply (copy_whole (junk (Z.to_nat (n + 1))) s n (n + 1)); [done|lia|rewrite Hj; lia].
Qed.

Lemma strncpy_needs_room_witness :
  let st1 := CState 0 [ESys (SAlloc 6) (sys_ok 1)] [] in
  given_block 6 (start [sys_ok 1]) st1 /\
  Strncpy.body xs ("hi", 5) (start [sys_ok 1]) =
    (Val EXIT_SUCCESS, CState 0 (trace st1 ++ (EOut <$> source_lines "hi")) []).
Proof.
  intros st1.
  assert (given_block (to_unsigned 64 (5 + 1)) (start [sys_ok 1]) st1) as Hg.
  { exists (sys_ok 1), []. split; [reflexivity|split; [discriminate|reflexivity]]. }
  split; [exact Hg|].
  refine (proj2 (strncpy_needs_room "hi" 5 (start [sys_ok 1]) st1 _ _ Hg) _ xs _);
    [apply no_nul_spec; reflexivity|unfold SIZE_MAX, ULONG_MAX; lia
    |unfold SIZE_MAX, ULONG_MAX; simpl; lia|].
  intros k. apply length_replicate.
Defined.
