(* ===== verification/Values.v ===== *)
(** * Numbers, characters, arrays and errors

    The programs of src/number-conversion, src/sorting-searching,
    src/character-types, src/memory, src/endianness and src/error-handling: a
    Module each.  Theorems: what the conversions report and what they miss; the
    comparison functions sort and find, within the range of an [int]. *)

From Stdlib Require Import SpecFloat.
From stdpp Require Import sorting.
From S2P Require Import Prelude CMonad CString Reports Snprintf Sockets Identity.

(** ** [number-conversion]: integers *)

Section Integers.
Context {W : Type} `{ErrorTexts}.

(** The checks after a conversion of [str]. *)
Definition check_rest (str endptr : string) : C W unit :=
  (if String.eqb endptr str then eout (ln "No digits were found in the input.") else mret tt);;
  (if negb (String.eqb endptr "")
   then eout (ln ("Extra characters after the number: " +:+ endptr)) else mret tt).

Definition report_error (failed : bool) (e : Z) : C W unit :=
  if failed then eout (ln ("Error during conversion: " +:+ strerror e)) else mret tt.

(** [convert] of the four programs: the conversion, the values that come with
    [ERANGE], and the format of the result. *)
Definition convert_with (strto : string -> C W (Z * string)) (limits : list Z)
    (format : Z -> string) (str : string) : C W unit :=
  set_errno 0;;
  '(result, endptr) ← strto str;
  e ← get_errno;
  report_error (((e =? ERANGE) && existsb (Z.eqb result) limits) ||
                (negb (e =? 0) && (result =? 0))) e;;
  check_rest str endptr;;
  out (ln ("Result: " +:+ format result)).

Definition convert_three (convert : string -> C W unit) : C W Z :=
  convert "12345";; convert "42hello";; convert "abcde";; mret EXIT_SUCCESS.
End Integers.

Module Strtol.
Section Program.
Context {W : Type} `{ErrorTexts}.
Definition convert : string -> C W unit := convert_with strtol [LONG_MAX; LONG_MIN] fmt_d.
Definition main : C W Z := convert_three convert.
End Program.
End Strtol.

Module Strtoll.
Section Program.
Context {W : Type} `{ErrorTexts}.
Definition convert : string -> C W unit := convert_with strtoll [INTMAX_MAX; INTMAX_MIN] fmt_d.
Definition main : C W Z := convert_three convert.
End Program.
End Strtoll.

Module Strtoul.
Section Program.
Context {W : Type} `{ErrorTexts}.
Definition convert : string -> C W unit := convert_with strtoul [ULONG_MAX] fmt_u.
Definition main : C W Z := convert_three convert.
End Program.
End Strtoul.

(** The limit is [ULONG_MAX] here too. *)
Module Strtoull.
Section Program.
Context {W : Type} `{ErrorTexts}.
Definition convert : string -> C W unit := convert_with strtoull [ULONG_MAX] fmt_u.
Definition main : C W Z := convert_three convert.
End Program.
End Strtoull.

(** ** [number-conversion]: floating point

    [strtod] and its kin on decimal numbers (the strings of the programs; the
    hexadecimal form, infinities and NaNs are left out): the nearest number of
    the format with [prec] bits and exponents below [emax], ties to even. *)

Section Floats.
Context (prec emax : Z).

(** The nearest number to [n / d >= 0]. *)
Definition nearest (neg : bool) (n d : Z) : spec_float * option Z :=
  if n =? 0 then (S754_zero neg, None) else
  let k := Z.log2 n - Z.log2 d in
  let lg := if n * 2 ^ (Z.max 0 (- k)) <? d * 2 ^ (Z.max 0 k) then k - 1 else k in
  let e := Z.max (lg - (prec - 1)) (3 - emax - prec) in
  let m := round_half_even (n * 2 ^ (Z.max 0 (- e))) (d * 2 ^ (Z.max 0 e)) in
  if 2 ^ emax <=? m * 2 ^ (Z.max 0 e) / 2 ^ (Z.max 0 (- e))
  then (S754_infinity neg, Some ERANGE)
  else
    (match m with Zpos p => S754_finite neg p e | _ => S754_zero neg end,
     if lg <? 2 - emax then Some ERANGE else None).

(** The digits after the point: value and number of all digits so far. *)
Definition scan_fraction (acc : Z) (any : bool) (s : string) : Z * Z * bool * string :=
  match s with
  | String c s' =>
      if (c =?c ".")%c then
        let '(m, any', rest) := scan_digits acc any s' in
        if any' then (m, Z.of_nat (String.length s' - String.length rest), any', rest)
        else (acc, 0, any, s)
      else (acc, 0, any, s)
  | EmptyString => (acc, 0, any, s)
  end.

(** An exponent part, if a whole one is there. *)
Definition scan_exponent (s : string) : Z * string :=
  match s with
  | String c s' =>
      if (c =?c "e")%c || (c =?c "E")%c then
        let '(neg, s1) := scan_sign s' in
        let '(m, any, rest) := scan_digits 0 false s1 in
        if any then (if neg then - m else m, rest) else (0, s)
      else (0, s)
  | EmptyString => (0, s)
  end.

Definition strtod_val (s : string) : spec_float * string * option Z :=
  let '(neg, s1) := scan_sign (skip_space s) in
  let '(whole, any, s2) := scan_digits 0 false s1 in
  let '(m, places, any, s3) := scan_fraction whole any s2 in
  if negb any then (S754_zero false, s, None) else
  let '(ex, rest) := scan_exponent s3 in
  let ten := ex - places in
  let '(x, err) := nearest neg (m * 10 ^ Z.max 0 ten) (10 ^ Z.max 0 (- ten)) in
  (x, rest, err).

Definition HUGE_VAL : spec_float := S754_infinity false.
Definition TOLLERANCE : spec_float := fst (nearest false 1 (10 ^ 6)).

(** [fabs(x - y) < tolerance], [fabs(x + y) < tolerance], [fabs(x) < tolerance] *)
Definition small (x : spec_float) : bool := SFltb (SFabs x) TOLLERANCE.
Definition near_huge (x : spec_float) : bool := small (SFsub prec emax x HUGE_VAL).
Definition near_minus_huge (x : spec_float) : bool := small (SFadd prec emax x HUGE_VAL).

Context {W : Type} `{ErrorTexts}.

(** [convert] of the three programs: which values count as too large. *)
Definition convert_float (huge : spec_float -> bool) (str : string) : C W spec_float :=
  set_errno 0;;
  let '(result, endptr, err) := strtod_val str in
  match err with Some e => set_errno e | None => mret tt end;;
  e ← get_errno;
  report_error (((e =? ERANGE) && huge result) || (negb (e =? 0) && small result)) e;;
  check_rest str endptr;;
  mret result.
End Floats.

Module Strtod.
Section Program.
Context {W : Type} `{ErrorTexts}.
Definition prec := 53.
Definition emax := 1024.
Definition huge (x : spec_float) : bool := near_huge prec emax x || near_minus_huge prec emax x.
Definition convert (str : string) : C W unit :=
  result ← convert_float prec emax huge str;
  (if huge result then eout (ln "Result is HUGE_VAL or -HUGE_VAL") else mret tt);;
  out (ln ("Result: " +:+ fmt_f 6 result)).
Definition main : C W Z :=
  convert "12345.6789";; convert "42.8857hello";; convert "abcde";; mret EXIT_SUCCESS.
End Program.
End Strtod.

Module Strtof.
Section Program.
Context {W : Type} `{ErrorTexts}.
Definition prec := 24.
Definition emax := 128.
Definition huge (x : spec_float) : bool := near_huge prec emax x || near_minus_huge prec emax x.
Definition convert (str : string) : C W unit :=
  result ← convert_float prec emax huge str;
  out (ln ("Result: " +:+ fmt_f 6 result)).
Definition main : C W Z :=
  convert "123.456";; convert "42.14234hello";; convert "abcde";; mret EXIT_SUCCESS.
End Program.
End Strtof.

(** The x87 format; only the positive limit is looked at. *)
Module Strtold.
Section Program.
Context {W : Type} `{ErrorTexts}.
Definition prec := 64.
Definition emax := 16384.
Definition convert (str : string) : C W unit :=
  result ← convert_float prec emax (near_huge prec emax) str;
  out (ln ("Result: " +:+ fmt_f 6 result)).
Definition main : C W Z :=
  convert "12345.6789";; convert "42.99989hello";; convert "abcde";; mret EXIT_SUCCESS.
End Program.
End Strtold.

(** ** [sorting-searching] *)

(** [for(i = 0; i < size; i++) printf("%d ", arr[i]); printf("\n");] *)
Definition print_ints {W} (arr : list Z) : C W unit :=
  for_each arr (fun x => out (fmt_d x +:+ " "));; out nl.

(** [qsort] calls a comparison function on elements in an order of its own; with
    one that is an order the result is the sorted array, which insertion gives.
    The comparison is a C function: it may have undefined behaviour. *)
Section Sorting.
Context {W : Type} (cmp : Z -> Z -> C W Z).

Fixpoint insert_sorted (x : Z) (l : list Z) : C W (list Z) :=
  match l with
  | [] => mret [x]
  | y :: l' =>
      r ← cmp x y;
      if r <=? 0 then mret (x :: l) else l' ← insert_sorted x l'; mret (y :: l')
  end.

Fixpoint qsort (l : list Z) : C W (list Z) :=
  match l with
  | [] => mret []
  | x :: l => l ← qsort l; insert_sorted x l
  end.

(** [bsearch]: the middle of what is left is looked at. *)
Fixpoint bsearch_from (fuel : nat) (key : Z) (arr : list Z) (low high : nat) :
    C W (option nat) :=
  match fuel with
  | O => no_fuel
  | S fuel =>
      if (high <=? low)%nat then mret None else
      let mid := ((low + high) / 2)%nat in
      x ← array_get arr (Z.of_nat mid);
      r ← cmp key x;
      if r =? 0 then mret (Some mid)
      else if r <? 0 then bsearch_from fuel key arr low mid
      else bsearch_from fuel key arr (S mid) high
  end.

Definition bsearch (key : Z) (arr : list Z) : C W (option nat) :=
  bsearch_from (S (length arr)) key arr 0 (length arr).
End Sorting.

Module Qsort.
Section Program.
Context {W : Type}.
(** The difference of two [int]s is an [int]. *)
Definition intcmp (a b : Z) : C W Z :=
  if (a - b <? INT_MIN) || (INT_MAX <? a - b) then undef "signed overflow" else mret (a - b).

Definition run (arr : list Z) : C W Z :=
  out "Original array: ";;
  print_ints arr;;
  arr ← qsort intcmp arr;
  out "Sorted array: ";;
  print_ints arr;;
  mret EXIT_SUCCESS.
Definition main : C W Z := run [5; 2; 8; 1; 3].
End Program.
End Qsort.

Module Bsearch.
Section Program.
Context {W : Type}.
Definition intcmp (lhs rhs : Z) : C W Z :=
  if lhs <? rhs then mret (-1) else if rhs <? lhs then mret 1 else mret 0.

(** Pointers into the array are its indices. *)
Fixpoint find_index_from (n i : nat) (element : nat) (size : nat) : nat :=
  match n with
  | O => size
  | S n => if (i =? element)%nat then i else find_index_from n (S i) element size
  end.
Definition find_index (arr : list Z) (element : nat) : nat :=
  find_index_from (length arr) 0 element (length arr).

Definition run (arr : list Z) (target : Z) : C W Z :=
  out "Unsorted array: ";;
  print_ints arr;;
  arr ← qsort intcmp arr;
  out "Sorted array: ";;
  print_ints arr;;
  result ← bsearch intcmp target arr;
  match result with
  | Some result =>
      let index := find_index arr result in
      out (ln ("Element " +:+ fmt_d target +:+ " found at index " +:+ fmt_u (Z.of_nat index)))
  | None => out (ln ("Element " +:+ fmt_d target +:+ " not found"))
  end;;
  mret EXIT_SUCCESS.
Definition main : C W Z := run [5; 2; 8; 1; 3] 3.
End Program.
End Bsearch.

(** ** [character-types]

    The classes of <ctype.h> for the "C" locale, on [int]s. *)

Module CharacterTypes.
Definition between (lo hi ch : Z) : bool := (lo <=? ch) && (ch <=? hi).
Definition isupper := between 65 90.
Definition islower := between 97 122.
Definition isalpha (ch : Z) : bool := isupper ch || islower ch.
Definition isdigit := between 48 57.
Definition isalnum (ch : Z) : bool := isalpha ch || isdigit ch.
Definition isblank (ch : Z) : bool := (ch =? 32) || (ch =? 9).
Definition iscntrl (ch : Z) : bool := between 0 31 ch || (ch =? 127).
Definition isgraph := between 33 126.
Definition isprint := between 32 126.
Definition ispunct (ch : Z) : bool := isgraph ch && negb (isalnum ch).
Definition isspace (ch : Z) : bool := (ch =? 32) || between 9 13 ch.
Definition isxdigit (ch : Z) : bool := isdigit ch || between 65 70 ch || between 97 102 ch.
Definition toupper (ch : Z) : Z := if islower ch then ch - 32 else ch.
Definition tolower (ch : Z) : Z := if isupper ch then ch + 32 else ch.

Section Program.
Context {W : Type}.

Definition BINARY_DIGITS : nat := 6.

Definition bit_text (ch : Z) (i : nat) : string :=
  fmt_u (Z.land (Z.shiftr ch (Z.of_nat i)) 1).

(** [for(i = width; i != 0; i--) printf("%u", (ch >> i) & 1)] *)
Fixpoint print_binary (ch : Z) (width : nat) : C W unit :=
  match width with
  | O => mret tt
  | S i => out (bit_text ch width);; print_binary ch i
  end.

Definition print_info_bool (name : string) (func : Z -> bool) (ch : Z) : C W unit :=
  let num_spaces := (String.length name + 1)%nat in
  let value := if func ch then 1 else 0 in
  out (pad_left num_spaces (fmt_d value) +:+ " |").

Definition print_info_char (name : string) (func : Z -> Z) (ch : Z) : C W unit :=
  let num_spaces := (String.length name + 1)%nat in
  let value := func ch in
  let '(value, num_spaces) :=
    if isspace value || iscntrl value then (32, num_spaces)
    else if negb (isprint value) then (value, S num_spaces)
    else (value, num_spaces) in
  out (pad_left num_spaces (String (byte_of value) "") +:+ " |").

(** The table: a name and the function that prints its column. *)
Definition info : list (string * (Z -> C W unit)) :=
  let bool name func := (name, print_info_bool name func) in
  let char name func := (name, print_info_char name func) in
  [ bool "alnum" isalnum; bool "alpha" isalpha; bool "blank" isblank; bool "cntrl" iscntrl;
    bool "digit" isdigit; bool "graph" isgraph; bool "lower" islower; bool "print" isprint;
    bool "punct" ispunct; bool "space" isspace; bool "upper" isupper; bool "xdigit" isxdigit;
    char "upper" toupper; char "lower" tolower ].

Definition heading : string := "Char | Binary | Oct | Dec | Hex |".
Definition column (name : string) : string := " " +:+ pad_right (String.length name) name +:+ " |".

Definition row (ch : Z) : C W unit :=
  let c := if isprint ch then byte_of ch else " "%char in
  out (String c "    | ");;
  print_binary ch BINARY_DIGITS;;
  out (" | " +:+ pad_left 3 (fmt_o ch) +:+ " | " +:+ pad_left 3 (fmt_u ch) +:+ " | " +:+
       pad_left 3 (fmt_X ch) +:+ " |");;
  for_each info (fun '(_, print_info) => print_info ch);;
  out nl.

(** The width of the table: what the [printf]s of its heading return. *)
Definition total_width : nat :=
  foldr (fun '(name, _) n => (String.length (column name) + n)%nat) (String.length heading) info.

Definition main : C W Z :=
  out heading;;
  for_each info (fun '(name, _) => out (column name));;
  out nl;;
  for_each (replicate total_width tt) (fun _ => out "-");;
  out nl;;
  for_each (seqZ 0 128) row;;
  mret EXIT_SUCCESS.
End Program.
End CharacterTypes.

(** ** [memory]: arrays of [int]s; [junk n] is what [n] new ones hold *)

Section Memory.
Context {W} `{Kernel W}.
Definition sizeof_int : Z := 4.

(** [malloc]: the array, or NULL. *)
Definition malloc_ints (junk : nat -> list Z) (n : nat) : C W (option (list Z)) :=
  r ← sys (SAlloc (Z.of_nat n * sizeof_int));
  mret (if fails r then None else Some (junk n)).

(** [memcpy(dst, src, n * sizeof(int))] and [memcmp(a, b, n * sizeof(int)) == 0] *)
Definition copy_ints (dst src : list Z) (n : nat) : C W (list Z) :=
  if (length src <? n)%nat || (length dst <? n)%nat then undef "memcpy past an array"
  else mret (take n src ++ drop n dst).
Definition same_ints (a b : list Z) (n : nat) : C W bool :=
  if (length a <? n)%nat || (length b <? n)%nat then undef "memcmp past an array"
  else mret (bool_decide (take n a = take n b)).
End Memory.

Module Calloc.
Definition main {W} `{Kernel W} : C W Z :=
  let num_elements := 5%nat in
  r ← call "calloc" [] [Z.of_nat num_elements; sizeof_int];
  if fails r then perror_fail (ln "Memory allocation failed") else
  print_ints (replicate num_elements 0);;
  mret EXIT_SUCCESS.
End Calloc.

(** What a new array holds is indeterminate: the program shows it on purpose. *)
Module MallocFree.
Definition NUM_ELEMENTS : nat := 5.
Definition main {W} `{Kernel W} (junk : nat -> list Z) : C W Z :=
  dynamic_array ← malloc_ints junk NUM_ELEMENTS;
  match dynamic_array with
  | None => perror_fail (ln "Memory allocation failed")
  | Some dynamic_array => print_ints dynamic_array;; mret EXIT_SUCCESS
  end.
End MallocFree.

Module Memcmp.
Section Program.
Context {W : Type}.
Definition report (same : bool) (name : string) : C W unit :=
  out (ln ("data1 and " +:+ name +:+ (if same then " are identical." else " are different."))).
Definition main : C W Z :=
  let data1 := [1; 2; 3; 4] in
  let data2 := [1; 2; 3; 4] in
  let data3 := [1; 2; 3; 4] in
  result1 ← same_ints data1 data2 4;
  report result1 "data2";;
  result2 ← same_ints data1 data3 4;
  report result2 "data3";;
  mret EXIT_SUCCESS.
End Program.
End Memcmp.

Module Memcpy.
Definition NUM_ELEMENTS : nat := 4.
Definition main {W} (junk : nat -> list Z) : C W Z :=
  let source_data := [1; 2; 3; 4] in
  let num_elements := length source_data in
  destination_buffer ← copy_ints (junk NUM_ELEMENTS) source_data num_elements;
  out "Copied elements: ";;
  print_ints (take num_elements destination_buffer);;
  mret EXIT_SUCCESS.
End Memcpy.

Module Memmove.
Definition main {W} (junk : nat -> list Z) : C W Z := Memcpy.main junk.
End Memmove.

Module Memset.
Section Program.
Context {W} `{Kernel W} (junk : nat -> list Z).

Fixpoint fill_with_random_ints (size : nat) : C W (list Z) :=
  match size with
  | O => mret []
  | S size =>
      r ← call "arc4random" [] [];
      arr ← fill_with_random_ints size;
      mret (to_signed 32 (r_val r) :: arr)
  end.

Definition main : C W Z :=
  let num_elements := 5%nat in
  dynamic_array ← malloc_ints junk num_elements;
  match dynamic_array with
  | None => perror_fail (ln "Memory allocation failed")
  | Some dynamic_array =>
      out (ln "Array after malloc:");;
      print_ints dynamic_array;;
      dynamic_array ← fill_with_random_ints num_elements;
      out (ln "Array after filling with random integers:");;
      print_ints dynamic_array;;
      out (ln "Array after memset:");;
      print_ints (replicate num_elements 0);;
      mret EXIT_SUCCESS
  end.
End Program.
End Memset.

Module Realloc.
Section Program.
Context {W} `{Kernel W} (junk : nat -> list Z).
Definition NUM_ELEMENTS : nat := 5.

(** The [num_elements] elements from [from] on: 1, 2, ... *)
Fixpoint initialize_from (n i : nat) (from : nat) (array : list Z) : C W (list Z) :=
  match n with
  | O => mret array
  | S n =>
      array ← array_set array (Z.of_nat (from + i)) (Z.of_nat i + 1);
      initialize_from n (S i) from array
  end.
Definition initialize_array (array : list Z) (from num_elements : nat) : C W (list Z) :=
  initialize_from num_elements 0 from array.

Definition print_array (message : string) (array : list Z) : C W unit :=
  out message;; print_ints array.

Definition resize_array (array : list Z) (new_num_elements : nat) : C W (list Z) :=
  r ← sys (SAlloc (Z.of_nat new_num_elements * sizeof_int));
  if fails r then perror_exit (ln "Memory reallocation failed")
  else mret (array ++ drop (length array) (junk new_num_elements)).

Definition main : C W Z :=
  dynamic_array ← malloc_ints junk NUM_ELEMENTS;
  match dynamic_array with
  | None => perror_fail (ln "Memory allocation failed")
  | Some dynamic_array =>
      dynamic_array ← initialize_array dynamic_array 0 NUM_ELEMENTS;
      print_array "Initial elements of the array: " dynamic_array;;
      let num_elements := (NUM_ELEMENTS * 2)%nat in
      dynamic_array ← resize_array dynamic_array num_elements;
      dynamic_array ← initialize_array dynamic_array NUM_ELEMENTS (num_elements - NUM_ELEMENTS);
      print_array "Resized elements of the array: " dynamic_array;;
      mret EXIT_SUCCESS
  end.
End Program.
End Realloc.

(** Sizes on a 64-bit Linux. *)
Module Sizeof.
Definition sizes : list (string * Z) :=
  [ ("pointer", 8); ("char", 1); ("wchar_t", 4); ("int8_t", 1); ("uint8_t", 1); ("int16_t", 2);
    ("uint16_t", 2); ("int32_t", 4); ("uint32_t", 4); ("int", 4); ("unsigned int", 4);
    ("long", 8); ("unsigned long", 8); ("long long", 8); ("unsigned long long", 8);
    ("float", 4); ("double", 8); ("long double", 16); ("intptr_t", 8); ("size_t", 8);
    ("ssize_t", 8); ("fpos_t", 16); ("off_t", 8); ("bool", 1); ("pid_t", 4); ("uid_t", 4);
    ("gid_t", 4) ].
Definition main {W} : C W Z :=
  for_each sizes (fun '(name, n) => out (ln ("Size of " +:+ name +:+ ": " +:+ fmt_u n)));;
  mret EXIT_SUCCESS.
End Sizeof.

(** ** [endianness]: a little-endian machine *)

Definition htonl (v : Z) : Z := htons (v mod 65536) * 65536 + htons (v / 65536).

Section ByteOrder.
Context {W : Type}.
Definition show_values (first : string) (v : Z) (second : string) (w : Z) : C W Z :=
  out (ln (first +:+ " value: " +:+ fmt_u v));;
  out (ln (second +:+ " value: " +:+ fmt_u w));;
  mret EXIT_SUCCESS.
End ByteOrder.

Module CheckEndianess.
Section Program.
Context {W : Type}.
(** The bytes of an [unsigned int] in memory. *)
Definition bytes_of (value : Z) : list Z :=
  (fun i => Z.land (Z.shiftr value (8 * i)) 255) <$> [0; 1; 2; 3].
Definition is_little_endian : bool :=
  match bytes_of 1 with b :: _ => b =? 1 | [] => false end.
Definition main : C W Z :=
  (if is_little_endian then out (ln "Machine is little-endian.")
   else out (ln "Machine is big-endian."));;
  mret 0.
End Program.
End CheckEndianess.

Module Htonl.
Definition main {W} : C W Z := show_values "Host" 305419896 "Network" (htonl 305419896).
End Htonl.
Module Htons.
Definition main {W} : C W Z := show_values "Host" 12345 "Network" (htons 12345).
End Htons.
Module Ntohl.
Definition main {W} : C W Z := show_values "Network" 2018915346 "Host" (htonl 2018915346).
End Ntohl.
Module Ntohs.
Definition main {W} : C W Z := show_values "Network" 12345 "Host" (htons 12345).
End Ntohs.

(** ** [error-handling] *)

(** The second assertion is false; its message is the library's. *)
Module Assert.
Section Program.
Context {W : Type} (message : string).
Definition assert (condition : bool) : C W unit :=
  if condition then mret tt else eout message;; AbortProgram.abort.
Definition main : C W Z :=
  let x := 10 in
  let y := 20 in
  assert (x <? y);;
  assert (y <? x);;
  mret EXIT_SUCCESS.
End Program.
End Assert.

Module Errno.
Definition main {W} `{Kernel W} : C W Z :=
  result ← call "fgetc" ["stdout"] [];
  (if fails result then
     e ← get_errno;
     if negb (e =? 0) then
       let current_errno := e in
       set_errno 0;;
       r ← call "fprintf" ["stderr"; ln ("errno: " +:+ fmt_d current_errno)] [];
       if r_val r <? 0 then
         e ← get_errno; out (ln ("could not fprintf: " +:+ fmt_d e))
       else mret tt
     else mret tt
   else mret tt);;
  mret EXIT_SUCCESS.
End Errno.

Module PerrorProgram.
Definition main {W} `{Kernel W} : C W Z :=
  set_errno 0;;
  result ← call "fgetc" ["stdout"] [];
  (if fails result then
     e ← get_errno;
     if negb (e =? 0) then
       call "clearerr" ["stderr"] [];;
       perror "error with fgetc";;
       r ← call "ferror" ["stderr"] [];
       if negb (r_val r =? 0) then perror "error with perror" else mret tt
     else mret tt
   else mret tt);;
  mret EXIT_SUCCESS.
End PerrorProgram.

(** [strerror] returns a text in every case; -1 stands for the error it may set
    beside. *)
Module Strerror.
Definition main {W} `{Kernel W} : C W Z :=
  set_errno 0;;
  result ← call "fgetc" ["stdout"] [];
  if fails result then
    e ← get_errno;
    if negb (e =? 0) then
      set_errno 0;;
      msg ← call "strerror" [] [e];
      e ← get_errno;
      if negb (e =? 0) then perror_fail "strerror" else
      set_errno 0;;
      r ← call "fprintf" ["stderr";
        ln ("There was an error with fgetc: " +:+ of_chars (r_data msg))] [];
      if r_val r <? 0 then perror_fail "fprintf" else
      mret EXIT_SUCCESS
    else mret EXIT_SUCCESS
  else mret EXIT_SUCCESS.
End Strerror.

(** ** Facts *)

(** *** Conversions *)

Section ConversionFacts.
Context {W : Type} `{ErrorTexts}.
Implicit Types s : cstate W.

(** [m] writes [errors] to stderr, then one line to stdout, and returns. *)
Definition converts (m : C W unit) (errors : list string) (line : string) : Prop :=
  forall s, exists e, m s =
    (Val tt, CState e (trace s ++ (EErr <$> errors) ++ [EOut (ln ("Result: " +:+ line))]) (world s)).

Definition rest_errors (str endptr : string) : list string :=
  (if String.eqb endptr str then [ln "No digits were found in the input."] else []) ++
  (if negb (String.eqb endptr "") then [ln ("Extra characters after the number: " +:+ endptr)]
   else []).

Lemma check_rest_run str endptr s :
  check_rest str endptr s =
    (Val tt, CState (errno s) (trace s ++ (EErr <$> rest_errors str endptr)) (world s)).
Proof.
  unfold check_rest, rest_errors. destruct s as [e t w].
  destruct (String.eqb endptr str), (String.eqb endptr "");
    unfold mbind, C_bind, eout, emit, mret, C_ret; simpl; by rewrite <- ?app_assoc, ?app_nil_r.
Qed.

Lemma report_error_run failed e s :
  report_error failed e s =
    (Val tt, CState (errno s)
       (trace s ++ (EErr <$> (if failed then [ln ("Error during conversion: " +:+ strerror e)]
                             else []))) (world s)).
Proof. destruct failed, s; simpl; [done|]. unfold report_error. by rewrite app_nil_r. Qed.

Lemma strto_call_run r e t (w : W) :
  strto_call r (CState e t w) = (Val (st_value r, st_end r), CState (default e (st_err r)) t w).
Proof. unfold strto_call. by destruct (st_err r). Qed.

(** The errors of one of the integer programs. *)
Definition convert_errors (limits : list Z) (str : string) (r : strto) : list string :=
  let e := default 0 (st_err r) in
  (if ((e =? ERANGE) && existsb (Z.eqb (st_value r)) limits) ||
      (negb (e =? 0) && (st_value r =? 0))
   then [ln ("Error during conversion: " +:+ strerror e)] else []) ++
  rest_errors str (st_end r).

Lemma convert_with_run (f : string -> C W (Z * string)) val limits format str :
  f str = strto_call (val str) ->
  converts (convert_with f limits format str) (convert_errors limits str (val str))
    (format (st_value (val str))).
Proof.
  intros Hf s. exists (default 0 (st_err (val str))). unfold convert_with.
  erewrite bind_val by reflexivity. erewrite bind_val by (rewrite Hf; apply strto_call_run).
  cbv beta iota. erewrite bind_val by reflexivity.
  erewrite bind_val by apply report_error_run. erewrite bind_val by apply check_rest_run.
  unfold out, emit, convert_errors. simpl. by rewrite fmap_app, <- !app_assoc.
Qed.

Lemma rest_errors_nil str endptr :
  rest_errors str endptr = [] <-> endptr = "" /\ str <> "".
Proof.
  unfold rest_errors. destruct (String.eqb_spec endptr str), (String.eqb_spec endptr "");
    simpl; naive_solver.
Qed.

Lemma scan_number_empty : scan_number "" = None.
Proof. done. Qed.

Lemma signed_errors str :
  let r := strtoimax_val str in
  INTMAX_MIN <= st_value r <= INTMAX_MAX /\
  (convert_errors [INTMAX_MAX; INTMAX_MIN] str r = [] <->
   exists neg m, scan_number str = Some (neg, m, "") /\ st_value r = (if neg then - m else m)).
Proof.
  intros r. split; [apply strtoimax_range|]. unfold convert_errors. rewrite app_nil, rest_errors_nil.
  subst r. unfold strtoimax_val. destruct (scan_number str) as [[[neg m] rest]|] eqn:E.
  - assert (str <> "") by (intros ->; by rewrite scan_number_empty in E).
    set (v := if neg then - m else m). destruct (Z.ltb_spec v INTMAX_MIN).
    { simpl. split; [by intros [[=] _]|]. intros (neg' & m' & [= -> -> ->] & Ev). subst v. lia. }
    destruct (Z.ltb_spec INTMAX_MAX v); simpl.
    { split; [by intros [[=] _]|]. intros (neg' & m' & [= -> -> ->] & Ev). subst v. lia. }
    split; [intros (_ & -> & _); eauto|]. by intros (neg' & m' & [= -> -> ->] & _).
  - simpl. split; [by intros (_ & -> & ?)|]. by intros (? & ? & ? & _).
Qed.

Lemma unsigned_errors str :
  let r := strtoumax_val str in
  0 <= st_value r <= ULONG_MAX /\
  (convert_errors [ULONG_MAX] str r = [] <->
   exists neg m, scan_number str = Some (neg, m, "") /\ m <= ULONG_MAX /\
     st_value r = to_unsigned 64 (if neg then - m else m)).
Proof.
  intros r. split; [apply strtoumax_range|]. unfold convert_errors. rewrite app_nil, rest_errors_nil.
  subst r. unfold strtoumax_val. destruct (scan_number str) as [[[neg m] rest]|] eqn:E.
  - assert (str <> "") by (intros ->; by rewrite scan_number_empty in E).
    destruct (Z.ltb_spec UINTMAX_MAX m); simpl; unfold UINTMAX_MAX in *.
    { split; [by intros [[=] _]|]. intros (neg' & m' & [= -> -> ->] & Hm & _). lia. }
    split; [intros (_ & -> & _); eauto|]. intros (neg' & m' & [= -> -> ->] & _). done.
  - simpl. split; [by intros (_ & -> & ?)|]. by intros (? & ? & ? & _).
Qed.
End ConversionFacts.

(** *** What they are to do *)

(** The number of a text in a range; the end of the range when it lies outside, 0
    when there is no number; and whether it is in the range. *)
Definition signed_result (str : string) : Z * bool :=
  match scan_number str with
  | Some (neg, m, _) =>
      let v := if neg then - m else m in
      (Z.max LONG_MIN (Z.min LONG_MAX v), (LONG_MIN <=? v) && (v <=? LONG_MAX))
  | None => (0, true)
  end.

(** For the unsigned types it is the digits that have a range; a minus sign is taken
    modulo [2 ^ 64]. *)
Definition unsigned_result (str : string) : Z * bool :=
  match scan_number str with
  | Some (neg, m, _) =>
      (if m <=? ULONG_MAX then to_unsigned 64 (if neg then - m else m) else ULONG_MAX,
       m <=? ULONG_MAX)
  | None => (0, true)
  end.

(** The messages: the number is out of range; there is none; something follows it. *)
Definition messages `{ErrorTexts} (in_range : bool) (str : string) : list string :=
  (if in_range then [] else [ln ("Error during conversion: " +:+ strerror ERANGE)]) ++
  match scan_number str with
  | Some (_, _, rest) =>
      if String.eqb rest "" then [] else [ln ("Extra characters after the number: " +:+ rest)]
  | None =>
      ln "No digits were found in the input." ::
      (if String.eqb str "" then [] else [ln ("Extra characters after the number: " +:+ str)])
  end.

Lemma skip_space_shorter s : (String.length (skip_space s) <= String.length s)%nat.
Proof. induction s as [|c s IH]; simpl; [done|]. destruct (isspace c); simpl; lia. Qed.

Lemma scan_sign_shorter s : (String.length (snd (scan_sign s)) <= String.length s)%nat.
Proof. destruct s as [|c s]; simpl; [done|]. repeat case_match; simpl; lia. Qed.

Lemma scan_digits_shorter acc any s m any' rest :
  scan_digits acc any s = (m, any', rest) ->
  (String.length rest + (if any' && negb any then 1 else 0) <= String.length s)%nat.
Proof.
  revert acc any. induction s as [|c s IH]; intros acc any; simpl.
  - intros [= _ <- <-]. by destruct any.
  - destruct (isdigit c).
    + intros E%IH. simpl in *. rewrite andb_false_r in E. destruct (any' && negb any); lia.
    + intros [= _ <- <-]. destruct any; simpl; lia.
Qed.

Lemma scan_number_rest str neg m rest : scan_number str = Some (neg, m, rest) -> rest <> str.
Proof.
  unfold scan_number. destruct (scan_sign (skip_space str)) as [neg' s1] eqn:Es.
  destruct (scan_digits 0 false s1) as [[m' any] rest'] eqn:Ed. destruct any; [|done].
  intros [= _ _ <-] ->. apply scan_digits_shorter in Ed. simpl in Ed.
  pose proof (scan_sign_shorter (skip_space str)) as Hs. rewrite Es in Hs. simpl in Hs.
  pose proof (skip_space_shorter str). lia.
Qed.

Section ResultFacts.
Context `{ErrorTexts}.

Lemma rest_messages str :
  messages true str =
    rest_errors str (match scan_number str with Some (_, _, rest) => rest | None => str end).
Proof.
  unfold messages, rest_errors. destruct (scan_number str) as [[[neg m] rest]|] eqn:E; simpl.
  - rewrite (proj2 (String.eqb_neq rest str)) by by eapply scan_number_rest.
    by destruct (String.eqb rest "").
  - rewrite String.eqb_refl. by destruct (String.eqb str "").
Qed.

Lemma messages_nil in_range str :
  messages in_range str = [] <->
  in_range = true /\ exists neg m, scan_number str = Some (neg, m, "").
Proof.
  unfold messages. rewrite app_nil.
  destruct in_range, (scan_number str) as [[[neg m] rest]|]; try naive_solver.
  destruct (String.eqb_spec rest ""); naive_solver.
Qed.

Lemma signed_result_ok str :
  let r := strtoimax_val str in
  st_value r = fst (signed_result str) /\
  convert_errors [INTMAX_MAX; INTMAX_MIN] str r = messages (snd (signed_result str)) str.
Proof.
  unfold convert_errors, strtoimax_val. pose proof (rest_messages str) as Hr. revert Hr.
  unfold signed_result. destruct (scan_number str) as [[[neg m] rest]|] eqn:E; intros Hr.
  2: { simpl. split; [done|]. symmetry. exact Hr. }
  assert (forall b, messages b str =
    (if b then [] else [ln ("Error during conversion: " +:+ strerror ERANGE)]) ++ rest_errors str rest)
    as Hm by (intros b; rewrite <- Hr; by destruct b).
  set (v := if neg then - m else m). cbv zeta. rewrite Hm. clear Hm Hr E.
  unfold INTMAX_MIN, INTMAX_MAX.
  destruct (Z.ltb_spec v LONG_MIN) as [Hv|Hv]; [|destruct (Z.ltb_spec LONG_MAX v) as [Hv'|Hv']];
    cbn [fst snd st_value st_err st_end].
  - rewrite (proj2 (Z.leb_gt LONG_MIN v)) by done. split; [climits|done].
  - rewrite (proj2 (Z.leb_gt v LONG_MAX)), (andb_false_r (LONG_MIN <=? v)) by done. split; [climits|done].
  - rewrite !(proj2 (Z.leb_le _ _)) by done. split; [climits|done].
Qed.

Lemma unsigned_result_ok str :
  let r := strtoumax_val str in
  st_value r = fst (unsigned_result str) /\
  convert_errors [ULONG_MAX] str r = messages (snd (unsigned_result str)) str.
Proof.
  unfold convert_errors, strtoumax_val. pose proof (rest_messages str) as Hr. revert Hr.
  unfold unsigned_result. destruct (scan_number str) as [[[neg m] rest]|] eqn:E; intros Hr.
  2: { simpl. split; [done|]. symmetry. exact Hr. }
  assert (forall b, messages b str =
    (if b then [] else [ln ("Error during conversion: " +:+ strerror ERANGE)]) ++ rest_errors str rest)
    as Hm by (intros b; rewrite <- Hr; by destruct b).
  rewrite Hm. clear Hm Hr E. rewrite Z.leb_antisym. unfold UINTMAX_MAX.
  destruct (Z.ltb_spec ULONG_MAX m); by split.
Qed.
End ResultFacts.

(** C31: strtol, strtoll, strtoul and strtoull, on every string.  The value printed is
    the number at its beginning, or the end of the type's range that it is beyond, or
    0 when there is none; the messages say that the number is beyond the range, that
    there is none and what follows it.  There is none exactly when the whole string
    is a number of the type, a number behind a minus sign being one of the unsigned
    types, taken modulo 2 ^ 64, when its digits are. *)
Theorem integer_conversions_exact {W} `{ErrorTexts} (str : string) :
  (let '(v, in_range) := signed_result str in
   Forall (fun convert => converts (convert str : C W unit) (messages in_range str) (fmt_d v))
     [Strtol.convert; Strtoll.convert] /\
   LONG_MIN <= v <= LONG_MAX /\
   (messages in_range str = [] <-> exists neg m, scan_number str = Some (neg, m, "") /\
                                    v = (if neg then - m else m))) /\
  (let '(v, in_range) := unsigned_result str in
   Forall (fun convert => converts (convert str : C W unit) (messages in_range str) (fmt_u v))
     [Strtoul.convert; Strtoull.convert] /\
   0 <= v <= ULONG_MAX /\
   (messages in_range str = [] <-> exists neg m, scan_number str = Some (neg, m, "") /\ m <= ULONG_MAX /\
                                    v = to_unsigned 64 (if neg then - m else m))).
Proof.
  destruct (signed_result_ok str) as [Ev Em], (unsigned_result_ok str) as [Ev' Em'].
  pose proof (signed_errors str) as Hs. pose proof (unsigned_errors str) as Hu. cbv zeta in Hs, Hu.
  rewrite Em, Ev in Hs. rewrite Em', Ev' in Hu.
  destruct (signed_result str) as [v b], (unsigned_result str) as [v' b']. cbn [fst snd] in *.
  split; (split; [|assumption]); rewrite <- ?Em, <- ?Em', <- ?Ev, <- ?Ev'; repeat constructor.
  1-2: by apply (convert_with_run _ strtoimax_val). 1-2: by apply (convert_with_run _ strtoumax_val).
Qed.

(** *** Overflow of [strtod] *)

Lemma inf_not_below (y : spec_float) : SFltb (S754_infinity false) y = false.
Proof. by destruct y as [[]|[]| |[]]. Qed.

Lemma never_huge prec emax x :
  near_huge prec emax x = false /\ near_minus_huge prec emax x = false.
Proof.
  unfold near_huge, near_minus_huge, small.
  destruct x as [[]|[]| |[] m e]; split; try done; apply inf_not_below.
Qed.

Lemma strtod_huge x : Strtod.huge x = false.
Proof. unfold Strtod.huge. by destruct (never_huge Strtod.prec Strtod.emax x) as [-> ->]. Qed.

Lemma strtof_huge x : Strtof.huge x = false.
Proof. unfold Strtof.huge. by destruct (never_huge Strtof.prec Strtof.emax x) as [-> ->]. Qed.

Lemma convert_float_inf {W} `{ErrorTexts} prec emax huge str neg (s : cstate W) :
  strtod_val prec emax str = (S754_infinity neg, "", Some ERANGE) -> str <> "" ->
  huge (S754_infinity neg) = false ->
  convert_float prec emax huge str s =
    (Val (S754_infinity neg), CState ERANGE (trace s) (world s)).
Proof.
  intros E Hne Hh. unfold convert_float. rewrite E. erewrite bind_val by reflexivity.
  cbv beta iota. erewrite bind_val by reflexivity. erewrite bind_val by reflexivity.
  rewrite Hh, andb_false_r. replace (small prec emax (S754_infinity neg)) with false by (symmetry; apply inf_not_below).
  rewrite andb_false_r. erewrite bind_val by reflexivity.
  erewrite bind_val by apply check_rest_run. unfold rest_errors, mret, C_ret.
  destruct str; [done|]. simpl. by rewrite app_nil_r.
Qed.

(** A number too large for its type is reported by none of the three floating-point
    conversions: infinity less infinity is not a number, and no number is near
    infinity, so that the test for [HUGE_VAL] is false whatever the result is, and
    [inf] is printed as if all were well. *)
Theorem overflow_not_reported {W} `{ErrorTexts} (str : string) (neg : bool) (s : cstate W) :
  (strtod_val Strtod.prec Strtod.emax str = (S754_infinity neg, "", Some ERANGE) -> str <> "" ->
   Strtod.convert str s = (Val tt, CState ERANGE
     (trace s ++ [EOut (ln ("Result: " +:+ sign_text neg +:+ "inf"))]) (world s))) /\
  (strtod_val Strtof.prec Strtof.emax str = (S754_infinity neg, "", Some ERANGE) -> str <> "" ->
   Strtof.convert str s = (Val tt, CState ERANGE
     (trace s ++ [EOut (ln ("Result: " +:+ sign_text neg +:+ "inf"))]) (world s))) /\
  (strtod_val Strtold.prec Strtold.emax str = (S754_infinity neg, "", Some ERANGE) -> str <> "" ->
   Strtold.convert str s = (Val tt, CState ERANGE
     (trace s ++ [EOut (ln ("Result: " +:+ sign_text neg +:+ "inf"))]) (world s))).
Proof.
  split_and!; intros E Hne.
  - unfold Strtod.convert. erewrite bind_val by (apply convert_float_inf; [done..|apply strtod_huge]).
    rewrite strtod_huge. by destruct neg.
  - unfold Strtof.convert. erewrite bind_val by (apply convert_float_inf; [done..|apply strtof_huge]).
    by destruct neg.
  - unfold Strtold.convert. erewrite bind_val by (apply convert_float_inf; [done..|apply never_huge]).
    by destruct neg.
Qed.

Lemma overflow_not_reported_witness :
  let errors : ErrorTexts := fun _ => "Numerical result out of range" in
  Strtod.convert "1e400" (start tt) =
    (Val tt, CState ERANGE [EOut (ln "Result: inf")] tt).
Proof.
  intros errors.
  apply (proj1 (overflow_not_reported "1e400" false (start tt))); [vm_compute; reflexivity|discriminate].
Defined.

(** *** Sorting and searching *)

Lemma sorted_lookup (l : list Z) i j x y :
  Sorted Z.le l -> l !! i = Some x -> l !! j = Some y -> (i <= j)%nat -> x <= y.
Proof.
  intros Hs%Sorted_StronglySorted; [|intros ? ? ?; lia]. revert i j.
  induction Hs as [|z l _ IH Hf]; intros [|i] [|j] Hi Hj Hle; simplify_eq/=; try lia; eauto with lia.
  exact (Forall_lookup_1 _ _ _ _ Hf Hj).
Qed.

(** All elements of [l] may be subtracted from each other. *)
Definition subtractable (l : list Z) : Prop :=
  forall x y, x ∈ l -> y ∈ l -> INT_MIN <= x - y <= INT_MAX.

Lemma prints_array_get {W A} (a : list A) i x :
  a !! i = Some x -> prints (array_get a (Z.of_nat i) : C W A) x [].
Proof.
  intros Hi s. rewrite (array_get_ok _ _ x) by done. simpl. rewrite app_nil_r. by destruct s.
Qed.

Section SortFacts.
Context {W : Type} (cmp : Z -> Z -> C W Z) (ok : Z -> Prop).
(** A comparison that has no effect and orders the elements by their values. *)
Context (cmp_ok : forall x y, ok x -> ok y ->
  exists r, prints (cmp x y) r [] /\ (r <= 0 <-> x <= y) /\ (r = 0 <-> x = y)).

Lemma insert_sorted_run x l : ok x -> Forall ok l -> Sorted Z.le l ->
  exists l', prints (insert_sorted cmp x l) l' [] /\ l' ≡ₚ x :: l /\ Sorted Z.le l'.
Proof.
  intros Hx. induction l as [|y l IH]; intros Hok Hs; cbn [insert_sorted].
  { exists [x]. split_and!; [apply prints_ret|done|by repeat constructor]. }
  inversion_clear Hok as [|? ? Hy Hl]. inversion_clear Hs as [|? ? Hs' Hh].
  destruct (cmp_ok x y Hx Hy) as (r & E & Hr & _). destruct (Z.leb_spec r 0) as [Hle|Hgt].
  - exists (x :: y :: l). split_and!; [|done|constructor; [by constructor|constructor; tauto]].
    apply (prints_bind _ _ r _ [] []); [done|]. rewrite (proj2 (Z.leb_le _ _)) by done. apply prints_ret.
  - destruct (IH Hl Hs') as (l' & E' & Hp & Hso). exists (y :: l').
    split_and!; [|by rewrite Hp, Permutation_swap|].
    { apply (prints_bind _ _ r _ [] []); [done|]. rewrite (proj2 (Z.leb_gt _ _)) by done.
      apply (prints_bind _ _ l' _ [] []); [done|apply prints_ret]. }
    constructor; [done|]. assert (y <= x) by lia. destruct l' as [|z l']; [constructor|].
    constructor. assert (z ∈ x :: l) as Hz by (rewrite <- Hp; left).
    apply elem_of_cons in Hz as [->|Hz]; [done|].
    assert (StronglySorted Z.le (y :: l)) as Hss.
    { apply Sorted_StronglySorted; [intros ? ? ?; lia|by constructor]. }
    inversion_clear Hss as [|? ? _ Hf]. apply list_elem_of_lookup_1 in Hz as [i Hi].
    exact (Forall_lookup_1 _ _ _ _ Hf Hi).
Qed.

Lemma qsort_run l : Forall ok l ->
  exists l', prints (qsort cmp l) l' [] /\ l' ≡ₚ l /\ Sorted Z.le l'.
Proof.
  induction l as [|x l IH]; intros Hok; cbn [qsort].
  { exists []. split_and!; [apply prints_ret|done|constructor]. }
  inversion_clear Hok as [|? ? Hx Hl]. destruct (IH Hl) as (l' & E & Hp & Hs).
  destruct (insert_sorted_run x l' Hx) as (l'' & E' & Hp' & Hs'); [by rewrite Hp|done|].
  exists l''. split_and!; [by apply (prints_bind _ _ l' _ [] [])|by rewrite Hp', Hp|done].
Qed.

(** The key is not left of [low] nor from [high] on. *)
Lemma bsearch_from_run fuel key arr low high : ok key -> Forall ok arr -> Sorted Z.le arr ->
  (high <= length arr)%nat -> (high - low < fuel)%nat ->
  (forall i, arr !! i = Some key -> (low <= i < high)%nat) ->
  exists r, prints (bsearch_from cmp fuel key arr low high) r [] /\
    match r with Some i => arr !! i = Some key | None => key ∉ arr end.
Proof.
  intros Hk Hok Hs. revert low high. induction fuel as [|fuel IH]; intros low high Hh Hf Hin; [lia|].
  cbn [bsearch_from]. cbv zeta. destruct (Nat.leb_spec high low).
  { exists None. split; [apply prints_ret|]. intros [i Hi]%list_elem_of_lookup. apply Hin in Hi. lia. }
  set (mid := ((low + high) / 2)%nat).
  assert (low <= mid < high)%nat as Hm.
  { split; [apply Nat.div_le_lower_bound; lia|apply Nat.Div0.div_lt_upper_bound; lia]. }
  destruct (lookup_lt_is_Some_2 arr mid) as [x Hx]; [lia|].
  pose proof (Forall_lookup_1 _ _ _ _ Hok Hx) as Hokx.
  destruct (cmp_ok key x Hk Hokx) as (r & E & Hle & Heq).
  assert (forall (k : Z -> C W (option nat)) R, prints (k r) R [] ->
    prints (x ← array_get arr (Z.of_nat mid); r ← cmp key x; k r) R []) as Hget.
  { intros k R HR. apply (prints_bind _ _ x _ [] []); [by apply prints_array_get|].
    by apply (prints_bind _ _ r _ [] []). }
  assert (forall i y, arr !! i = Some y -> (i <= mid)%nat -> y <= x) as Hbelow.
  { intros i y Hi Hle'. by eapply (sorted_lookup arr i mid). }
  assert (forall i y, arr !! i = Some y -> (mid <= i)%nat -> x <= y) as Habove.
  { intros i y Hi Hle'. by eapply (sorted_lookup arr mid i). }
  destruct (Z.eqb_spec r 0) as [->|Hne].
  { exists (Some mid). split; [apply Hget, prints_ret|]. rewrite Hx. f_equal. symmetry. tauto. }
  destruct (Z.ltb_spec r 0).
  - destruct (IH low mid) as (R & HR & Hans); [lia..| |].
    { intros i Hi. pose proof (Hin i Hi). destruct (decide (mid <= i)%nat) as [Hge|]; [|lia].
      pose proof (Habove i key Hi Hge). assert (key = x) by (apply Z.le_antisymm; tauto || lia). tauto. }
    exists R. split; [|done]. apply Hget. by rewrite (proj2 (Z.eqb_neq _ _)), (proj2 (Z.ltb_lt _ _)).
  - destruct (IH (S mid) high) as (R & HR & Hans); [lia..| |].
    { intros i Hi. pose proof (Hin i Hi). destruct (decide (i <= mid)%nat) as [Hge|]; [|lia].
      pose proof (Hbelow i key Hi Hge) as Hc. apply Hle in Hc. lia. }
    exists R. split; [|done]. apply Hget. by rewrite (proj2 (Z.eqb_neq _ _)), (proj2 (Z.ltb_ge _ _)).
Qed.
End SortFacts.

Section SortPrograms.
Context {W : Type}.

Lemma bsearch_intcmp_ok x y : True -> True ->
  exists r, prints (Bsearch.intcmp (W:=W) x y) r [] /\ (r <= 0 <-> x <= y) /\ (r = 0 <-> x = y).
Proof.
  intros _ _. unfold Bsearch.intcmp.
  destruct (Z.ltb_spec x y); [exists (-1)|destruct (Z.ltb_spec y x); [exists 1|exists 0]];
    (split; [apply prints_ret|lia]).
Qed.

Lemma qsort_intcmp_ok l x y : subtractable l -> x ∈ l -> y ∈ l ->
  exists r, prints (Qsort.intcmp (W:=W) x y) r [] /\ (r <= 0 <-> x <= y) /\ (r = 0 <-> x = y).
Proof.
  intros Hs Hx Hy. exists (x - y). specialize (Hs x y Hx Hy). split; [|lia].
  unfold Qsort.intcmp. rewrite (proj2 (Z.ltb_ge _ _)), (proj2 (Z.ltb_ge _ _)) by lia.
  apply prints_ret.
Qed.

(** The lines [print_ints] writes. *)
Definition shown (title : string) (arr : list Z) : list string :=
  title :: ((fun x => fmt_d x +:+ " ") <$> arr) ++ [nl].

Lemma prints_shown (title : string) (arr : list Z) {B} (k : C W B) b l :
  prints k b l -> prints (out title;; print_ints arr;; k) b (shown title arr ++ l).
Proof.
  intros Hk. unfold shown. cbn [app].
  apply (prints_bind _ _ tt _ [title]); [apply prints_out|].
  apply (prints_bind _ _ tt); [|done]. apply (prints_bind _ _ tt tt); [|apply prints_out].
  apply prints_for_each.
Qed.

Lemma find_index_from_run n i element size :
  (i <= element < i + n)%nat -> Bsearch.find_index_from n i element size = element.
Proof.
  revert i. induction n as [|n IH]; intros i Hi; [lia|]. simpl.
  destruct (Nat.eqb_spec i element) as [->|]; [done|]. apply IH. lia.
Qed.
End SortPrograms.

(** C32: the two programs sort their array, and bsearch finds an index of the target
    exactly when the target is in it; qsort's comparison needs the differences of
    all elements to be [int]s, otherwise its subtraction overflows. *)
Theorem sorting_programs_correct {W} (arr : list Z) (target : Z) :
  (subtractable arr ->
   exists arr', arr' ≡ₚ arr /\ Sorted Z.le arr' /\
     prints (Qsort.run arr : C W Z) EXIT_SUCCESS
       (shown "Original array: " arr ++ shown "Sorted array: " arr')) /\
  (forall s : cstate W, fst (Qsort.run [INT_MIN; 1] s) = Undef "signed overflow") /\
  (exists arr' answer, arr' ≡ₚ arr /\ Sorted Z.le arr' /\
     prints (Bsearch.run arr target : C W Z) EXIT_SUCCESS
       (shown "Unsorted array: " arr ++ shown "Sorted array: " arr' ++ [answer]) /\
     ((exists i, arr' !! i = Some target /\
        answer = ln ("Element " +:+ fmt_d target +:+ " found at index " +:+ fmt_u (Z.of_nat i))) \/
      (target ∉ arr /\ answer = ln ("Element " +:+ fmt_d target +:+ " not found")))).
Proof.
  split_and!.
  - intros Hs. destruct (qsort_run (W:=W) Qsort.intcmp (.∈ arr)
      (fun x y => qsort_intcmp_ok arr x y Hs) arr) as (arr' & Hq & Hp & Hso);
      [by apply list.Forall_forall|].
    exists arr'. split_and!; [done..|]. apply prints_shown.
    apply (prints_bind _ _ arr' _ [] _); [done|].
    eapply prints_eq; [apply prints_shown, prints_ret|by rewrite app_nil_r].
  - done.
  - destruct (qsort_run (W:=W) Bsearch.intcmp (fun _ => True) bsearch_intcmp_ok arr)
      as (arr' & Hq & Hp & Hso); [by apply list.Forall_forall|].
    destruct (bsearch_from_run (W:=W) Bsearch.intcmp (fun _ => True) bsearch_intcmp_ok
      (S (length arr')) target arr' 0 (length arr')) as (r & Hr & Ha);
      [done|by apply list.Forall_forall|done|lia|lia| |].
    { intros i Hi%lookup_lt_Some. lia. }
    exists arr', (match r with
      | Some i => ln ("Element " +:+ fmt_d target +:+ " found at index " +:+ fmt_u (Z.of_nat i))
      | None => ln ("Element " +:+ fmt_d target +:+ " not found") end).
    split_and!; [done..| |].
    + apply prints_shown. apply (prints_bind _ _ arr' _ [] _); [done|]. apply prints_shown.
      apply (prints_bind _ _ r _ [] _); [done|]. apply prints_done. destruct r as [i|];
        [|apply prints_out]. unfold Bsearch.find_index.
      rewrite find_index_from_run; [apply prints_out|]. apply lookup_lt_Some in Ha. lia.
    + destruct r as [i|]; [by left; exists i|right]. split; [|done]. by rewrite <- Hp.
Qed.

Lemma sorting_programs_correct_witness :
  subtractable [5; 2; 8; 1; 3] /\
  (exists arr', arr' ≡ₚ [5; 2; 8; 1; 3] /\ Sorted Z.le arr' /\
     prints (Qsort.main : C unit Z) EXIT_SUCCESS
       (shown "Original array: " [5; 2; 8; 1; 3] ++ shown "Sorted array: " arr')).
Proof.
  assert (subtractable [5; 2; 8; 1; 3]) as Hs.
  { intros x y Hx Hy. unfold INT_MIN, INT_MAX. rewrite !elem_of_cons, elem_of_nil in *. lia. }
  split; [exact Hs|]. exact (proj1 (sorting_programs_correct [5; 2; 8; 1; 3] 3) Hs).
Defined.
