(* ===== verification/Objects.v ===== *)
(** * Libraries, shared objects and trees

    src/dynamic-libraries (the two loaders and the libraries they can load),
    src/shared-memory/shm_open-shm_unlink, src/semaphores/sem_open-sem_close-sem_unlink
    and src/file-tree-walking.  What a loaded function does is a parameter of the
    program that calls it, until it is one of the two libraries; [nftw] hands over
    what it visited ([Walks]). *)

From S2P Require Import Prelude CMonad CString Getopt ArgParse OneOperand OptionPrograms.
From S2P Require Import Words Reports Identity Strings Values.

Class Walks := {
  (* the paths [nftw] visited, each with its type flag *)
  visited : list byte -> list (string * Z);
  (* the text of the last error of the loader *)
  dlerror : Z -> string;
}.

Definition RTLD_LAZY : Z := 1.
Definition O_CREAT : Z := 64.
Definition O_EXCL : Z := 128.
Definition OWNER_READ_WRITE : Z := 384.

(** [src/dynamic-libraries/dlopen-dlclose-dlerror/main.c] *)
Module DlopenDlclose.
Section Program.
Context {W} `{Kernel W} `{Walks}.

Definition body (library_path : string) : C W Z :=
  handle ← call "dlopen" [library_path] [RTLD_LAZY];
  if fails handle then
    eout (ln ("Error loading the shared library: " +:+ dlerror (r_err handle)));;
    mret EXIT_FAILURE
  else
  out (ln ("Opened " +:+ library_path));;
  r ← call "dlclose" [] [r_val handle];
  if negb (r_val r =? 0) then
    eout (ln ("Error unloading the shared library: " +:+ dlerror (r_err r)));;
    mret EXIT_FAILURE
  else
  out (ln ("Closed " +:+ library_path));;
  mret EXIT_SUCCESS.

Definition main (argv : list string) : C W Z :=
  dynamic_libraries_dlopen_dlclose_dlerror.start_up argv ≫= body.
End Program.
End DlopenDlclose.

(** [src/dynamic-libraries/dlsym/main.c]: [code] is what the function at an address
    does with its argument. *)
Module Dlsym.
Section Program.
Context {W} `{Kernel W} `{Walks} (code : Z -> string -> C W unit).

Definition body (args : string * string) : C W Z :=
  let '(library_path, function_name) := args in
  out (ln ("opening " +:+ library_path));;
  handle ← call "dlopen" [library_path] [RTLD_LAZY];
  if fails handle then
    eout (ln ("Error loading the shared library: " +:+ dlerror (r_err handle)));;
    mret EXIT_FAILURE
  else
  out (ln ("getting function " +:+ function_name));;
  func ← call "dlsym" [function_name] [r_val handle];
  if fails func then
    eout (ln ("Error getting the symbol '" +:+ function_name +:+ "': " +:+ dlerror (r_err func)));;
    call "dlclose" [] [r_val handle];;
    mret EXIT_FAILURE
  else
  code (r_val func) "Hello, World!";;
  r ← call "dlclose" [] [r_val handle];
  if negb (r_val r =? 0) then
    eout (ln ("Error unloading the shared library: " +:+ dlerror (r_err r)));;
    mret EXIT_FAILURE
  else
  mret EXIT_SUCCESS.

Definition main (argv : list string) : C W Z := dynamic_libraries_dlsym.start_up argv ≫= body.
End Program.
End Dlsym.

(** [src/dynamic-libraries/dlsym/testlib-1.c] *)
Module Testlib1.
Definition display {W} (msg : string) : C W unit := out (ln ("testlib-1: display: " +:+ msg)).
End Testlib1.

(** [src/dynamic-libraries/dlsym/testlib-2.c]: the characters are changed in the
    copy, one by one; [toupper] is not defined on negative numbers. *)
Module Testlib2.
Section Library.
Context {W} `{Kernel W}.

(** [(char)toupper(c)], a [char] being signed. *)
Definition upper (c : ascii) : C W ascii :=
  let v := to_signed 8 (byte_val c) in
  if v <? -1 then undef "toupper" else mret (byte_of (CharacterTypes.toupper v)).

Fixpoint uppercase (msg : string) : C W string :=
  match msg with
  | "" => mret ""
  | String c msg => c ← upper c; msg ← uppercase msg; mret (String c msg)
  end.

Definition display (msg : string) : C W unit :=
  uppercase_msg ← sys (SAlloc (Z.of_nat (String.length msg) + 1));
  if fails uppercase_msg then eout (ln "Error: Memory allocation failed.") else
  msg ← uppercase msg;
  out (ln ("testlib-2: display: " +:+ msg)).
End Library.
End Testlib2.

(** [src/shared-memory/shm_open-shm_unlink/main.c] *)
Module ShmOpen.
Section Program.
Context {W} `{Kernel W}.

Definition body (shm_name : string) : C W Z :=
  shm_fd ← call "shm_open" [shm_name] [Z.lor O_CREAT O_RDWR; OWNER_READ_WRITE];
  if fails shm_fd then perror_fail "shm_open" else
  out (ln ("Opened " +:+ shm_name));;
  sys (SClose (r_val shm_fd));;
  out (ln ("Closed " +:+ shm_name));;
  r ← call "shm_unlink" [shm_name] [];
  if fails r then perror_fail "shm_unlink" else
  out (ln ("Unlinked " +:+ shm_name));;
  mret EXIT_SUCCESS.

Definition main (argv : list string) : C W Z :=
  shared_memory_shm_open_shm_unlink.start_up argv ≫= body.
End Program.
End ShmOpen.

(** [src/semaphores/sem_open-sem_close-sem_unlink/main.c] *)
Module SemOpen.
Section Program.
Context {W} `{Kernel W}.

Definition sem_name : string := "/example_semaphore".

Definition main : C W Z :=
  out (ln ("Opening " +:+ sem_name));;
  semaphore ← call "sem_open" [sem_name] [Z.lor O_CREAT O_EXCL; OWNER_READ_WRITE; 1];
  if fails semaphore then perror_exit "Semaphore creation failed" else
  out (ln ("Closing " +:+ sem_name));;
  r ← call "sem_close" [] [r_val semaphore];
  if fails r then perror_exit "sem_close failed" else
  out (ln ("Unlinking " +:+ sem_name));;
  r ← call "sem_unlink" [sem_name] [];
  if fails r then perror_exit "sem_unlink failed" else
  mret EXIT_SUCCESS.
End Program.
End SemOpen.

(** [src/file-tree-walking/nftw/main.c]: the callback is called during the walk;
    the walk is the call and then what the callback did. *)
Module Nftw.
Section Program.
Context {W} `{Kernel W} `{Walks}.

Definition FTW_F : Z := 0.
Definition FTW_D : Z := 1.
Definition FTW_SL : Z := 4.
Definition FTW_PHYS : Z := 1.

Definition print_file (fpath : string) (tflag : Z) : C W Z :=
  (if tflag =? FTW_F then out (ln ("File: " +:+ fpath))
   else if tflag =? FTW_D then out (ln ("Directory: " +:+ fpath))
   else if tflag =? FTW_SL then out (ln ("Link: " +:+ fpath))
   else mret tt);;
  mret 0.

Definition body (directory_path : string) : C W Z :=
  r ← call "nftw" [directory_path] [1; FTW_PHYS];
  for_each (visited (r_data r)) (fun '(fpath, tflag) => print_file fpath tflag;; mret tt);;
  (if fails r then perror_fail "nftw" else mret EXIT_SUCCESS).

Definition main (argv : list string) : C W Z :=
  start_with file_tree_walking_nftw.parse_arguments file_tree_walking_nftw.handle_arguments argv
    ≫= body.
End Program.
End Nftw.

(** ** What they report and release *)

Section Reports.
Context {W} `{Kernel W} `{Walks}.

Lemma dlopen_reports p : reports (failing ["dlopen"] [] ["dlclose"]) (DlopenDlclose.body p).
Proof. repeat reports_step. Qed.

Lemma shm_open_reports p : reports (failing ["shm_open"; "shm_unlink"] [] []) (ShmOpen.body p).
Proof. repeat reports_step. Qed.

Lemma sem_open_reports :
  reports (failing ["sem_open"; "sem_close"; "sem_unlink"] [] []) SemOpen.main.
Proof. repeat reports_step. Qed.

Lemma dlopen_closes p : closes [] (DlopenDlclose.body p).
Proof. repeat closes_step. Qed.

Lemma shm_open_closes p : closes [] (ShmOpen.body p).
Proof. repeat closes_step. Qed.

Lemma sem_open_closes : closes [] SemOpen.main.
Proof. repeat closes_step. Qed.

(** The library is closed whatever the loaded function did, short of ending the
    program or closing the library itself. *)
Lemma dlsym_closes (code : Z -> string -> C W unit) args :
  (forall a, keeps (code a "Hello, World!")) -> closes [] (Dlsym.body code args).
Proof.
  intros Hc. destruct args as [l f]. unfold Dlsym.body. do 6 closes_step; [repeat closes_step|].
  do 2 closes_step. closes_step; [repeat closes_step|].
  apply closes_keeps; [apply Hc|]. intros _. repeat closes_step.
Qed.
End Reports.

(** ** The two libraries *)

(** The upper-case form of an ASCII character. *)
Definition upper_char (c : ascii) : ascii :=
  let v := byte_val c in
  if CharacterTypes.islower v then byte_of (v - 32) else c.

Fixpoint upper_text (s : string) : string :=
  match s with "" => "" | String c s => String (upper_char c) (upper_text s) end.

Definition is_ascii (s : string) : Prop := Forall (fun c => byte_val c < 128) (chars s).

Section Libraries.
Context {W} `{Kernel W}.

Lemma upper_ok c (s : cstate W) :
  byte_val c < 128 -> Testlib2.upper c s = (Val (upper_char c), s).
Proof.
  intros Hc. pose proof (byte_val_range c) as Hr. unfold Testlib2.upper, upper_char. cbv zeta.
  rewrite to_signed_small by lia. rewrite (proj2 (Z.ltb_ge _ _)) by lia.
  unfold CharacterTypes.toupper. destruct (CharacterTypes.islower (byte_val c)); [done|].
  by rewrite byte_of_val.
Qed.

Lemma uppercase_ok msg (s : cstate W) :
  is_ascii msg -> Testlib2.uppercase msg s = (Val (upper_text msg), s).
Proof.
  unfold is_ascii. induction msg as [|c msg IH]; intros Hm; [done|]. apply Forall_cons_1 in Hm as [Hc Hm].
  cbn [Testlib2.uppercase]. rewrite (bind_val _ _ _ _ _ (upper_ok c s Hc)).
  by rewrite (bind_val _ _ _ _ _ (IH Hm)).
Qed.

Lemma testlib1_keeps msg : keeps (Testlib1.display (W:=W) msg).
Proof. apply keeps_out. Qed.

Lemma testlib2_keeps msg : is_ascii msg -> keeps (Testlib2.display (W:=W) msg).
Proof.
  intros Hm. unfold Testlib2.display. apply keeps_bind; [by apply keeps_sys|]. intros r.
  destruct (fails r); [apply keeps_eout|]. apply keeps_bind; [|intros ?; apply keeps_out].
  intros s. unfold wlp_if. rewrite uppercase_ok by done. exists []. by rewrite app_nil_r.
Qed.

Lemma dlsym_lib1_closes `{Walks} args : closes [] (Dlsym.body (fun _ => Testlib1.display) args).
Proof. apply dlsym_closes. intros _. apply testlib1_keeps. Qed.

Lemma dlsym_lib2_closes `{Walks} args : closes [] (Dlsym.body (fun _ => Testlib2.display) args).
Proof. apply dlsym_closes. intros _. apply testlib2_keeps. repeat constructor. Qed.

(** What the loaded function shows. *)
Lemma testlib2_shows msg (s : cstate W) :
  is_ascii msg ->
  wp (Testlib2.display msg)
    (fun _ s' => exists r e, trace s' = trace s ++ [ESys (SAlloc (Z.of_nat (String.length msg) + 1)) r; e] /\
       e = if fails r then EErr (ln "Error: Memory allocation failed.")
           else EOut (ln ("testlib-2: display: " +:+ upper_text msg)))
    (fun _ _ => False) s.
Proof.
  intros Hm. unfold Testlib2.display. apply wp_bind, wp_sys. intros r w e _.
  destruct (fails r) eqn:Er.
  - apply wp_emit. simpl. rewrite <- app_assoc. exists r. rewrite Er. eauto.
  - apply wp_bind. unfold wp at 1. rewrite uppercase_ok by done. apply wp_emit. simpl.
    rewrite <- app_assoc. exists r. rewrite Er. eauto.
Qed.
End Libraries.

(** ** The tree *)

(** The line of an entry; other types than these are passed over. *)
Definition entry_line (entry : string * Z) : list string :=
  if snd entry =? Nftw.FTW_F then [ln ("File: " +:+ fst entry)]
  else if snd entry =? Nftw.FTW_D then [ln ("Directory: " +:+ fst entry)]
  else if snd entry =? Nftw.FTW_SL then [ln ("Link: " +:+ fst entry)]
  else [].

Section Tree.
Context {W} `{Kernel W} `{Walks}.

Lemma print_file_prints fpath tflag :
  prints (Nftw.print_file fpath tflag;; mret tt : C W unit) tt (entry_line (fpath, tflag)).
Proof. intros s. unfold Nftw.print_file, entry_line. simpl. by repeat case_match; cstep; rewrite ?app_nil_r; destruct s. Qed.

Lemma entries_print (l : list (string * Z)) :
  prints (for_each l (fun '(fpath, tflag) => Nftw.print_file fpath tflag;; mret tt) : C W unit)
    tt (l ≫= entry_line).
Proof.
  induction l as [|[p f] l IH]; [apply prints_ret|]. simpl.
  eapply prints_bind; [apply print_file_prints|done].
Qed.

(** One line for each file, directory and link of the walk, in order; then success,
    or the error of the walk and failure. *)
Theorem nftw_lists path (s : cstate W) :
  wp (Nftw.body path)
    (fun c s' => exists r, trace s' = trace s ++ ESys (SCall "nftw" [path] [1; Nftw.FTW_PHYS]) r ::
         (EOut <$> (visited (r_data r) ≫= entry_line)) ++
         (if fails r then [EPerror "nftw" (r_err r)] else []) /\
       c = if fails r then EXIT_FAILURE else EXIT_SUCCESS)
    (fun _ _ => False) s.
Proof.
  unfold Nftw.body, call. apply wp_bind. unfold wp at 1, sys.
  destruct (kcall _ (world s)) as [r w]. apply wp_bind. unfold wp at 1.
  rewrite entries_print. unfold wp, fails, perror_fail, perror. destruct (r_val r =? -1) eqn:Er;
    exists r; rewrite Er; simpl; rewrite ?app_nil_r, <- !app_assoc; done.
Qed.
End Tree.
