(* ===== verification/IpcPrograms.v ===== *)
(** * The programs in which two processes share a pipe or a memory, from [main]

    src/pipe (reliable, synchronized, simple), src/domain-socket/socketpair and the two
    programs of src/shared-memory/mmap-munmap.  Each [main] opens the file, makes the
    pipe, the sockets, the mapping and the semaphores, forks where it has to and runs
    the loops of [PipeIO] and [LineWords]; what [fork] returned decides which of the
    two processes a run is.  The theorem: a run that returns has given back what it
    got, except for the semaphores that two of the programs leave open. *)

From S2P Require Import Prelude CMonad CString Getopt ArgParse OneOperand Words PipeIO.
From S2P Require Import PipeProtocol ShmProtocol LineWords Servers Reports Identity.

(** ** The programs *)

Section Fork.
Context {W} `{Kernel W}.

(** [file = fopen(file_path, "r"); pipe(pipefd)]: the stream and the two ends. *)
Definition open_pipe (file_path : string) (go : Z -> Z -> Z -> C W Z) : C W Z :=
  file ← sys (SFopen file_path "r");
  if fails file then error_exit "Error opening file" else
  pipefd ← call "pipe" [] [];
  if fails pipefd then error_exit "Error creating pipe" else
  go (r_val file) (int_at 0 (r_data pipefd)) (int_at 1 (r_data pipefd)).

(** [pid = fork()]: the child, or the rest of the parent. *)
Definition fork_into (child parent : C W unit) : C W unit :=
  pid ← call "fork" [] [];
  if fails pid then error_exit "Error creating child process" else
  if r_val pid =? 0 then child else parent.

(** The two semaphores, opened with these variable arguments, and unlinked by both
    processes. *)
Definition with_semaphores (parent_args child_args : list Z) (go : C W unit) : C W Z :=
  sem_parent ← call "sem_open" ["/sem_parent"] parent_args;
  if fails sem_parent then error_exit "Error creating/opening SEM_PARENT semaphore" else
  sem_child ← call "sem_open" ["/sem_child"] child_args;
  if fails sem_child then error_exit "Error creating/opening SEM_CHILD semaphore" else
  go;;
  call "sem_unlink" ["/sem_parent"] [];;
  call "sem_unlink" ["/sem_child"] [];;
  mret EXIT_SUCCESS.

(** The mapping, which the other process writes too: the kernel keeps its bytes. *)
Definition load_string (shm_ptr : Z) : C W string :=
  r ← call "load" [] [shm_ptr]; mret (of_chars (cstring (r_data r))).
Definition store (address : Z) (data : list byte) : C W unit :=
  call "store" [of_chars data] [address];; mret tt.

(** [get_page_size] of the server and of the client. *)
Definition get_page_size : C W Z :=
  page_size ← call "sysconf" [] [30];
  if fails page_size then perror_exit "sysconf" else mret (to_unsigned 64 (r_val page_size)).

(** [mmap] and the two [sem_open]. *)
Definition map_and_open (shm_size shm_fd : Z) (go : Z -> Z -> Z -> C W Z) : C W Z :=
  shm_ptr ← call "mmap" [] [shm_size; 3; 1; shm_fd; 0];
  if fails shm_ptr then perror_exit "mmap" else
  client_sem ← call "sem_open" ["/client_semaphore"] [O_CREAT; Z.lor 256 128; 0];
  if fails client_sem then perror_exit "sem_open" else
  server_sem ← call "sem_open" ["/server_semaphore"] [O_CREAT; Z.lor 256 128; 0];
  if fails server_sem then perror_exit "sem_open" else
  go (r_val shm_ptr) (r_val client_sem) (r_val server_sem).

(** The clean-up of both. *)
Definition unmap_and_close (shm_ptr shm_size shm_fd client_sem server_sem : Z) : C W Z :=
  call "sem_close" [] [client_sem];;
  call "sem_close" [] [server_sem];;
  call "munmap" [] [shm_ptr; shm_size];;
  sys (SClose shm_fd);;
  mret EXIT_SUCCESS.
End Fork.

(** [src/pipe/reliable/main.c]; [contents] is what [fgetc] reads from the file,
    [word] the arrays before anything is stored in them. *)
Module ReliableMain.
Definition main {W} `{Kernel W} (fuel : nat) (word contents : list byte) (argv : list string) : C W Z :=
  file_path ← start_with pipe_reliable.parse_arguments pipe_reliable.handle_arguments argv;
  open_pipe file_path (fun file pipefd0 pipefd1 =>
    with_semaphores [O_CREAT; SEM_MODE; 0] [O_CREAT; SEM_MODE; 1]
      (fork_into
        (PipeReliable.child_process pipefd0 pipefd1 file word contents)
        (sys (SFclose file);; PipeReliable.parent_process fuel pipefd0 pipefd1 word))).
End ReliableMain.

(** [src/pipe/synchronized/main.c]: [O_CREAT] is passed twice. *)
Module SynchronizedMain.
Definition main {W} `{Kernel W} (fuel : nat) (length : Z) (word contents : list byte)
    (argv : list string) : C W Z :=
  file_path ← start_with pipe_synchronized.parse_arguments pipe_synchronized.handle_arguments argv;
  open_pipe file_path (fun file pipefd0 pipefd1 =>
    with_semaphores [O_CREAT; O_CREAT; SEM_MODE; 0] [O_CREAT; O_CREAT; SEM_MODE; 1]
      (fork_into
        (PipeSynchronized.child_process pipefd0 pipefd1 file word contents)
        (sys (SFclose file);; PipeSynchronized.parent_process fuel pipefd0 pipefd1 length word))).
End SynchronizedMain.

(** [src/pipe/simple/main.c] *)
Module SimpleMain.
Definition main {W} `{Kernel W} (fuel : nat) (length : Z) (word contents : list byte)
    (argv : list string) : C W Z :=
  file_path ← start_with pipe_simple.parse_arguments pipe_simple.handle_arguments argv;
  open_pipe file_path (fun file pipefd0 pipefd1 =>
    fork_into
      (PipeSimple.child_process pipefd0 pipefd1 file word contents)
      (sys (SFclose file);; PipeSimple.parent_process fuel pipefd0 pipefd1 length word);;
    mret EXIT_SUCCESS).
End SimpleMain.

(** [src/domain-socket/socketpair/main.c] *)
Module SocketpairMain.
Definition main {W} `{Kernel W} (fuel : nat) (length : Z) (word contents : list byte)
    (argv : list string) : C W Z :=
  file_path ← start_with domain_socket_socketpair.parse_arguments
                domain_socket_socketpair.handle_arguments argv;
  sockfd ← call "socketpair" [] [AF_UNIX; SOCK_STREAM; 0];
  if fails sockfd then error_exit "Error creating socket pair" else
  let sockfd0 := int_at 0 (r_data sockfd) in
  let sockfd1 := int_at 1 (r_data sockfd) in
  fork_into
    (sys (SClose sockfd1);; Socketpair.child_process sockfd0 file_path word contents)
    (sys (SClose sockfd0);; Socketpair.parent_process fuel sockfd1 length word);;
  mret EXIT_SUCCESS.
End SocketpairMain.

(** [src/shared-memory/mmap-munmap/server.c] *)
Module ShmServer.
Section Program.
Context {W} `{Kernel W}.

(** One turn of [while(1)]. *)
Definition server_turn (shm_ptr client_sem server_sem : Z) (_ : unit) : C W (unit + unit) :=
  out (ln "Waiting for client_sem");;
  call "sem_wait" [] [client_sem];;
  if shm_ptr =? 0 then call "sem_post" [] [server_sem];; mret (inr tt) else
  text ← load_string shm_ptr;
  if strcmp text "" =? 0 then call "sem_post" [] [server_sem];; mret (inr tt) else
  text ← load_string shm_ptr;
  out (ln text);;
  out (ln "Posting to server_sem");;
  call "sem_post" [] [server_sem];;
  mret (inl tt).

Definition main (fuel : nat) : C W Z :=
  shm_fd ← call "shm_open" ["/my_shared_memory"] [Z.lor O_CREAT O_RDWR; Z.lor 256 128];
  if fails shm_fd then perror_exit "shm_open" else
  page_size ← get_page_size;
  let shm_size := ShmSize.server_size page_size in
  call "ftruncate" [] [r_val shm_fd; shm_size];;
  map_and_open shm_size (r_val shm_fd) (fun shm_ptr client_sem server_sem =>
    loop fuel (server_turn shm_ptr client_sem server_sem) tt;;
    call "sem_wait" [] [server_sem];;
    unmap_and_close shm_ptr shm_size (r_val shm_fd) client_sem server_sem).
End Program.
End ShmServer.

(** [src/shared-memory/mmap-munmap/client.c] *)
Module ShmClient.
Section Program.
Context {W} `{Kernel W}.

Definition BUFFER_LEN : nat := 100.
Definition get_page_size : C W Z := get_page_size.

(** The body of the loop over the words. *)
Definition send_word (shm_ptr client_sem server_sem : Z) (word : string) : C W unit :=
  let len := Z.of_nat (String.length word) in
  if ShmSize.SHM_SIZE - 1 <=? len then
    eout (ln ("Word too long for shared memory: " +:+ word));; exit_ EXIT_FAILURE
  else
    store shm_ptr (chars word);;
    store (shm_ptr + len) [NUL];;
    call "sem_post" [] [client_sem];;
    call "sem_wait" [] [server_sem];;
    mret tt.

(** The words of the file, then the empty string. *)
Definition converse (shm_ptr client_sem server_sem : Z) (contents : list byte) : C W unit :=
  file_words BUFFER_LEN contents (send_word shm_ptr client_sem server_sem);;
  store shm_ptr [NUL];;
  call "sem_post" [] [client_sem];; mret tt.

Definition main (contents : list byte) (argv : list string) : C W Z :=
  page_size ← get_page_size;
  let shm_size := ShmSize.client_size page_size in
  file_path ← start_with shared_memory_mmap_client.parse_arguments
                shared_memory_mmap_client.handle_arguments argv;
  file ← sys (SFopen file_path "re");
  if fails file then perror_exit "fopen" else
  shm_fd ← call "shm_open" ["/my_shared_memory"] [O_RDWR; Z.lor 256 128];
  if fails shm_fd then perror_exit "shm_open" else
  map_and_open shm_size (r_val shm_fd) (fun shm_ptr client_sem server_sem =>
    converse shm_ptr client_sem server_sem contents;;
    call "sem_wait" [] [server_sem];;
    sys (SFclose (r_val file));;
    unmap_and_close shm_ptr shm_size (r_val shm_fd) client_sem server_sem).
End Program.
End ShmClient.

(** ** What they give back *)

(** Everything open was given back but for what is in [spare]. *)
Definition up_to (spare : resource -> Prop) (l k : list resource) : Prop :=
  exists left, l ≡ₚ k ++ left /\ Forall spare left.

#[export] Instance up_to_ledger spare : Ledger (up_to spare).
Proof.
  split.
  - intros l l' Hl k k' Hk. unfold up_to. by setoid_rewrite Hl; setoid_rewrite Hk.
  - by exists [].
  - intros x l k (left & Hl & Hs). exists left. by rewrite Hl.
Qed.

(** A run that returns has. *)
Definition gives_back {W} (spare : resource -> Prop) (m : C W Z) : Prop := forall s c s',
  m s = (Val c, s') ->
  exists t left, trace s' = trace s ++ t /\ opened t ≡ₚ shut t ++ left /\ Forall spare left.

Lemma balances_gives_back {W} spare (m : C W Z) :
  balances (up_to spare) False [] m -> gives_back spare m.
Proof.
  intros Hm s c s' E. specialize (Hm s). unfold wlp_if in Hm. rewrite E in Hm.
  destruct Hm as (t & Et & left & Ho & Hl). by exists t, left.
Qed.

Section GivesBack.
Context {W} `{Kernel W} (spare : resource -> Prop).

Lemma closes_spare {A} strict held (a : A) :
  Forall spare held -> balances (W:=W) (up_to spare) strict held (mret a).
Proof. intros Hs s. exists []. rewrite !app_nil_r. split; [done|]. by exists held. Qed.

Lemma died {A} R held msg (f : unit -> C W A) :
  balances R False held (die_when true msg ≫= f).
Proof. by intros s []. Qed.

Lemma error_exits {A B} R held msg (f : A -> C W B) :
  balances R False held (error_exit msg ≫= f).
Proof. by intros s []. Qed.

Lemma front_keeps {A} (m : C W A) Q : front m Q -> keeps_if False m.
Proof.
  intros Hm s. destruct (Hm s) as (t & Ht & E & _ & Hr). unfold wlp_if.
  assert (opened t = [] /\ shut t = []) as [Ho Hs].
  { clear -Ht. induction Ht as [|[] t He]; simpl in *; try done; by destruct He. }
  destruct (m s) as [[a|c|u|] s1]; simpl in *; [eauto|tauto|tauto|done].
Qed.

Lemma child_words_keeps (send : list byte -> Z -> C W unit) word file :
  (forall w n, keeps_if False (send w n)) -> keeps_if False (child_words send word file).
Proof.
  intros Hs. unfold child_words. apply keeps_bind.
  - generalize (word, 0). induction file as [|ch file IH]; intros [w n]; cbn [child_loop];
      [apply keeps_ret|].
    apply keeps_bind; [|apply IH]. unfold child_char, end_word, array_set.
    repeat first [apply Hs|keeps_step].
  - intros [w n]. unfold end_word, array_set. repeat first [apply Hs|keeps_step].
Qed.

Lemma file_words_keeps size file (body : string -> C W unit) :
  (forall w, keeps_if False (body w)) -> keeps_if False (file_words size file body).
Proof.
  intros Hb. unfold file_words, tokens. generalize (S (length file)) as n. revert file.
  intros file n. revert file. induction n as [|n IH]; intros file; cbn [line_loop]; [done|].
  destruct (fgets size file) as [[line rest]|]; [|apply keeps_ret].
  apply keeps_bind; [|intros ?; apply IH].
  generalize (of_chars (cstring line)) as l. intros l.
  generalize (S (String.length l)) as k. intros k. revert l.
  induction k as [|k IHk]; intros l; cbn [token_loop]; [done|].
  destruct (strtok_r blanks_nl l) as [[w l']|]; [|apply keeps_ret].
  apply keeps_bind; [apply Hb|intros ?; apply IHk].
Qed.
End GivesBack.

(** The loops keep what is open, the rest is [closes_step]. *)
Ltac ipc_step :=
  lazymatch goal with
  | |- balances _ False _ (mbind _ (die_when true _)) => apply died
  | |- balances _ False _ (mbind _ (error_exit _)) => apply error_exits
  | |- balances _ False _ (mbind _ (perror_exit _)) => apply error_exits
  | |- balances (up_to _) _ _ (mret _) => apply closes_spare; repeat constructor
  | |- balances _ _ _ (mbind _ (start_with _ _ (?prog :: ?args))) =>
      apply closes_keeps;
      [eapply front_keeps; by apply (takes_one_front (fun W => start_with _ _) prog args),
         start_takes_one_operand
      |intros ?; cbv beta]
  | |- balances _ _ _ (mbind _ (child_words _ _ _)) =>
      apply closes_keeps; [apply child_words_keeps; intros ??; solve [repeat keeps_step]|intros ?]
  | |- balances _ _ _ (mbind _ (file_words _ _ _)) =>
      apply closes_keeps; [apply file_words_keeps; intros ?; solve [repeat keeps_step]|intros ?]
  | |- _ => closes_step
  end.

(** The semaphores stay open until the process ends. *)
Definition semaphore (x : resource) : Prop :=
  match x with Made maker _ => maker = "sem_open" | Descriptor _ => False end.
Definition nothing (x : resource) : Prop := False.

(** C36: from [main] to its return, in the child as in the parent and whatever the
    kernel, the file and the other process do: a run of a pipe program, of the
    socket pair program or of either shared-memory program that returns has closed
    both ends of its pipe or pair, its file, its mapping, its shared memory object
    and its semaphores, each once; only the two pipe programs that synchronise leave
    something open, and that is their semaphores. *)
Theorem ipc_programs_give_back {W} `{Kernel W} (fuel : nat) (length : Z) (word contents : list byte)
    (prog : string) (args : list string) :
  Forall (gives_back (W:=W) semaphore)
    [ ReliableMain.main fuel word contents (prog :: args);
      SynchronizedMain.main fuel length word contents (prog :: args) ] /\
  Forall (gives_back (W:=W) nothing)
    [ SimpleMain.main fuel length word contents (prog :: args);
      SocketpairMain.main fuel length word contents (prog :: args);
      ShmServer.main fuel; ShmClient.main contents (prog :: args) ].
Proof.
  split; repeat apply Forall_cons_2; try apply Forall_nil_2; apply balances_gives_back;
    lazymatch goal with |- balances _ _ _ ?m => let m' := eval red in m in change m with m' end;
    repeat ipc_step.
Qed.

(** The server reports the failure of every call it looks at. *)
Lemma shm_server_reports {W} `{Kernel W} fuel :
  reports (failing ["sysconf"; "shm_open"; "mmap"; "sem_open"] [] []) (ShmServer.main fuel : C W Z).
Proof. repeat reports_step. Qed.

(** The child of pipe/reliable sends "hi" and returns: the file is opened, the pipe is
    3 and 4, the semaphores are 8 and 9, [fork] returns 0. *)
Definition child_run : outcome Z * cstate playback :=
  ReliableMain.main 1 (replicate 255 NUL) ["h"; "i"]%char ["p"; "f"]
    (start (Playback (sys_ok 7 :: sys_data 0 ["003"; NUL; NUL; NUL; "004"; NUL; NUL; NUL]%char ::
       (sys_ok <$> [8; 9; 0; 0; 1; 2; 0; 0; 1; 0; 0; 0; 0; 0; 0])))).

Example child_returns :
  fst child_run = Val EXIT_SUCCESS /\ written 4 (trace (snd child_run)) = encode [["h"; "i"]%char] /\
  shut (trace (snd child_run)) = [Descriptor 3; Made "fopen" 7; Descriptor 4].
Proof. by vm_compute. Qed.
