(* ===== verification/ShmRefinement.v ===== *)
(** * The programs of shared-memory/mmap-munmap keep to their protocol

    [ShmProtocol] is a transition system, [ShmServer] and [ShmClient] of
    [IpcPrograms] are the functions of server.c and client.c.  Here the functions run
    inside the system: a kernel whose calls first let the other process take any steps
    of the protocol and then act on the mapping and the semaphores.  Neither program
    looks at what [sem_wait] returns; a wait returns when the other process can still
    post, and that it can, whenever one of the loops waits, is part of the theorems. *)

From S2P Require Import Prelude CMonad CString Words PipeIO ShmProtocol LineWords Reports IpcPrograms.

(** ** The server beside a client *)

(** The protocol's state without the server. *)
Record client_side := ClientSide {
  k_todo : list (list byte);
  k_pc : client_pc;
  k_shm : list byte;
  k_csem : nat;
  k_ssem : nat;
}.

Definition with_server (q : server_pc) (g : list (list byte)) (b : client_side) : shm_state :=
  ShmState (k_todo b) (k_pc b) (k_shm b) (k_csem b) (k_ssem b) q g.

(** The client moves from [b] to [b'], wherever the server is. *)
Definition client_moves (b b' : client_side) : Prop :=
  forall q g, run shm_step (with_server q g b) (with_server q g b').

Definition client_can_post (b : client_side) : Prop :=
  exists b', client_moves b b' /\ (0 < k_csem b')%nat.

(** A kernel for the server whose partner is a client that keeps to the protocol.  The
    mapping is at [shm_ptr]; a wait returns with a token if there can be one. *)
Class BesideClient (W : Type) `{Kernel W} (shm_ptr csem ssem : Z) := {
  sharing : W -> client_side;
  sharing_wait : forall w r w', client_can_post (sharing w) ->
    kcall (SCall "sem_wait" [] [csem]) w = (r, w') ->
    exists b k, client_moves (sharing w) b /\ k_csem b = S k /\
      sharing w' = ClientSide (k_todo b) (k_pc b) (k_shm b) k (k_ssem b);
  sharing_load : forall w r w', kcall (SCall "load" [] [shm_ptr]) w = (r, w') ->
    client_moves (sharing w) (sharing w') /\ r_data r = k_shm (sharing w');
  sharing_post : forall w r w', kcall (SCall "sem_post" [] [ssem]) w = (r, w') ->
    exists b, client_moves (sharing w) b /\
      sharing w' = ClientSide (k_todo b) (k_pc b) (k_shm b) (k_csem b) (S (k_ssem b));
}.

(** ** The client beside a server *)

(** The protocol's state without the client. *)
Record server_side := ServerSide {
  v_shm : list byte;
  v_csem : nat;
  v_ssem : nat;
  v_pc : server_pc;
  v_printed : list (list byte);
}.

Definition with_client (t : list (list byte)) (c : client_pc) (a : server_side) : shm_state :=
  ShmState t c (v_shm a) (v_csem a) (v_ssem a) (v_pc a) (v_printed a).

Definition server_moves (a a' : server_side) : Prop :=
  forall t c, run shm_step (with_client t c a) (with_client t c a').

Definition server_can_post (a : server_side) : Prop :=
  exists a', server_moves a a' /\ (0 < v_ssem a')%nat.

(** [d] stored at the offset [off]. *)
Definition put (off : nat) (d m : list byte) : list byte :=
  take off m ++ d ++ drop (off + length d) m.

(** A kernel for the client whose partner is a server that keeps to the protocol. *)
Class BesideServer (W : Type) `{Kernel W} (shm_ptr csem ssem : Z) := {
  serving : W -> server_side;
  serving_store : forall w off d r w', (off + length d <= length (v_shm (serving w)))%nat ->
    kcall (SCall "store" [of_chars d] [shm_ptr + Z.of_nat off]) w = (r, w') ->
    exists a, server_moves (serving w) a /\
      serving w' = ServerSide (put off d (v_shm a)) (v_csem a) (v_ssem a) (v_pc a) (v_printed a);
  serving_post : forall w r w', kcall (SCall "sem_post" [] [csem]) w = (r, w') ->
    exists a, server_moves (serving w) a /\
      serving w' = ServerSide (v_shm a) (S (v_csem a)) (v_ssem a) (v_pc a) (v_printed a);
  serving_wait : forall w r w', server_can_post (serving w) ->
    kcall (SCall "sem_wait" [] [ssem]) w = (r, w') ->
    exists a k, server_moves (serving w) a /\ v_ssem a = S k /\
      serving w' = ServerSide (v_shm a) (v_csem a) k (v_pc a) (v_printed a);
}.

(** ** What both need *)

(** From its start on a word, the client posts. *)
Lemma start_posts w t mm cs ss :
  client_can_post (ClientSide (w :: t) (client_start (w :: t)) mm cs ss).
Proof.
  destruct w as [|x w].
  - exists (ClientSide ([] :: t) KWait (<[0%nat:=NUL]> mm) (S cs) ss). split; [|simpl; lia].
    intros q g. eapply run_step; [apply client_term|]. apply run_one, client_post.
  - eexists (ClientSide _ KWait _ (S cs) ss). split; [|simpl; lia].
    intros q g. eapply run_step; [apply client_copy|]. eapply run_step; [apply client_term|].
    apply run_one, client_post.
Qed.

Lemma can_post_after b b' : client_moves b b' -> client_can_post b' -> client_can_post b.
Proof.
  intros Hb (b2 & Hb2 & Hp). exists b2. split; [|done]. intros q g. eapply run_trans; [apply Hb|apply Hb2].
Qed.

(** One step nearer to the server's post. *)
Lemma server_step_posts a a' :
  (forall t c, shm_step (with_client t c a) (with_client t c a')) ->
  server_can_post a' -> server_can_post a.
Proof.
  intros Ha (a2 & Ha2 & Hp). exists a2. split; [|done]. intros t c.
  eapply run_step; [apply Ha|apply Ha2].
Qed.

(** A word in the mapping and one of the two tokens or none, inside its turn. *)
Lemma server_turn_posts q mm cs ss o : cstring mm <> [] ->
  match q with SCheck | SPrint | SPost => True | SWait => (0 < cs + ss)%nat | _ => False end ->
  server_can_post (ServerSide mm cs ss q o).
Proof.
  intros Hc Hq.
  assert (forall cs ss o, server_can_post (ServerSide mm cs ss SPost o)) as Hpost.
  { intros cs' ss' o'. eexists (ServerSide mm cs' (S ss') SWait o'). split; [|simpl; lia].
    intros ? ?. apply run_one, server_post. }
  assert (forall cs ss o, server_can_post (ServerSide mm cs ss SPrint o)) as Hprint.
  { intros cs' ss' o'. apply (server_step_posts _ (ServerSide mm cs' ss' SPost (o' ++ [cstring mm])));
    [|apply Hpost]. intros ??. apply server_print. }
  assert (forall cs ss o, server_can_post (ServerSide mm cs ss SCheck o)) as Hcheck.
  { intros cs' ss' o'. apply (server_step_posts _ (ServerSide mm cs' ss' SPrint o')); [|apply Hprint].
    intros t c.
    pose proof (server_check t c mm cs' ss' o') as Hs. rewrite decide_False in Hs by done. exact Hs. }
  destruct q; try done. destruct ss as [|ss].
  - destruct cs as [|cs]; [simpl in Hq; lia|].
    apply (server_step_posts _ (ServerSide mm cs 0 SCheck o)); [|apply Hcheck].
    intros ??. apply server_wait.
  - eexists. split; [intros ??; apply run_refl|simpl; lia].
Qed.

Section Conversation.
Context (ws : list (list byte)) (m : list byte).
Context (Hws : Forall (fun w => (w <> []) /\ (NUL ∉ w) /\ (length w < length m)%nat) ws).
Context (Hm : (0 < length m)%nat).

Definition reached (s : shm_state) : Prop := run shm_step (shm_initial m ws) s.

Lemma reached_inv s : reached s -> shm_inv ws (length m) s.
Proof using Hws Hm. by apply shm_reachable. Qed.

(** While the server's loop waits, the client can post. *)
Lemma client_will_post g b : reached (with_server SWait g b) -> client_can_post b.
Proof using Hws Hm.
  intros [_ Hi]%reached_inv. destruct b as [t c mm cs ss]. cbn in Hi. destruct c.
  - destruct Hi as (j & w & -> & Hj & Hne & _). rewrite (drop_S _ w j Hj).
    destruct w as [|x w]; [done|]. apply (start_posts (x :: w)).
  - destruct Hi as (j & w & -> & Hj & _). rewrite (drop_S _ w j Hj).
    eexists (ClientSide _ KWait _ (S cs) ss). split; [|simpl; lia].
    intros q o. eapply run_step; [apply client_term|]. apply run_one, client_post.
  - eexists (ClientSide _ KWait _ (S cs) ss). split; [|simpl; lia].
    intros q o. apply run_one, client_post.
  - destruct Hi as (j & w & -> & Hj & _ & [(-> & _)|(-> & -> & _ & Hlt)]).
    { eexists. split; [intros q o; apply run_refl|simpl; lia]. }
    rewrite (drop_S _ w j Hj).
    apply (can_post_after _ (ClientSide (drop (S j) (ws ++ [[]]))
      (client_start (drop (S j) (ws ++ [[]]))) mm 0 0)).
    { intros q o. apply run_one, client_wait. }
    destruct (drop (S j) (ws ++ [[]])) as [|v t] eqn:E; [|apply start_posts].
    apply (f_equal length) in E. rewrite length_drop, length_app in E. simpl in E. lia.
  - by destruct Hi as (_ & ? & _).
Qed.

(** While the client waits after a word, the server can post. *)
Lemma server_will_post w t a :
  w <> [] -> reached (with_client (w :: t) KWait a) -> server_can_post a.
Proof using Hws Hm.
  intros Hne [_ Hi]%reached_inv. destruct a as [mm cs ss q o]. cbn in Hi.
  destruct Hi as (j & w' & Et & Hj & Hc & Hq).
  assert (w' = w) as -> by by eapply to_send_head.
  destruct (words_lookup _ _ Hws Hm j w Hj) as [(_ & _ & _ & _ & Hlt)|[? _]]; [|done].
  apply server_turn_posts; [by rewrite Hc|].
  destruct q; simpl in Hq; destruct_and?; try lia; try done.
Qed.

(** ** The server's code *)

Section ServerCode.
Context {W} `{Kernel W} (shm_ptr csem ssem : Z) `{!BesideClient W shm_ptr csem ssem}.
Implicit Types s : cstate W.

(** The server at [q] with the words [g] and the world around it make a state of the
    protocol, and [told] is what it has printed. *)
Definition server_at (q : server_pc) (g : list (list byte)) (told : string) s : Prop :=
  reached (with_server q g (sharing (world s))) /\ stdout_of (trace s) = told.

(** A call: its effect, after moves of the client. *)
Lemma wp_server_call {A} c (f : sysret -> C W A) Q E q g q' g' told s :
  server_at q g told s ->
  (forall r w, kcall c (world s) = (r, w) ->
     reached (with_server q' g' (sharing w)) /\
     (forall s', server_at q' g' told s' -> world s' = w -> wp (f r) Q E s')) ->
  wp (sys c ≫= f) Q E s.
Proof using Type.
  intros [Hr Ht] Hc. apply wp_bind, wp_sys. intros r w e Ek. destruct (Hc r w Ek) as [Hr' Hf].
  apply Hf; [|done]. split; [done|]. cbn [trace]. rewrite stdout_of_app, Ht. apply string_app_nil_r.
Qed.

Lemma reached_moves q g b b' :
  reached (with_server q g b) -> client_moves b b' -> reached (with_server q g b').
Proof using Type. intros Hr Hb. eapply run_trans; [exact Hr|apply Hb]. Qed.

Lemma server_out q g told text s :
  server_at q g told s ->
  server_at q g (told +:+ text) (CState (errno s) (trace s ++ [EOut text]) (world s)).
Proof using Type.
  intros [Hr <-]. split; [done|]. cbn [trace]. rewrite stdout_of_app. simpl. by rewrite string_app_nil_r.
Qed.

(** [sem_wait(client_sem)] at the top of the loop. *)
Lemma server_wait_at {A} (f : sysret -> C W A) Q E g told s :
  server_at SWait g told s ->
  (forall r s', server_at SCheck g told s' -> wp (f r) Q E s') ->
  wp (call "sem_wait" [] [csem] ≫= f) Q E s.
Proof using Hws Hm.
  intros Hs Hf. eapply wp_server_call; [exact Hs|]. intros r w Ek. destruct Hs as [Hr Ht].
  destruct (sharing_wait _ _ _ (client_will_post g _ Hr) Ek) as (b & k & Hb & Hk & Hw).
  split; [|intros; by apply Hf]. rewrite Hw. eapply run_snoc; [by eapply reached_moves|].
  unfold with_server. cbn. rewrite Hk. apply server_wait.
Qed.

(** [strcmp(shm_ptr, "")] and [printf("%s\n", shm_ptr)] read the mapping. *)
Lemma server_load_at {A} (f : string -> C W A) Q E q g told s :
  server_at q g told s ->
  (forall s', server_at q g told s' ->
     wp (f (of_chars (cstring (k_shm (sharing (world s')))))) Q E s') ->
  wp (load_string shm_ptr ≫= f) Q E s.
Proof using Type.
  intros Hs Hf. unfold load_string. apply wp_bind. eapply wp_server_call; [exact Hs|].
  intros r w Ek. destruct (sharing_load _ _ _ Ek) as [Hb Hd]. split.
  - eapply reached_moves; [apply Hs|exact Hb].
  - intros s' Hs' <-. apply wp_ret. rewrite Hd. by apply Hf.
Qed.

(** [sem_post(server_sem)], after a word and at the end. *)
Lemma server_post_at {A} (f : sysret -> C W A) Q E (last : bool) g told s :
  server_at (if last then SEndPost else SPost) g told s ->
  (forall r s', server_at (if last then SEndWait else SWait) g told s' -> wp (f r) Q E s') ->
  wp (call "sem_post" [] [ssem] ≫= f) Q E s.
Proof using Type.
  intros Hs Hf. eapply wp_server_call; [exact Hs|]. intros r w Ek. destruct Hs as [Hr Ht].
  destruct (sharing_post _ _ _ Ek) as (b & Hb & Hw). split; [|intros; by apply Hf].
  rewrite Hw. eapply run_snoc; [by eapply reached_moves|].
  destruct last; [apply server_end_post|apply server_post].
Qed.

Definition turn_text (w : list byte) : string :=
  ln "Waiting for client_sem" +:+ ln (of_chars w) +:+ ln "Posting to server_sem".
Definition server_text (g : list (list byte)) : string :=
  fold_right (fun w t => turn_text w +:+ t) "" g.

Lemma strcmp_empty mm : (strcmp (of_chars (cstring mm)) "" =? 0) = bool_decide (cstring mm = []).
Proof using Type. clear Hws Hm.
  pose proof (cstring_no_nul mm) as Hn. destruct (cstring mm) as [|c l]; [done|].
  rewrite bool_decide_eq_false_2 by done. unfold strcmp. simpl. apply Z.eqb_neq.
  intros Hc. apply Hn. rewrite <- (byte_of_val c), Hc. by left.
Qed.

Definition turned (g : list (list byte)) (told : string) (r : unit + unit) s : Prop :=
  match r with
  | inl _ => exists w, server_at SWait (g ++ [w]) (told +:+ turn_text w) s
  | inr _ => g = ws /\ server_at SEndWait ws (told +:+ ln "Waiting for client_sem") s
  end.

Lemma server_turn_at x g told s :
  shm_ptr <> 0 -> server_at SWait g told s ->
  wp (ShmServer.server_turn shm_ptr csem ssem x) (turned g told) (fun _ _ => False) s.
Proof using Hws Hm.
  intros Hp Hs. unfold ShmServer.server_turn. apply wp_bind, wp_emit.
  eapply server_wait_at; [apply (server_out _ _ _ _ _ Hs)|]. intros _ s1 Hs1.
  rewrite (proj2 (Z.eqb_neq _ _)) by done.
  eapply server_load_at; [exact Hs1|]. intros s2 [Hr2 Ht2]. rewrite strcmp_empty.
  assert (reached (with_server (if decide (cstring (k_shm (sharing (world s2))) = [])
    then SEndPost else SPrint) g (sharing (world s2)))) as Hr by (eapply run_snoc; [exact Hr2|apply server_check]).
  destruct (bool_decide_reflect (cstring (k_shm (sharing (world s2))) = [])) as [Ec|Ec].
  - rewrite decide_True in Hr by done.
    apply (server_post_at _ _ _ true g (told +:+ ln "Waiting for client_sem")); [by split|].
    intros _ s3 Hs3. apply wp_ret. assert (g = ws) as ->; [|by split].
    destruct Hs3 as [Hr3 _]. by apply (inv_printed_all _ _ _ (reached_inv _ Hr3)).
  - rewrite decide_False in Hr by done.
    eapply server_load_at; [by split|]. intros s3 Hs3. apply wp_bind, wp_emit.
    apply wp_bind, wp_emit.
    set (w := cstring (k_shm (sharing (world s3)))).
    apply (server_post_at _ _ _ false (g ++ [w]) (told +:+ turn_text w)).
    + destruct Hs3 as [Hr3 Ht3]. split; [eapply run_snoc; [exact Hr3|apply server_print]|].
      cbn [trace]. rewrite !stdout_of_app, Ht3. unfold turn_text. cbn [stdout_of].
      by rewrite !string_app_nil_r, !string_app_assoc.
    + intros _ s4 Hs4. apply wp_ret. by exists w.
Qed.

Lemma server_text_snoc g w : server_text (g ++ [w]) = server_text g +:+ turn_text w.
Proof using Type. clear Hws Hm.
  induction g as [|v g IH]; cbn [app server_text fold_right]; [by rewrite string_app_nil_r|].
  fold (server_text (g ++ [w])). by rewrite IH, string_app_assoc.
Qed.

Lemma server_loop_at fuel x g told s :
  (length ws < fuel + length g)%nat -> shm_ptr <> 0 -> server_at SWait g (told +:+ server_text g) s ->
  wp (loop fuel (ShmServer.server_turn shm_ptr csem ssem) x)
    (fun _ => server_at SEndWait ws (told +:+ server_text ws +:+ ln "Waiting for client_sem"))
    (fun _ _ => False) s.
Proof using Hws Hm.
  intros Hf Hp. revert x g s Hf. induction fuel as [|fuel IH]; intros x g s Hf Hs.
  { destruct Hs as [Hr _]. apply reached_inv, inv_printed, prefix_length in Hr. simpl in *. lia. }
  cbn [loop]. apply wp_bind. eapply wp_mono; [by apply server_turn_at| |done].
  intros [x'|[]] s1; cbn [turned].
  - intros [w Hs1]. apply (IH x' (g ++ [w])); [rewrite length_app; simpl; lia|].
    by rewrite server_text_snoc, string_app_assoc.
  - intros [-> Hs1]. apply wp_ret. by rewrite string_app_assoc.
Qed.
End ServerCode.

(** ** The client's code *)

Section ClientCode.
Context {W} `{Kernel W} (shm_ptr csem ssem : Z) `{!BesideServer W shm_ptr csem ssem}.
Implicit Types s : cstate W.

Definition client_at (t : list (list byte)) (c : client_pc) s : Prop :=
  reached (with_client t c (serving (world s))).

Definition never (code : Z) s : Prop := False.

Lemma wp_client_call {A} c (f : sysret -> C W A) Q E t' c' s :
  (forall r w, kcall c (world s) = (r, w) -> reached (with_client t' c' (serving w))) ->
  (forall r s', client_at t' c' s' -> wp (f r) Q E s') ->
  wp (sys c ≫= f) Q E s.
Proof using Type.
  intros Hc Hf. apply wp_bind, wp_sys. intros r w e Ek. apply Hf. by apply (Hc r w).
Qed.

Lemma reached_served t c a a' :
  reached (with_client t c a) -> server_moves a a' -> reached (with_client t c a').
Proof using Type. intros Hr Ha. eapply run_trans; [exact Hr|apply Ha]. Qed.

Lemma client_memory t c s : client_at t c s -> length (v_shm (serving (world s))) = length m.
Proof using Hws Hm. by intros [Hl _]%reached_inv. Qed.

(** A store into the mapping: one step of the protocol. *)
Lemma client_store_at {A} (f : unit -> C W A) Q E off address d t c c' s :
  address = shm_ptr + Z.of_nat off -> (off + length d <= length m)%nat ->
  client_at t c s ->
  (forall a, length (v_shm a) = length m -> shm_step (with_client t c a)
     (with_client t c' (ServerSide (put off d (v_shm a)) (v_csem a) (v_ssem a) (v_pc a) (v_printed a)))) ->
  (forall s', client_at t c' s' -> wp (f tt) Q E s') ->
  wp (store address d ≫= f) Q E s.
Proof using Hws Hm.
  intros -> Hl Hs Hstep Hf. unfold store. apply wp_bind.
  apply (wp_client_call _ _ _ _ t c'); [|intros r s' Hs'; by apply wp_ret, Hf].
  intros r w Ek. rewrite <- (client_memory _ _ _ Hs) in Hl.
  destruct (serving_store _ _ _ _ _ Hl Ek) as (a & Ha & ->).
  pose proof (reached_served _ _ _ _ Hs Ha) as Hr.
  eapply run_snoc; [exact Hr|]. apply Hstep. apply (reached_inv _ Hr).
Qed.

Lemma client_post_at {A} (f : sysret -> C W A) Q E t s :
  client_at t KPost s -> (forall r s', client_at t KWait s' -> wp (f r) Q E s') ->
  wp (call "sem_post" [] [csem] ≫= f) Q E s.
Proof using Type.
  intros Hs. apply wp_client_call. intros r w Ek.
  destruct (serving_post _ _ _ Ek) as (a & Ha & ->).
  eapply run_snoc; [by eapply reached_served|]. apply client_post.
Qed.

Lemma client_wait_at {A} (f : sysret -> C W A) Q E v t s :
  v <> [] -> client_at (v :: t) KWait s ->
  (forall r s', client_at t (client_start t) s' -> wp (f r) Q E s') ->
  wp (call "sem_wait" [] [ssem] ≫= f) Q E s.
Proof using Hws Hm.
  intros Hv Hs. apply wp_client_call. intros r w Ek.
  destruct (serving_wait _ _ _ (server_will_post v t _ Hv Hs) Ek) as (a & k & Ha & Hk & ->).
  eapply run_snoc; [by eapply reached_served|]. unfold with_client. cbn. rewrite Hk.
  apply client_wait.
Qed.

Lemma put_word d mm : put 0 d mm = overwrite d mm.
Proof using Type. done. Qed.

Lemma put_nul i mm : (i < length mm)%nat -> put i [NUL] mm = <[i := NUL]> mm.
Proof using Type.
  clear Hws Hm. intros Hi. rewrite insert_take_drop by done. unfold put. simpl. by rewrite Nat.add_1_r.
Qed.

(** [shm_ptr[i] = '\0'] *)
Lemma client_term_at {A} (f : unit -> C W A) Q E v t s :
  (length v < length m)%nat -> client_at (v :: t) KTerm s ->
  (forall s', client_at (v :: t) KPost s' -> wp (f tt) Q E s') ->
  wp (store (shm_ptr + Z.of_nat (length v)) [NUL] ≫= f) Q E s.
Proof using Hws Hm.
  intros Hv Hs. eapply (client_store_at _ _ _ (length v)); [done|simpl; lia|exact Hs|].
  intros a Ha. rewrite put_nul by lia. apply client_term.
Qed.

(** The body of the loop: the protocol's steps for one word. *)
Lemma send_word_at w t s :
  w <> [] -> (length w < ShmClient.BUFFER_LEN)%nat -> (length w < length m)%nat ->
  client_at (w :: t) (client_start (w :: t)) s ->
  wp (ShmClient.send_word shm_ptr csem ssem (of_chars w))
    (fun _ => client_at t (client_start t)) never s.
Proof using Hws Hm.
  intros Hne Hb Hl Hs. unfold ShmClient.send_word.
  rewrite <- length_chars, chars_of_chars.
  rewrite (proj2 (Z.leb_gt _ _)) by (unfold ShmSize.SHM_SIZE, ShmClient.BUFFER_LEN in *; lia).
  eapply (client_store_at _ _ _ 0 _ w (w :: t) KCopy KTerm); [by rewrite Z.add_0_r|lia| |..].
  { destruct w; [done|exact Hs]. }
  { intros a _. rewrite put_word. apply client_copy. }
  intros s1 Hs1. eapply client_term_at; [done|exact Hs1|]. intros s2 Hs2.
  eapply client_post_at; [exact Hs2|]. intros _ s3 Hs3.
  eapply client_wait_at; [done|exact Hs3|]. intros _ s4 Hs4. by apply wp_ret.
Qed.

Lemma send_words_at l t s : t <> [] ->
  Forall (fun w => (w <> []) /\ (NUL ∉ w) /\ (length w < ShmClient.BUFFER_LEN)%nat) l ->
  (ShmClient.BUFFER_LEN <= length m)%nat ->
  client_at (l ++ t) (client_start (l ++ t)) s ->
  wp (for_each l (fun w => ShmClient.send_word shm_ptr csem ssem (of_chars w)))
    (fun _ => client_at t (client_start t)) never s.
Proof using Hws Hm.
  intros Ht Hl Hb. revert s. induction Hl as [|w l (Hne & _ & Hw) _ IH]; intros s Hs; cbn [for_each].
  - by apply wp_ret.
  - apply wp_bind. eapply wp_mono; [by apply send_word_at; [..|lia|exact Hs]| |done].
    intros [] s1 Hs1. by apply IH.
Qed.

Lemma converse_at contents s :
  ws = handed_over ShmClient.BUFFER_LEN contents -> (ShmClient.BUFFER_LEN <= length m)%nat ->
  client_at (ws ++ [[]]) (client_start (ws ++ [[]])) s ->
  wp (ShmClient.converse shm_ptr csem ssem contents) (fun _ => client_at [[]] KWait) never s.
Proof using Hws Hm.
  intros Ew Hb Hs. unfold ShmClient.converse. apply wp_bind.
  unfold wp at 1. rewrite file_words_handed by (unfold ShmClient.BUFFER_LEN; lia). rewrite <- Ew.
  eapply wp_mono; [apply (send_words_at ws [[]]); [done| |done|exact Hs]| |done].
  - rewrite Ew. apply handed_over_strings. unfold ShmClient.BUFFER_LEN. lia.
  - intros [] s1 Hs1. replace shm_ptr with (shm_ptr + Z.of_nat (length (@nil byte))) at 1 by (simpl; lia).
    eapply client_term_at; [simpl; lia|exact Hs1|]. intros s2 Hs2.
    eapply client_post_at; [exact Hs2|]. intros _ s3 Hs3. by apply wp_ret.
Qed.

(** When the client waits for the last time, all its words have been printed. *)
Lemma client_waits_last a : reached (with_client [[]] KWait a) -> v_printed a = ws.
Proof using Hws Hm.
  intros [_ Hi]%reached_inv. destruct a as [mm cs ss q o]. cbn in Hi.
  destruct Hi as (j & w & Et & Hj & _ & Hq).
  assert (j = length ws) as ->.
  { apply (f_equal length) in Et. rewrite length_drop, length_app in Et. simpl in Et. lia. }
  destruct q; simpl in Hq; rewrite ?firstn_all in Hq; destruct_and?; try done; try lia.
  destruct Hq as [?|?]; destruct_and?; [done|lia].
Qed.
End ClientCode.
End Conversation.

(** ** Properties *)

(** C9: the server of the shared memory implements the protocol's server.  Beside any
    client that keeps to the protocol, however the two are interleaved, the loop takes
    the steps of the protocol only, never waits for a token that cannot come, and ends
    where the protocol has the server wait once more, having printed every word of the
    client. *)
Theorem shm_server_keeps_protocol {W} `{Kernel W} (shm_ptr csem ssem : Z)
    `{!BesideClient W shm_ptr csem ssem} (ws : list (list byte)) (m : list byte) (fuel : nat) (w : W) :
  Forall (fun w => (w <> []) /\ (NUL ∉ w) /\ (length w < length m)%nat) ws ->
  (0 < length m)%nat -> shm_ptr <> 0 -> (length ws < fuel)%nat ->
  sharing w = ClientSide (ws ++ [[]]) (client_start (ws ++ [[]])) m 0 0 ->
  wp (loop fuel (ShmServer.server_turn shm_ptr csem ssem) tt)
    (fun _ s => run shm_step (shm_initial m ws) (with_server SEndWait ws (sharing (world s))) /\
       stdout_of (trace s) = server_text ws +:+ ln "Waiting for client_sem")
    (fun _ _ => False) (start w).
Proof.
  intros Hws Hm Hp Hf Hw.
  apply (server_loop_at ws m Hws Hm shm_ptr csem ssem fuel tt [] ""); [simpl; lia|exact Hp|].
  split; [|done]. unfold reached. simpl. rewrite Hw. apply run_refl.
Qed.

(** C10: the client of the shared memory implements the protocol's client.  Beside any
    server that keeps to the protocol, whatever is in the file, the loop over the words
    and the empty string after it take the steps of the protocol only, store nothing
    outside the mapping, never wait for a token that cannot come, and end before the
    last wait; by then the server has printed what [strtok_r] found in the file. *)
Theorem shm_client_keeps_protocol {W} `{Kernel W} (shm_ptr csem ssem : Z)
    `{!BesideServer W shm_ptr csem ssem} (contents m : list byte) (w : W) :
  let ws := handed_over ShmClient.BUFFER_LEN contents in
  (ShmClient.BUFFER_LEN <= length m)%nat -> serving w = ServerSide m 0 0 SWait [] ->
  wp (ShmClient.converse shm_ptr csem ssem contents)
    (fun _ s => run shm_step (shm_initial m ws) (with_client [[]] KWait (serving (world s))) /\
       v_printed (serving (world s)) = ws)
    (fun _ _ => False) (start w).
Proof.
  intros ws Hm Hw.
  assert (Forall (fun w => (w <> []) /\ (NUL ∉ w) /\ (length w < length m)%nat) ws) as Hws.
  { eapply Forall_impl; [|apply (handed_over_strings ShmClient.BUFFER_LEN contents);
      unfold ShmClient.BUFFER_LEN; lia]. simpl. intros v (? & ? & ?). split_and!; [done..|lia]. }
  assert (0 < length m)%nat as Hm' by (unfold ShmClient.BUFFER_LEN in Hm; lia).
  eapply wp_mono; [apply (converse_at ws m Hws Hm' shm_ptr csem ssem contents); [done|done|]| |done].
  - unfold client_at, reached. simpl. rewrite Hw. apply run_refl.
  - intros ? s Hs. split; [exact Hs|]. by apply (client_waits_last ws m Hws Hm').
Qed.

(** *** Partners that do what they can before every call *)

Definition client_move (b : client_side) : client_side :=
  let '(ClientSide t c m cs ss) := b in
  match c, t with
  | KCopy, w :: _ => ClientSide t KTerm (overwrite w m) cs ss
  | KTerm, w :: _ => ClientSide t KPost (<[length w := NUL]> m) cs ss
  | KPost, _ => ClientSide t KWait m (S cs) ss
  | KWait, _ :: ws => match ss with S k => ClientSide ws (client_start ws) m cs k | O => b end
  | _, _ => b
  end.

Definition server_move (a : server_side) : server_side :=
  let '(ServerSide m cs ss q o) := a in
  match q with
  | SWait => match cs with S k => ServerSide m k ss SCheck o | O => a end
  | SCheck => ServerSide m cs ss (if decide (cstring m = []) then SEndPost else SPrint) o
  | SPrint => ServerSide m cs ss SPost (o ++ [cstring m])
  | SPost => ServerSide m cs (S ss) SWait o
  | SEndPost => ServerSide m cs (S ss) SEndWait o
  | SEndWait => match ss with S k => ServerSide m cs k SDone o | O => a end
  | SDone => a
  end.

(** At most [n] moves, until there is a token. *)
Fixpoint moved {A} (move : A -> A) (token : A -> nat) (n : nat) (a : A) : A :=
  match n with
  | O => a
  | S n => if (0 <? token a)%nat then a else moved move token n (move a)
  end.

Lemma client_move_moves b : client_moves b (client_move b).
Proof.
  intros q g. destruct b as [[|w t] [] m cs [|ss]]; simpl; try apply run_refl; apply run_one;
    first [apply client_copy|apply client_term|apply client_post|apply client_wait].
Qed.

Lemma server_move_moves a : server_moves a (server_move a).
Proof.
  intros t c. destruct a as [m [|cs] [|ss] [] o]; simpl; try apply run_refl; apply run_one;
    first [apply server_wait|apply server_check|apply server_print|apply server_post
          |apply server_end_post|apply server_end_wait].
Qed.

Lemma moved_client n b : client_moves b (moved client_move k_csem n b).
Proof.
  intros q g. revert b. induction n as [|n IH]; intros b; simpl; [apply run_refl|].
  destruct (0 <? k_csem b)%nat; [apply run_refl|].
  eapply run_trans; [apply client_move_moves|apply IH].
Qed.

Lemma moved_server n a : server_moves a (moved server_move v_ssem n a).
Proof.
  intros t c. revert a. induction n as [|n IH]; intros a; simpl; [apply run_refl|].
  destruct (0 <? v_ssem a)%nat; [apply run_refl|].
  eapply run_trans; [apply server_move_moves|apply IH].
Qed.

(** No other step is possible, so that a partner that can post has posted. *)
Lemma client_only b s : shm_step (with_server SDone [] b) s -> s = with_server SDone [] (client_move b).
Proof. destruct b as [t c m cs ss]. intros Hs. by inversion Hs. Qed.

Lemma server_only a s : shm_step (with_client [] KDone a) s -> s = with_client [] KDone (server_move a).
Proof. destruct a as [m cs ss q o]. intros Hs. by inversion Hs. Qed.

Lemma client_move_posts b :
  (0 < k_csem (moved client_move k_csem 5 (client_move b)))%nat ->
  (0 < k_csem (moved client_move k_csem 5 b))%nat.
Proof.
  destruct b as [[|[|x w] [|[|y v] t]] [] m [|cs] [|ss]]; simpl; lia.
Qed.

Lemma server_move_posts a :
  (0 < v_ssem (moved server_move v_ssem 5 (server_move a)))%nat ->
  (0 < v_ssem (moved server_move v_ssem 5 a))%nat.
Proof.
  destruct a as [m [|cs] [|ss] [] o]; simpl; try case_decide; simpl; try lia.
Qed.

Lemma client_posts b : client_can_post b -> (0 < k_csem (moved client_move k_csem 5 b))%nat.
Proof.
  intros (b' & Hb & Hp). specialize (Hb SDone []).
  assert (0 < k_csem (moved client_move k_csem 5 b'))%nat as Hp'.
  { cbn [moved]. by rewrite (proj2 (Nat.ltb_lt _ _)). }
  clear Hp. remember (with_server SDone [] b) as s eqn:Es. revert b Es.
  remember (with_server SDone [] b') as s' eqn:Es'.
  induction Hb as [s|s1 s2 s3 H12 _ IH]; intros b ->.
  - by destruct b, b'; simplify_eq/=.
  - apply client_only in H12 as ->. by apply client_move_posts, IH.
Qed.

Lemma server_posts a : server_can_post a -> (0 < v_ssem (moved server_move v_ssem 5 a))%nat.
Proof.
  intros (a' & Ha & Hp). specialize (Ha [] KDone).
  assert (0 < v_ssem (moved server_move v_ssem 5 a'))%nat as Hp'.
  { cbn [moved]. by rewrite (proj2 (Nat.ltb_lt _ _)). }
  clear Hp. remember (with_client [] KDone a) as s eqn:Es. revert a Es.
  remember (with_client [] KDone a') as s' eqn:Es'.
  induction Ha as [s|s1 s2 s3 H12 _ IH]; intros a ->.
  - by destruct a, a'; simplify_eq/=.
  - apply server_only in H12 as ->. by apply server_move_posts, IH.
Qed.

(** The worlds: the mapping is at 4096, the semaphores are 8 and 9. *)
Record busy_client := BusyClient { bk_side : client_side }.
#[export] Instance busy_client_kernel : Kernel busy_client := fun c w =>
  let b := moved client_move k_csem 5 (bk_side w) in
  let '(ClientSide t pc m cs ss) := b in
  match c with
  | SCall "sem_wait" _ _ => (sys_ok 0, BusyClient (ClientSide t pc m (pred cs) ss))
  | SCall "sem_post" _ _ => (sys_ok 0, BusyClient (ClientSide t pc m cs (S ss)))
  | SCall "load" _ _ => (sys_data 0 m, BusyClient b)
  | _ => (sys_ok 0, BusyClient b)
  end.

Record busy_server := BusyServer { bv_side : server_side }.
#[export] Instance busy_server_kernel : Kernel busy_server := fun c w =>
  let a := moved server_move v_ssem 5 (bv_side w) in
  let '(ServerSide m cs ss q o) := a in
  match c with
  | SCall "sem_wait" _ _ => (sys_ok 0, BusyServer (ServerSide m cs (pred ss) q o))
  | SCall "sem_post" _ _ => (sys_ok 0, BusyServer (ServerSide m (S cs) ss q o))
  | SCall "store" [d] [address] =>
      (sys_ok 0, BusyServer (ServerSide (put (Z.to_nat (address - 4096)) (chars d) m) cs ss q o))
  | _ => (sys_ok 0, BusyServer a)
  end.

#[export] Instance busy_beside_client csem ssem : BesideClient busy_client 4096 csem ssem.
Proof.
  split with (sharing := bk_side); intros *; unfold kcall, busy_client_kernel;
    pose proof (moved_client 5 (bk_side w)) as Hm.
  - intros Hp%client_posts.
    destruct (moved client_move k_csem 5 (bk_side w)) as [t pc m cs ss]. intros E.
    destruct cs as [|k]; [simpl in Hp; lia|]. injection E as <- <-.
    eexists _, k. split; [exact Hm|]. done.
  - destruct (moved client_move k_csem 5 (bk_side w)) as [t pc m cs ss]. intros E.
    injection E as <- <-. by split.
  - destruct (moved client_move k_csem 5 (bk_side w)) as [t pc m cs ss]. intros E.
    injection E as <- <-. eexists. split; [exact Hm|]. done.
Defined.

#[export] Instance busy_beside_server csem ssem : BesideServer busy_server 4096 csem ssem.
Proof.
  split with (serving := bv_side); intros *; unfold kcall, busy_server_kernel;
    pose proof (moved_server 5 (bv_side w)) as Hm.
  - intros Hl. destruct (moved server_move v_ssem 5 (bv_side w)) as [m cs ss q o]. intros E.
    injection E as <- <-. eexists. split; [exact Hm|]. cbn [bv_side v_shm v_csem v_ssem v_pc v_printed].
    rewrite chars_of_chars. do 2 f_equal. lia.
  - destruct (moved server_move v_ssem 5 (bv_side w)) as [m cs ss q o]. intros E.
    injection E as <- <-. eexists. split; [exact Hm|]. done.
  - intros Hp%server_posts.
    destruct (moved server_move v_ssem 5 (bv_side w)) as [m cs ss q o]. intros E.
    destruct ss as [|k]; [simpl in Hp; lia|]. injection E as <- <-.
    eexists _, k. split; [exact Hm|]. done.
Defined.

Definition client_waiting : busy_client :=
  BusyClient (ClientSide (shm_words ++ [[]]) (client_start (shm_words ++ [[]])) (replicate 64 NUL) 0 0).
Definition server_run : outcome unit * cstate busy_client :=
  loop 3 (ShmServer.server_turn 4096 8 9) tt (start client_waiting).

Lemma shm_server_keeps_protocol_witness :
  stdout_of (trace (snd server_run)) = server_text shm_words +:+ ln "Waiting for client_sem" /\
  k_pc (bk_side (world (snd server_run))) = KWait.
Proof.
  assert (loop 3 (ShmServer.server_turn 4096 8 9) tt (start client_waiting) =
    (Val tt, snd server_run)) as Hrun by (vm_compute; reflexivity).
  split; [|by vm_compute].
  refine (proj2 (wp_run _ _ _ _ _ _ (shm_server_keeps_protocol 4096 8 9 shm_words
    (replicate 64 NUL) 3 client_waiting _ _ _ _ eq_refl) Hrun));
    [apply shm_words_fit; simpl; lia|simpl; lia|done|simpl; lia].
Defined.

Definition server_waiting : busy_server :=
  BusyServer (ServerSide (replicate 128 NUL) 0 0 SWait []).
Definition client_text : list byte := chars ("a word" +:+ nl +:+ "more" +:+ nl).
Definition client_run : outcome unit * cstate busy_server :=
  ShmClient.converse 4096 8 9 client_text (start server_waiting).

Lemma shm_client_keeps_protocol_witness :
  v_printed (bv_side (world (snd client_run))) = [chars "a"; chars "word"; chars "more"].
Proof.
  assert (ShmClient.converse 4096 8 9 client_text (start server_waiting) =
    (Val tt, snd client_run)) as Hrun by (vm_compute; reflexivity).
  refine (proj2 (wp_run _ _ _ _ _ _ (shm_client_keeps_protocol 4096 8 9 client_text
    (replicate 128 NUL) server_waiting _ eq_refl) Hrun)).
  unfold ShmClient.BUFFER_LEN. simpl. lia.
Defined.
