(* ===== verification/ThreadMains.v ===== *)
(** * [main] of the programs with threads and with a semaphore

    src/pthread-mutex, src/pthread-condition/pthread_cond_init-pthread_cond_destroy and
    pthread_cond_wait-pthread_cond_signal, src/semaphores/sem_post-sem_wait and
    sem_trywait: what [main] calls and how it answers failures.  What the threads and
    the two processes do to each other is in [Mutex], [TryLock], [CondVar] and
    [Semaphores]; here [pthread_create] and [fork] are calls with a result. *)

From S2P Require Import Prelude CMonad CString Getopt ArgParse OneOperand OptionPrograms.
From S2P Require Import LineWords Broadcast Mutex Reports Identity IpcPrograms.

(** ** Threads *)

Section Threads.
Context {W} `{Kernel W}.

(** [for(i = 0; i < n; i++) if(pthread_create(...) != 0) return EXIT_FAILURE;] *)
Fixpoint create_threads (n : nat) (go : C W Z) : C W Z :=
  match n with
  | O => go
  | S n =>
      r ← call "pthread_create" [] [];
      if negb (r_val r =? 0) then eout (ln "Error: Thread creation failed.");; mret EXIT_FAILURE
      else create_threads n go
  end.

(** [for(i = 0; i < n; i++) pthread_join(threads[i], NULL);] *)
Fixpoint join_threads (n : nat) : C W unit :=
  match n with
  | O => mret tt
  | S n => call "pthread_join" [] [];; join_threads n
  end.
End Threads.

(** [src/pthread-mutex/pthread_mutex_init-pthread_mutex_destroy/main.c] *)
Module MutexInit.
Definition main {W} `{Kernel W} : C W Z :=
  r ← call "pthread_mutex_init" [] [];
  if negb (r_val r =? 0) then eout (ln "Error: Mutex initialization failed.");; mret EXIT_FAILURE else
  out (ln "mutex created");;
  call "pthread_mutex_destroy" [] [];;
  out (ln "mutex destroyed");;
  mret EXIT_SUCCESS.
End MutexInit.

(** [src/pthread-condition/pthread_cond_init-pthread_cond_destroy/main.c] *)
Module CondInit.
Definition main {W} `{Kernel W} : C W Z :=
  init_result ← call "pthread_cond_init" [] [];
  if negb (r_val init_result =? 0) then
    eout (ln ("Error initializing condition variable. Error code: " +:+ fmt_d (r_val init_result)));;
    mret EXIT_FAILURE
  else
  out (ln "condition created");;
  destroy_result ← call "pthread_cond_destroy" [] [];
  if negb (r_val destroy_result =? 0) then
    eout (ln ("Error destroying condition variable. Error code: " +:+ fmt_d (r_val destroy_result)));;
    mret EXIT_FAILURE
  else
  out (ln "condition destroyed");;
  mret EXIT_SUCCESS.
End CondInit.

(** [src/pthread-mutex/pthread_mutex_lock-pthread_mutex_unlock/main.c] *)
Module MutexMain.
Section Program.
Context {W} `{Kernel W}.

Definition run_threads (use_mutex : bool) : C W Z :=
  create_threads NUM_THREADS
    (join_threads NUM_THREADS;;
     (if use_mutex then call "pthread_mutex_destroy" [] [];; mret tt else mret tt);;
     mret EXIT_SUCCESS).

Definition body (use_mutex : bool) : C W Z :=
  if use_mutex then
    r ← call "pthread_mutex_init" [] [];
    if negb (r_val r =? 0) then eout (ln "Error: Mutex initialization failed.");; mret EXIT_FAILURE
    else run_threads use_mutex
  else run_threads use_mutex.

Definition main (argv : list string) : C W Z :=
  pthread_mutex_pthread_mutex_lock_pthread_mutex_unlock.start_up argv ≫= body.
End Program.
End MutexMain.

(** [src/pthread-mutex/pthread_mutex_trylock/main.c] *)
Module TrylockMain.
Definition main {W} `{Kernel W} : C W Z :=
  r ← call "pthread_mutex_init" [] [];
  if negb (r_val r =? 0) then eout (ln "Error: Mutex initialization failed.");; mret EXIT_FAILURE else
  create_threads NUM_THREADS
    (join_threads NUM_THREADS;;
     call "pthread_mutex_destroy" [] [];;
     mret EXIT_SUCCESS).
End TrylockMain.

(** [src/pthread-condition/pthread_cond_broadcast/main.c]: [main] leaves by
    [pthread_exit], and with it, the threads being joined, the process. *)
Module BroadcastMain.
Section Program.
Context {W} `{Kernel W}.

Fixpoint create_threads (n : nat) (go : C W Z) : C W Z :=
  match n with
  | O => go
  | S n =>
      rc ← call "pthread_create" [] [];
      if negb (r_val rc =? 0) then
        out (ln ("ERROR: Return code from pthread_create() is " +:+ fmt_d (r_val rc)));;
        exit_ EXIT_FAILURE
      else create_threads n go
  end.

(** The turn of the loop of [main] with [i]. *)
Definition update (i : Z) : C W unit :=
  call "pthread_mutex_lock" [] [];;
  call "store" ["shared_data"] [i + 1];;
  out (ln ("Main thread updating shared_data: " +:+ fmt_d (i + 1)));;
  call "pthread_cond_broadcast" [] [];;
  call "pthread_mutex_unlock" [] [];;
  mret tt.

Definition main : C W Z :=
  call "pthread_mutex_init" [] [];;
  call "pthread_cond_init" [] [];;
  call "store" ["shared_data"] [0];;
  create_threads Broadcast.NUM_THREADS
    (for_each (Z.of_nat <$> seq 0 Broadcast.ITERATIONS) update;;
     join_threads Broadcast.NUM_THREADS;;
     call "pthread_mutex_destroy" [] [];;
     call "pthread_cond_destroy" [] [];;
     exit_ EXIT_SUCCESS).
End Program.
End BroadcastMain.

(** [src/pthread-condition/pthread_cond_wait-pthread_cond_signal/main.c] *)
Module CondWaitMain.
Section Program.
Context {W} `{Kernel W}.

(** [if(call != 0) { perror(msg); exit(EXIT_FAILURE); }] *)
Definition must_be_zero (name msg : string) : C W unit :=
  r ← call name [] [];
  if negb (r_val r =? 0) then perror_exit msg else mret tt.

(** A member of [data], which both threads use; NULL is 0. *)
Definition load (member : string) : C W Z := r ← call "load" [member] []; mret (r_val r).
Definition store (member : string) (value : Z) : C W unit :=
  call "store" [member] [value];; mret tt.

(** [while(data->word_ready)] and [while(!data->word_ready)] of [pthread_cond_wait] *)
Definition wait_turn (while_ready : bool) (_ : unit) : C W (unit + unit) :=
  word_ready ← load "word_ready";
  if Bool.eqb (negb (word_ready =? 0)) while_ready then
    must_be_zero "pthread_cond_wait" "Error waiting for condition variable";;
    mret (inl tt)
  else mret (inr tt).

Definition send_word (fuel : nat) (word : cstr) : C W unit :=
  call "pthread_mutex_lock" [] [];;
  loop fuel (wait_turn true) tt;;
  shared_word ← load "shared_word";
  (if shared_word =? 0 then mret tt else call "free" [] [shared_word];; mret tt);;
  (match word with
   | None => store "shared_word" 0
   | Some word =>
       copy ← call "strdup" [word] [];
       if fails copy then perror_exit "Error duplicating word"
       else store "shared_word" (r_val copy)
   end);;
  store "word_ready" 1;;
  must_be_zero "pthread_cond_signal" "Error signaling condition variable";;
  call "pthread_mutex_unlock" [] [];;
  mret tt.

Definition MAX_WORD_LENGTH : nat := 255.

(** The child thread; [contents] is what is in the file. *)
Definition child_process (fuel : nat) (contents : list byte) (file_path : string) : C W unit :=
  file ← sys (SFopen file_path "re");
  if fails file then perror_exit "Error opening file" else
  file_words_cut MAX_WORD_LENGTH contents (fun token => send_word fuel (Some token));;
  send_word fuel None;;
  r ← sys (SFclose (r_val file));
  if negb (r_val r =? 0) then perror_exit "Error closing file" else mret tt.

(** A turn of the parent thread, which reads [shared_word] without the mutex. *)
Definition parent_turn (fuel : nat) (_ : unit) : C W (unit + unit) :=
  call "pthread_mutex_lock" [] [];;
  loop fuel (wait_turn false) tt;;
  store "word_ready" 0;;
  must_be_zero "pthread_cond_signal" "Error signaling condition variable";;
  call "pthread_mutex_unlock" [] [];;
  word ← load "shared_word";
  if word =? 0 then mret (inr tt) else
  text ← call "load" [] [word];
  out (ln ("Parent: received word: " +:+ of_chars (cstring (r_data text))));;
  mret (inl tt).

Definition parent_process (fuel : nat) : C W unit := loop fuel (parent_turn fuel) tt.

Definition body (file_path : string) : C W Z :=
  call "pthread_mutex_init" [] [];;
  call "pthread_cond_init" [] [];;
  store "word_ready" 0;;
  store "shared_word" 0;;
  must_be_zero "pthread_create" "Error creating child thread";;
  must_be_zero "pthread_create" "Error creating parent thread";;
  must_be_zero "pthread_join" "Error joining child thread";;
  must_be_zero "pthread_join" "Error joining parent thread";;
  mret EXIT_SUCCESS.

Definition main (argv : list string) : C W Z :=
  start_with pthread_condition_pthread_cond_wait.parse_arguments
    pthread_condition_pthread_cond_wait.handle_arguments argv ≫= body.
End Program.
End CondWaitMain.

(** ** Semaphores *)

Section Semaphore.
Context {W} `{Kernel W}.

Definition sem_name : string := "/example_semaphore".

(** [printf("... (PID %d)...\n", getpid())] *)
Definition say_pid (before after : string) : C W unit :=
  pid ← call "getpid" [] [];
  out (ln (before +:+ " process (PID " +:+ fmt_d (r_val pid) +:+ "): " +:+ after)).

(** [perror(msg); sem_close(semaphore); sem_unlink(sem_name);], and the end: one of the
    programs calls [exit], the other returns from [main]. *)
Definition give_in (quit : C W Z) (msg : string) (semaphore : Z) : C W Z :=
  perror msg;;
  call "sem_close" [] [semaphore];;
  call "sem_unlink" [sem_name] [];;
  quit.

(** The child of both programs: [sem_wait], three seconds of work, [sem_post]. *)
Definition child_work (quit : C W Z) (msg : string) (semaphore : Z) : C W Z :=
  say_pid "Child" "Simulating some work...";;
  r ← call "sem_wait" [] [semaphore];
  if fails r then give_in quit msg semaphore else
  call "sleep" [] [3];;
  say_pid "Child" "Done work.";;
  call "sem_post" [] [semaphore];;
  call "sem_close" [] [semaphore];;
  mret EXIT_SUCCESS.

(** The parent after its semaphore: [wait(NULL)], and the name goes. *)
Definition parent_waits (done : string) : C W Z :=
  r ← call "wait" [] [];
  if fails r then
    perror "wait failed";; call "sem_unlink" [sem_name] [];; exit_ EXIT_FAILURE
  else
  say_pid "Parent" done;;
  r ← call "sem_unlink" [sem_name] [];
  if fails r then perror_exit "sem_unlink failed" else
  mret EXIT_SUCCESS.

Definition with_semaphore (quit : C W Z) (child parent : Z -> C W Z) : C W Z :=
  semaphore ← call "sem_open" [sem_name] [Z.lor 64 128; Z.lor 256 128; 1];
  if fails semaphore then perror_exit "Semaphore creation failed" else
  pid ← call "fork" [] [];
  if r_val pid <? 0 then give_in quit "Fork failed" (r_val semaphore) else
  if r_val pid =? 0 then child (r_val semaphore) else parent (r_val semaphore).
End Semaphore.

(** [src/semaphores/sem_post-sem_wait/main.c] *)
Module SemPost.
Section Program.
Context {W} `{Kernel W}.

Definition parent (semaphore : Z) : C W Z :=
  call "sleep" [] [1];;
  say_pid "Parent" "Waiting for the child to complete...";;
  r ← call "sem_wait" [] [semaphore];
  if fails r then give_in (exit_ EXIT_FAILURE) "sem_wait failed" semaphore else
  say_pid "Parent" "Done sem_wait";;
  call "sem_post" [] [semaphore];;
  call "sem_close" [] [semaphore];;
  parent_waits "Done waiting.".

Definition main : C W Z :=
  with_semaphore (exit_ EXIT_FAILURE) (child_work (exit_ EXIT_FAILURE) "sem_wait failed") parent.
End Program.
End SemPost.

(** [src/semaphores/sem_trywait/main.c] *)
Module SemTrywait.
Section Program.
Context {W} `{Kernel W}.

Definition TRY_COUNT : Z := 5.

(** [while(try_count > 0)]: [None] when the process gives in. *)
Definition try_turn (semaphore : Z) (try_count : Z) : C W (Z + bool) :=
  if try_count <=? 0 then mret (inr true) else
  ret ← call "sem_trywait" [] [semaphore];
  if r_val ret =? 0 then
    say_pid "Parent" "Done waiting";;
    call "sem_post" [] [semaphore];;
    say_pid "Parent" "Child signaled. Continue processing...";;
    mret (inr true)
  else if fails ret then
    if try_count =? 1 then mret (inr false) else
    say_pid "Parent" "Child not ready. Retrying...";;
    call "sleep" [] [1];;
    mret (inl (try_count - 1))
  else mret (inl try_count).

Definition parent (fuel : nat) (semaphore : Z) : C W Z :=
  call "sleep" [] [1];;
  say_pid "Parent" "Waiting for the child to complete...";;
  go_on ← loop fuel (try_turn semaphore) TRY_COUNT;
  if negb go_on then give_in (mret EXIT_FAILURE) "sem_trywait failed" semaphore else
  call "sem_close" [] [semaphore];;
  parent_waits "Child completed.".

Definition main (fuel : nat) : C W Z :=
  with_semaphore (mret EXIT_FAILURE) (child_work (mret EXIT_FAILURE) "sem_trywait failed") (parent fuel).
End Program.
End SemTrywait.

(** ** What they report and release *)

Section Reports.
Context {W} `{Kernel W}.

Lemma create_threads_reports n go :
  reports (failing [] [] ["pthread_mutex_init"; "pthread_create"]) go ->
  reports (failing [] [] ["pthread_mutex_init"; "pthread_create"]) (create_threads (W:=W) n go).
Proof.
  intros Hg. induction n as [|n IH]; [exact Hg|]. cbn [create_threads].
  apply reports_sys_bind; intros r Hr; checked_call Hr; [exact IH|repeat reports_step].
Qed.

Lemma part_join_threads ck n :
  (forall r, ck (SCall "pthread_join" [] []) r = false) ->
  part ck (join_threads n : C W unit) (fun _ => True).
Proof.
  intros Hc. induction n as [|n IH]; cbn [join_threads]; [by apply part_ret|].
  eapply part_bind; [by apply (part_sys _ _ (fun _ => True))|by intros ? _].
Qed.

Lemma mutex_init_reports : reports (failing [] [] ["pthread_mutex_init"]) (MutexInit.main (W:=W)).
Proof. repeat reports_step. Qed.

Lemma cond_init_reports :
  reports (failing [] [] ["pthread_cond_init"; "pthread_cond_destroy"]) (CondInit.main (W:=W)).
Proof. repeat reports_step. Qed.

Lemma run_threads_reports use_mutex :
  reports (failing [] [] ["pthread_mutex_init"; "pthread_create"]) (MutexMain.run_threads (W:=W) use_mutex).
Proof.
  apply create_threads_reports. eapply reports_bind; [by apply part_join_threads|].
  intros _ _. repeat reports_step.
Qed.

Lemma mutex_main_reports use_mutex :
  reports (failing [] [] ["pthread_mutex_init"; "pthread_create"]) (MutexMain.body (W:=W) use_mutex).
Proof.
  unfold MutexMain.body. destruct use_mutex; [|apply run_threads_reports].
  apply reports_sys_bind; intros r Hr; checked_call Hr; [apply run_threads_reports|repeat reports_step].
Qed.

Lemma trylock_main_reports :
  reports (failing [] [] ["pthread_mutex_init"; "pthread_create"]) (TrylockMain.main (W:=W)).
Proof.
  unfold TrylockMain.main. apply reports_sys_bind; intros r Hr; checked_call Hr; [|repeat reports_step].
  apply create_threads_reports. eapply reports_bind; [by apply part_join_threads|].
  intros _ _. repeat reports_step.
Qed.

Lemma cond_wait_main_reports file_path :
  reports (failing [] [] ["pthread_create"; "pthread_join"]) (CondWaitMain.body (W:=W) file_path).
Proof. repeat reports_step. Qed.

Lemma sem_post_reports :
  reports (failing ["sem_open"; "sem_wait"; "wait"; "sem_unlink"] ["fork"] []) (SemPost.main (W:=W)).
Proof. repeat reports_step. Qed.

(** The threads of the condition variable program report what fails. *)
Lemma part_file_words_cut ck size contents (body : string -> C W unit) :
  (forall w, part ck (body w) (fun _ => True)) ->
  part ck (file_words_cut size contents body) (fun _ => True).
Proof.
  intros Hb. unfold file_words_cut, tokens. generalize (S (length contents)) as n. intros n.
  revert contents. induction n as [|n IH]; intros contents; cbn [line_loop]; [done|].
  destruct (fgets size contents) as [[line rest]|]; [|by apply part_ret].
  apply part_bind with (P := fun _ => True); [|intros ? _; apply IH].
  generalize (of_chars (cut_newline (cstring line))) as l. intros l.
  generalize (S (String.length l)) as k. intros k. revert l.
  induction k as [|k IHk]; intros l; cbn [token_loop]; [done|].
  destruct (strtok_r blanks l) as [[w l']|]; [|by apply part_ret].
  eapply part_bind; [apply Hb|intros ? _; apply IHk].
Qed.

Definition thread_calls : syscall -> sysret -> bool :=
  failing ["fopen"; "strdup"] [] ["pthread_cond_wait"; "pthread_cond_signal"; "fclose"].

Lemma send_word_part fuel word :
  part thread_calls (CondWaitMain.send_word (W:=W) fuel word) (fun _ => True).
Proof. unfold thread_calls. repeat reports_step. Qed.

Lemma child_process_part fuel contents file_path :
  part thread_calls (CondWaitMain.child_process (W:=W) fuel contents file_path) (fun _ => True).
Proof.
  unfold thread_calls, CondWaitMain.child_process. apply part_sys_bind; intros r Hr; checked_call Hr; [|repeat reports_step].
  eapply part_bind; [apply part_file_words_cut; intros w; apply send_word_part|intros _ _].
  eapply part_bind; [apply send_word_part|intros _ _]. repeat reports_step.
Qed.

Lemma parent_process_part fuel :
  part thread_calls (CondWaitMain.parent_process (W:=W) fuel) (fun _ => True).
Proof. apply part_loop. intros []. unfold thread_calls. repeat reports_step. Qed.

(** [main] of the broadcast program does not wait for anything but the threads. *)
Lemma broadcast_main_ends : fueled (BroadcastMain.main (W:=W)).
Proof. repeat fueled_step. Qed.

(** The semaphore is closed on every way out of the two programs. *)
Lemma sem_post_closes : closes [] (SemPost.main (W:=W)).
Proof. repeat closes_step. Qed.

Lemma sem_trywait_closes fuel : closes [] (SemTrywait.main (W:=W) fuel).
Proof. repeat closes_step. Qed.
End Reports.
