(* ===== verification/Calculations.v ===== *)
(** * Programs that measure a calculation

    src/process/clock, src/process/times and src/process/getrusage: two processes
    each draw numbers, add them up many times and print the sum and what it took.
    The three share [performCalculation].  An addition that leaves [long long] is
    undefined behaviour; the theorems say when there is one, that there is none with the
    sizes of the programs, and what the sum is. *)

From Stdlib Require Import SpecFloat.
From S2P Require Import Prelude CMonad CString Getopt ArgParse Reports Snprintf Values.

(** Members of [struct tms] and of [struct rusage], by name. *)
Class Usage := {
  tms : string -> list byte -> Z;
  ru : string -> list byte -> Z;
}.

(** ** The calculation *)

Section Calculation.
Context {W} `{Kernel W} (junk : nat -> list Z).

Definition MAX_NUMBER : Z := 100.
Definition MAX_NUMBERS : nat := Z.to_nat 100000.
Definition NUM_ITERATIONS : nat := Z.to_nat 20000.

(** [+] and [-] of [long long], [long] and [clock_t]. *)
Definition in_long (z : Z) : C W Z :=
  if (z <? LONG_MIN) || (LONG_MAX <? z) then undef "signed overflow" else mret z.

(** [numbers[i] = (int)arc4random_uniform(MAX_NUMBER)] *)
Definition draw (i : nat) (numbers : list Z) : C W (list Z) :=
  r ← sys (SArc4random MAX_NUMBER);
  array_set numbers (Z.of_nat i) (to_signed 32 (r_val r)).

(** [sum += numbers[j]] *)
Definition add_number (numbers : list Z) (j : nat) (sum : Z) : C W Z :=
  x ← array_get numbers (Z.of_nat j);
  in_long (sum + x).

(** The block of [malloc] has room for as many [int]s as its bytes hold. *)
Definition performCalculation (size iterations : nat) : C W Z :=
  let bytes := to_unsigned 64 (Z.of_nat size * sizeof_int) in
  numbers ← sys (SAlloc bytes);
  if fails numbers then perror_exit "Failed to allocate memory" else
  array ← for_up size 0 draw (junk (Z.to_nat (bytes / sizeof_int)));
  sum ← for_up iterations 0 (fun _ sum => for_up size 0 (add_number array) sum) 0;
  call "free" [] [r_val numbers];;
  mret sum.

(** ["Sum of %zu random numbers for %zu iterations: %lld\n"] *)
Definition sum_line (sum : Z) : string :=
  ln ("Sum of " +:+ fmt_u (Z.of_nat MAX_NUMBERS) +:+ " random numbers for " +:+
      fmt_u (Z.of_nat NUM_ITERATIONS) +:+ " iterations: " +:+ fmt_d sum).
End Calculation.

(** ** The programs *)

(** [src/process/clock/main.c]; [start_time] is taken by both processes. *)
Module Clock.
Section Program.
Context {W} `{Kernel W} (junk : nat -> list Z).

Definition CLOCKS_PER_SEC : Z := 1000000.

(** [((double)ticks) / CLOCKS_PER_SEC] *)
Definition cpu_time_used (ticks : Z) : spec_float :=
  SFdiv 53 1024 (binary_normalize 53 1024 ticks 0 false)
    (binary_normalize 53 1024 CLOCKS_PER_SEC 0 false).

Definition measured (label : string) (start_time : Z) : C W unit :=
  sum ← performCalculation junk MAX_NUMBERS NUM_ITERATIONS;
  call "wait" [] [];;
  end_time ← call "clock" [] [];
  out (label +:+ ": " +:+ sum_line sum);;
  ticks ← in_long (r_val end_time - start_time);
  out (ln (label +:+ ": Real Time: " +:+ fmt_d ticks +:+ " clock ticks"));;
  out (ln (label +:+ ": CPU time used: " +:+ fmt_f 6 (cpu_time_used ticks) +:+ " seconds")).

Definition main : C W Z :=
  pid ← call "fork" [] [];
  start_time ← call "clock" [] [];
  if r_val pid <? 0 then eout (ln "Fork failed");; mret EXIT_FAILURE else
  (if r_val pid =? 0 then measured "Child" (r_val start_time)
   else measured "Parent" (r_val start_time));;
  mret EXIT_SUCCESS.
End Program.
End Clock.

(** [src/process/times/main.c]: the time called real is the system time. *)
Module TimesProgram.
Section Program.
Context {W} `{Kernel W} `{Usage} (junk : nat -> list Z).

Definition performCalculation (size iterations : nat) : C W Z :=
  performCalculation junk size iterations.

Definition printTimes (tms_data : list byte) : C W unit :=
  let ticks label member :=
    out (ln (label +:+ ": " +:+ fmt_d (tms member tms_data) +:+ " clock ticks")) in
  ticks "User time" "tms_utime";;
  ticks "System time" "tms_stime";;
  ticks "Children's user time" "tms_cutime";;
  ticks "Children's system time" "tms_cstime".

Definition parent : C W unit :=
  start_tms ← call "times" [] [];
  sum ← performCalculation MAX_NUMBERS NUM_ITERATIONS;
  call "wait" [] [];;
  end_tms ← call "times" [] [];
  out (sum_line sum);;
  ticks ← in_long (tms "tms_stime" (r_data end_tms) - tms "tms_stime" (r_data start_tms));
  out (ln ("Real Time: " +:+ fmt_d ticks +:+ " clock ticks"));;
  end_tms ← call "times" [] [];
  printTimes (r_data end_tms).

Definition main : C W Z :=
  pid ← call "fork" [] [];
  if r_val pid <? 0 then eout (ln "Fork failed");; mret EXIT_FAILURE else
  (if r_val pid =? 0 then
     sum ← performCalculation MAX_NUMBERS NUM_ITERATIONS;
     out (sum_line sum);;
     exit_ EXIT_SUCCESS
   else parent);;
  mret EXIT_SUCCESS.
End Program.
End TimesProgram.

(** [src/process/getrusage/main.c] *)
Module Getrusage.
Section Program.
Context {W} `{Kernel W} `{Usage} (junk : nat -> list Z).

Definition performCalculation (size iterations : nat) : C W Z :=
  performCalculation junk size iterations.

Definition RUSAGE_SELF : Z := 0.
Definition RUSAGE_CHILDREN : Z := -1.

(** [%06ld]: at least six characters, zeros after the sign. *)
Definition fmt_06ld (z : Z) : string :=
  if z <? 0 then "-" +:+ pad_zero 5 (fmt_u (- z)) else pad_zero 6 (fmt_u z).

Definition getrusage (who : Z) : C W (list byte) :=
  r ← call "getrusage" [] [who]; mret (r_data r).

Definition printUsage (data : list byte) : C W unit :=
  let seconds label sec usec :=
    out (ln (label +:+ ": " +:+ fmt_d (ru sec data) +:+ "." +:+ fmt_06ld (ru usec data) +:+
             " seconds")) in
  let shown label member unit :=
    out (ln (label +:+ ": " +:+ fmt_d (ru member data) +:+ unit)) in
  seconds "User time" "ru_utime.tv_sec" "ru_utime.tv_usec";;
  seconds "System time" "ru_stime.tv_sec" "ru_stime.tv_usec";;
  shown "Maximum resident set size (RSS)" "ru_maxrss" " kilobytes";;
  shown "Integral shared memory size" "ru_ixrss" " kilobytes";;
  shown "Integral unshared data size" "ru_idrss" " kilobytes";;
  shown "Integral unshared stack size" "ru_isrss" " kilobytes";;
  shown "Page reclaims (soft page faults)" "ru_minflt" "";;
  shown "Page faults (hard page faults)" "ru_majflt" "";;
  shown "Swaps" "ru_nswap" "";;
  shown "Block input operations" "ru_inblock" "";;
  shown "Block output operations" "ru_oublock" "";;
  shown "IPC messages sent" "ru_msgsnd" "";;
  shown "IPC messages received" "ru_msgrcv" "";;
  shown "Signals received" "ru_nsignals" "";;
  shown "Voluntary context switches" "ru_nvcsw" "";;
  shown "Involuntary context switches" "ru_nivcsw" "".

(** [start_ru] is filled and not used. *)
Definition parent : C W unit :=
  getrusage RUSAGE_SELF;;
  sum ← performCalculation MAX_NUMBERS NUM_ITERATIONS;
  call "wait" [] [];;
  end_ru ← getrusage RUSAGE_CHILDREN;
  out (sum_line sum);;
  printUsage end_ru;;
  end_ru ← getrusage RUSAGE_SELF;
  printUsage end_ru.

Definition main : C W Z :=
  pid ← call "fork" [] [];
  if r_val pid <? 0 then eout (ln "Fork failed");; mret EXIT_FAILURE else
  (if r_val pid =? 0 then
     sum ← performCalculation MAX_NUMBERS NUM_ITERATIONS;
     out (sum_line sum);;
     exit_ EXIT_SUCCESS
   else parent);;
  mret EXIT_SUCCESS.
End Program.
End Getrusage.

(** ** The sum *)

(** [arc4random_uniform(bound)] is less than [bound]. *)
Class RandomBelow W `{Kernel W} := random_below : forall bound (w : W) r w',
  0 < bound -> kcall (SArc4random bound) w = (r, w') -> 0 <= r_val r < bound.

(** The clocks of [clock] and [times] give numbers, or -1, below [LONG_MAX]. *)
Class ClockValues W `{Kernel W} `{Usage} := {
  clock_value : forall (w : W) r w', kcall (SCall "clock" [] []) w = (r, w') ->
    -1 <= r_val r < LONG_MAX;
  times_value : forall (w : W) r w', kcall (SCall "times" [] []) w = (r, w') ->
    -1 <= tms "tms_stime" (r_data r) < LONG_MAX;
}.

Definition total (l : list Z) : Z := foldr Z.add 0 l.

Lemma total_app l1 l2 : total (l1 ++ l2) = total l1 + total l2.
Proof. induction l1 as [|x l1 IH]; simpl; lia. Qed.

Lemma total_bound (l : list Z) (b : Z) :
  Forall (fun x => 0 <= x <= b) l -> 0 <= total l <= b * Z.of_nat (length l).
Proof. induction 1 as [|x l Hx Hl IH]; simpl; lia. Qed.

Lemma total_take (l : list Z) (k : nat) :
  Forall (fun x => 0 <= x) l -> 0 <= total (take k l) <= total l.
Proof.
  intros Hl. revert k. induction Hl as [|x l Hx Hl IH]; intros [|k]; simpl; try lia;
    [specialize (IH 0%nat); rewrite take_0 in IH; simpl in IH|specialize (IH k)]; lia.
Qed.

Section Exact.
Context {W} `{Kernel W}.
Implicit Types s : cstate W.

(** A counting loop keeps an invariant that depends on the counter. *)
Lemma wp_for_up {S} (I : nat -> S -> cstate W -> Prop) E n i body x s :
  (forall k y s, (i <= k < i + n)%nat -> I k y s -> wp (body k y) (I (Datatypes.S k)) E s) ->
  I i x s -> wp (for_up n i body x) (I (i + n)%nat) E s.
Proof.
  revert i x s. induction n as [|n IH]; intros i x s Hb Hi; simpl.
  - apply wp_ret. by rewrite Nat.add_0_r.
  - apply wp_bind. eapply wp_mono; [apply Hb; [lia|done]| |done].
    intros y s' Hy. rewrite <- Nat.add_succ_comm. apply IH; [|done].
    intros k z s1 Hk. apply Hb. lia.
Qed.

Lemma in_long_ok z s : LONG_MIN <= z <= LONG_MAX -> in_long z s = (Val z, s).
Proof.
  intros Hz. unfold in_long.
  by rewrite (proj2 (Z.ltb_ge _ _)), (proj2 (Z.ltb_ge _ _)) by lia.
Qed.

(** A sum that has got to [z]: the value, or the addition that leaves [long]. *)
Definition sum_or_overflow (z : Z) s : outcome Z * cstate W :=
  if z <=? LONG_MAX then (Val z, s) else (Undef "signed overflow", s).

Lemma overflow_bind (f : Z -> C W Z) (m : C W Z) z s :
  m s = sum_or_overflow z s -> LONG_MAX < z -> (m ≫= f) s = (Undef "signed overflow", s).
Proof.
  intros E Hz. unfold mbind, C_bind. rewrite E. unfold sum_or_overflow.
  by rewrite (proj2 (Z.leb_gt _ _)).
Qed.

Lemma in_long_grows z s : 0 <= z -> in_long z s = sum_or_overflow z s.
Proof.
  intros Hz. unfold in_long, sum_or_overflow.
  rewrite (proj2 (Z.ltb_ge z LONG_MIN)) by (unfold LONG_MIN; lia). simpl.
  rewrite Z.leb_antisym. by destruct (LONG_MAX <? z).
Qed.

(** A loop whose every turn adds a number that is not negative stops at the first
    sum that leaves [long]. *)
Lemma sum_loop (body : nat -> Z -> C W Z) (xs : list Z) (i : nat) (sum : Z) s :
  Forall (fun x => 0 <= x) xs -> 0 <= sum <= LONG_MAX ->
  (forall k x sum s, xs !! k = Some x -> 0 <= sum <= LONG_MAX ->
     body (i + k)%nat sum s = sum_or_overflow (sum + x) s) ->
  for_up (length xs) i body sum s = sum_or_overflow (sum + total xs) s.
Proof.
  intros Hxs. revert i sum. induction Hxs as [|x xs Hx Hxs IH]; intros i sum Hs Hb; simpl.
  - unfold sum_or_overflow. rewrite (proj2 (Z.leb_le _ _)) by lia. by rewrite Z.add_0_r.
  - pose proof (Hb 0%nat x sum s eq_refl Hs) as H0. rewrite Nat.add_0_r in H0.
    destruct (total_take xs 0 Hxs) as [_ Ht]. rewrite take_0 in Ht. simpl in Ht.
    destruct (Z.leb_spec (sum + x) LONG_MAX) as [Hl|Hl].
    + erewrite bind_val by (rewrite H0; unfold sum_or_overflow; by rewrite (proj2 (Z.leb_le _ _))).
      rewrite IH; [by rewrite Z.add_assoc|lia|]. intros k y z s1 Hk.
      rewrite Nat.add_succ_comm. by apply Hb.
    + erewrite overflow_bind by eauto. unfold sum_or_overflow.
      by rewrite (proj2 (Z.leb_gt _ _)) by lia.
Qed.

(** One pass over the array. *)
Lemma one_pass (numbers : list Z) (sum : Z) s :
  Forall (fun x => 0 <= x) numbers -> 0 <= sum <= LONG_MAX ->
  for_up (length numbers) 0 (add_number numbers) sum s = sum_or_overflow (sum + total numbers) s.
Proof.
  intros Hn Hs. apply sum_loop; [done..|]. intros k x z s1 Hk Hz. unfold add_number.
  rewrite (bind_val _ _ _ x s1) by (by apply array_get_ok).
  apply in_long_grows. rewrite Forall_lookup in Hn. specialize (Hn _ _ Hk). simpl in Hn. lia.
Qed.

Lemma total_replicate n x : total (replicate n x) = Z.of_nat n * x.
Proof using Type. induction n as [|n IH]; simpl; lia. Qed.

(** All passes. *)
Lemma all_passes (numbers : list Z) (n : nat) s :
  Forall (fun x => 0 <= x) numbers ->
  for_up n 0 (fun _ sum => for_up (length numbers) 0 (add_number numbers) sum) 0 s =
    sum_or_overflow (Z.of_nat n * total numbers) s.
Proof.
  intros Hn. destruct (total_take numbers 0 Hn) as [_ Hp]. rewrite take_0 in Hp. simpl in Hp.
  rewrite <- total_replicate. rewrite <- (length_replicate n (total numbers)) at 1.
  rewrite sum_loop; [done|by apply Forall_replicate|done|].
  intros k x sum s1 [-> _]%lookup_replicate Hs. by apply one_pass.
Qed.

(** Drawing the numbers: what the calls returned is in the array. *)
Lemma drawn `{!RandomBelow W} (array : list Z) s :
  wp (for_up (length array) 0 draw array)
    (fun a s' => exists draws, length draws = length array /\ a = r_val <$> draws /\
       Forall (fun r => 0 <= r_val r < MAX_NUMBER) draws /\
       trace s' = trace s ++ (ESys (SArc4random MAX_NUMBER) <$> draws))
    (fun _ _ => False) s.
Proof.
  eapply wp_mono;
    [eapply (wp_for_up (fun k a s1 => exists draws, length draws = k /\
       a = (r_val <$> draws) ++ drop k array /\
       Forall (fun r => 0 <= r_val r < MAX_NUMBER) draws /\
       trace s1 = trace s ++ (ESys (SArc4random MAX_NUMBER) <$> draws))
       (fun _ _ => False))| |done].
  - intros k a s1 Hk (draws & Hl & -> & Hd & E). unfold draw. apply wp_bind, wp_sys.
    intros r w e Er. pose proof (random_below MAX_NUMBER _ _ _ ltac:(done) Er) as Hr.
    unfold wp, array_set. rewrite length_app, length_fmap, length_drop.
    rewrite (proj2 (Z.ltb_ge _ _)), (proj2 (Z.leb_gt _ _)) by lia. simpl.
    exists (draws ++ [r]). rewrite length_app, Hl. split_and!; [simpl; lia| | |].
    + destruct (lookup_lt_is_Some_2 array k ltac:(lia)) as [y Hy].
      rewrite Nat2Z.id, (drop_S _ _ _ Hy), fmap_app, <- app_assoc.
      rewrite to_signed_small by (unfold MAX_NUMBER in *; lia).
      replace k with (length (r_val <$> draws) + 0)%nat at 1 by (rewrite length_fmap; lia).
      by rewrite insert_app_r.
    + apply Forall_app_2; [done|by apply Forall_singleton].
    + by rewrite E, fmap_app, <- app_assoc.
  - exists []. by rewrite app_nil_r, drop_0.
  - simpl. intros a s' (draws & Hl & -> & Hd & E). exists draws. rewrite drop_ge, app_nil_r by lia.
    done.
Qed.

(** What is known of a run that ended with a sum: the calls, and the sum. *)
Definition calculated (size iterations : nat) (sum : Z) s s' : Prop :=
  exists r draws freed, r_val r <> -1 /\ length draws = size /\
    Forall (fun d => 0 <= r_val d < MAX_NUMBER) draws /\
    trace s' = trace s ++ ESys (SAlloc (Z.of_nat size * sizeof_int)) r ::
      (ESys (SArc4random MAX_NUMBER) <$> draws) ++ [ESys (SCall "free" [] [r_val r]) freed] /\
    sum = Z.of_nat iterations * total (r_val <$> draws).

(** Without a block: the report and the end. *)
Definition out_of_memory (size : nat) (code : Z) s s' : Prop :=
  exists r, r_val r = -1 /\ code = EXIT_FAILURE /\
    trace s' = trace s ++ [ESys (SAlloc (Z.of_nat size * sizeof_int)) r;
                           EPerror "Failed to allocate memory" (r_err r)].

(** An addition left [long long]: after the draws, when the sum of all additions
    is too large. *)
Definition overflowed (size iterations : nat) s s' : Prop :=
  exists r draws, r_val r <> -1 /\ length draws = size /\
    Forall (fun d => 0 <= r_val d < MAX_NUMBER) draws /\
    trace s' = trace s ++ ESys (SAlloc (Z.of_nat size * sizeof_int)) r ::
      (ESys (SArc4random MAX_NUMBER) <$> draws) /\
    LONG_MAX < Z.of_nat iterations * total (r_val <$> draws).

(** How the calculation ends. *)
Definition calculation_outcome (size iterations : nat) s (o : outcome Z) s' : Prop :=
  match o with
  | Val sum => calculated size iterations sum s s' /\ sum <= LONG_MAX
  | Exit c => out_of_memory size c s s'
  | Undef why => why = "signed overflow" /\ overflowed size iterations s s'
  | NoFuel => False
  end.

Lemma calculation (junk : nat -> list Z) (size iterations : nat) s `{!RandomBelow W} :
  (forall n, length (junk n) = n) ->
  Z.of_nat size * sizeof_int <= SIZE_MAX ->
  let (o, s') := performCalculation junk size iterations s in
  calculation_outcome size iterations s o s'.
Proof.
  intros Hj Hb. unfold performCalculation. cbv zeta.
  rewrite to_unsigned_small by (unfold sizeof_int, SIZE_MAX, ULONG_MAX in *; lia).
  unfold mbind at 1, C_bind at 1, sys at 1. destruct (kcall _ (world s)) as [r w].
  cbv beta iota zeta. unfold fails. destruct (Z.eqb_spec (r_val r) (-1)) as [Er|Er].
  { exists r. split_and!; [done..|]. simpl. by rewrite <- app_assoc. }
  rewrite Z.div_mul, Nat2Z.id by done.
  match goal with |- context [for_up size 0 draw (junk size) ≫= ?f] => set (rest := f) end.
  match goal with |- context [(_ ≫= rest) ?s1] => pose proof (drawn (junk size) s1) as Hd; rewrite Hj in Hd end.
  unfold mbind at 1, C_bind at 1. unfold wp in Hd.
  destruct (for_up size 0 draw (junk size) _) as [[a|c|u|] s2]; try done.
  destruct Hd as (draws & Hl & -> & Hd & E). unfold rest. clear rest. simpl in E.
  assert (Forall (fun x => 0 <= x) (r_val <$> draws)) as Hf.
  { apply list.Forall_fmap. apply (list.Forall_impl _ _ _ Hd). simpl. lia. }
  pose proof (all_passes (r_val <$> draws) iterations s2 Hf) as Hp.
  rewrite length_fmap, Hl in Hp. unfold mbind at 1, C_bind at 1. rewrite Hp.
  unfold sum_or_overflow. destruct (Z.leb_spec (Z.of_nat iterations * total (r_val <$> draws)) LONG_MAX) as [Hm|Hm].
  - unfold call, sys, mbind, C_bind, mret, C_ret. destruct (kcall _ (world s2)) as [freed w'].
    split; [|done]. exists r, draws, freed. simpl. rewrite E. split_and!; [done..| |done].
    by rewrite <- !app_assoc.
  - split; [done|]. exists r, draws. split_and!; [done..| |done]. by rewrite E, <- app_assoc.
Qed.

(** When the largest possible sum is a [long long] there is no overflow. *)
Lemma calculation_fits (junk : nat -> list Z) (size iterations : nat) s `{!RandomBelow W} :
  (forall n, length (junk n) = n) ->
  Z.of_nat size * sizeof_int <= SIZE_MAX ->
  Z.of_nat size * Z.of_nat iterations * (MAX_NUMBER - 1) <= LONG_MAX ->
  wp (performCalculation junk size iterations)
    (fun sum s' => calculated size iterations sum s s') (fun c s' => out_of_memory size c s s') s.
Proof.
  intros Hj Hb Hm. pose proof (calculation junk size iterations s Hj Hb) as Hc. unfold wp.
  destruct (performCalculation junk size iterations s) as [[sum|c|u|] s'];
    [apply Hc|exact Hc| |done].
  destruct Hc as (_ & r & draws & _ & Hl & Hd & _ & Ho).
  destruct (total_bound (r_val <$> draws) (MAX_NUMBER - 1)) as [_ Ht].
  { apply list.Forall_fmap. apply (list.Forall_impl _ _ _ Hd). simpl. lia. }
  rewrite length_fmap, Hl in Ht. nia.
Qed.
End Exact.

(** ** The programs *)

(** [clock]: the call of [clock] comes between a failed [fork] and its report. *)
Definition clock_ends {W} `{Kernel W} (m : C W Z) (s : cstate W) : Prop :=
  wlp m
    (fun c s' => exists t, trace s' = trace s ++ t /\
       (verdict (failing ["malloc"] ["fork"] []) t c \/
        exists pid start, r_val pid < 0 /\ c = EXIT_FAILURE /\
          t = [ESys (SCall "fork" [] []) pid; ESys (SCall "clock" [] []) start;
               EErr (ln "Fork failed")]))
    (fun c s' => exists t, trace s' = trace s ++ t /\
       verdict (failing ["malloc"] ["fork"] []) t c) s.

Section Programs.
Context {W} `{Kernel W} `{Usage} `{!RandomBelow W} `{!ClockValues W}.
Context (junk : nat -> list Z) (Hjunk : forall n, length (junk n) = n).

Lemma sizes : Z.of_nat MAX_NUMBERS = 100000 /\ Z.of_nat NUM_ITERATIONS = 20000.
Proof. unfold MAX_NUMBERS, NUM_ITERATIONS. by rewrite !Z2Nat.id. Qed.

#[local] Opaque MAX_NUMBERS NUM_ITERATIONS.

Definition LARGEST_SUM : Z := 198000000000.

Local Abbreviation calculation_failing := (failing ["malloc"] ["fork"] []).

Lemma performCalculation_part :
  part calculation_failing (performCalculation junk MAX_NUMBERS NUM_ITERATIONS)
    (fun sum => 0 <= sum <= LARGEST_SUM).
Proof.
  intros s. apply wp_wlp.
  destruct sizes as [E1 E2].
  eapply wp_mono.
  - apply (calculation_fits junk MAX_NUMBERS NUM_ITERATIONS s Hjunk); rewrite E1, ?E2; done.
  - intros sum s' (r & draws & freed & Hr & Hl & Hd & E & ->). rewrite E1 in E. eexists. split; [exact E|]. split.
    + constructor; [by apply Z.eqb_neq|]. apply Forall_app_2; [|by apply Forall_singleton].
      by apply list.Forall_fmap, Forall_true.
    + rewrite E2. destruct (total_bound (r_val <$> draws) 99) as [H1 H2].
      { apply list.Forall_fmap. apply (list.Forall_impl _ _ _ Hd). intros x. unfold MAX_NUMBER.
        simpl. lia. }
      rewrite length_fmap, Hl, E1 in H2. unfold LARGEST_SUM. lia.
  - intros c s' (r & Hr & -> & E). rewrite E1 in E. eexists. split; [exact E|].
    apply (verdict_failure _ []); [by constructor|by apply Z.eqb_eq| |by constructor].
    exact (fun _ => eq_refl).
Qed.

(** A call with a law, and a difference of two of its values. *)
Lemma part_value c (P : sysret -> Prop) :
  (forall (w : W) r w', kcall c w = (r, w') -> P r) -> (forall r, calculation_failing c r = false) ->
  part calculation_failing (sys c) P.
Proof.
  intros Hc Hn s. apply wlp_sys. intros r w e Er. exists [ESys c r].
  split_and!; [done| |by eapply Hc]. by apply Forall_singleton, Hn.
Qed.

Lemma part_difference a b :
  -1 <= a < LONG_MAX -> -1 <= b < LONG_MAX -> part calculation_failing (in_long (a - b) : C W Z) (fun _ => True).
Proof.
  intros Ha Hb s. unfold wlp. rewrite in_long_ok by (unfold LONG_MIN, LONG_MAX in *; lia).
  exists []. by rewrite app_nil_r.
Qed.

Lemma measured_part label start :
  -1 <= start < LONG_MAX -> part calculation_failing (Clock.measured junk label start) (fun _ => True).
Proof.
  intros Hs. unfold Clock.measured. eapply part_bind; [apply performCalculation_part|].
  intros sum _. do 3 reports_step.
  eapply part_bind; [apply part_value; [apply clock_value|done]|].
  intros r' Hr'. eapply part_bind; [apply part_out|]. intros _ _.
  eapply part_bind; [by apply part_difference|]. intros ticks _. repeat reports_step.
Qed.

Lemma clock_reports s : clock_ends (Clock.main junk) s.
Proof.
  unfold Clock.main, call. apply wlp_bind, wlp_sys. intros pid w1 e1 _.
  apply wlp_bind, wlp_sys. intros start w2 e2 Es. pose proof (clock_value _ _ _ Es) as Hs.
  destruct (Z.ltb_spec (r_val pid) 0) as [Ep|Ep].
  { unfold wlp. simpl. eexists. rewrite <- !app_assoc. split; [done|]. right. by exists pid, start. }
  set (label := if r_val pid =? 0 then "Child" else "Parent").
  assert (reports calculation_failing
            (Clock.measured junk label (r_val start);; mret EXIT_SUCCESS)) as Hm.
  { eapply reports_bind; [by apply measured_part|]. intros _ _. apply reports_success. }
  assert (Forall (fine calculation_failing)
            [ESys (SCall "fork" [] []) pid; ESys (SCall "clock" [] []) start]) as Hf.
  { repeat constructor. simpl. by apply Z.ltb_ge. }
  specialize (Hm (CState e2 ((trace s ++ [ESys (SCall "fork" [] []) pid]) ++
                             [ESys (SCall "clock" [] []) start]) w2)). simpl in Hm.
  unfold label in Hm. simpl.
  destruct (r_val pid =? 0); (eapply wlp_mono; [apply Hm|..]);
    intros c s' (t & E & Hv); rewrite E, <- !app_assoc; eexists; (split; [reflexivity|]);
    [left| |left|]; by apply (verdict_app _ _ _ _ Hf).
Qed.

(** The child of the other two programs, and a value with a law. *)
Lemma child_part :
  part calculation_failing
    (sum ← performCalculation junk MAX_NUMBERS NUM_ITERATIONS;
     out (sum_line sum);; exit_ EXIT_SUCCESS : C W unit) (fun _ => True).
Proof.
  eapply part_bind; [apply performCalculation_part|]. intros sum _.
  eapply part_bind; [apply part_out|]. intros _ _. apply part_exit_success.
Qed.

Lemma times_parent_part : part calculation_failing (TimesProgram.parent junk) (fun _ => True).
Proof.
  unfold TimesProgram.parent, call.
  eapply part_bind; [apply part_value; [apply times_value|done]|]. intros start Hs.
  eapply part_bind; [apply performCalculation_part|]. intros sum _.
  reports_step.
  eapply part_bind; [apply part_value; [apply times_value|done]|]. intros end_ He.
  eapply part_bind; [apply part_out|]. intros _ _.
  eapply part_bind; [by apply part_difference|]. intros ticks _. repeat reports_step.
Qed.

Lemma getrusage_parent_part : part calculation_failing (Getrusage.parent junk) (fun _ => True).
Proof.
  unfold Getrusage.parent. do 6 reports_step.
  eapply part_bind; [apply performCalculation_part|]. intros sum _. repeat reports_step.
Qed.

Lemma times_reports : reports calculation_failing (TimesProgram.main junk).
Proof.
  unfold TimesProgram.main. do 2 reports_step; [|repeat reports_step].
  eapply reports_bind; [|intros _ _; apply reports_success].
  destruct (r_val r =? 0); [apply child_part|apply times_parent_part].
Qed.

Lemma getrusage_reports : reports calculation_failing (Getrusage.main junk).
Proof.
  unfold Getrusage.main. do 2 reports_step; [|repeat reports_step].
  eapply reports_bind; [|intros _ _; apply reports_success].
  destruct (r_val r =? 0); [apply child_part|apply getrusage_parent_part].
Qed.
End Programs.

(** ** The property *)

(** C33: the calculation of the three programs.  Whatever the number of numbers (if
    the size of the block is a [size_t]) and of iterations, it ends in one of three
    ways: without a block it says so and fails; when the number of iterations times
    the sum of the numbers that were drawn is a [long long] it returns that product,
    having allocated, drawn and freed and done nothing else; and when it is not, an
    addition overflows, which is undefined.  No index goes wrong.  With the sizes of
    the programs the sum is small enough, and they report every failure of [malloc]
    and [fork]. *)
Theorem calculation_exact {W} `{Kernel W} `{Usage} `{!RandomBelow W} `{!ClockValues W}
    (junk : nat -> list Z) (Hjunk : forall n, length (junk n) = n) :
  (forall size iterations (s : cstate W),
     Z.of_nat size * sizeof_int <= SIZE_MAX ->
     let (o, s') := performCalculation junk size iterations s in
     calculation_outcome size iterations s o s') /\
  (forall size iterations (s : cstate W),
     Z.of_nat size * sizeof_int <= SIZE_MAX ->
     Z.of_nat size * Z.of_nat iterations * (MAX_NUMBER - 1) <= LONG_MAX ->
     wp (performCalculation junk size iterations)
       (fun sum s' => calculated size iterations sum s s')
       (fun c s' => out_of_memory size c s s') s) /\
  part (failing ["malloc"] ["fork"] []) (performCalculation junk MAX_NUMBERS NUM_ITERATIONS : C W Z)
    (fun sum => 0 <= sum <= LARGEST_SUM) /\
  (forall s, clock_ends (Clock.main junk) s) /\
  reports (failing ["malloc"] ["fork"] []) (TimesProgram.main junk) /\
  reports (failing ["malloc"] ["fork"] []) (Getrusage.main junk).
Proof.
  split_and!.
  - intros size iterations s Hb. by apply calculation.
  - intros size iterations s. by apply calculation_fits.
  - by apply performCalculation_part.
  - by apply clock_reports.
  - by apply times_reports.
  - by apply getrusage_reports.
Qed.

(** A system that always draws the largest number and whose clocks stand still. *)
Module Still.
Definition kernel : Kernel unit := fun c w =>
  (sys_ok (match c with SArc4random bound => bound - 1 | _ => 7 end), w).
Definition usage : Usage := {| tms := fun _ _ => 0; ru := fun _ _ => 0 |}.

Lemma random_below : @RandomBelow unit kernel.
Proof. intros b w r w' Hb [= <- _]. simpl. lia. Qed.

Lemma clock_values : @ClockValues unit kernel usage.
Proof. split; intros w r w' [= <- _]; simpl; unfold LONG_MAX; lia. Qed.
End Still.

Lemma calculation_exact_witness :
  let _ : Kernel unit := Still.kernel in
  let junk n := replicate n 1 in
  fst (performCalculation junk 3 2 (start tt)) = Val 594 /\
  wp (performCalculation junk 3 2)
    (fun sum s' => calculated 3 2 sum (start tt) s')
    (fun c s' => out_of_memory 3 c (start tt) s') (start tt).
Proof.
  intros k junk. split; [reflexivity|].
  apply (proj1 (proj2 (@calculation_exact unit Still.kernel Still.usage Still.random_below
                  Still.clock_values junk (fun n => length_replicate n 1)))); vm_compute; discriminate.
Defined.
