(* ===== verification/Streams.v ===== *)
(** * Streams and the shell

    The programs of src/streams and src/shell: a Module each, with the functions
    of its [main.c] after the command line.  The functions of stdio are calls; a
    file that was opened is the number its call gave, a standard stream its name.
    The theorems: the four programs that echo their input copy it whole, whatever
    pieces it comes in; the programs that seek show what lies behind the offset. *)

From S2P Require Import Prelude CMonad CString Getopt ArgParse OneOperand OptionPrograms.
From S2P Require Import Reports Strings LineWords Files.

(** Buffering modes (<stdio.h>, GNU). *)
Definition IOFBF : Z := 0.
Definition IOLBF : Z := 1.
Definition IONBF : Z := 2.

(** ** Programs that seek: [display_file] and the calls around it *)

Section Display.
Context {W} `{Kernel W} (fuel : nat).

(** One turn of [while(fread(&ch, sizeof(ch), 1, file) > 0) printf("%c", ch)]. *)
Definition show_turn (file : Z) (_ : unit) : C W (unit + unit) :=
  r ← call "fread" [] [1; 1; file];
  if 0 <? r_val r then out (of_chars (take 1 (r_data r)));; mret (inl tt)
  else mret (inr tt).

Definition display_file (file : Z) (message : string) (offset : Z) : C W unit :=
  out (ln (message +:+ " " +:+ fmt_d offset +:+ ":") +:+ nl);;
  loop fuel (show_turn file) tt.

(** [main] of fseek and of fseeko, which differ in the function they call. *)
Definition seek_and_show (seek : string) (args : string * Z) : C W Z :=
  let '(file_path, offset) := args in
  file ← sys (SFopen file_path "re");
  if fails file then perror_fail "Error opening the file" else
  let file := r_val file in
  display_file file "File contents" 0;;
  call seek [] [file; 0; SEEK_SET];;
  display_file file (nl +:+ nl +:+ "File contents after SEEK_SET") 0;;
  call seek [] [file; 0; SEEK_SET];;
  call seek [] [file; offset; SEEK_CUR];;
  display_file file (nl +:+ nl +:+ "File contents after SEEK_CUR") offset;;
  sys (SFclose file);;
  mret EXIT_SUCCESS.
End Display.

Module Fseek.
Definition display_file {W} `{Kernel W} := display_file (W:=W).
Definition body {W} `{Kernel W} (fuel : nat) : string * Z -> C W Z := seek_and_show fuel "fseek".
Definition main {W} `{Kernel W} (fuel : nat) (argv : list string) : C W Z :=
  streams_fseek.start_up argv ≫= body fuel.
End Fseek.

Module Fseeko.
Definition display_file {W} `{Kernel W} := display_file (W:=W).
Definition body {W} `{Kernel W} (fuel : nat) : string * Z -> C W Z := seek_and_show fuel "fseeko".
Definition main {W} `{Kernel W} (fuel : nat) (argv : list string) : C W Z :=
  streams_fseeko.start_up argv ≫= body fuel.
End Fseeko.

(** ** Opening and errors *)

Module Ferror.
Section Program.
Context {W} `{Kernel W}.
Definition body (file_path : string) : C W Z :=
  file ← sys (SFopen file_path "re");
  if fails file then perror_fail "Error opening the file" else
  let file := r_val file in
  r ← call "fputs" ["This is an attempt to write."] [file];
  (if fails r then
     err ← call "ferror" [] [file];
     if negb (r_val err =? 0) then perror "Error writing to the file"
     else out (ln "End of file or other write error")
   else mret tt);;
  sys (SFclose file);;
  mret EXIT_SUCCESS.
Definition main (argv : list string) : C W Z :=
  start_with streams_ferror.parse_arguments streams_ferror.handle_arguments argv ≫= body.
End Program.
End Ferror.

Module FopenFclose.
Section Program.
Context {W} `{Kernel W} `{ErrorTexts}.
Definition complain (what file_path : string) : C W Z :=
  e ← get_errno;
  eout (ln ("Error " +:+ what +:+ " the file '" +:+ file_path +:+ "': " +:+ strerror e));;
  mret EXIT_FAILURE.
Definition body (file_path : string) : C W Z :=
  file ← sys (SFopen file_path "rbe");
  if fails file then complain "opening" file_path else
  out (ln ("Successfully opened file: " +:+ file_path));;
  r ← sys (SFclose (r_val file));
  if negb (r_val r =? 0) then complain "closing" file_path else
  out (ln ("Successfully closed file: " +:+ file_path));;
  mret EXIT_SUCCESS.
Definition main (argv : list string) : C W Z :=
  start_with streams_fopen.parse_arguments streams_fopen.handle_arguments argv ≫= body.
End Program.
End FopenFclose.

Module Tmpfile.
Definition main {W} `{Kernel W} : C W Z :=
  tempFile ← call "tmpfile" [] [];
  if fails tempFile then perror_fail "Error creating temporary file" else
  out (ln "Temp file created");;
  r ← sys (SFclose (r_val tempFile));
  if fails r then perror_fail "Error closing temporary file" else
  out (ln "Temp file closed");;
  mret EXIT_SUCCESS.
End Tmpfile.

Module FprintfProgram.
Definition body {W} (message : string) : C W Z :=
  out (ln ("The message is: " +:+ message));; mret EXIT_SUCCESS.
Definition main {W} (argv : list string) : C W Z := streams_fprintf.start_up argv ≫= body.
End FprintfProgram.

Module StreamsStd.
Section Program.
Context {W} `{Kernel W}.
Definition main : C W Z :=
  stdin_fd ← call "fileno" ["stdin"] [];
  stdout_fd ← call "fileno" ["stdout"] [];
  stderr_fd ← call "fileno" ["stderr"] [];
  out (ln ("File descriptor for stdin: " +:+ fmt_d (r_val stdin_fd)));;
  out (ln ("File descriptor for stdout: " +:+ fmt_d (r_val stdout_fd)));;
  out (ln ("File descriptor for stderr: " +:+ fmt_d (r_val stderr_fd)));;
  mret EXIT_SUCCESS.
End Program.
End StreamsStd.

(** ** Buffering *)

(** [printf(...); sleep(n);] *)
Definition say_and_sleep {W} `{Kernel W} (text : string) (seconds : Z) : C W unit :=
  out text;; sys (SSleep seconds);; mret tt.

Module Setvbuf.
Section Program.
Context {W} `{Kernel W}.
Definition set_mode (mode : Z) : C W sysret := call "setvbuf" ["stdout"] [mode; 0].
Definition main : C W Z :=
  r ← set_mode IOFBF;
  if negb (r_val r =? 0) then perror_fail "Error setting the vbuf to _IOFBF" else
  say_and_sleep "This is part one... " 1;;
  say_and_sleep (ln "and this is part two.") 1;;
  r ← set_mode IOLBF;
  if negb (r_val r =? 0) then perror_fail "Error setting the vbuf to _IOLBF" else
  say_and_sleep "This is part three... " 1;;
  say_and_sleep (ln "and this is part four.") 1;;
  r ← set_mode IONBF;
  if negb (r_val r =? 0) then perror_fail "Error setting the vbuf to _IONBF" else
  say_and_sleep "This is part five... " 3;;
  say_and_sleep (ln "and this is part six.") 3;;
  mret EXIT_SUCCESS.
End Program.
End Setvbuf.

Module Fflush.
Definition main {W} `{Kernel W} : C W Z :=
  call "setvbuf" ["stdout"] [IOFBF; 0];;
  say_and_sleep "This is part one... " 2;;
  sys (SFflush STDOUT_FILENO);;
  say_and_sleep (ln "and this is part two.") 2;;
  mret EXIT_SUCCESS.
End Fflush.

(** ** Programs that echo their input *)

Section Echo.
Context {W} `{Kernel W} (fuel : nat).
Definition BUFFER_SIZE : Z := 256.

(** [while((ch = fgetc(stdin)) != EOF)] *)
Definition fgetc_turn (_ : unit) : C W (unit + unit) :=
  ch ← call "fgetc" ["stdin"] [];
  if fails ch then mret (inr tt)
  else
    out "you typed: ";;
    out (String (byte_of (r_val ch)) "");;
    out nl;;
    mret (inl tt).

(** [while(fgets(buffer, BUFFER_SIZE, stdin) != NULL)] *)
Definition fgets_turn (_ : unit) : C W (unit + unit) :=
  r ← call "fgets" ["stdin"] [BUFFER_SIZE];
  if fails r then mret (inr tt)
  else
    out "You typed: ";;
    out (of_chars (cstring (r_data r)));;
    mret (inl tt).

(** [while((bytesRead = fread(buffer, 1, BUFFER_SIZE - 1, stdin)) > 0)] *)
Definition fread_turn (_ : unit) : C W (unit + unit) :=
  bytesRead ← call "fread" ["stdin"] [1; BUFFER_SIZE - 1];
  if 0 <? r_val bytesRead then
    out "You typed: ";;
    out (of_chars (take (Z.to_nat (r_val bytesRead)) (r_data bytesRead)));;
    mret (inl tt)
  else mret (inr tt).

(** [while(!feof(stdin)) if(fgets(buffer, BUFFER_SIZE, stdin) != NULL)] *)
Definition feof_turn (_ : unit) : C W (unit + unit) :=
  e ← call "feof" ["stdin"] [];
  if negb (r_val e =? 0) then mret (inr tt)
  else
    r ← call "fgets" ["stdin"] [BUFFER_SIZE];
    (if negb (fails r) then out ("You entered: " +:+ of_chars (cstring (r_data r)))
     else mret tt);;
    mret (inl tt).
End Echo.

Module FgetcFputc.
Definition main {W} `{Kernel W} (fuel : nat) : C W Z :=
  out (ln "Please input some text, end with Ctrl-D:");;
  loop fuel fgetc_turn tt;;
  mret EXIT_SUCCESS.
End FgetcFputc.

Module FgetsFputs.
Definition main {W} `{Kernel W} (fuel : nat) : C W Z :=
  out (ln "Please input some lines, end with Ctrl-D:");;
  loop fuel fgets_turn tt;;
  mret EXIT_SUCCESS.
End FgetsFputs.

Module FreadFwrite.
Definition main {W} `{Kernel W} (fuel : nat) : C W Z :=
  out (ln "Enter some text (press Ctrl+D to stop):");;
  loop fuel fread_turn tt;;
  mret EXIT_SUCCESS.
End FreadFwrite.

Module Feof.
Definition main {W} `{Kernel W} (fuel : nat) : C W Z :=
  out (ln "Enter some text (press Ctrl+D to stop):");;
  loop fuel feof_turn tt;;
  out (nl +:+ ln "Reached the end of input.");;
  mret EXIT_SUCCESS.
End Feof.

(** ** [shell] *)

Module Popen.
Section Program.
Context {W} `{Kernel W} (fuel : nat) (junk : nat -> list byte).
Definition BUFFER_LEN : Z := 128.
Definition redirect : string := " 2>&1".

(** One turn of [while(fgets(buffer, sizeof(buffer), fp) != NULL)]. *)
Definition line_turn (fp : Z) (_ : unit) : C W (unit + unit) :=
  r ← call "fgets" [] [BUFFER_LEN; fp];
  if fails r then mret (inr tt)
  else out (of_chars (cstring (r_data r)));; mret (inl tt).

(** The command with its redirection, in a block of [bytes] bytes. *)
Definition redirected (bytes : nat) (command : string) : C W string :=
  let command_len := String.length command in
  let remaining_len := String.length redirect in
  redirected_command ← strncpy_array (junk bytes) command command_len;
  redirected_command ← array_set redirected_command (Z.of_nat command_len) NUL;
  redirected_command ← strncat_array redirected_command redirect remaining_len;
  string_at redirected_command 0.

Definition body (command : string) : C W Z :=
  let total_len := (String.length command + String.length redirect)%nat in
  r ← sys (SAlloc (Z.of_nat total_len + 1));
  if fails r then perror_fail "malloc" else
  redirected_command ← redirected (total_len + 1) command;
  fp ← call "popen" [redirected_command; "r"] [];
  if fails fp then perror_fail "Error opening pipe" else
  out (ln ("Output of " +:+ quoted command +:+ ":"));;
  loop fuel (line_turn (r_val fp)) tt;;
  r ← call "pclose" [] [r_val fp];
  if fails r then perror_fail "Error closing pipe" else
  mret EXIT_SUCCESS.

Definition main (argv : list string) : C W Z :=
  start_with shell_popen.parse_arguments shell_popen.handle_arguments argv ≫= body.
End Program.
End Popen.

(** The status printed is the one of [waitpid], not the exit status. *)
Module System.
Section Program.
Context {W} `{Kernel W}.
Definition body (command : string) : C W Z :=
  out (ln ("Output of " +:+ quoted command +:+ ":"));;
  status ← call "system" [command] [];
  if fails status then perror_fail "Error executing command" else
  out (ln ("Command exited with status: " +:+ fmt_d (r_val status)));;
  mret EXIT_SUCCESS.
Definition main (argv : list string) : C W Z :=
  start_with shell_system.parse_arguments shell_system.handle_arguments argv ≫= body.
End Program.
End System.

(** ** The command popen runs *)

Section Redirection.
Context {W : Type}.

Lemma cstring_before (l r : list byte) : (length (cstring (l ++ NUL :: r)) <= length l)%nat.
Proof.
  induction l as [|c l IH]; simpl; [lia|]. destruct (c =?c NUL)%c; simpl; lia.
Qed.

Lemma array_set_middle {A} (l r : list A) (x y : A) (i : nat) (s : cstate W) :
  length l = i -> array_set (l ++ x :: r) (Z.of_nat i) y s = (Val (l ++ y :: r), s).
Proof.
  intros <-. unfold array_set. rewrite length_app. simpl length.
  rewrite (proj2 (Z.ltb_ge _ _)), (proj2 (Z.leb_gt _ _)) by (simpl; lia). simpl.
  rewrite Nat2Z.id. by rewrite insert_app_r_alt, Nat.sub_diag by lia.
Qed.

Lemma cstring_cut (l r : list byte) : cstring (l ++ NUL :: r) = cstring (l ++ [NUL]).
Proof. induction l as [|c l IH]; simpl; [done|]. by rewrite IH. Qed.

Lemma no_nul_middle (l r : list byte) : no_nul (l ++ NUL :: r) = false.
Proof. apply no_nul_false, elem_of_app. right. left. Qed.

(** [strncat] to an array with a NUL, when there is room for the text. *)
Lemma strncat_fits (l r : list byte) (src : string) (n : nat) (s : cstate W) :
  (Nat.min n (String.length src) <= length r)%nat ->
  strncat_array (l ++ NUL :: r) src n s =
    (Val (overwrite (cstring (l ++ [NUL]) ++ take n (chars src) ++ [NUL]) (l ++ NUL :: r)), s).
Proof.
  intros Hr. unfold strncat_array. rewrite no_nul_middle, cstring_cut. simpl orb.
  rewrite (proj2 (Nat.ltb_ge _ _)); [done|]. pose proof (cstring_before l []).
  rewrite !length_app, length_take, length_chars. simpl. lia.
Qed.

(** The block is large enough for whatever the command is. *)
Lemma redirected_array (junk : nat -> list byte) (command : string) (s : cstate W) :
  let size := (String.length command + String.length Popen.redirect + 1)%nat in
  length (junk size) = size ->
  Popen.redirected junk size command s =
    (Val (of_chars (cstring (chars command ++ [NUL]) ++ chars Popen.redirect)), s).
Proof.
  intros size Hj. unfold Popen.redirected, strncpy_array.
  rewrite (proj2 (Nat.ltb_ge _ _)) by lia. rewrite bind_ret. unfold strncpy.
  rewrite Nat.sub_diag, app_nil_r, take_ge by (rewrite length_chars; lia).
  unfold overwrite at 1. rewrite length_chars.
  destruct (drop (String.length command) (junk size)) as [|c r] eqn:Ed;
    apply (f_equal length) in Ed; rewrite length_drop, Hj in Ed; simpl in Ed; [lia|].
  erewrite bind_val by (apply array_set_middle, length_chars).
  erewrite bind_val by (apply strncat_fits; subst size; change (String.length Popen.redirect) with 5%nat in *; lia).
  unfold string_at. rewrite drop_0. unfold overwrite. rewrite <- !app_assoc. cbn [app].
  rewrite app_assoc, no_nul_middle, cstring_app_nul; [done|].
  apply not_elem_of_app. split; [apply cstring_no_nul|].
  by apply no_nul_spec.
Qed.

Lemma redirected_command (junk : nat -> list byte) (command : string) (s : cstate W) :
  let size := (String.length command + String.length Popen.redirect + 1)%nat in
  length (junk size) = size -> NUL ∉ chars command ->
  Popen.redirected junk size command s = (Val (command +:+ Popen.redirect), s).
Proof.
  intros size Hj Hc. subst size. rewrite redirected_array by done.
  rewrite cstring_app_nul by done. by rewrite <- chars_app, of_chars_chars.
Qed.
End Redirection.

(** ** Echoing *)

(** Standard input as the C library shows it: the bytes that are left and the
    end-of-file indicator. *)
Class InputStream (W : Type) `{Kernel W} := {
  unread : W -> list byte;
  at_end : W -> bool;
  at_end_unread : forall w, at_end w = true -> unread w = [];
  fgetc_law : forall w r w', kcall (SCall "fgetc" ["stdin"] []) w = (r, w') ->
    match unread w with
    | [] => r_val r = -1
    | c :: rest => r_val r = byte_val c /\ unread w' = rest
    end;
  fgets_law : forall n w r w', kcall (SCall "fgets" ["stdin"] [n]) w = (r, w') ->
    match fgets (Z.to_nat n) (unread w) with
    | None => r_val r = -1 /\ unread w' = [] /\ at_end w' = true
    | Some (line, rest) => r_val r <> -1 /\ r_data r = line ++ [NUL] /\ unread w' = rest
    end;
  fread_law : forall n w r w', kcall (SCall "fread" ["stdin"] [1; n]) w = (r, w') ->
    r_data r = take (Z.to_nat n) (unread w) /\ r_val r = Z.of_nat (length (r_data r)) /\
    unread w' = drop (Z.to_nat n) (unread w);
  feof_law : forall w r w', kcall (SCall "feof" ["stdin"] []) w = (r, w') ->
    (r_val r =? 0) = negb (at_end w) /\ unread w' = unread w /\ at_end w' = at_end w;
}.

Section EchoFacts.
Context {W} `{InputStream W}.
Implicit Types s : cstate W.

(** [m] returns [a] and has written [text] to stdout. *)
Definition writes {A} (m : C W A) (a : A) (text : string) s : Prop :=
  exists s', m s = (Val a, s') /\ stdout_of (trace s') = stdout_of (trace s) +:+ text.

(** A turn prints the next piece of what is left; at the end of the input the loop
    is left after two turns at most. *)
Definition echoes (show : list byte -> string) (bound : nat)
    (turn : unit -> C W (unit + unit)) : Prop :=
  forall s, NUL ∉ unread (world s) ->
    match unread (world s) with
    | [] => forall k, exists s', loop (S (S k)) turn tt s = (Val tt, s') /\
        stdout_of (trace s') = stdout_of (trace s)
    | _ => exists piece s', piece <> [] /\ (length piece <= bound)%nat /\
        turn tt s = (Val (inl tt), s') /\ unread (world s) = piece ++ unread (world s') /\
        stdout_of (trace s') = stdout_of (trace s) +:+ show piece
    end.

Lemma echo_loop show bound turn fuel s :
  echoes show bound turn -> NUL ∉ unread (world s) -> (S (length (unread (world s))) < fuel)%nat ->
  exists pieces, concat pieces = unread (world s) /\
    Forall (fun p => p <> [] /\ (length p <= bound)%nat) pieces /\
    writes (loop fuel turn tt) tt (fold_right (fun p t => show p +:+ t) "" pieces) s.
Proof.
  intros Ht. revert s. induction fuel as [|fuel IH]; intros s Hn Hf; [lia|].
  pose proof (Ht s Hn) as He. destruct (unread (world s)) as [|c rest] eqn:Eu.
  - destruct fuel as [|fuel]; [simpl in Hf; lia|]. destruct (He fuel) as (s' & E & Eo).
    exists []. split_and!; [done|constructor|]. exists s'. rewrite Eo. split; [done|].
    by rewrite string_app_nil_r.
  - destruct He as (piece & s1 & Hp & Hb & E & Er & Eo).
    destruct (IH s1) as (pieces & Hc & Hall & s' & E' & Eo').
    { rewrite Er in Hn. by apply not_elem_of_app in Hn as [_ ?]. }
    { rewrite Er, length_app in Hf. destruct piece; [done|]. simpl in Hf. lia. }
    exists (piece :: pieces). split_and!; [simpl; by rewrite Hc|by constructor|].
    exists s'. cbn [loop]. erewrite bind_val by done. split; [done|]. simpl.
    by rewrite Eo', Eo, string_app_assoc.
Qed.

(** A program that says something, echoes, and says something else. *)
Lemma echo_main show bound turn fuel first final s :
  echoes show bound turn -> NUL ∉ unread (world s) -> (S (length (unread (world s))) < fuel)%nat ->
  exists pieces, concat pieces = unread (world s) /\
    Forall (fun p => p <> [] /\ (length p <= bound)%nat) pieces /\
    forall m : C W Z, (forall s', writes m EXIT_SUCCESS final s') ->
    writes (out first;; loop fuel turn tt;; m) EXIT_SUCCESS
      (first +:+ fold_right (fun p t => show p +:+ t) "" pieces +:+ final) s.
Proof.
  intros Ht Hn Hf. set (s1 := CState (errno s) (trace s ++ [EOut first]) (world s)).
  destruct (echo_loop show bound turn fuel s1 Ht Hn Hf) as (pieces & Hc & Hall & s2 & E & Eo).
  exists pieces. split_and!; [done..|]. intros m Hm. destruct (Hm s2) as (s3 & E3 & Eo3).
  exists s3. erewrite bind_val by reflexivity. fold s1. erewrite bind_val by done.
  split; [done|]. rewrite Eo3, Eo. subst s1. simpl. rewrite stdout_of_app. simpl.
  by rewrite !string_app_assoc, string_app_nil_r.
Qed.

(** *** The four turns *)

Lemma echoes_end turn s (s' : cstate W) : turn tt s = (Val (inr tt), s') ->
  stdout_of (trace s') = stdout_of (trace s) ->
  forall k, exists s', loop (S (S k)) turn tt s = (Val tt, s') /\
    stdout_of (trace s') = stdout_of (trace s).
Proof. intros E Eo k. exists s'. cbn [loop]. by erewrite bind_val by done. Qed.

Lemma call_run name texts numbers s : exists r w e,
  kcall (SCall name texts numbers) (world s) = (r, w) /\
  call name texts numbers s = (Val r, CState e (trace s ++ [ESys (SCall name texts numbers) r]) w).
Proof.
  unfold call, sys. destruct (kcall _ (world s)) as [r w] eqn:E. eauto.
Qed.

Lemma fgetc_echoes :
  echoes (fun p => "you typed: " +:+ of_chars p +:+ nl) 1 fgetc_turn.
Proof.
  intros s Hn. destruct (call_run "fgetc" ["stdin"] [] s) as (r & w & e & Ek & Ec).
  pose proof (fgetc_law _ _ _ Ek) as Hl. unfold fgetc_turn at 1.
  destruct (unread (world s)) as [|c rest].
  - eapply echoes_end.
    + unfold fgetc_turn. erewrite bind_val by done. unfold fails. by rewrite Hl.
    + simpl. rewrite stdout_of_app. apply string_app_nil_r.
  - destruct Hl as [Hr Hu]. exists [c]. eexists. split_and!; [done..| | |].
    + unfold fgetc_turn. erewrite bind_val by done. unfold fails. rewrite Hr.
      rewrite (proj2 (Z.eqb_neq _ _)) by (pose proof (byte_val_range c); lia).
      rewrite byte_of_val. reflexivity.
    + simpl. by rewrite Hu.
    + simpl. rewrite <- !app_assoc, stdout_of_app. done.
Qed.

Lemma cstring_line (line : list byte) : NUL ∉ line -> cstring (line ++ [NUL]) = line.
Proof. apply cstring_app_nul. Qed.

(** What a call of [fgets] on stdin does to a stream without NULs. *)
Lemma fgets_call s : NUL ∉ unread (world s) -> exists r s1,
  call "fgets" ["stdin"] [BUFFER_SIZE] s = (Val r, s1) /\
  stdout_of (trace s1) = stdout_of (trace s) /\
  match unread (world s) with
  | [] => fails r = true /\ unread (world s1) = [] /\ at_end (world s1) = true
  | _ => fails r = false /\ exists line, line <> [] /\ (length line <= 255)%nat /\
      cstring (r_data r) = line /\ unread (world s) = line ++ unread (world s1)
  end.
Proof.
  intros Hn. destruct (call_run "fgets" ["stdin"] [BUFFER_SIZE] s) as (r & w & e & Ek & Ec).
  eexists r, _. split_and!; [done|simpl; rewrite stdout_of_app; apply string_app_nil_r|].
  pose proof (fgets_law _ _ _ _ Ek) as Hl. change (Z.to_nat BUFFER_SIZE) with 256%nat in Hl.
  unfold fails. destruct (unread (world s)) as [|c u] eqn:Eu.
  - simpl in Hl. destruct Hl as (-> & ? & ?). done.
  - rewrite <- Eu in *. destruct (fgets 256 (unread (world s))) as [[line rest]|] eqn:E.
    + destruct Hl as (Hr & Hd & Hu). apply fgets_some in E as (Ea & Hne & Hlen & _); [|lia].
      split; [by apply Z.eqb_neq|]. exists line. simpl. rewrite Hd, Hu.
      split_and!; [done|lia| |done]. apply cstring_line. rewrite Ea in Hn.
      by apply not_elem_of_app in Hn as [? _].
    + rewrite Eu in E. done.
Qed.

Lemma fgets_echoes : echoes (fun p => "You typed: " +:+ of_chars p) 255 fgets_turn.
Proof.
  intros s Hn. destruct (fgets_call s Hn) as (r & s1 & E & Eo & Hl).
  destruct (unread (world s)) as [|c u].
  - destruct Hl as (Hr & _). eapply echoes_end; [|exact Eo].
    unfold fgets_turn. erewrite bind_val by done. by rewrite Hr.
  - destruct Hl as (Hr & line & Hne & Hlen & Hc & Hu). exists line. eexists.
    split_and!; [done..| | |].
    + unfold fgets_turn. erewrite bind_val by done. rewrite Hr, Hc. reflexivity.
    + done.
    + simpl. rewrite <- app_assoc, stdout_of_app, Eo. simpl. by rewrite string_app_nil_r.
Qed.

Lemma fread_echoes : echoes (fun p => "You typed: " +:+ of_chars p) 255 fread_turn.
Proof.
  intros s _. destruct (call_run "fread" ["stdin"] [1; BUFFER_SIZE - 1] s) as (r & w & e & Ek & Ec).
  destruct (fread_law _ _ _ _ Ek) as (Hd & Hv & Hu).
  change (Z.to_nat (BUFFER_SIZE - 1)) with 255%nat in *.
  destruct (unread (world s)) as [|c u] eqn:Eu.
  - eapply echoes_end.
    + unfold fread_turn. erewrite bind_val by done. rewrite Hv, Hd. done.
    + simpl. rewrite stdout_of_app. apply string_app_nil_r.
  - rewrite <- Eu in *. exists (take 255 (unread (world s))). eexists.
    split_and!; [by rewrite Eu|rewrite length_take; lia| | |].
    + unfold fread_turn. erewrite bind_val by done.
      rewrite (proj2 (Z.ltb_lt _ _)) by (rewrite Hv, Hd, Eu; simpl; lia).
      rewrite Hv, Nat2Z.id, firstn_all, Hd. reflexivity.
    + simpl. by rewrite Hu, take_drop.
    + simpl. rewrite <- !app_assoc, stdout_of_app. simpl. by rewrite string_app_nil_r.
Qed.

Lemma feof_call s : exists e s1,
  call "feof" ["stdin"] [] s = (Val e, s1) /\ stdout_of (trace s1) = stdout_of (trace s) /\
  (r_val e =? 0) = negb (at_end (world s)) /\ unread (world s1) = unread (world s).
Proof.
  destruct (call_run "feof" ["stdin"] [] s) as (r & w & e & Ek & Ec).
  destruct (feof_law _ _ _ Ek) as (Hv & Hu & _). eexists r, _.
  split_and!; [done|simpl; rewrite stdout_of_app; apply string_app_nil_r|done|done].
Qed.

Lemma feof_echoes : echoes (fun p => "You entered: " +:+ of_chars p) 255 feof_turn.
Proof.
  intros s Hn. destruct (feof_call s) as (e & s1 & E & Eo & Hv & Hu).
  destruct (unread (world s)) as [|c u] eqn:Eu.
  - destruct (at_end (world s)) eqn:Ea.
    { eapply echoes_end; [|exact Eo]. unfold feof_turn. erewrite bind_val by done. by rewrite Hv. }
    destruct (fgets_call s1) as (r & s2 & E2 & Eo2 & Hl); [rewrite Hu; apply not_elem_of_nil|].
    rewrite Hu in Hl. destruct Hl as (Hr & Hu2 & Ha2).
    destruct (feof_call s2) as (e3 & s3 & E3 & Eo3 & Hv3 & _). rewrite Ha2 in Hv3.
    assert (feof_turn tt s = (Val (inl tt), s2)) as T1.
    { unfold feof_turn. erewrite bind_val by done. rewrite Hv. simpl.
      erewrite bind_val by done. by rewrite Hr. }
    assert (feof_turn tt s2 = (Val (inr tt), s3)) as T2.
    { unfold feof_turn. erewrite bind_val by done. by rewrite Hv3. }
    intros k. exists s3. cbn [loop]. split; [|congruence].
    erewrite bind_val by exact T1. cbv beta iota. by erewrite bind_val by exact T2.
  - destruct (at_end (world s)) eqn:Ea; [by apply at_end_unread in Ea; rewrite Ea in Eu|].
    destruct (fgets_call s1) as (r & s2 & E2 & Eo2 & Hl); [by rewrite Hu|].
    rewrite Hu in Hl. destruct Hl as (Hr & line & Hne & Hlen & Hc & Hu2). exists line. eexists.
    split_and!; [done..| | |].
    + unfold feof_turn. erewrite bind_val by done. rewrite Hv. simpl.
      erewrite bind_val by done. rewrite Hr, Hc. reflexivity.
    + done.
    + simpl. rewrite stdout_of_app, Eo2, Eo. simpl. by rewrite string_app_nil_r.
Qed.
End EchoFacts.

(** The programs: their first line, what they show of a piece and how long a piece
    may be, their last line. *)
Record echo_program (W : Type) := EchoProgram {
  echo_run : nat -> C W Z;
  echo_first : string;
  echo_show : list byte -> string;
  echo_bound : nat;
  echo_final : string;
}.
Arguments EchoProgram {W}.
Arguments echo_run {W}.
Arguments echo_first {W}.
Arguments echo_show {W}.
Arguments echo_bound {W}.
Arguments echo_final {W}.

Definition echo_programs {W} `{Kernel W} : list (echo_program W) :=
  [ EchoProgram FgetcFputc.main (ln "Please input some text, end with Ctrl-D:")
      (fun p => "you typed: " +:+ of_chars p +:+ nl) 1 "";
    EchoProgram FgetsFputs.main (ln "Please input some lines, end with Ctrl-D:")
      (fun p => "You typed: " +:+ of_chars p) 255 "";
    EchoProgram FreadFwrite.main (ln "Enter some text (press Ctrl+D to stop):")
      (fun p => "You typed: " +:+ of_chars p) 255 "";
    EchoProgram Feof.main (ln "Enter some text (press Ctrl+D to stop):")
      (fun p => "You entered: " +:+ of_chars p) 255 (nl +:+ ln "Reached the end of input.") ].

Lemma writes_success {W} (s : cstate W) : writes (mret EXIT_SUCCESS) EXIT_SUCCESS "" s.
Proof. exists s. split; [done|]. by rewrite string_app_nil_r. Qed.

Lemma writes_last {W} (text : string) (s : cstate W) :
  writes (out text;; mret EXIT_SUCCESS) EXIT_SUCCESS text s.
Proof.
  eexists. split; [reflexivity|]. simpl. rewrite stdout_of_app. simpl.
  by rewrite string_app_nil_r.
Qed.

(** C29: reading by characters, by lines, by blocks and with [feof] amounts to the
    same: on an input of text (without NULs), with a turn for every byte and two
    more, each of the four programs ends with success and has shown pieces of the
    input, none empty nor longer than its buffer, that make up the whole of it in
    order. *)
Theorem echo_programs_copy {W} `{InputStream W} (fuel : nat) (s : cstate W) :
  NUL ∉ unread (world s) -> (S (length (unread (world s))) < fuel)%nat ->
  Forall (fun P => exists pieces,
    concat pieces = unread (world s) /\
    Forall (fun p => p <> [] /\ (length p <= echo_bound P)%nat) pieces /\
    writes (echo_run P fuel) EXIT_SUCCESS
      (echo_first P +:+ fold_right (fun p t => echo_show P p +:+ t) "" pieces +:+ echo_final P) s)
  echo_programs.
Proof.
  intros Hn Hf. unfold echo_programs.
  repeat constructor; cbn [echo_run echo_first echo_show echo_bound echo_final].
  - destruct (echo_main _ _ _ fuel (ln "Please input some text, end with Ctrl-D:") "" s fgetc_echoes)
      as (ps & ? & ? & Hw); [done..|]. exists ps. split_and!; [done..|]. apply Hw, writes_success.
  - destruct (echo_main _ _ _ fuel (ln "Please input some lines, end with Ctrl-D:") "" s fgets_echoes)
      as (ps & ? & ? & Hw); [done..|]. exists ps. split_and!; [done..|]. apply Hw, writes_success.
  - destruct (echo_main _ _ _ fuel (ln "Enter some text (press Ctrl+D to stop):") "" s fread_echoes)
      as (ps & ? & ? & Hw); [done..|]. exists ps. split_and!; [done..|]. apply Hw, writes_success.
  - destruct (echo_main _ _ _ fuel (ln "Enter some text (press Ctrl+D to stop):")
      (nl +:+ ln "Reached the end of input.") s feof_echoes)
      as (ps & ? & ? & Hw); [done..|]. exists ps. split_and!; [done..|]. apply Hw, writes_last.
Qed.

(** A standard input: its bytes, and whether a read has met its end. *)
Definition typed : Type := list byte * bool.

Definition stdin_read (name : string) (n : nat) (u : list byte) : sysret * typed :=
  if String.eqb name "fgetc" then
    match u with [] => (sys_fail 0, ([], true)) | c :: u => (sys_ok (byte_val c), (u, false)) end
  else if String.eqb name "fgets" then
    match fgets n u with
    | None => (sys_fail 0, ([], true))
    | Some (line, rest) => (sys_data 1 (line ++ [NUL]), (rest, (length rest =? 0)%nat))
    end
  else (sys_data (Z.of_nat (length (take n u))) (take n u), (drop n u, false)).

#[local] Instance typed_kernel : Kernel typed := fun c w =>
  match c with
  | SCall "feof" _ _ => (sys_ok (if snd w && (length (fst w) =? 0)%nat then 1 else 0), w)
  | SCall name _ [n] => stdin_read name (Z.to_nat n) (fst w)
  | SCall name _ [_; n] => stdin_read name (Z.to_nat n) (fst w)
  | SCall name _ _ => stdin_read name 0 (fst w)
  | _ => (sys_ok 0, w)
  end.

#[local] Program Instance typed_stream : InputStream typed := {
  unread := fst;
  at_end := fun w => snd w && (length (fst w) =? 0)%nat;
}.
Next Obligation. intros [[|] []]; done. Qed.
Next Obligation. intros [[|c u] e] r w' [= <- <-]; done. Qed.
Next Obligation.
  intros n [u e] r w'. unfold kcall, typed_kernel, stdin_read. simpl.
  destruct (fgets (Z.to_nat n) u) as [[line rest]|]; by intros [= <- <-].
Qed.
Next Obligation. intros n [u e] r w' [= <- <-]. done. Qed.
Next Obligation. intros [u e] r w' [= <- <-]. simpl. by destruct e, (length u =? 0)%nat. Qed.

Lemma echo_programs_copy_witness :
  let s := start (chars ("ab" +:+ nl +:+ "c"), false) : cstate typed in
  NUL ∉ unread (world s) /\
  Forall (fun P => exists pieces, concat pieces = chars ("ab" +:+ nl +:+ "c") /\
    writes (echo_run P 6) EXIT_SUCCESS
      (echo_first P +:+ fold_right (fun p t => echo_show P p +:+ t) "" pieces +:+ echo_final P) s)
  echo_programs.
Proof.
  intros s. assert (NUL ∉ unread (world s)) as Hn by (apply no_nul_spec; reflexivity).
  split; [exact Hn|].
  eapply Forall_impl; [|exact (echo_programs_copy 6 s Hn ltac:(simpl; lia))].
  intros P (pieces & Hc & _ & Hw). exists pieces. split; [exact Hc|exact Hw].
Defined.

(** ** Seeking *)

(** What reaches the terminal, in the order of the program: the texts for stdout
    and the bytes written to descriptor 1. *)
Fixpoint displayed (t : list event) : string :=
  match t with
  | [] => ""
  | EOut s :: t => s +:+ displayed t
  | ESys (SWrite fd d) _ :: t =>
      (if fd =? STDOUT_FILENO then of_chars d else "") +:+ displayed t
  | _ :: t => displayed t
  end.

Lemma displayed_app t1 t2 : displayed (t1 ++ t2) = displayed t1 +:+ displayed t2.
Proof.
  induction t1 as [|[] t1 IH]; simpl; rewrite ?IH; [done|by rewrite string_app_assoc|done..|].
  destruct c; rewrite ?string_app_assoc; done.
Qed.

(** A file that can be opened and read a byte at a time, by the calls of one of the
    interfaces: [contents] never changes, the position does.  Moving before the
    start fails and moves nothing (lseek(2), fseek(3)). *)
Class SeekableFile (W : Type) `{Kernel W} (open read : syscall) (seek : Z -> Z -> syscall)
    (file : Z) (contents : list byte) := {
  position : W -> nat;
  file_valid : file <> -1;
  open_law : forall w r w', kcall open w = (r, w') -> r_val r = file /\ position w' = 0%nat;
  read_law : forall w r w', kcall read w = (r, w') ->
    match contents !! position w with
    | Some c => r_val r = 1 /\ r_data r = [c] /\ position w' = S (position w)
    | None => r_val r = 0 /\ position w' = position w
    end;
  seek_set_law : forall w r w', kcall (seek 0 SEEK_SET) w = (r, w') -> position w' = 0%nat;
  seek_cur_law : forall offset w r w', kcall (seek offset SEEK_CUR) w = (r, w') ->
    Z.of_nat (position w') = (let p := Z.of_nat (position w) + offset in
                              if p <? 0 then Z.of_nat (position w) else p);
  terminal_law : forall d w r w', kcall (SWrite STDOUT_FILENO d) w = (r, w') ->
    position w' = position w;
}.

Section SeekFacts.
Context {W} `{SeekableFile W open read seek file contents}.
Implicit Types s : cstate W.

(** From position [p], [m] returns something in [Q], displays [text] and leaves the
    file at [p']. *)
Definition moves {A} (m : C W A) (Q : A -> Prop) (text : string) (p p' : nat) : Prop :=
  forall s, position (world s) = p -> exists a s', m s = (Val a, s') /\ Q a /\
    position (world s') = p' /\ displayed (trace s') = displayed (trace s) +:+ text.

Lemma moves_ret {A} (a : A) p : moves (mret a) (eq a) "" p p.
Proof. intros s Hp. exists a, s. by rewrite string_app_nil_r. Qed.

Lemma moves_out text p : moves (out text) (fun _ => True) text p p.
Proof.
  intros s Hp. eexists tt, _. split_and!; [reflexivity|done|done|]. simpl.
  rewrite displayed_app. simpl. by rewrite string_app_nil_r.
Qed.

Lemma moves_bind {A B} (m : C W A) (f : A -> C W B) Q R t1 t2 t p1 p2 p3 :
  moves m Q t1 p1 p2 -> (forall a, Q a -> moves (f a) R t2 p2 p3) -> t = t1 +:+ t2 ->
  moves (m ≫= f) R t p1 p3.
Proof.
  intros Hm Hf -> s Hp. destruct (Hm s Hp) as (a & s1 & E1 & Ha & Hp1 & D1).
  destruct (Hf a Ha s1 Hp1) as (b & s2 & E2 & Hb & Hp2 & D2).
  exists b, s2. erewrite bind_val by done. split_and!; [done..|].
  by rewrite D2, D1, string_app_assoc.
Qed.

Lemma moves_sys c Q text p p' :
  (forall w r w', kcall c w = (r, w') -> position w = p ->
     Q r /\ position w' = p' /\ displayed [ESys c r] = text) ->
  moves (sys c) Q text p p'.
Proof.
  intros Hc s Hp. unfold sys. destruct (kcall c (world s)) as [r w'] eqn:E.
  destruct (Hc _ _ _ E Hp) as (Hq & Hp' & Hd). eexists r, _.
  split_and!; [reflexivity|done|done|]. simpl. by rewrite displayed_app, Hd.
Qed.

Definition quiet_call (c : syscall) : bool :=
  match c with SWrite _ _ => false | _ => true end.

Lemma displayed_quiet c r : quiet_call c = true -> displayed [ESys c r] = "".
Proof. by destruct c. Qed.

Lemma moves_open : quiet_call open = true ->
  forall p, moves (sys open) (fun r => r_val r = file) "" p 0.
Proof.
  intros Hq p. apply moves_sys. intros w r w' E _. destruct (open_law _ _ _ E) as [??].
  by rewrite displayed_quiet.
Qed.

Lemma moves_seek_set : quiet_call (seek 0 SEEK_SET) = true ->
  forall p, moves (sys (seek 0 SEEK_SET)) (fun _ => True) "" p 0.
Proof.
  intros Hq p. apply moves_sys. intros w r w' E _.
  by rewrite displayed_quiet, (seek_set_law _ _ _ E).
Qed.

Lemma moves_seek_cur offset : quiet_call (seek offset SEEK_CUR) = true ->
  moves (sys (seek offset SEEK_CUR)) (fun _ => True) "" 0 (Z.to_nat (Z.max 0 offset)).
Proof.
  intros Hq. apply moves_sys. intros w r w' E Hp. rewrite displayed_quiet by done.
  split_and!; [done| |done]. pose proof (seek_cur_law _ _ _ _ E) as Hl. rewrite Hp in Hl.
  cbv zeta in Hl. change (Z.of_nat 0) with 0 in Hl. rewrite Z.add_0_l in Hl.
  destruct (Z.ltb_spec offset 0); lia.
Qed.

(** A turn of a display loop. *)
Definition displays (turn : unit -> C W (unit + unit)) : Prop := forall p,
  match contents !! p with
  | Some c => moves (turn tt) (eq (inl tt)) (String c "") p (S p)
  | None => moves (turn tt) (eq (inr tt)) "" p p
  end.

Lemma display_loop turn fuel p : displays turn -> (length contents < fuel + p)%nat ->
  (p <= length contents)%nat ->
  moves (loop fuel turn tt) (fun _ => True) (of_chars (drop p contents)) p (length contents).
Proof.
  intros Ht. revert p. induction fuel as [|fuel IH]; intros p Hf Hp; [lia|].
  cbn [loop]. pose proof (Ht p) as Hturn. destruct (contents !! p) as [c|] eqn:E.
  - rewrite (drop_S _ _ _ E). apply lookup_lt_Some in E as Hlt.
    eapply moves_bind; [exact Hturn| |reflexivity]. intros ? <-. apply IH; lia.
  - apply lookup_ge_None in E. assert (p = length contents) as -> by lia. rewrite drop_all.
    eapply moves_bind; [exact Hturn| |reflexivity]. intros ? <-.
    intros s Hs. exists tt, s. by rewrite string_app_nil_r.
Qed.

(** A position behind the end displays nothing. *)
Lemma display_behind turn fuel p : displays turn -> (length contents < fuel)%nat ->
  (length contents < p)%nat ->
  moves (loop fuel turn tt) (fun _ => True) (of_chars (drop p contents)) p p.
Proof.
  intros Ht Hf Hp. destruct fuel as [|fuel]; [lia|]. cbn [loop]. rewrite drop_ge by lia.
  pose proof (Ht p) as Hturn. rewrite lookup_ge_None_2 in Hturn by lia.
  eapply moves_bind; [exact Hturn| |reflexivity]. intros ? <-. intros s Hs. exists tt, s.
  by rewrite string_app_nil_r.
Qed.

Lemma display_from turn fuel p : displays turn -> (length contents < fuel)%nat ->
  exists p', moves (loop fuel turn tt) (fun _ => True) (of_chars (drop p contents)) p p'.
Proof.
  intros Ht Hf. destruct (decide (p <= length contents)%nat);
    eexists; [apply display_loop|apply display_behind]; auto; lia.
Qed.
End SeekFacts.

(** What the three programs display: the whole file, the same after going back to
    its start, and what lies behind the offset. *)
Definition seek_display (contents : list byte) (offset : Z) : string :=
  ln ("File contents " +:+ fmt_d 0 +:+ ":") +:+ nl +:+ of_chars contents +:+
  ln (nl +:+ nl +:+ "File contents after SEEK_SET " +:+ fmt_d 0 +:+ ":") +:+ nl +:+
  of_chars contents +:+
  ln (nl +:+ nl +:+ "File contents after SEEK_CUR " +:+ fmt_d offset +:+ ":") +:+ nl +:+
  of_chars (drop (Z.to_nat (Z.max 0 offset)) contents).

Definition stream_read (file : Z) : syscall := SCall "fread" [] [1; 1; file].
Definition stream_seek (name : string) (file offset whence : Z) : syscall :=
  SCall name [] [file; offset; whence].
Definition read_only (path : string) : syscall := SOpen path (Z.lor O_RDONLY O_CLOEXEC).

Section SeekPrograms.
Context {W} `{Kernel W} (contents : list byte) (file : Z) (path : string).

Lemma show_turn_displays name `{!SeekableFile W (SFopen path "re") (stream_read file)
    (stream_seek name file) file contents} : displays (contents:=contents) (show_turn file).
Proof.
  intros p. pose proof read_law as Hread. destruct (contents !! p) as [c|] eqn:E.
  - eapply (moves_bind _ _ (fun r => r_val r = 1 /\ r_data r = [c]) _ "" (String c "")); [| |done].
    + apply moves_sys. intros w r w' Ek Hp. specialize (Hread _ _ _ Ek). rewrite Hp, E in Hread.
      by destruct Hread as (? & ? & ?).
    + intros r [Hv Hd]. rewrite Hv, Hd. eapply moves_bind; [apply moves_out| |].
      * intros _ _. apply moves_ret.
      * done.
  - eapply (moves_bind _ _ (fun r => r_val r = 0) _ "" ""); [| |done].
    + apply moves_sys. intros w r w' Ek Hp. specialize (Hread _ _ _ Ek). rewrite Hp, E in Hread.
      by destruct Hread.
    + intros r Hv. rewrite Hv. apply moves_ret.
Qed.

Lemma copy_turn_displays `{!SeekableFile W (read_only path) (SRead file 1)
    (SLseek file) file contents} : displays (contents:=contents) (Lseek.copy_turn file).
Proof.
  intros p. pose proof read_law as Hread. destruct (contents !! p) as [c|] eqn:E.
  - eapply (moves_bind _ _ (fun r => r_val r = 1 /\ r_data r = [c]) _ "" (String c "")); [| |done].
    + apply moves_sys. intros w r w' Ek Hp. specialize (Hread _ _ _ Ek). rewrite Hp, E in Hread.
      by destruct Hread as (? & ? & ?).
    + intros r [Hv Hd]. rewrite Hv, Hd. eapply (moves_bind _ _ (fun _ => True) _ (String c "") "").
      * apply moves_sys. intros w r' w' Ek Hp. by rewrite (terminal_law _ _ _ _ Ek).
      * intros _ _. apply moves_ret.
      * done.
  - eapply (moves_bind _ _ (fun r => r_val r = 0) _ "" ""); [| |done].
    + apply moves_sys. intros w r w' Ek Hp. specialize (Hread _ _ _ Ek). rewrite Hp, E in Hread.
      by destruct Hread.
    + intros r Hv. rewrite Hv. apply moves_ret.
Qed.

(** A heading and what a display loop shows behind position [p]. *)
Lemma heading_and_loop `{!SeekableFile W open read seek file contents} turn fuel heading p :
  displays (contents:=contents) turn -> (length contents < fuel)%nat ->
  exists p', moves (contents:=contents) (out heading;; loop fuel turn tt) (fun _ => True)
    (heading +:+ of_chars (drop p contents)) p p'.
Proof.
  intros Ht Hf. destruct (display_from turn fuel p Ht Hf) as [p' Hl]. exists p'.
  eapply moves_bind; [apply moves_out|intros _ _; exact Hl|done].
Qed.

(** The skeleton of the three programs, without their end. *)
Lemma seek_skeleton `{!SeekableFile W open read seek file contents} turn fuel offset
    (m : sysret -> C W Z) (k : C W Z) h1 h2 h3 (s : cstate W) :
  displays (contents:=contents) turn -> (length contents < fuel)%nat ->
  quiet_call open = true -> (forall o w, quiet_call (seek o w) = true) ->
  (forall r, r_val r = file -> m r =
    ((out h1;; loop fuel turn tt);;
     sys (seek 0 SEEK_SET);;
     (out h2;; loop fuel turn tt);;
     sys (seek 0 SEEK_SET);;
     sys (seek offset SEEK_CUR);;
     (out h3;; loop fuel turn tt);;
     k)) ->
  exists s', (r ← sys open; m r) s = k s' /\
   displayed (trace s') = displayed (trace s) +:+
     h1 +:+ of_chars contents +:+ h2 +:+ of_chars contents +:+ h3 +:+
     of_chars (drop (Z.to_nat (Z.max 0 offset)) contents).
Proof.
  intros Ht Hf Ho Hs Hm. set (q := Z.to_nat (Z.max 0 offset)).
  destruct (heading_and_loop turn fuel h1 0 Ht Hf) as [p1 H1].
  destruct (heading_and_loop turn fuel h2 0 Ht Hf) as [p2 H2].
  destruct (heading_and_loop turn fuel h3 q Ht Hf) as [p3 H3]. rewrite drop_0 in H1, H2.
  destruct (moves_open Ho (position (world s)) s eq_refl) as (r & s1 & E1 & Hr & P1 & D1).
  destruct (H1 s1 P1) as ([] & s2 & E2 & _ & P2 & D2).
  destruct (moves_seek_set (Hs _ _) p1 s2 P2) as (r3 & s3 & E3 & _ & P3 & D3).
  destruct (H2 s3 P3) as ([] & s4 & E4 & _ & P4 & D4).
  destruct (moves_seek_set (Hs _ _) p2 s4 P4) as (r5 & s5 & E5 & _ & P5 & D5).
  destruct (moves_seek_cur offset (Hs _ _) s5 P5) as (r6 & s6 & E6 & _ & P6 & D6).
  destruct (H3 s6 P6) as ([] & s7 & E7 & _ & P7 & D7).
  exists s7. split.
  - erewrite bind_val by exact E1. rewrite (Hm r Hr).
    do 5 (erewrite bind_val by eassumption). by erewrite bind_val by eassumption.
  - rewrite D7, D6, D5, D4, D3, D2, D1. by rewrite !string_app_nil_r, !string_app_assoc.
Qed.

(** The end: a call that displays nothing. *)
Lemma quiet_end c (s : cstate W) : quiet_call c = true -> exists s',
  (sys c;; mret EXIT_SUCCESS : C W Z) s = (Val EXIT_SUCCESS, s') /\
  displayed (trace s') = displayed (trace s).
Proof.
  intros Hq. unfold mbind, C_bind, sys. destruct (kcall c (world s)) as [r w].
  eexists. split; [reflexivity|]. simpl. rewrite displayed_app, displayed_quiet by done.
  apply string_app_nil_r.
Qed.

Lemma lseek_displays `{!SeekableFile W (read_only path) (SRead file 1) (SLseek file) file contents}
    fuel offset (s : cstate W) : (length contents < fuel)%nat ->
  exists s', Lseek.body fuel (path, offset) s = (Val EXIT_SUCCESS, s') /\
    displayed (trace s') = displayed (trace s) +:+ seek_display contents offset.
Proof.
  intros Hf. unfold Lseek.body.
  lazymatch goal with |- context [(mbind ?m (sys _)) s] =>
    edestruct (seek_skeleton (Lseek.copy_turn file) fuel offset m) as (s1 & E1 & D1);
      [apply copy_turn_displays|done|done|done| |]
  end.
  { intros r Hr. unfold fails. rewrite Hr, (proj2 (Z.eqb_neq _ _)) by apply file_valid.
    reflexivity. }
  destruct (quiet_end (SClose file) s1 eq_refl) as (s2 & E2 & D2).
  exists s2. split; [exact (eq_trans E1 E2)|]. rewrite D2, D1. unfold seek_display.
  by rewrite !string_app_assoc.
Qed.

Lemma stream_displays name `{!SeekableFile W (SFopen path "re") (stream_read file)
    (stream_seek name file) file contents} fuel offset (s : cstate W) :
  (length contents < fuel)%nat ->
  exists s', seek_and_show fuel name (path, offset) s = (Val EXIT_SUCCESS, s') /\
    displayed (trace s') = displayed (trace s) +:+ seek_display contents offset.
Proof.
  intros Hf. unfold seek_and_show.
  lazymatch goal with |- context [(mbind ?m (sys _)) s] =>
    edestruct (seek_skeleton (show_turn file) fuel offset m) as (s1 & E1 & D1);
      [by eapply show_turn_displays|done|done|done| |]
  end.
  { intros r Hr. unfold fails. rewrite Hr, (proj2 (Z.eqb_neq _ _)) by apply file_valid.
    reflexivity. }
  destruct (quiet_end (SFclose file) s1 eq_refl) as (s2 & E2 & D2).
  exists s2. split; [exact (eq_trans E1 E2)|]. rewrite D2, D1. unfold seek_display.
  by rewrite !string_app_assoc.
Qed.
End SeekPrograms.

(** Lseek, fseek and fseeko show the same: when the file can be opened, each of the
    three programs displays, with enough turns to read it, the whole file, the whole
    file again after seeking back to its start, and what lies behind the offset of
    its command line; a negative offset moves nothing, one behind the end leaves
    nothing to show. *)
Theorem seek_programs_show {W} `{Kernel W} (contents : list byte) (fd file : Z) (path : string)
    (offset : Z) (fuel : nat) (s : cstate W)
    `{!SeekableFile W (read_only path) (SRead fd 1) (SLseek fd) fd contents}
    `{!SeekableFile W (SFopen path "re") (stream_read file) (stream_seek "fseek" file) file contents}
    `{!SeekableFile W (SFopen path "re") (stream_read file) (stream_seek "fseeko" file) file contents} :
  (length contents < fuel)%nat ->
  Forall (fun body : nat -> string * Z -> C W Z =>
    exists s', body fuel (path, offset) s = (Val EXIT_SUCCESS, s') /\
      displayed (trace s') = displayed (trace s) +:+ seek_display contents offset)
  [Lseek.body; Fseek.body; Fseeko.body].
Proof.
  intros Hf. repeat constructor; [by eapply lseek_displays|by eapply stream_displays..].
Qed.

(** A disk with one file: the state is the position. *)
Definition disk_text : list byte := chars "abc".

Definition disk_seek (offset whence : Z) (p : nat) : sysret * nat :=
  let q := (if whence =? SEEK_SET then 0 else Z.of_nat p) + offset in
  if q <? 0 then (sys_fail 22, p) else (sys_ok 0, Z.to_nat q).

Definition disk_read (p : nat) : sysret * nat :=
  match disk_text !! p with Some c => (sys_data 1 [c], S p) | None => (sys_ok 0, p) end.

#[local] Instance disk_kernel : Kernel nat := fun c p =>
  match c with
  | SOpen _ _ | SFopen _ _ => (sys_ok 3, O)
  | SRead _ _ => disk_read p
  | SLseek _ offset whence => disk_seek offset whence p
  | SCall "fread" _ _ => disk_read p
  | SCall _ _ [_; offset; whence] => disk_seek offset whence p
  | _ => (sys_ok 0, p)
  end.

Lemma disk_seek_cur offset p r p' : disk_seek offset SEEK_CUR p = (r, p') ->
  Z.of_nat p' = (let q := Z.of_nat p + offset in if q <? 0 then Z.of_nat p else q).
Proof.
  unfold disk_seek. change (SEEK_CUR =? SEEK_SET) with false. cbv beta iota zeta.
  destruct (Z.ltb_spec (Z.of_nat p + offset) 0); intros [= <- <-]; lia.
Qed.

Lemma disk_read_spec p r p' : disk_read p = (r, p') ->
  match disk_text !! p with
  | Some c => r_val r = 1 /\ r_data r = [c] /\ p' = S p
  | None => r_val r = 0 /\ p' = p
  end.
Proof. unfold disk_read. destruct (disk_text !! p); by intros [= <- <-]. Qed.

#[local] Program Instance disk_descriptor :
  SeekableFile nat (read_only "f") (SRead 3 1) (SLseek 3) 3 disk_text := { position := id }.
Next Obligation. done. Qed.
Next Obligation. by intros w r w' [= <- <-]. Qed.
Next Obligation. intros w r w' E. exact (disk_read_spec _ _ _ E). Qed.
Next Obligation. by intros w r w' [= <- <-]. Qed.
Next Obligation. intros o w r w' E. exact (disk_seek_cur _ _ _ _ E). Qed.
Next Obligation. by intros d w r w' [= <- <-]. Qed.

#[local] Program Instance disk_fseek :
  SeekableFile nat (SFopen "f" "re") (stream_read 3) (stream_seek "fseek" 3) 3 disk_text :=
  { position := id }.
Next Obligation. done. Qed.
Next Obligation. by intros w r w' [= <- <-]. Qed.
Next Obligation. intros w r w' E. exact (disk_read_spec _ _ _ E). Qed.
Next Obligation. by intros w r w' [= <- <-]. Qed.
Next Obligation. intros o w r w' E. exact (disk_seek_cur _ _ _ _ E). Qed.
Next Obligation. by intros d w r w' [= <- <-]. Qed.

#[local] Program Instance disk_fseeko :
  SeekableFile nat (SFopen "f" "re") (stream_read 3) (stream_seek "fseeko" 3) 3 disk_text :=
  { position := id }.
Next Obligation. done. Qed.
Next Obligation. by intros w r w' [= <- <-]. Qed.
Next Obligation. intros w r w' E. exact (disk_read_spec _ _ _ E). Qed.
Next Obligation. by intros w r w' [= <- <-]. Qed.
Next Obligation. intros o w r w' E. exact (disk_seek_cur _ _ _ _ E). Qed.
Next Obligation. by intros d w r w' [= <- <-]. Qed.

Lemma seek_programs_show_witness :
  Forall (fun body : nat -> string * Z -> C nat Z =>
    exists s', body 4%nat ("f", 1) (start O) = (Val EXIT_SUCCESS, s') /\
      displayed (trace s') = seek_display disk_text 1)
  [Lseek.body; Fseek.body; Fseeko.body].
Proof. apply (seek_programs_show disk_text 3 3 "f" 1 4 (start O)). simpl. lia. Defined.
