(* ===== verification/Terminal.v ===== *)
(** * Terminal programs

    The programs of src/terminal: a Module each.  [struct termios] is a record;
    how a call stores one in its bytes is a parameter ([Termios]).  Theorems: which
    command lines give a speed; a terminal whose settings were changed gets its old
    ones back; and when the loop that waits for a newline does not see it. *)

From S2P Require Import Prelude CMonad CString Getopt ArgParse OptionPrograms NumberPrograms.
From S2P Require Import Reports Files PipeIO.

(** ** Settings *)

Record termios := TermiosOf {
  c_iflag : Z;
  c_oflag : Z;
  c_cflag : Z;
  c_lflag : Z;
  c_cc : list Z;
}.

Class Termios := {
  termios_of : list byte -> termios;
  ispeed_of : termios -> Z;
  ospeed_of : termios -> Z;
}.

(** The members as arguments of a call. *)
Definition members (t : termios) : list Z :=
  c_iflag t :: c_oflag t :: c_cflag t :: c_lflag t :: c_cc t.

(** [c_cc[i]] *)
Definition cc (t : termios) (i : nat) : Z := nth i (c_cc t) 0.

Definition set_cc (i : nat) (v : Z) (t : termios) : termios :=
  TermiosOf (c_iflag t) (c_oflag t) (c_cflag t) (c_lflag t) (<[i := v]> (c_cc t)).
Definition set_lflag (v : Z) (t : termios) : termios :=
  TermiosOf (c_iflag t) (c_oflag t) (c_cflag t) v (c_cc t).
Definition set_cflag (v : Z) (t : termios) : termios :=
  TermiosOf (c_iflag t) (c_oflag t) v (c_lflag t) (c_cc t).

(** <termios.h>, Linux. *)
Definition TCSANOW : Z := 0.
Definition B9600 : Z := 13.
Definition B38400 : Z := 15.
Definition ICANON : Z := 2.
Definition ECHO : Z := 8.
Definition CREAD : Z := 128.
Definition CLOCAL : Z := 2048.
Definition VTIME : nat := 5.
Definition VMIN : nat := 6.

Section Calls.
Context {W} `{Kernel W} `{Termios}.

Definition tcgetattr (fd : Z) : C W sysret := call "tcgetattr" [] [fd].
Definition tcsetattr (fd : Z) (t : termios) : C W sysret :=
  call "tcsetattr" [] (fd :: TCSANOW :: members t).
(** [cfsetispeed(&t, speed)], [cfsetospeed(&t, speed)]: the settings after it. *)
Definition cfsetspeed (name : string) (t : termios) (speed : Z) : C W sysret :=
  call name [] (speed :: members t).
End Calls.

(** ** Speeds *)

Module Cfsetispeed.
Definition usage {W} : usage_t W := usage_with (fun p =>
  [ "Usage: " +:+ p +:+ " [-h] <speed>";
    "Options:";
    "  -h  Display this help message" ]).

Definition parse_arguments {W} (argv : list string) : C W cstr :=
  '(_, oi) ← while_getopt "h" argv
    (fun opt _ optopt _ =>
       std_cases usage argv opt optopt) tt;
  let optind := Z.of_nat oi in
  die_if usage argv (argc argv <=? optind)
    "The speed is required";;
  die_if usage argv (optind <? argc argv - 1)
    "Too many arguments.";;
  speed ← argv_at argv optind;
  mret speed.

(** [B0], [B50], ..., [B38400]: the codes of the speeds. *)
Definition baud_rates : list Z := [0; 1; 2; 3; 4; 5; 6; 7; 8; 9; 10; 11; 12; 13; 14; 15].

Definition parse_baud_rate {W} (binary_name : cstr) (baud_rate_str : string) : C W Z :=
  set_errno 0;;
  '(parsed_speed, endptr) ← strtoll baud_rate_str;
  e ← get_errno;
  if negb (e =? 0) then fail_usage usage binary_name "Error parsing baud rate."
  else if negb (String.eqb endptr "")
  then fail_usage usage binary_name "Invalid characters in input."
  else if (parsed_speed <? 0) || (B38400 <? parsed_speed)
  then fail_usage usage binary_name "Invalid baud rate."
  else
    let valid_baud_rate := existsb (Z.eqb (to_unsigned 32 parsed_speed)) baud_rates in
    if negb valid_baud_rate then fail_usage usage binary_name "Invalid baud rate."
    else mret (to_unsigned 32 parsed_speed).

Definition handle_arguments {W} (binary_name speed_str : cstr) : C W Z :=
  speed_str ← require usage binary_name speed_str "The speed is required.";
  speed ← parse_baud_rate binary_name speed_str;
  mret speed.

Definition start_up {W} (argv : list string) : C W Z :=
  speed_str ← parse_arguments argv;
  handle_arguments (argv0 argv) speed_str.

Section Program.
Context {W} `{Kernel W} `{Termios}.
Definition show_speed (label : string) (t : termios) : C W unit :=
  out (ln (label +:+ " input baud rate: " +:+ fmt_d (to_signed 32 (ispeed_of t)))).

Definition body (new_input_baud_rate : Z) : C W Z :=
  r ← tcgetattr STDIN_FILENO;
  if negb (r_val r =? 0) then perror_fail "tcgetattr failed" else
  let term := termios_of (r_data r) in
  show_speed "Current" term;;
  r ← cfsetspeed "cfsetispeed" term new_input_baud_rate;
  if negb (r_val r =? 0) then perror_fail "cfsetispeed failed" else
  let term := termios_of (r_data r) in
  r ← tcsetattr STDIN_FILENO term;
  if negb (r_val r =? 0) then perror_fail "tcsetattr failed" else
  show_speed "Updated" term;;
  mret EXIT_SUCCESS.

Definition main (argv : list string) : C W Z := start_up argv ≫= body.
End Program.
End Cfsetispeed.

Module Cfsetospeed.
Definition usage {W} : usage_t W := Cfsetispeed.usage.
Definition parse_arguments {W} : list string -> C W cstr := Cfsetispeed.parse_arguments.
Definition parse_baud_rate {W} : cstr -> string -> C W Z := Cfsetispeed.parse_baud_rate.
Definition handle_arguments {W} : cstr -> cstr -> C W Z := Cfsetispeed.handle_arguments.
Definition start_up {W} : list string -> C W Z := Cfsetispeed.start_up.

Section Program.
Context {W} `{Kernel W} `{Termios}.
Definition body (new_output_baud_rate : Z) : C W Z :=
  r ← tcgetattr STDIN_FILENO;
  if fails r then perror_fail "tcgetattr" else
  let term := termios_of (r_data r) in
  let output_baud_rate := ospeed_of term in
  if output_baud_rate =? UINT_MAX then perror_fail "cfgetospeed" else
  out (ln ("Current output baud rate: " +:+ fmt_u output_baud_rate));;
  r ← cfsetspeed "cfsetospeed" term new_output_baud_rate;
  if fails r then perror_fail "cfsetospeed" else
  let term := termios_of (r_data r) in
  out (ln ("New output baud rate: " +:+ fmt_u new_output_baud_rate));;
  r ← tcsetattr STDIN_FILENO term;
  if fails r then perror_fail "tcsetattr" else
  mret EXIT_SUCCESS.

Definition main (argv : list string) : C W Z := start_up argv ≫= body.
End Program.
End Cfsetospeed.

(** ** What a terminal is *)

(** [ctermid] gives a string, possibly an empty one. *)
Module Ctermid.
Definition main {W} `{Kernel W} : C W Z :=
  r ← call "ctermid" [] [];
  let terminal_name := of_chars (r_data r) in
  (if negb (String.eqb terminal_name "")
   then out (ln ("The current terminal name is: " +:+ terminal_name))
   else out (ln "Failed to get the current terminal name."));;
  mret EXIT_SUCCESS.
End Ctermid.

Module Isatty.
Definition main {W} `{Kernel W} : C W Z :=
  fd ← call "fileno" ["stdin"] [];
  r ← call "isatty" [] [r_val fd];
  (if negb (r_val r =? 0) then out (ln "stdin is a terminal device.")
   else out (ln "stdin is not a terminal device."));;
  mret EXIT_SUCCESS.
End Isatty.

Module TtynameR.
Definition SC_TTY_NAME_MAX : Z := 72.
Definition main {W} `{Kernel W} : C W Z :=
  length ← call "sysconf" [] [SC_TTY_NAME_MAX];
  if fails length then perror_fail "Error getting maximum terminal name length" else
  let max_name_length := to_unsigned 64 (r_val length) in
  let size := to_unsigned 64 (max_name_length + 1) in
  ttyname_buf ← call "calloc" [] [size; 1];
  if fails ttyname_buf
  then perror_fail "Error allocating memory for terminal name buffer" else
  r ← call "ttyname_r" [] [STDIN_FILENO; size];
  (if r_val r =? 0
   then out (ln ("The terminal associated with stdin is: " +:+ of_chars (cstring (r_data r))))
   else perror "stdin is not associated with a terminal");;
  mret EXIT_SUCCESS.
End TtynameR.

(** ** Settings shown and changed *)

Module Tcgetattr.
Section Program.
Context {W} `{Kernel W} `{Termios}.

Definition print_flags (flag_name : string) (flags flag_to_check : Z) : C W unit :=
  if negb (Z.land flags flag_to_check =? 0)
  then out (ln (tab +:+ flag_name +:+ ": Set"))
  else out (ln (tab +:+ flag_name +:+ ": Not Set")).

Definition input_flags : list (string * Z) :=
  [ ("BRKINT", 2); ("ICRNL", 256); ("IGNBRK", 1); ("IGNCR", 128); ("IGNPAR", 4); ("INLCR", 64);
    ("INPCK", 16); ("ISTRIP", 32); ("IXANY", 2048); ("IXOFF", 4096); ("IXON", 1024);
    ("PARMRK", 8) ].
Definition output_flags : list (string * Z) :=
  [ ("OPOST", 1); ("ONLCR", 4); ("OCRNL", 8); ("ONOCR", 16); ("ONLRET", 32); ("OFDEL", 128);
    ("OFILL", 64); ("NLDLY", 256); ("CRDLY", 1536); ("TABDLY", 6144); ("BSDLY", 8192);
    ("VTDLY", 16384); ("FFDLY", 32768) ].
Definition control_flags : list (string * Z) :=
  [ ("CSIZE CS5", 0); ("CSIZE CS6", 16); ("CSIZE CS7", 32); ("CSIZE CS8", 48); ("CSTOPB", 64);
    ("CREAD", CREAD); ("PARENB", 256); ("PARODD", 512); ("HUPCL", 1024); ("CLOCAL", CLOCAL) ].
Definition local_flags : list (string * Z) :=
  [ ("ECHO", ECHO); ("ECHOE", 16); ("ECHOK", 32); ("ECHONL", 64); ("ICANON", ICANON);
    ("IEXTEN", 32768); ("ISIG", 1); ("NOFLSH", 128); ("TOSTOP", 256) ].
(** Name, blanks after the colon, index. *)
Definition control_characters : list (string * nat) :=
  [ ("VEOF:    ", 4%nat); ("VEOL:    ", 11%nat); ("VERASE:  ", 2%nat); ("VINTR:   ", 0%nat);
    ("VKILL:   ", 3%nat); ("VMIN:    ", VMIN); ("VQUIT:   ", 1%nat); ("VSTART:  ", 8%nat);
    ("VSTOP:   ", 9%nat); ("VSUSP:   ", 10%nat); ("VTIME:   ", VTIME) ].

Definition show_flags (title : string) (flags : Z) (names : list (string * Z)) : C W unit :=
  out (ln (title +:+ fmt_X flags));;
  for_each names (fun '(name, flag) => print_flags name flags flag);;
  out nl.

Definition main : C W Z :=
  r ← tcgetattr STDIN_FILENO;
  if fails r then perror_fail "tcgetattr" else
  let term_attr := termios_of (r_data r) in
  out (ln "Terminal attributes:");;
  show_flags "Input flags:  " (c_iflag term_attr) input_flags;;
  show_flags "Output flags: " (c_oflag term_attr) output_flags;;
  show_flags "Control flags: " (c_cflag term_attr) control_flags;;
  show_flags "Local flags: " (c_lflag term_attr) local_flags;;
  out (ln "Control characters:");;
  for_each control_characters (fun '(name, i) => out (ln (name +:+ fmt_d (cc term_attr i))));;
  mret EXIT_SUCCESS.
End Program.
End Tcgetattr.

(** The results of all calls but [tcdrain] are ignored; the message is shown up to
    its first NUL. *)
Module Tcdrain.
Section Program.
Context {W} `{Kernel W} `{Termios}.
Definition MESSAGE_LEN : Z := 256.
Definition main : C W Z :=
  r ← tcgetattr STDOUT_FILENO;
  r ← cfsetspeed "cfsetispeed" (termios_of (r_data r)) B9600;
  r ← cfsetspeed "cfsetospeed" (termios_of (r_data r)) B9600;
  let options := termios_of (r_data r) in
  let options := set_cflag (Z.lor (c_cflag options) (Z.lor CLOCAL CREAD)) options in
  tcsetattr STDOUT_FILENO options;;
  out "Enter your message: ";;
  sys (SFflush STDOUT_FILENO);;
  message ← call "fgets" ["stdin"] [MESSAGE_LEN];
  out (ln ("You wrote: " +:+ of_chars (cstring (r_data message))));;
  sys (SFflush STDOUT_FILENO);;
  r ← call "tcdrain" [] [STDOUT_FILENO];
  if negb (r_val r =? 0) then perror_fail "Error waiting for data to be transmitted" else
  mret EXIT_SUCCESS.
End Program.
End Tcdrain.

(** [read(STDIN_FILENO, &ch, 1)] stores one byte, the lowest, of the [int] [ch],
    whose other bytes are what they were; [junk] is what it holds at the start. *)
Module Tcsetattr.
Section Program.
Context {W} `{Kernel W} `{Termios} (fuel : nat) (junk : Z).

Definition low_byte (ch : Z) (b : byte) : Z :=
  to_signed 32 (Z.lor (Z.land (to_unsigned 32 ch) (UINT_MAX - 255)) (byte_val b)).

(** [if(read(STDIN_FILENO, &ch, 1) == 1)]: the new value of [ch]. *)
Definition read_ch (ch : Z) : C W (Z * bool) :=
  r ← sys (SRead STDIN_FILENO 1);
  match r_data r with
  | b :: _ => mret (low_byte ch b, r_val r =? 1)
  | [] => mret (ch, false)
  end.

Definition put_ch (ch : Z) : string := String (byte_of ch) "".

(** One turn of [while(1)]. *)
Definition rest_turn (ch : Z) : C W (Z + unit) :=
  '(ch, got) ← read_ch ch;
  if got : bool then
    if ch =? 10 then mret (inr tt)
    else out (put_ch ch);; sys (SFflush STDOUT_FILENO);; mret (inl ch)
  else mret (inl ch).

Definition main : C W Z :=
  r ← tcgetattr STDIN_FILENO;
  if negb (r_val r =? 0) then perror_fail "tcgetattr" else
  let original_term := termios_of (r_data r) in
  let term := set_lflag (Z.land (c_lflag original_term) (UINT_MAX - Z.lor ICANON ECHO))
                original_term in
  let term := set_cc VTIME 0 (set_cc VMIN 1 term) in
  r ← tcsetattr STDIN_FILENO term;
  if negb (r_val r =? 0) then perror_fail "tcsetattr" else
  out "Type the first character: ";;
  sys (SFflush STDOUT_FILENO);;
  '(ch, got) ← read_ch junk;
  (if got : bool then out (put_ch ch +:+ nl) else mret tt);;
  r ← tcsetattr STDIN_FILENO original_term;
  if negb (r_val r =? 0) then perror_fail "tcsetattr" else
  out "Type the rest of the characters: ";;
  sys (SFflush STDOUT_FILENO);;
  loop fuel rest_turn ch;;
  out nl;;
  mret EXIT_SUCCESS.
End Program.
End Tcsetattr.

(** ** Speeds on the command line *)

(** An operand that is the code of a speed: not the speed itself. *)
Definition speed_code (str : string) (v : Z) : Prop :=
  signed_denotes str v /\ 0 <= v <= B38400.

Section Speeds.
Context {W : Type}.

Lemma code_is_valid v : 0 <= v <= B38400 ->
  existsb (Z.eqb (to_unsigned 32 v)) Cfsetispeed.baud_rates = true.
Proof.
  unfold B38400. intros Hv. rewrite to_unsigned_small by lia.
  assert (v ∈ seqZ 0 16) as Hin by (apply elem_of_seqZ; lia).
  apply existsb_exists. exists v. split; [by apply list_elem_of_In in Hin|apply Z.eqb_refl].
Qed.

#[local] Opaque Cfsetispeed.baud_rates.

(** The table of the codes adds nothing to the bounds. *)
Lemma parse_baud_rate_signed b str (s : cstate W) :
  Cfsetispeed.parse_baud_rate b str s =
  parse_signed (fail_usage Cfsetispeed.usage b "Error parsing baud rate.")
    (fail_usage Cfsetispeed.usage b "Invalid characters in input.")
    (fail_usage Cfsetispeed.usage b "Invalid baud rate.") 0 B38400 32 str s.
Proof.
  unfold Cfsetispeed.parse_baud_rate, parse_signed, strtoll, strtoimax, strto_call.
  destruct (strtoimax_val str) as [v rest err]. unfold mbind, C_bind, set_errno, get_errno. simpl.
  destruct err as [e|]; simpl; [destruct (negb (e =? 0)); [done|]|];
    (destruct (String.eqb rest ""); [simpl|done]);
    (destruct ((v <? 0) || (B38400 <? v)) eqn:Ev; [done|]);
    apply orb_false_iff in Ev as [E1 E2]; bools;
    (rewrite code_is_valid by lia); simpl;
    unfold B38400 in *; rewrite to_unsigned_small, to_signed_small by lia; done.
Qed.

Lemma parse_baud_rate_val b str (s s' : cstate W) v :
  Cfsetispeed.parse_baud_rate b str s = (Val v, s') <->
  speed_code str v /\ s' = CState 0 (trace s) (world s).
Proof.
  rewrite parse_baud_rate_signed, parse_signed_val;
    [unfold speed_code; tauto|apply usage_noreturn..|done|done|done].
Qed.
End Speeds.

Lemma start_speed : reads_number "h" speed_code (@Cfsetispeed.start_up).
Proof.
  intros W prog args s s' v. eapply (number_val _ _ _ _ _ _ _ _ _ _ speed_code).
  intros. apply parse_baud_rate_val.
Qed.

(** The two programs that set a speed start with [v] exactly when their command
    line is one operand that denotes [v] and [v] is at most 15, the code [B38400]
    of the fastest speed they know: 9600, say, is refused. *)
Theorem speed_programs_take_codes :
  reads_number "h" speed_code (@Cfsetispeed.start_up) /\
  reads_number "h" speed_code (@Cfsetospeed.start_up) /\
  Forall (fun baud => forall W prog (s s' : cstate W) v,
    Cfsetispeed.start_up [prog; fmt_d baud] s <> (Val v, s'))
    [50; 75; 110; 134; 150; 200; 300; 600; 1200; 1800; 2400; 4800; 9600; 19200; 38400].
Proof.
  split_and!; [apply start_speed|apply start_speed|].
  apply Forall_forall. intros baud Hb W prog s s' v E. apply start_speed in E as (str & Hs & [Hd Hv] & _).
  apply strtoimax_denotes in Hd. unfold B38400 in Hv.
  repeat (destruct Hb as [<-|Hb];
    [vm_compute in Hs; injection Hs as <-; vm_compute in Hd; injection Hd as <-; lia|]).
  done.
Qed.

(** ** A variable read one byte at a time *)

Section Bytes.

Lemma low_byte_bits u b : 0 <= u < 2 ^ 32 -> 0 <= b < 256 ->
  Z.lor (Z.land u (UINT_MAX - 255)) b = u / 256 * 256 + b.
Proof.
  intros Hu Hb. change (UINT_MAX - 255) with 4294967040. change 256 with (2 ^ 8) in *.
  set (r := u / 2 ^ 8 * 2 ^ 8 + b).
  assert (r mod 2 ^ 8 = b) as Hm by (unfold r; rewrite Z.add_comm, Z_mod_plus_full; by apply Z.mod_small).
  assert (r / 2 ^ 8 = u / 2 ^ 8) as Hq.
  { unfold r. rewrite Z.div_add_l by done. rewrite (Z.div_small b) by done. lia. }
  apply Z.bits_inj'. intros i Hi. rewrite Z.lor_spec, Z.land_spec.
  destruct (Z_lt_le_dec i 8) as [Hl|Hh].
  - rewrite <- Hm, !Z.mod_pow2_bits_low by lia.
    assert (Z.testbit 4294967040 i = false) as ->.
    { change 4294967040 with (Z.shiftl 16777215 8). by apply Z.shiftl_spec_low. }
    by rewrite andb_false_r.
  - rewrite <- (Z.sub_add 8 i), <- !(Z.div_pow2_bits _ 8) by lia. rewrite Hq.
    rewrite (Z.div_small b), Z.bits_0, orb_false_r by done.
    change (4294967040 / 2 ^ 8) with (Z.ones 24). rewrite <- Z.land_spec, Z.land_ones by lia.
    rewrite Z.mod_small; [done|]. split; [apply Z.div_pos; lia|apply Z.div_lt_upper_bound; lia].
Qed.

Lemma low_byte_unsigned ch b :
  to_unsigned 32 (Tcsetattr.low_byte ch b) = to_unsigned 32 ch / 256 * 256 + byte_val b.
Proof.
  unfold Tcsetattr.low_byte. pose proof (to_unsigned_range 32 ch ltac:(done)) as Hr.
  pose proof (byte_val_range b). rewrite low_byte_bits by done.
  unfold to_signed, to_unsigned at 1. rewrite Zminus_mod_idemp_l, Z.add_simpl_r.
  assert (to_unsigned 32 ch / 256 < 2 ^ 24) by (apply Z.div_lt_upper_bound; lia).
  assert (0 <= to_unsigned 32 ch / 256) by (apply Z.div_pos; lia).
  apply Z.mod_small. lia.
Qed.

(** The byte that was read, and the bytes that were not touched. *)
Lemma put_low_byte ch b : Tcsetattr.put_ch (Tcsetattr.low_byte ch b) = String b "".
Proof.
  unfold Tcsetattr.put_ch. f_equal. rewrite <- (byte_of_val b) at 2. unfold byte_of. do 2 f_equal.
  pose proof (low_byte_unsigned ch b) as E. apply (f_equal (fun x => x mod 2 ^ 8)) in E.
  change 256 with (2 ^ 8) in E. rewrite Z.add_comm, Z_mod_plus_full in E.
  unfold to_unsigned in *. rewrite <- E. symmetry. apply Z.mod_mod_divide. by exists (2 ^ 24).
Qed.

Lemma low_byte_high ch b :
  to_unsigned 32 (Tcsetattr.low_byte ch b) / 256 = to_unsigned 32 ch / 256.
Proof.
  rewrite low_byte_unsigned, Z.div_add_l by done. pose proof (byte_val_range b).
  rewrite (Z.div_small (byte_val b)) by done. lia.
Qed.

(** [ch == '\\n']: the byte is the newline and the others are 0. *)
Lemma low_byte_newline ch b :
  Tcsetattr.low_byte ch b = 10 <-> to_unsigned 32 ch < 256 /\ b = "010"%char.
Proof.
  split.
  - intros E. pose proof (low_byte_unsigned ch b) as Eu. rewrite E in Eu.
    change (to_unsigned 32 10) with 10 in Eu. pose proof (byte_val_range b).
    pose proof (to_unsigned_range 32 ch ltac:(done)).
    assert (to_unsigned 32 ch / 256 = 0 /\ byte_val b = 10) as [Hq Hb] by lia.
    split; [by apply Z.div_small_iff in Hq as [?|?]; lia|].
    by rewrite <- (byte_of_val b), Hb.
  - intros [Hu ->]. pose proof (to_unsigned_range 32 ch ltac:(done)).
    unfold Tcsetattr.low_byte. rewrite low_byte_bits by done. by rewrite Z.div_small by lia.
Qed.
End Bytes.

(** *** The loop that waits for a newline *)

Section Newline.
Context {W} `{Kernel W}.
Implicit Types s : cstate W.

(** With a byte left over above, no turn ends the loop. *)
Lemma turn_goes_on ch s :
  256 <= to_unsigned 32 ch ->
  exists ch' s', Tcsetattr.rest_turn ch s = (Val (inl ch'), s') /\ 256 <= to_unsigned 32 ch'.
Proof.
  intros Hch. unfold Tcsetattr.rest_turn, Tcsetattr.read_ch.
  unfold mbind, C_bind, sys at 1. destruct (kcall _ _) as [r w]. simpl.
  destruct (r_data r) as [|b l]; simpl; [by eauto|].
  assert (256 <= to_unsigned 32 (Tcsetattr.low_byte ch b)) as Hb.
  { rewrite low_byte_unsigned. pose proof (byte_val_range b).
    assert (1 <= to_unsigned 32 ch / 256) by (apply Z.div_le_lower_bound; lia). lia. }
  destruct (r_val r =? 1); simpl; [|by eauto].
  destruct (Z.eqb_spec (Tcsetattr.low_byte ch b) 10) as [E|_]; [apply low_byte_newline in E; lia|].
  unfold sys. simpl. destruct (kcall _ _) as [r' w']. simpl. eauto.
Qed.

Lemma newline_not_seen ch fuel s :
  256 <= to_unsigned 32 ch -> fst (loop fuel Tcsetattr.rest_turn ch s) = NoFuel.
Proof.
  revert ch s. induction fuel as [|fuel IH]; intros ch s Hch; [done|]. simpl.
  destruct (turn_goes_on ch s Hch) as (ch' & s' & E & Hch').
  erewrite bind_val by done. by apply IH.
Qed.

Context `{!ByteSource W STDIN_FILENO}.

(** Reads from a terminal that has something to give do not fail. *)
Definition reads_succeed : Prop := forall (w w' : W) r,
  kcall (SRead STDIN_FILENO 1) w = (r, w') -> stream w <> [] -> r_val r <> -1.

Lemma read_byte ch b l s :
  reads_succeed -> stream (world s) = b :: l ->
  exists s', Tcsetattr.read_ch ch s = (Val (Tcsetattr.low_byte ch b, true), s') /\
    stdout_of (trace s') = stdout_of (trace s) /\ stream (world s') = l.
Proof.
  intros Hr Hs. unfold Tcsetattr.read_ch, mbind, C_bind, sys.
  destruct (kcall (SRead STDIN_FILENO 1) (world s)) as [r w] eqn:Ek.
  destruct (stream_read _ _ _ _ Ek) as [[Hv _]|(k & Hk & Hp & Hd & Hv & Hw)].
  { exfalso. by apply (Hr _ _ _ Ek); [rewrite Hs|]. }
  rewrite Hs in *. assert (k = 1%nat) as -> by (specialize (Hp ltac:(done)); lia).
  simpl in Hd, Hv. rewrite Hd, Hv. eexists. split; [done|]. simpl.
  rewrite stdout_of_app. simpl. rewrite string_app_nil_r. split; [done|]. by rewrite Hw.
Qed.

Lemma turn_shows ch b l s :
  reads_succeed -> stream (world s) = b :: l -> b <> "010"%char ->
  exists s', Tcsetattr.rest_turn ch s = (Val (inl (Tcsetattr.low_byte ch b)), s') /\
    stdout_of (trace s') = stdout_of (trace s) +:+ String b "" /\ stream (world s') = l.
Proof.
  intros Hr Hs Hb. destruct (read_byte ch b l s Hr Hs) as (s1 & E & Ho & Hl).
  unfold Tcsetattr.rest_turn. erewrite bind_val by done. cbv beta iota.
  destruct (Z.eqb_spec (Tcsetattr.low_byte ch b) 10) as [E10|_];
    [by apply low_byte_newline in E10 as [_ ?]|].
  rewrite put_low_byte. unfold mbind, C_bind, out, emit, sys. simpl.
  destruct (kcall (SFflush STDOUT_FILENO) (world s1)) as [r w] eqn:Ek. eexists. split; [done|].
  simpl. rewrite !stdout_of_app, Ho. simpl. rewrite !string_app_nil_r. split; [done|].
  rewrite <- Hl. by eapply (stream_other (SFflush STDOUT_FILENO)).
Qed.

Lemma turn_ends ch l s :
  reads_succeed -> to_unsigned 32 ch < 256 -> stream (world s) = "010"%char :: l ->
  exists s', Tcsetattr.rest_turn ch s = (Val (inr tt), s') /\
    stdout_of (trace s') = stdout_of (trace s) /\ stream (world s') = l.
Proof.
  intros Hr Hch Hs. destruct (read_byte ch _ l s Hr Hs) as (s1 & E & Ho & Hl). exists s1.
  unfold Tcsetattr.rest_turn. erewrite bind_val by done. cbv beta iota.
  by rewrite (proj2 (Z.eqb_eq _ _)) by (by apply low_byte_newline).
Qed.

Lemma newline_seen (line rest : list byte) ch fuel s :
  reads_succeed -> to_unsigned 32 ch < 256 -> "010"%char ∉ line ->
  stream (world s) = line ++ "010"%char :: rest -> (length line < fuel)%nat ->
  exists s', loop fuel Tcsetattr.rest_turn ch s = (Val tt, s') /\
    stdout_of (trace s') = stdout_of (trace s) +:+ of_chars line /\
    stream (world s') = rest.
Proof.
  intros Hr. revert line ch s. induction fuel as [|fuel IH]; intros line ch s Hch Hn Hs Hf; [lia|].
  simpl. destruct line as [|b line].
  - destruct (turn_ends ch _ s Hr Hch Hs) as (s1 & E & Ho & Hl).
    exists s1. erewrite bind_val by done. by rewrite string_app_nil_r.
  - apply not_elem_of_cons in Hn as [Hb Hn].
    destruct (turn_shows ch b _ s Hr Hs) as (s1 & E & Ho & Hl); [done|].
    erewrite bind_val by done. simpl. 
    destruct (IH line (Tcsetattr.low_byte ch b) s1) as (s2 & E2 & Ho2 & Hl2); [|done|done|simpl in Hf; lia|].
    { rewrite low_byte_unsigned, Z.div_small by (pose proof (to_unsigned_range 32 ch ltac:(done)); lia).
      pose proof (byte_val_range b). lia. }
    exists s2. split_and!; [done| |done]. rewrite Ho2, Ho. by rewrite <- string_app_assoc.
Qed.
End Newline.

(** *** The settings *)

(** The settings the program gave its terminal, and whether it took them. *)
Fixpoint settings (t : list event) : list (list Z * bool) :=
  match t with
  | [] => []
  | ESys (SCall name _ (_ :: _ :: given)) r :: t =>
      (if String.eqb name "tcsetattr" then [(given, r_val r =? 0)] else []) ++ settings t
  | _ :: t => settings t
  end.

(** What [tcgetattr] stored. *)
Fixpoint found (t : list event) : list (list byte) :=
  match t with
  | [] => []
  | ESys (SCall name _ _) r :: t =>
      (if String.eqb name "tcgetattr" then [r_data r] else []) ++ found t
  | _ :: t => found t
  end.

Section Settings.
Context {W} `{Kernel W} `{Termios}.

(** The line of a terminal that shows and collects nothing. *)
Definition raw (t : termios) : termios :=
  set_cc VTIME 0 (set_cc VMIN 1
    (set_lflag (Z.land (c_lflag t) (UINT_MAX - Z.lor ICANON ECHO)) t)).

(** What the program does to its terminal: nothing; one setting, refused; or two,
    the second of which gives back the settings it found. *)
Inductive given_back (old : list termios) : list (list Z * bool) -> Z -> Prop :=
| nothing_set : given_back old [] EXIT_FAILURE
| raw_refused t : old = [t] -> given_back old [(members (raw t), false)] EXIT_FAILURE
| settings_back t back : old = [t] ->
    given_back old [(members (raw t), true); (members t, back)]
      (if back then EXIT_SUCCESS else EXIT_FAILURE).

(** [m] does not touch the settings. *)
Definition untouched {A} (m : C W A) : Prop := forall s,
  wlp m (fun _ s' => exists t, trace s' = trace s ++ t /\ settings t = [] /\ found t = [])
    (fun _ _ => False) s.

Lemma settings_app t1 t2 : settings (t1 ++ t2) = settings t1 ++ settings t2.
Proof.
  induction t1 as [|[| | |[] r] t1 IH]; simpl; rewrite ?IH; try done.
  repeat case_match; by rewrite ?IH, <- ?app_assoc.
Qed.

Lemma found_app t1 t2 : found (t1 ++ t2) = found t1 ++ found t2.
Proof.
  induction t1 as [|[| | |[] r] t1 IH]; simpl; rewrite ?IH; try done. by rewrite app_assoc.
Qed.

Lemma untouched_bind {A B} (m : C W A) (f : A -> C W B) :
  untouched m -> (forall a, untouched (f a)) -> untouched (m ≫= f).
Proof.
  intros Hm Hf s. apply wlp_bind. eapply wlp_mono; [apply Hm| |done].
  intros a s1 (t & E & Hs & Ho). eapply wlp_mono; [apply Hf| |done]; simpl.
  intros b s2 (t' & E' & Hs' & Ho'). exists (t ++ t').
  by rewrite E', E, app_assoc, settings_app, found_app, Hs, Ho, Hs', Ho'.
Qed.

Lemma untouched_ret {A} (a : A) : untouched (mret a).
Proof. intros s. exists []. by rewrite app_nil_r. Qed.

Lemma untouched_out t : untouched (out t).
Proof. intros s. by exists [EOut t]. Qed.

Lemma untouched_sys c : (forall r, settings [ESys c r] = []) -> (forall r, found [ESys c r] = []) ->
  untouched (sys c).
Proof. intros Hs Hf s. apply wlp_sys. intros r w e _. by exists [ESys c r]. Qed.

Lemma untouched_loop {S R} fuel (body : S -> C W (S + R)) x :
  (forall x, untouched (body x)) -> untouched (loop fuel body x).
Proof.
  intros Hb. revert x. induction fuel as [|fuel IH]; intros x; simpl; [done|].
  apply untouched_bind; [apply Hb|]. intros [x'|v]; [apply IH|apply untouched_ret].
Qed.

Lemma untouched_read ch : untouched (Tcsetattr.read_ch ch).
Proof.
  apply untouched_bind; [by apply untouched_sys|]. intros r. case_match; apply untouched_ret.
Qed.

Lemma untouched_turn ch : untouched (Tcsetattr.rest_turn ch).
Proof.
  apply untouched_bind; [apply untouched_read|]. intros [c []]; [|apply untouched_ret].
  case_match; [apply untouched_ret|]. apply untouched_bind; [apply untouched_out|intros _].
  apply untouched_bind; [by apply untouched_sys|intros _; apply untouched_ret].
Qed.

(** [m] returns with settings and a status that are in [P]. *)
Definition sets (m : C W Z) (P : list (list byte) -> list (list Z * bool) -> Z -> Prop) : Prop :=
  forall s, wlp m (fun c s' => exists t, trace s' = trace s ++ t /\ P (found t) (settings t) c)
    (fun _ _ => False) s.

Lemma sets_ret c P : P [] [] c -> sets (mret c) P.
Proof. intros Hp s. exists []. by rewrite app_nil_r. Qed.

Lemma sets_untouched {A} (m : C W A) (f : A -> C W Z) P :
  untouched m -> (forall a, sets (f a) P) -> sets (m ≫= f) P.
Proof.
  intros Hm Hf s. apply wlp_bind. eapply wlp_mono; [apply Hm| |done].
  intros a s1 (t & E & Hs & Ho). eapply wlp_mono; [apply Hf| |done]; simpl.
  intros c s2 (t' & E' & Hp). exists (t ++ t').
  by rewrite E', E, app_assoc, settings_app, found_app, Hs, Ho.
Qed.

Lemma sets_sys c0 (f : sysret -> C W Z) P :
  (forall r, sets (f r) (fun o g c => P (found [ESys c0 r] ++ o) (settings [ESys c0 r] ++ g) c)) ->
  sets (sys c0 ≫= f) P.
Proof.
  intros Hf s. apply wlp_bind, wlp_sys. intros r w e _.
  eapply wlp_mono; [apply Hf| |done]; simpl. intros c s2 (t' & E' & Hp).
  exists (ESys c0 r :: t'). rewrite E', <- app_assoc. split; [done|].
  change (ESys c0 r :: t') with ([ESys c0 r] ++ t'). by rewrite settings_app, found_app.
Qed.

Lemma sets_fail msg P : P [] [] EXIT_FAILURE -> sets (perror_fail msg) P.
Proof.
  intros Hp. apply sets_untouched; [|intros _; by apply sets_ret].
  intros s. by exists [EPerror msg (errno s)].
Qed.

Lemma tcsetattr_sets fuel junk :
  sets (Tcsetattr.main fuel junk) (fun found => given_back (termios_of <$> found)).
Proof.
  apply sets_sys. intros r. simpl. case_match; [apply sets_fail; constructor|].
  apply sets_sys. intros r1. simpl. fold (raw (termios_of (r_data r))).
  destruct (r_val r1 =? 0) eqn:E1; simpl; [|apply sets_fail; by constructor].
  apply sets_untouched; [apply untouched_out|intros _].
  apply sets_untouched; [by apply untouched_sys|intros _].
  apply sets_untouched; [apply untouched_read|intros [ch got]].
  apply sets_untouched; [destruct got; [apply untouched_out|apply untouched_ret]|intros _].
  apply sets_sys. intros r2. simpl.
  destruct (r_val r2 =? 0) eqn:E2; simpl; [|apply sets_fail; by apply (settings_back _ _ false)].
  apply sets_untouched; [apply untouched_out|intros _].
  apply sets_untouched; [by apply untouched_sys|intros _].
  apply sets_untouched; [apply untouched_loop, untouched_turn|intros _].
  apply sets_untouched; [apply untouched_out|intros _].
  apply sets_ret. by apply (settings_back _ _ true).
Qed.
End Settings.

(** ** The tcsetattr program *)

(** C27: whatever the kernel does, a run of the program that ends has given its
    terminal the settings it found, after the ones without echo, unless the
    terminal refused. *)
Theorem terminal_is_given_back {W} `{Kernel W} `{Termios} (fuel : nat) (junk : Z)
    (s : cstate W) :
  wlp (Tcsetattr.main fuel junk)
    (fun c s' => exists t, trace s' = trace s ++ t /\
       given_back (termios_of <$> found t) (settings t) c)
    (fun _ _ => False) s.
Proof. apply tcsetattr_sets. Qed.

(** The newline that ends the loop is seen if and only if the bytes of [ch]
    that [read] does not store, and nothing else initialises, are 0: then the
    loop shows the line up to the newline and stops there; otherwise it never
    ends, whatever is typed. *)
Theorem newline_needs_zero_bytes {W} `{ByteSource W STDIN_FILENO} (line rest : list byte)
    (ch : Z) (fuel : nat) (s : cstate W) :
  reads_succeed -> "010"%char ∉ line ->
  stream (world s) = line ++ "010"%char :: rest -> (length line < fuel)%nat ->
  (to_unsigned 32 ch < 256 ->
   exists s', loop fuel Tcsetattr.rest_turn ch s = (Val tt, s') /\
     stdout_of (trace s') = stdout_of (trace s) +:+ of_chars line /\
     stream (world s') = rest) /\
  (256 <= to_unsigned 32 ch ->
   forall turns, fst (loop turns Tcsetattr.rest_turn ch s) = NoFuel).
Proof.
  intros Hr Hn Hs Hf. split; [intros Hch; by apply newline_seen|].
  intros Hch turns. by apply newline_not_seen.
Qed.

(** A keyboard: the keys that will have been pressed. *)
Record keyboard := Keyboard { keys : list byte }.

#[export] Instance keyboard_kernel : Kernel keyboard := fun c w =>
  match c with
  | SRead 0 n => (sys_data (Z.of_nat (length (take n (keys w)))) (take n (keys w)),
                  Keyboard (drop n (keys w)))
  | _ => (sys_ok 0, w)
  end.

#[export] Instance keyboard_source : ByteSource keyboard STDIN_FILENO.
Proof.
  refine {| stream := keys |}.
  - intros w n r w' [= <- <-]. right. exists (S n). simpl. split_and!; [lia|lia|done..].
  - intros [] w r w' Hr Hw E; unfold kcall, keyboard_kernel in E; simplify_eq; try done.
    destruct fd; simplify_eq; try done. by destruct (Hr count).
Defined.

Lemma newline_needs_zero_bytes_witness :
  reads_succeed (W:=keyboard) /\
  exists s', loop 3 Tcsetattr.rest_turn 0 (start (Keyboard (chars "hi" ++ ["010"%char]))) =
      (Val tt, s') /\ stdout_of (trace s') = "hi" /\ stream (world s') = [].
Proof.
  assert (reads_succeed (W:=keyboard)) as Hr.
  { intros w w' r [= <- <-] _. simpl. lia. }
  split; [exact Hr|].
  apply (newline_needs_zero_bytes (chars "hi") [] 0 3 (start (Keyboard (chars "hi" ++ ["010"%char]))) Hr);
    [|reflexivity|simpl; lia|reflexivity].
  intros Hin. by repeat (apply elem_of_cons in Hin as [[=]|Hin]); apply elem_of_nil in Hin.
Defined.
