(* ===== verification/MainPrograms.v ===== *)
(** * Programs that check what their calls return

    The programs of the previous files that end at the first call that fails, from
    [main] to exit: each refuses a command line it does not take before any call,
    and otherwise succeeds when none of the calls it checks failed, or reports the
    failure and fails.  Those that work on descriptors close every one they
    opened, however they end. *)

From S2P Require Import Prelude CMonad CString Getopt ArgParse.
From S2P Require Import OneOperand OptionPrograms Words Servers Sockets Reports.
From S2P Require Import FileSystem Files Identity SystemInfo Streams Values Terminal Objects.
From S2P Require Import Mutex IpcPrograms ThreadMains.

(** ** A command line and a program behind it *)

Section Handles.
Context {W} `{Kernel W}.

(** The end of a run: the command line was refused, with diagnostics and nothing else,
    or the program kept to [verdict]. *)
Definition handles (checked : syscall -> sysret -> bool) (m : C W Z) : Prop := forall s,
  wlp m (fun c s' => exists t, trace s' = trace s ++ t /\ verdict checked t c)
    (fun c s' => exists t, trace s' = trace s ++ t /\
       (verdict checked t c \/
        Forall is_diagnostic t /\ t <> [] /\ (c = EXIT_SUCCESS \/ c = EXIT_FAILURE))) s.

Lemma reports_handles checked m : reports checked m -> handles checked m.
Proof.
  intros Hm s. eapply wlp_mono; [apply Hm|done|]. simpl. intros c s' (t & E & Hv). eauto.
Qed.

Lemma diagnostics_fine checked t : Forall is_diagnostic t -> Forall (fine checked) t.
Proof. apply Forall_impl. by intros []. Qed.

Lemma front_handles {A} checked (su : C W A) (G : A -> Prop) (body : A -> C W Z) :
  front su G -> (forall a, reports checked (body a)) -> handles checked (su ≫= body).
Proof.
  intros Hsu Hb s. destruct (Hsu s) as (t & Ht & E & _ & Hr). apply wlp_bind. unfold wlp at 1.
  destruct (su s) as [[a|c|u|] s1]; simpl in *; [|by eauto 6|done..].
  eapply wlp_mono; [apply Hb|..]; simpl; intros c s2 (t2 & E2 & Hv); exists (t ++ t2);
    rewrite E2, E, app_assoc; (split; [done|]); [|left];
    (apply verdict_app; [by apply diagnostics_fine|done]).
Qed.

Lemma front_option P prog args :
  P ∈ option_programs -> front (ArgParse.start_up P W (prog :: args)) (fun _ => True).
Proof.
  intros Hp. eapply front_weaken; [|done].
  destruct (list_elem_of_lookup_1 _ _ Hp) as [i Hi]. by eapply well_behaved_front, (option_program i).
Qed.

End Handles.

(** ** The programs *)

(** A program: its source, whether it has a loop whose end depends on what calls
    return, the results of calls it treats as failures, its [main]. *)
Record reporting_program W := ReportingProgram {
  rp_source : string;
  rp_loops : bool;
  rp_checked : syscall -> sysret -> bool;
  rp_main : list string -> C W Z;
}.
Arguments ReportingProgram {W} _ _ _ _.
Arguments rp_source {W} _.
Arguments rp_loops {W} _.
Arguments rp_checked {W} _.
Arguments rp_main {W} _.

(** What a new block of [n] cells holds. *)
Definition block {A} (cell : nat -> A) (n : nat) : list A := cell <$> seq 0 n.

Section Programs.
Context {W} `{Kernel W} `{Structs} `{ErrorTexts} `{Termios} `{Walks}.
(** The turns a loop gets, what new memory holds, the bytes of [ch], and how a wait
    status is stored. *)
Context (fuel : nat) (cells : nat -> byte) (ints : nat -> Z) (ch : Z)
  (status_of : list byte -> Z).

Local Abbreviation plain path names m :=
  (ReportingProgram path false (failing names [] []) m).
Local Abbreviation looping path ck m := (ReportingProgram path true ck m).
Local Abbreviation alone m := (fun _ : list string => m).

Definition file_system_programs : list (reporting_program W) :=
  [ plain "file-system/access/main.c" [] Access.main;
    looping "file-system/chdir/main.c" (failing_but "getcwd" ERANGE ["malloc"; "chdir"])
      (Chdir.main fuel);
    plain "file-system/chmod/main.c" ["fopen"; "stat"; "chmod"; "unlink"] (alone Chmod.main);
    plain "file-system/chown/main.c" ["chown"] Chown.main;
    looping "file-system/getcwd/main.c" (failing_but "getcwd" ERANGE ["malloc"])
      (alone (Getcwd.main fuel));
    plain "file-system/link/main.c" ["link"; "unlink"] (alone Link.main);
    plain "file-system/lstat/main.c" ["symlink"; "lstat"; "stat"; "unlink"] Lstat.main;
    plain "file-system/mkdir-rmdir/main.c" ["mkdir"; "rmdir"] (alone MkdirRmdir.main);
    plain "file-system/mkdtemp/main.c" ["mkdtemp"; "rmdir"] (alone Mkdtemp.main);
    plain "file-system/opendir-closedir/main.c" ["opendir"; "closedir"] OpendirClosedir.main;
    looping "file-system/readdir/main.c" (failing ["opendir"; "closedir"] [] []) (Readdir.main fuel);
    plain "file-system/rename/main.c" ["rename"; "unlink"] (alone Rename.main);
    plain "file-system/stat/main.c" ["stat"] Stat.main;
    plain "file-system/symlink/main.c" ["fopen"; "symlink"; "unlink"] (alone Symlink.main);
    plain "file-system/truncate/main.c" ["truncate"; "unlink"] (alone Truncate.main);
    ReportingProgram "file-system/umask/main.c" false (failing ["fopen"; "unlink"] ["fprintf"] [])
      (alone Umask.main) ].

Definition descriptor_programs : list (reporting_program W) :=
  [ plain "files/dup/main.c" ["dup"; "close"; "dprintf"] (alone Dup.main);
    looping "files/fdopen/main.c" (failing ["open"; "fdopen"; "fclose"] [] []) (Fdopen.main fuel);
    plain "files/fstat/main.c" ["open"; "fstat"; "close"] Fstat.main;
    plain "files/ftruncate/main.c" ["mkstemp"; "ftruncate"; "close"; "unlink"]
      (alone Ftruncate.main);
    looping "files/lseek/main.c" (failing ["open"] [] []) (Lseek.main fuel);
    plain "files/mkstemp/main.c" ["mkstemp"; "unlink"] (alone Mkstemp.main);
    plain "files/open-close/main.c" ["open"; "close"] OpenClose.main;
    ReportingProgram "files/sync/main.c" false (failing ["mkstemp"; "close"; "unlink"] ["dprintf"] [])
      (alone (Sync.main));
    plain "files/S_IS/main.c" ["stat"] FileTypes.main ].

Definition process_programs : list (reporting_program W) :=
  [ plain "users/setuid/main.c" ["setuid"] Setuid.main;
    plain "users/seteuid/main.c" ["seteuid"] Seteuid.main;
    plain "users/setreuid/main.c" ["setreuid"] Setreuid.main;
    plain "groups/setgid/main.c" ["setgid"] Setgid.main;
    plain "groups/setegid/main.c" ["setegid"] Setegid.main;
    plain "groups/setregid/main.c" ["setregid"] Setregid.main;
    plain "process/fork/main.c" ["fork"] Fork.main;
    plain "process/exec/main.c" ["execl"] (alone Exec.main);
    plain "process/wait/main.c" ["fork"; "waitpid"] (alone (Wait.main status_of));
    plain "process/waitpid/main.c" ["fork"; "waitpid"] (alone Waitpid.main);
    plain "process-groups/getpgid/main.c" ["getpgid"] (alone Getpgid.main);
    plain "process-groups/getsid/main.c" ["getsid"] (alone Getsid.main);
    ReportingProgram "process-groups/setpgid/main.c" false (failing ["setpgid"] ["fork"] [])
      (alone Setpgid.main);
    ReportingProgram "process-groups/setsid/main.c" false (failing ["setsid"] ["fork"] [])
      (alone Setsid.main);
    plain "process-groups/tcgetpgrp/main.c" ["open"; "tcgetpgrp"] (alone Tcgetpgrp.main);
    plain "process-groups/tcgetsid/main.c" ["tcgetsid"] (alone Tcgetsid.main);
    ReportingProgram "process-groups/tcsetpgrp/main.c" false
      (failing ["open"; "setsid"; "setpgid"] ["fork"] []) (alone Tcsetpgrp.main);
    looping "sleep/nanosleep/main.c" (failing_but "nanosleep" EINTR [])
      (Nanosleep.main fuel);
    plain "system-information/gettimeofday/main.c" ["gettimeofday"] (alone Gettimeofday.main);
    ReportingProgram "system-information/gethostname/main.c" false (name_failing "gethostname")
      (alone Gethostname.main);
    ReportingProgram "system-information/getlogin_r/main.c" false (name_failing "getlogin_r")
      (alone Getlogin.main);
    ReportingProgram "time/gmtime/main.c" false (time_failing ["time"; "gmtime"]) (alone Gmtime.main);
    ReportingProgram "time/time-localtime_r-strftime/main.c" false
      (time_failing ["time"; "localtime_r"]) (alone Localtime.main);
    plain "time/difftime/main.c" ["time"] Difftime.main;
    plain "time/mktime/main.c" ["mktime"] (alone Mktime.main);
    plain "time/strptime/main.c" ["strptime"; "mktime"] (alone Strptime.main) ].

Definition stream_programs : list (reporting_program W) :=
  [ ReportingProgram "streams/fopen-fclose/main.c" false (failing ["fopen"] [] ["fclose"])
      FopenFclose.main;
    plain "streams/ferror/main.c" ["fopen"] Ferror.main;
    looping "streams/fseek/main.c" (failing ["fopen"] [] []) (Fseek.main fuel);
    looping "streams/fseeko/main.c" (failing ["fopen"] [] []) (Fseeko.main fuel);
    plain "streams/tmpfile/main.c" ["tmpfile"; "fclose"] (alone Tmpfile.main);
    ReportingProgram "streams/setvbuf/main.c" false (failing [] [] ["setvbuf"]) (alone Setvbuf.main);
    looping "shell/popen-pclose/main.c" (failing ["malloc"; "popen"; "pclose"] [] []) (Popen.main fuel (block cells));
    plain "shell/system/main.c" ["system"] System.main;
    plain "memory/calloc/main.c" ["calloc"] (alone Calloc.main);
    plain "memory/malloc-free/main.c" ["malloc"] (alone (MallocFree.main (block ints)));
    plain "memory/memset/main.c" ["malloc"] (alone (Memset.main (block ints)));
    plain "memory/realloc/main.c" ["malloc"] (alone (Realloc.main (block ints))) ].

Definition terminal_programs : list (reporting_program W) :=
  [ ReportingProgram "terminal/cfgetispeed-cfsetispeed/main.c" false
      (failing [] [] ["tcgetattr"; "cfsetispeed"; "tcsetattr"]) Cfsetispeed.main;
    plain "terminal/tcgetattr/main.c" ["tcgetattr"] (alone Tcgetattr.main);
    ReportingProgram "terminal/tcdrain/main.c" false (failing [] [] ["tcdrain"]) (alone Tcdrain.main);
    looping "terminal/tcsetattr/main.c" (failing [] [] ["tcgetattr"; "tcsetattr"])
      (alone (Tcsetattr.main fuel ch));
    plain "terminal/ttyname_r/main.c" ["sysconf"; "calloc"] (alone TtynameR.main) ].

Definition object_programs : list (reporting_program W) :=
  [ ReportingProgram "dynamic-libraries/dlopen-dlclose-dlerror/main.c" false
      (failing ["dlopen"] [] ["dlclose"]) DlopenDlclose.main;
    plain "shared-memory/shm_open-shm_unlink/main.c" ["shm_open"; "shm_unlink"] ShmOpen.main;
    plain "semaphores/sem_open-sem_close-sem_unlink/main.c" ["sem_open"; "sem_close"; "sem_unlink"]
      (alone SemOpen.main) ].

Definition thread_programs : list (reporting_program W) :=
  [ ReportingProgram "pthread-mutex/pthread_mutex_init-pthread_mutex_destroy/main.c" false
      (failing [] [] ["pthread_mutex_init"]) (alone MutexInit.main);
    ReportingProgram "pthread-condition/pthread_cond_init-pthread_cond_destroy/main.c" false
      (failing [] [] ["pthread_cond_init"; "pthread_cond_destroy"]) (alone CondInit.main);
    ReportingProgram "pthread-mutex/pthread_mutex_lock-pthread_mutex_unlock/main.c" false
      (failing [] [] ["pthread_mutex_init"; "pthread_create"]) MutexMain.main;
    ReportingProgram "pthread-mutex/pthread_mutex_trylock/main.c" false
      (failing [] [] ["pthread_mutex_init"; "pthread_create"]) (alone TrylockMain.main);
    ReportingProgram "pthread-condition/pthread_cond_wait-pthread_cond_signal/main.c" false
      (failing [] [] ["pthread_create"; "pthread_join"]) CondWaitMain.main;
    ReportingProgram "semaphores/sem_post-sem_wait/main.c" false
      (failing ["sem_open"; "sem_wait"; "wait"; "sem_unlink"] ["fork"] []) (alone SemPost.main);
    looping "shared-memory/mmap-munmap/server.c"
      (failing ["sysconf"; "shm_open"; "mmap"; "sem_open"] [] []) (alone (ShmServer.main fuel)) ].
End Programs.

(** ** Proofs *)

Lemma front_speed {W} prog args :
  front (Cfsetispeed.start_up (prog :: args) : C W Z) (fun _ => True).
Proof.
  eapply (starts_front (asks_help "h" args) (help_text (fun _ => Cfsetispeed.usage) prog)).
  eassert (help_text _ prog = usage_events _ prog None) as -> by apply help_text_usage.
  eapply starts_bind.
  - instantiate (1 := from_args args). repeat front_step.
  - intros p Hp. eapply starts_bind; [by apply (starts_require_spec _ _ _ _ args)|].
    intros str Hs. eapply starts_bind with (P := fun _ => True); [|intros v _; by apply starts_ret].
    intros s. rewrite parse_baud_rate_signed. revert s.
    change (starts (asks_help "h" args) (help_text (fun _ => Cfsetispeed.usage) prog)
      (parse_signed (fail_usage Cfsetispeed.usage (Some prog) "Error parsing baud rate.")
      (fail_usage Cfsetispeed.usage (Some prog) "Invalid characters in input.")
      (fail_usage Cfsetispeed.usage (Some prog) "Invalid baud rate.") 0 B38400 32 str : C W Z)
      (fun _ => True)).
    eapply starts_weaken; [|done]. apply (starts_parse_signed_spec _ _ _ _ _ _ _ _ args); [done|..];
      [by apply starts_usage..|done|done|done].
Qed.

(** The command line of a program is that of one of the lists. *)
Ltac option_entry su :=
  let l := eval unfold option_programs in option_programs in
  match l with
  | context [ArgParse.Program ?n ?o ?u ?A (fun W => su W) ?g ?e] =>
      constr:(ArgParse.Program n o u A (fun W => su W) g e)
  end.

Ltac front_of_main :=
  lazymatch goal with
  | |- front (start_with _ _ (?p :: ?args)) _ =>
      by apply (takes_one_front (fun W => start_with _ _) p args), start_takes_one_operand
  | |- front (Cfsetispeed.start_up _) _ => apply front_speed
  | |- front (?su _ (?p :: ?args)) _ =>
      let P := option_entry su in
      apply (front_option P p args);
      repeat first [apply list_elem_of_here | apply list_elem_of_further]
  end.

Section Bodies.
Context {W} `{Kernel W} `{Structs} `{ErrorTexts} `{Termios} `{Walks}.
Context (fuel : nat) (cells : nat -> byte) (ints : nat -> Z) (ch : Z).

Ltac solve_reports := repeat reports_step.

Lemma length_block {A} (cell : nat -> A) n : length (block cell n) = n.
Proof. unfold block. by rewrite length_fmap, length_seq. Qed.

Lemma fopen_fclose_reports p : reports (failing ["fopen"] [] ["fclose"]) (FopenFclose.body p).
Proof. solve_reports. apply ends_get_errno_text. intros e. solve_reports. Qed.
Lemma ferror_reports p : reports (failing ["fopen"] [] []) (Ferror.body p).
Proof. solve_reports. Qed.
Lemma fseek_reports a : reports (failing ["fopen"] [] []) (Fseek.body fuel a).
Proof. solve_reports. Qed.
Lemma fseeko_reports a : reports (failing ["fopen"] [] []) (Fseeko.body fuel a).
Proof. solve_reports. Qed.
Lemma tmpfile_reports : reports (failing ["tmpfile"; "fclose"] [] []) Tmpfile.main.
Proof. solve_reports. Qed.
Lemma setvbuf_reports : reports (failing [] [] ["setvbuf"]) Setvbuf.main.
Proof. solve_reports. Qed.
Lemma part_val {A} ck (m : C W A) :
  (forall s, exists a, m s = (Val a, s)) -> part ck m (fun _ => True).
Proof.
  intros Hm. apply part_event. intros s. destruct (Hm s) as [a E]. exists a, None, (errno s).
  simpl. rewrite app_nil_r. by destruct s.
Qed.

Lemma popen_reports p :
  reports (failing ["malloc"; "popen"; "pclose"] [] []) (Popen.body fuel (block cells) p).
Proof.
  unfold Popen.body. cbv zeta. apply reports_sys_bind; intros r Hr; checked_call Hr; [|solve_reports].
  eapply reports_bind; [|intros c _; solve_reports].
  apply part_val. intros s. eexists. apply redirected_array, length_block.
Qed.
Lemma system_reports p : reports (failing ["system"] [] []) (System.body p).
Proof. solve_reports. Qed.
Lemma calloc_reports : reports (failing ["calloc"] [] []) Calloc.main.
Proof. solve_reports. Qed.
Lemma part_print_ints ck l : part ck (print_ints l : C W unit) (fun _ => True).
Proof.
  unfold print_ints. eapply part_bind; [|intros _ _; apply part_out].
  apply part_for_each, Forall_true. intros x. apply part_out.
Qed.
Hint Resolve part_print_ints : reports.

Lemma malloc_free_reports : reports (failing ["malloc"] [] []) (MallocFree.main (block ints)).
Proof. solve_reports. Qed.

Lemma memset_reports : reports (failing ["malloc"] [] []) (Memset.main (block ints)).
Proof. solve_reports. Qed.

(** The elements that are set are inside the array. *)
Lemma initialize_fits n i from (array : list Z) (s : cstate W) :
  (from + i + n <= length array)%nat ->
  exists a, Realloc.initialize_from n i from array s = (Val a, s) /\ length a = length array.
Proof.
  revert i array. induction n as [|n IH]; intros i array Hl; simpl; [by exists array|].
  destruct (IH (S i) (<[(from + i)%nat := Z.of_nat i + 1]> array)) as (a & E & Ha);
    [rewrite length_insert; lia|].
  exists a. rewrite length_insert in Ha. split; [|done].
  erewrite bind_val by (apply array_set_ok; lia). done.
Qed.

Lemma part_initialize ck (array : list Z) from n :
  (from + n <= length array)%nat ->
  part ck (Realloc.initialize_array array from n : C W (list Z)) (fun a => length a = length array).
Proof.
  intros Hl. apply part_event. intros s.
  destruct (initialize_fits n 0 from array s) as (a & E & Ha); [lia|].
  exists a, None, (errno s). simpl. rewrite app_nil_r. by destruct s.
Qed.

Lemma realloc_reports : reports (failing ["malloc"] [] []) (Realloc.main (block ints)).
Proof.
  unfold Realloc.main, malloc_ints. cbv zeta.
  apply reports_assoc, reports_sys_bind; intros r Hr; checked_call Hr; [|solve_reports].
  reports_step.
  eapply reports_bind; [apply part_initialize; by rewrite length_block|]. intros a Ha.
  rewrite length_block in Ha.
  apply reports_bind with (P := fun _ => True); [|intros _ _].
  { eapply part_bind; [apply part_out|intros _ _]. apply part_print_ints. }
  apply reports_bind with (P := fun a => length a = (Realloc.NUM_ELEMENTS * 2)%nat).
  { unfold Realloc.resize_array. apply part_sys_bind; intros q Hq; checked_call Hq; [|solve_reports].
    apply part_ret. rewrite length_app, length_drop, length_block, Ha. done. }
  intros b Hb. eapply reports_bind; [by apply part_initialize; rewrite Hb|]. intros c _.
  solve_reports.
Qed.

Lemma cfsetispeed_reports a :
  reports (failing [] [] ["tcgetattr"; "cfsetispeed"; "tcsetattr"]) (Cfsetispeed.body a).
Proof. solve_reports. Qed.
Lemma tcgetattr_reports : reports (failing ["tcgetattr"] [] []) Tcgetattr.main.
Proof. solve_reports. Qed.
Lemma tcdrain_reports : reports (failing [] [] ["tcdrain"]) Tcdrain.main.
Proof. solve_reports. Qed.
Lemma tcsetattr_reports :
  reports (failing [] [] ["tcgetattr"; "tcsetattr"]) (Tcsetattr.main fuel ch).
Proof. solve_reports. Qed.
Lemma ttyname_reports : reports (failing ["sysconf"; "calloc"] [] []) TtynameR.main.
Proof. solve_reports. Qed.
End Bodies.

(** ** The theorems *)

#[local] Create HintDb program.
#[local] Hint Resolve access_reports chmod_reports chown_reports link_reports symlink_reports
  rename_reports lstat_reports mkdir_reports mkdtemp_reports opendir_reports stat_reports
  truncate_reports readdir_reports umask_reports getcwd_reports chdir_reports : program.
#[local] Hint Resolve dup_reports fdopen_reports fstat_reports ftruncate_reports lseek_reports
  mkstemp_reports open_close_reports sync_reports file_types_reports : program.
#[local] Hint Resolve setuid_reports seteuid_reports setreuid_reports setgid_reports
  setegid_reports setregid_reports fork_reports exec_reports wait_reports waitpid_reports
  getpgid_reports getsid_reports setpgid_reports setsid_reports tcgetpgrp_reports
  tcgetsid_reports tcsetpgrp_reports nanosleep_reports gettimeofday_reports
  gethostname_reports getlogin_reports gmtime_reports localtime_reports
  difftime_reports mktime_reports strptime_reports dlopen_reports shm_open_reports
  sem_open_reports : program.
#[local] Hint Resolve fopen_fclose_reports ferror_reports fseek_reports fseeko_reports
  tmpfile_reports setvbuf_reports popen_reports system_reports calloc_reports
  malloc_free_reports memset_reports realloc_reports cfsetispeed_reports tcgetattr_reports
  tcdrain_reports tcsetattr_reports ttyname_reports : program.

#[local] Hint Resolve mutex_init_reports cond_init_reports mutex_main_reports trylock_main_reports
  cond_wait_main_reports sem_post_reports shm_server_reports : program.

#[local] Create HintDb closing.
#[local] Hint Resolve fcntl_closes fstat_closes ftruncate_closes lseek_closes mkstemp_closes
  open_close_closes sync_closes dup2_closes tcgetpgrp_closes tcsetpgrp_closes dlopen_closes
  shm_open_closes sem_open_closes sem_post_closes sem_trywait_closes dlsym_lib1_closes dlsym_lib2_closes : closing.

(** A [main] without a command line, or one behind it. *)
Ltac main_handles :=
  first
    [ apply reports_handles; solve [eauto 2 with program nocore]
    | eapply front_handles; [front_of_main|intros ?; solve [eauto 2 with program nocore]] ].

(** A program without such a loop comes to an end. *)
Ltac main_ends :=
  first
    [ solve [repeat fueled_step]
    | apply fueled_bind; [eapply front_fueled; front_of_main|intros ?; solve [repeat fueled_step]] ].

Section Lists.
Context {W} `{Kernel W} `{Structs} `{ErrorTexts} `{Termios} `{Walks}.
Context (fuel : nat) (cells : nat -> byte) (ints : nat -> Z) (ch : Z)
  (status_of : list byte -> Z).

Definition handled (P : reporting_program W) : Prop := forall prog args,
  handles (rp_checked P) (rp_main P (prog :: args)) /\
  (rp_loops P = false -> fueled (rp_main P (prog :: args))).

Ltac all_handled :=
  repeat first [apply Forall_nil_2 | apply Forall_cons_2];
    intros prog args; cbn [rp_main rp_checked rp_loops];
    (split; [main_handles|let Hl := fresh in intros Hl; first [discriminate Hl|clear Hl; main_ends]]).

Lemma file_system_programs_handled : Forall handled (file_system_programs fuel).
Proof. all_handled. Qed.
Lemma descriptor_programs_handled : Forall handled (descriptor_programs fuel).
Proof. all_handled. Qed.
Lemma process_programs_handled : Forall handled (process_programs fuel status_of).
Proof. all_handled. Qed.
Lemma stream_programs_handled : Forall handled (stream_programs fuel cells ints).
Proof. all_handled. Qed.
Lemma terminal_programs_handled : Forall handled (terminal_programs fuel ch).
Proof. all_handled. Qed.
Lemma object_programs_handled : Forall handled object_programs.
Proof. all_handled. Qed.
Lemma thread_programs_handled : Forall handled (thread_programs fuel).
Proof. all_handled. Qed.
End Lists.

(** C25: from [main] to exit, on every command line and for every kernel: each of
    these programs refuses its command line with diagnostics on [stderr] only and
    before any call, or runs until a call it checks fails, reports that and fails
    after nothing but releasing what it holds, or, when none of them failed,
    succeeds.  Those without a loop that waits for results come to an end. *)
Theorem programs_report_failures {W} `{Kernel W} `{Structs} `{ErrorTexts} `{Termios} `{Walks}
    (fuel : nat) (cells : nat -> byte) (ints : nat -> Z) (ch : Z) (status_of : list byte -> Z) :
  Forall handled
    (file_system_programs fuel ++ descriptor_programs fuel ++ process_programs fuel status_of ++
     stream_programs fuel cells ints ++ terminal_programs fuel ch ++ object_programs ++
     thread_programs fuel).
Proof.
  rewrite !Forall_app. split_and!;
    [apply file_system_programs_handled|apply descriptor_programs_handled
    |apply process_programs_handled|apply stream_programs_handled
    |apply terminal_programs_handled|apply object_programs_handled
    |apply thread_programs_handled].
Qed.

(** C26: each of these programs gives back every descriptor, library and semaphore it
    got, once, however it ends; dlsym does so with either of the libraries. *)
Theorem descriptor_programs_close {W} `{Kernel W} `{Structs} `{Walks} (fuel : nat) (prog : string)
    (args : list string) :
  Forall (closes (W:=W) (A:=Z) [])
    [ Fcntl.main (prog :: args); Fstat.main (prog :: args); Ftruncate.main;
      Lseek.main fuel (prog :: args); Mkstemp.main; OpenClose.main (prog :: args);
      Sync.main; Dup2.main; Tcgetpgrp.main; Tcsetpgrp.main; DlopenDlclose.main (prog :: args);
      Dlsym.main (fun _ => Testlib1.display) (prog :: args);
      Dlsym.main (fun _ => Testlib2.display) (prog :: args); ShmOpen.main (prog :: args);
      SemOpen.main; SemPost.main; SemTrywait.main fuel ].
Proof.
  repeat first [apply Forall_nil_2 | apply Forall_cons_2];
    first [ solve [eauto 2 with closing nocore]
          | eapply front_closes; [front_of_main|intros ?; solve [eauto 2 with closing nocore]] ].
Qed.
